(* ===== verification/_CoqProject ===== *)
-Q . S2P
Prelude.v
Layout.v
Memory.v
CString.v
Heap.v
Slab.v
Machine.v
Log.v
LogOverflow.v
Gic.v
Kernel.v
HeapRegions.v
Paging.v
Job.v
AddressSpace.v
Sched.v
Elf.v
ElfLoad.v
Virtio.v
Fat.v
FatPart.v
Disk.v
Fs.v
RamFs.v
FatFs.v
Exceptions.v
LoadProgram.v
NewJob.v
ReadCall.v
Start.v
System.v
User.v
