(* ===== verification/Prelude.v ===== *)
(** * A verified model of armv8aarch64

    armv8aarch64 is a small kernel for AArch64: a first-fit heap, slabs, page tables, a round-robin
    scheduler driven by the timer interrupt, system calls, an ELF loader, a virtio disk with a
    FAT16 reader, files in memory and a log on the UART.  This library translates the C of the
    kernel into Gallina, function by function, and proves what the functions do.

    ** State and effects

    Everything is in one state and error monad (this file): [M St A] is [St -> result St A], where
    a result is a value with the new state ([Ok]), a run that goes on forever ([Hang]) or undefined
    behaviour ([Fault]): an access outside mapped memory, a read of a byte nobody has written, a
    signed overflow, a bad shift, a division by zero, a call through a pointer to nothing.
    [wp m s Q] is total correctness: [m] ends without a fault and [Q] holds.  Fixed-width integers
    are integers with their conversions ([u8] .. [u64], [i32]); [int_of] is signed arithmetic.

    - Memory.v: a map from addresses to bytes, little-endian words, the arrays of a call.
    - Machine.v: that memory, the system registers and a trace of the events a device or the MMU
      can see; what devices answer is an arbitrary [environment].
    - Layout.v: the sizes and offsets of C structs; every offset used by a model is checked
      against the declaration of the struct.
    - Kernel.v: the machine, the kernel heap and the interrupt handlers ([kernel]); Job.v adds the
      statics of job.c and paging.c ([system]), Fs.v those of fs.c ([vfs]), Exceptions.v joins them
      ([os]).  [zoom] runs an operation of a part on the whole.

    ** Parts, and the code they model (paths under src/)

    - CString.v: kernel/string.c, kernel/math.c.
    - Heap.v: kernel/alloc/heap.c.  Specification: a list of free blocks and used regions.
    - Slab.v: kernel/alloc/slab.c.  Specification: the set of slots in use.
    - Log.v: kernel/log.c, kernel/uart.c, kernel/timer/timer.c.  Specification: a pure formatter.
      LogOverflow.v: the lines that do not fit.
    - Gic.v: kernel/gic/gic.c.  Specification of the handler tables: a map.
    - Kernel.v: kernel/sysutils.c and setup_heap of kernel/start.c; HeapRegions.v: the memory that
      [kalloc] hands out.  Specification: a map from live pointers to sizes ([HeapRegions]).
    - Paging.v: kernel/mm/paging.c.  Specification: the translation table walk of the architecture.
    - Job.v: kernel/mp/job.c.  Specification: the ring as a list, current job first ([job_inv]).
    - AddressSpace.v: job_create_paging.  Specification: the translation a job sees ([space_map]).
    - Sched.v: kernel/mp/sched.c, the jump to user mode of kernel/sysutils.c, and the frame that
      kernel/exceptions.asm pushes and pops.
    - Elf.v: kernel/elf/elf.c, kernel/elf/filebuffer.c; ElfLoad.v: elf_alloc_and_parse as a whole.
      Specification: a well-formed file ([elf_image]) and the struct with its tables ([parsed]).
    - Virtio.v: kernel/device/virtioblk.c, kernel/device/block.c.
    - Fat.v: kernel/fs/fat.c over an interface that reads sectors ([SectorReader]).
    - Disk.v: what the virtio device does with a request ([VirtioDevice], after its specification),
      and the proof that the driver then is a [SectorReader].
    - FatPart.v: the file calls of kernel/fs/fat.c on a mounted partition; a buffer of the kernel
      that reads sectors ([ReaderBuffer]) and the frame of everything a FAT operation changes.
    - Fs.v, RamFs.v, FatFs.v: kernel/fs/fs.c, kernel/fs/ram_fs.c, kernel/fs/fat_fs.c.
    - Exceptions.v: kernel/exceptions/exceptions.c and job_create_from_file of kernel/mp/job.c.
    - LoadProgram.v, NewJob.v: what job_create_from_file does from the address space on, and from
      the file in memory on.
    - ReadCall.v: the read call on a file in memory.
    - Start.v: kernel/start.c.
    - System.v: the kernel between two exceptions from user mode, as a step relation, and its
      specification: a scheduler over a ring of named tasks.
    - User.v: the programs and the library of userspace/.

    A definition has the name of the C function it translates; a loop is a [loop], a [for_up] or a
    [follow] over the loop variables; an early return is a branch that does not reach the rest.
    A field of a struct in memory is an offset ([job] and [paging_manager], which the code reaches
    only through pointers, are records in stores keyed by their address; a string inside the slot of
    a new job is thus not seen to change, and NULL is no key).

    ** Theorems

    - Heap and slab: allocation and release refine their specifications, on every branch; regions
      are disjoint and inside; release undoes allocation; what happens when they are full.
    - Page tables: mapping a page changes the translation of that page and of no other, in that
      address space and in no other; a mapped page is not mapped again; the kernel's identity map.
    - Jobs and scheduler: creation, deletion and termination keep the ring; [job_forward] is round
      robin and does not return without a running job; the timer interrupt is a context switch
      (with the register that the code loses), from the entry of the interrupt to its return.
    - System calls: the exit call, the log call, the read call and the timer, from the entry to the
      return; an unknown call is undefined, and so is reading at the end of a file; a program file is
      loaded into the memory of its job.
    - System runs: every exception is a step of the abstract scheduler; the timer interrupt
      implements its switch; a job that can run runs again; a job that ended is deleted; an
      interrupted job goes on where it was; the slots of the jobs and the memory of the heap are
      accounted for in every state that is reached.
    - User programs: hello prints its line and ends, or stops the kernel when the line with the name
      of its job is too long (as it is for hello.elf); init prints on until the clock shows 10^11.
    - Boot: the heap that [setup_heap] makes gives out blocks up to 256 MB behind its table.
    - Strings and log: comparison, reversal, [memset] against filling byte by byte; the formatter
      prints what the format says; [klogf] puts exactly that text on the UART when it fits its
      arrays and runs over the end of one of them when it does not.
    - Program files: the lookup of a section, the check of the header, the copy of a segment; the
      parser leaves the tables of the file in memory of its own and changes nothing else.
    - New jobs: the address space of a job is the kernel without access and its own pages; the
      program is copied into it and into no other; a file in memory becomes a running job that
      begins at its entry point and finds its segment (and its buffer is never freed); a file
      that is no program makes the kernel read through NULL, and without memory for the paging
      manager it writes through NULL.
    - Disk and FAT: the driver reads a sector (for its first 1024 requests); a range of the disk, a
      file along its cluster chain, the search of a name; a file read through the driver.
    - Files in memory: what one inode writes another one reads, up to the room of the file.
    - Interrupt handlers: the tables are a map, and the range check is off by one.

    Hypotheses of a theorem that describe the state (a representation predicate, disjoint regions,
    ranges of words) hold for the concrete state of its [_witness].  Interfaces: [HeapService] is
    what Job.v needs of the heap (Kernel.v implements it), [HeapRegions] what the parser of program
    files needs of it (HeapRegions.v), [SectorReader] is what Fat.v needs of a
    block device (Disk.v implements it), [ReaderBuffer] what FatPart.v needs of a buffer that device
    fills, [VirtioDevice] is what Disk.v needs of the device.

    ** Fuel

    [loop] faults when its fuel ends and every use has enough: the number of table entries, the
    length of a range, or, for scans of memory ([mem_fuel]), one round per mapped byte and one more.
    [follow] is for loops over links that the code does not bound: with more rounds than there are
    different states the loop repeats itself, so the end of the fuel is [Hang], a run without end.
    Loops that poll a device take the number of polls as a parameter.

    ** Not modelled

    - The linker script, the makefiles, and the floating-point comparison in the delay of
      userspace/init.c (the delay is a loop that ends).
    - kernel/start.asm and the vector table of kernel/exceptions.asm other than the two entries
      from user mode: an exception taken in the kernel is not modelled.
    - The TLB and caches: translations are computed from the tables in memory; [tlbi], [dsb] and
      device accesses are events.
    - The devices: the disk is a parameter of the operations that wait for it ([interrupt], what
      happens until its interrupt is taken), and Disk.v states what a virtio disk does.
    - Padding of structs, and the copy of a struct that a function returns: [fat_load] and
      [disk_register_block_device] build their result in place.
    - User pointers are read through the MMU into a copy when a kernel function gets a string.

    ** Next

    [job_create_from_file] as one theorem over the disk (the reading of the file into its buffer and
    what is done from the buffer on are the theorems of Exceptions.v and NewJob.v), the calls open,
    read and spawn as steps of System.v, and the boot sequence of Start.v as one theorem. *)
From stdpp Require Import base list gmap.
From Stdlib Require Import ZArith Lia.

Declare Scope c_scope.
Delimit Scope c_scope with c.
#[global] Open Scope Z_scope.
#[global] Open Scope c_scope.

(** ** Outcomes of a C execution *)

(** Why an execution has no meaning in C, or cannot go on in the model. *)
Inductive fault : Type :=
| BadAddress (a : Z)      (* access outside the accessible memory *)
| Uninitialised (a : Z)   (* read of a byte that nothing has written *)
| IntOverflow             (* signed overflow *)
| ShiftRange (n : Z)      (* shift by a negative or too large amount *)
| DivByZero               (* division or remainder by zero *)
| BadCall                 (* call through a pointer that is not a function *)
| MissingArgument         (* va_arg past the last argument *)
| OutOfFuel.              (* the fuel of a loop ran out *)

(** [Hang s] is a run that reaches an infinite loop in state [s]. *)
Inductive outcome (St A : Type) : Type :=
| Ok (a : A) (s : St)
| Hang (s : St)
| Fault (f : fault).
Arguments Ok {St A} a s.
Arguments Hang {St A} s.
Arguments Fault {St A} f.

Definition M (St A : Type) : Type := St → outcome St A.

Definition ret {St A} (a : A) : M St A := λ s, Ok a s.
Definition fail {St A} (f : fault) : M St A := λ _, Fault f.
Definition hang {St A} : M St A := λ s, Hang s.
Definition bind {St A B} (m : M St A) (k : A → M St B) : M St B := λ s,
  match m s with
  | Ok a s' => k a s'
  | Hang s' => Hang s'
  | Fault f => Fault f
  end.

Notation "'let*' p ':=' m 'in' k" := (bind m (λ p, k))
  (at level 10, p pattern, m at level 100, k at level 200,
   format "'[v' 'let*'  p  ':='  m  'in' '//' k ']'") : c_scope.
Notation "m ;; k" := (bind m (λ _, k))
  (at level 100, k at level 200, right associativity) : c_scope.

Definition get {St} : M St St := λ s, Ok s s.
Definition put {St} (s : St) : M St unit := λ _, Ok tt s.
Definition gets {St A} (f : St → A) : M St A := λ s, Ok (f s) s.
Definition modify {St} (f : St → St) : M St unit := λ s, Ok tt (f s).

(** Run an operation on a component of a larger state. *)
Definition zoom {St T A} (view : T → St) (upd : St → T → T) (m : M St A) : M T A := λ t,
  match m (view t) with
  | Ok a s => Ok a (upd s t)
  | Hang s => Hang (upd s t)
  | Fault f => Fault f
  end.

(** ** Loops *)

(** A [while] loop: [body] maps the loop variables to the next ones ([inl]) or
    leaves the loop with a result ([inr]). *)
Fixpoint loop {St L A} (fuel : nat) (body : L → M St (L + A)) (l : L) : M St A :=
  match fuel with
  | O => fail OutOfFuel
  | S f =>
      let* r := body l in
      match r with
      | inl l' => loop f body l'
      | inr a => ret a
      end
  end.

(** A loop that only follows links: [fuel] is so large that a run that uses it up repeats itself
    and goes on forever. *)
Fixpoint follow {St L A} (fuel : nat) (body : L → M St (L + A)) (l : L) : M St A :=
  match fuel with
  | O => hang
  | S f =>
      let* r := body l in
      match r with
      | inl l' => follow f body l'
      | inr a => ret a
      end
  end.

(** A counted loop [for (i = lo; i < lo + n; i++) body(i)]. *)
Fixpoint for_up {St} (n : nat) (lo : Z) (body : Z → M St unit) : M St unit :=
  match n with
  | O => ret tt
  | S n' => body lo ;; for_up n' (lo + 1) body
  end.

(** ** Fixed-width integers *)

Definition INT_MAX : Z := 0x7fffffff.
Definition INT_MIN : Z := -0x80000000.

(** Conversions: to an unsigned type reduces modulo [2^w]; to [int] wraps as
    the compiler of the project (GCC) documents. *)
Definition u8 (x : Z) : Z := x mod 2 ^ 8.
Definition u16 (x : Z) : Z := x mod 2 ^ 16.
Definition u32 (x : Z) : Z := x mod 2 ^ 32.
Definition u64 (x : Z) : Z := x mod 2 ^ 64.
Definition i32 (x : Z) : Z := (x + 2 ^ 31) mod 2 ^ 32 - 2 ^ 31.

(** The result of [int] arithmetic: overflow has no meaning. *)
Definition int_of {St} (x : Z) : M St Z :=
  if (INT_MIN <=? x) && (x <=? INT_MAX) then ret x else fail IntOverflow.

(** [1 << n], [v << n] at type [int]: the amount must lie in [0, 32). *)
Definition shl32 {St} (v n : Z) : M St Z :=
  if (0 <=? n) && (n <? 32) then ret (i32 (Z.shiftl v n)) else fail (ShiftRange n).

(** Unsigned division and remainder. *)
Definition divu {St} (a b : Z) : M St Z := if b =? 0 then fail DivByZero else ret (a / b).
Definition modu {St} (a b : Z) : M St Z := if b =? 0 then fail DivByZero else ret (a mod b).

(** [for (int i = 0; i < n; i++) body(i)]: the counter is an [int]. *)
Definition for_int {St} (n : Z) (body : Z → M St unit) : M St unit :=
  for_up (Z.to_nat n) 0 (λ i, body i ;; int_of (i + 1) ;; ret tt).

(** ** Weakest preconditions (total correctness) *)

(** [wp m s Q]: from [s], [m] terminates without a fault and [Q] holds of its
    result and final state. *)
Definition wp {St A} (m : M St A) (s : St) (Q : A → St → Prop) : Prop :=
  match m s with
  | Ok a s' => Q a s'
  | _ => False
  end.

Section wp.
Context {St A B : Type}.
Implicit Types (m : M St A) (s : St) (Q : A → St → Prop).

Lemma wp_ok m s Q : wp m s Q ↔ ∃ a s', m s = Ok a s' ∧ Q a s'.
Proof.
  unfold wp. destruct (m s) as [a s'|s'|f]; split; try done.
  - intros HQ. by exists a, s'.
  - by intros (a' & s'' & [= -> ->] & HQ).
  - by intros (a' & s'' & ? & _).
  - by intros (a' & s'' & ? & _).
Qed.

Lemma wp_eq m s a s' : wp m s (λ a' s'', a' = a ∧ s'' = s') ↔ m s = Ok a s'.
Proof.
  rewrite wp_ok. split.
  - by intros (a' & s'' & -> & -> & ->).
  - intros ->. by exists a, s'.
Qed.

Lemma wp_intro m s a s' Q : m s = Ok a s' → Q a s' → wp m s Q.
Proof. unfold wp. by intros ->. Qed.

Lemma wp_mono m s Q (Q' : A → St → Prop) :
  wp m s Q → (∀ a s', Q a s' → Q' a s') → wp m s Q'.
Proof. unfold wp. destruct (m s); naive_solver. Qed.

Lemma wp_ret (a : A) s Q : Q a s → wp (ret a) s Q.
Proof. done. Qed.

Lemma wp_bind (m : M St A) (k : A → M St B) s (Q : B → St → Prop) :
  wp m s (λ a s', wp (k a) s' Q) → wp (bind m k) s Q.
Proof. unfold wp, bind. by destruct (m s). Qed.

Lemma bind_ok (m : M St A) (k : A → M St B) s a s' :
  m s = Ok a s' → bind m k s = k a s'.
Proof. unfold bind. by intros ->. Qed.

Lemma bind_assoc {C} (m : M St A) (k : A → M St B) (h : B → M St C) s :
  bind (bind m k) h s = bind m (λ a, bind (k a) h) s.
Proof. unfold bind. by destruct (m s). Qed.

Lemma bind_fault (m : M St A) (k : A → M St B) s f :
  m s = Fault f → bind m k s = Fault f.
Proof. unfold bind. by intros ->. Qed.

Lemma bind_hang (m : M St A) (k : A → M St B) s s' :
  m s = Hang s' → bind m k s = Hang s'.
Proof. unfold bind. by intros ->. Qed.

Lemma wp_get (Q : St → St → Prop) s : Q s s → wp get s Q.
Proof. done. Qed.
Lemma wp_gets (f : St → A) s Q : Q (f s) s → wp (gets f) s Q.
Proof. done. Qed.
Lemma wp_put (s0 s : St) (Q : unit → St → Prop) : Q tt s0 → wp (put s0) s Q.
Proof. done. Qed.
Lemma wp_modify (f : St → St) s (Q : unit → St → Prop) : Q tt (f s) → wp (modify f) s Q.
Proof. done. Qed.
End wp.

Section wp_derived.
Context {St : Type}.
Implicit Types (s : St).

Lemma wp_zoom {T A} (view : St → T) (upd : T → St → St) (m : M T A) s (Q : A → St → Prop) :
  wp m (view s) (λ a t, Q a (upd t s)) → wp (zoom view upd m) s Q.
Proof. unfold wp, zoom. by destruct (m (view s)). Qed.

Lemma wp_int_of x s (Q : Z → St → Prop) :
  INT_MIN ≤ x ≤ INT_MAX → Q x s → wp (int_of x) s Q.
Proof.
  intros Hx HQ. unfold int_of.
  destruct (INT_MIN <=? x) eqn:?, (x <=? INT_MAX) eqn:?; simpl; try lia; done.
Qed.

Lemma int_of_ok x s : INT_MIN ≤ x ≤ INT_MAX → int_of (St := St) x s = Ok x s.
Proof. intros H. unfold int_of. by rewrite (proj2 (Z.leb_le _ _) (proj1 H)), (proj2 (Z.leb_le _ _) (proj2 H)). Qed.

Lemma wp_shl32 v n s (Q : Z → St → Prop) :
  0 ≤ n < 32 → Q (i32 (Z.shiftl v n)) s → wp (shl32 v n) s Q.
Proof.
  intros Hn HQ. unfold shl32.
  destruct (0 <=? n) eqn:?, (n <? 32) eqn:?; simpl; try lia; done.
Qed.

Lemma wp_divu a b s (Q : Z → St → Prop) : b ≠ 0 → Q (a / b) s → wp (divu a b) s Q.
Proof. intros Hb HQ. unfold divu. destruct (b =? 0) eqn:?; [lia|done]. Qed.
Lemma wp_modu a b s (Q : Z → St → Prop) : b ≠ 0 → Q (a mod b) s → wp (modu a b) s Q.
Proof. intros Hb HQ. unfold modu. destruct (b =? 0) eqn:?; [lia|done]. Qed.

(** The loop rule: an invariant and a measure that bounds the fuel. *)
Lemma wp_loop {L A} (I : L → St → Prop) (measure : L → nat)
    (body : L → M St (L + A)) fuel l s (Q : A → St → Prop) :
  (∀ l s, I l s → wp (body l) s (λ r s', match r with
      | inl l' => I l' s' ∧ (measure l' < measure l)%nat
      | inr a => Q a s' end)) →
  I l s → (measure l < fuel)%nat → wp (loop fuel body l) s Q.
Proof.
  intros Hbody. revert l s. induction fuel as [|fuel IH]; intros l s HI Hfuel; [lia|].
  simpl. apply wp_bind. eapply wp_mono; [by apply Hbody|].
  intros [l'|a] s' Hr; [|done]. destruct Hr as [HI' Hlt]. apply IH; [done|lia].
Qed.

(** Partial runs: the run ends with [Q] or stops with the fault [f]. *)
Definition may_fault {A} (f : fault) (m : M St A) s (Q : A → St → Prop) : Prop :=
  match m s with
  | Ok a s' => Q a s'
  | Hang _ => False
  | Fault g => g = f
  end.

Lemma may_fault_wp {A} f (m : M St A) s (Q : A → St → Prop) : wp m s Q → may_fault f m s Q.
Proof. unfold wp, may_fault. by destruct (m s). Qed.

Lemma may_fault_here {A} f (m : M St A) s (Q : A → St → Prop) : m s = Fault f → may_fault f m s Q.
Proof. unfold may_fault. by intros ->. Qed.

Lemma may_fault_bind {A B} f (m : M St A) (k : A → M St B) s (Q : B → St → Prop) :
  may_fault f m s (λ a s', may_fault f (k a) s' Q) → may_fault f (bind m k) s Q.
Proof. unfold may_fault, bind. by destruct (m s). Qed.

Lemma may_fault_mono {A} f (m : M St A) s (Q Q' : A → St → Prop) :
  may_fault f m s Q → (∀ a s', Q a s' → Q' a s') → may_fault f m s Q'.
Proof. unfold may_fault. destruct (m s); auto. Qed.

(** A loop whose rounds go on or stop with [f], with a measure that bounds them, stops with [f]. *)
Lemma loop_faults {L A} f (I : L → St → Prop) (measure : L → nat) (body : L → M St (L + A)) fuel l s :
  (∀ l s, I l s → may_fault f (body l) s (λ r s', ∃ l', r = inl l' ∧ I l' s' ∧ (measure l' < measure l)%nat)) →
  I l s → (measure l < fuel)%nat → loop fuel body l s = Fault f.
Proof.
  intros Hbody. revert l s. induction fuel as [|fuel IH]; intros l s HI Hfuel; [lia|].
  specialize (Hbody l s HI). unfold may_fault in Hbody. cbn [loop]. unfold bind.
  destruct (body l s) as [r s'|s'|g]; [|done|by subst]. destruct Hbody as (l' & -> & HI' & Hlt). apply IH; [done|lia].
Qed.

(** Fuel above the measure is never used up, whatever else happens in the body. *)
Lemma loop_terminates {L A} (I : L → St → Prop) (measure : L → St → nat)
    (body : L → M St (L + A)) fuel l s :
  (∀ l s, I l s → match body l s with
    | Ok (inl l') s' => I l' s' ∧ (measure l' s' < measure l s)%nat
    | Fault OutOfFuel => False
    | _ => True end) →
  I l s → (measure l s < fuel)%nat → loop fuel body l s ≠ Fault OutOfFuel.
Proof.
  intros Hbody. revert l s. induction fuel as [|fuel IH]; intros l s HI Hfuel; [lia|].
  simpl. unfold bind. specialize (Hbody l s HI).
  destruct (body l s) as [[l'|a] s'|s'|f]; try done.
  - destruct Hbody as [HI' Hlt]. apply IH; [done|lia].
  - by destruct f.
Qed.

Lemma wp_for_up (I : Z → St → Prop) n lo (body : Z → M St unit) s (Q : unit → St → Prop) :
  (∀ i s, lo ≤ i < lo + Z.of_nat n → I i s → wp (body i) s (λ _ s', I (i + 1) s')) →
  I lo s → (∀ s', I (lo + Z.of_nat n) s' → Q tt s') → wp (for_up n lo body) s Q.
Proof.
  revert lo s. induction n as [|n IH]; intros lo s Hbody HI HQ; simpl.
  - apply wp_ret, HQ. by rewrite Z.add_0_r.
  - apply wp_bind. eapply wp_mono; [apply Hbody; [lia|done]|].
    intros ? s1 HI1. apply IH; [|done|].
    + intros i s'' Hi. apply Hbody. lia.
    + intros s'' HI''. apply HQ. by replace (lo + Z.of_nat (S n))
        with (lo + 1 + Z.of_nat n) by lia.
Qed.

Lemma wp_for_int (I : Z → St → Prop) n (body : Z → M St unit) s (Q : unit → St → Prop) :
  0 ≤ n ≤ INT_MAX →
  (∀ i s, 0 ≤ i < n → I i s → wp (body i) s (λ _ s', I (i + 1) s')) →
  I 0 s → (∀ s', I n s' → Q tt s') → wp (for_int n body) s Q.
Proof.
  intros Hn Hbody HI HQ. unfold for_int. apply (wp_for_up I); [|done|].
  - intros i s' Hi Hs'. apply wp_bind. eapply wp_mono; [apply Hbody; [lia|done]|].
    intros ? s'' Hs''. apply wp_bind, wp_int_of; [unfold INT_MIN in *; lia|]. by apply wp_ret.
  - intros s'. rewrite Z2Nat.id by lia. apply HQ.
Qed.
End wp_derived.

(** ** Counted loops as computations *)

Section counted.
Context {St : Type}.
Implicit Types (body : Z → M St unit).

Lemma bind_ext {A B} (m m' : M St A) (k k' : A → M St B) s : m s = m' s → (∀ a s', k a s' = k' a s') →
  bind m k s = bind m' k' s.
Proof. intros E Hk. unfold bind. rewrite E. by destruct (m' s). Qed.

Lemma for_up_ext n lo body body' s : (∀ i s', lo ≤ i < lo + Z.of_nat n → body i s' = body' i s') →
  for_up n lo body s = for_up n lo body' s.
Proof.
  revert lo s. induction n as [|n IH]; intros lo s H; [done|]. cbn [for_up]. apply bind_ext; [apply H; lia|].
  intros _ s'. apply IH. intros i s'' Hi. apply H. lia.
Qed.

Lemma for_up_app a b lo body s :
  for_up (a + b) lo body s = (for_up a lo body ;; for_up b (lo + Z.of_nat a) body) s.
Proof.
  revert lo s. induction a as [|a IH]; intros lo s.
  { rewrite Z.add_0_r. done. }
  cbn [Nat.add for_up]. rewrite bind_assoc. apply bind_ext; [done|]. intros _ s'. rewrite IH. f_equal. f_equal.
  by replace (lo + Z.of_nat (S a)) with (lo + 1 + Z.of_nat a) by lia.
Qed.

Lemma for_up_shift n d lo body s : for_up n (d + lo) body s = for_up n lo (λ i, body (d + i)) s.
Proof.
  revert lo s. induction n as [|n IH]; intros lo s; [done|]. cbn [for_up]. apply bind_ext; [done|]. intros _ s'.
  rewrite <-IH. by rewrite Z.add_assoc.
Qed.

(** The counter of a loop with an [int] bound does not overflow. *)
Lemma for_int_up n body s : 0 ≤ n ≤ INT_MAX → for_int n body s = for_up (Z.to_nat n) 0 body s.
Proof.
  intros Hn. apply for_up_ext. intros i s' Hi. unfold bind. destruct (body i s') as [[] s''|s''|f]; [|done..].
  unfold int_of. rewrite (proj2 (Z.leb_le _ _)), (proj2 (Z.leb_le _ _)) by (unfold INT_MIN; lia). done.
Qed.
End counted.

(** ** Integer lemmas *)

Lemma u8_small x : 0 ≤ x < 256 → u8 x = x.
Proof. intros. apply Z.mod_small. lia. Qed.
Lemma u16_small x : 0 ≤ x < 65536 → u16 x = x.
Proof. intros. apply Z.mod_small. lia. Qed.
Lemma u32_small x : 0 ≤ x < 2 ^ 32 → u32 x = x.
Proof. intros. by apply Z.mod_small. Qed.
Lemma u64_small x : 0 ≤ x < 2 ^ 64 → u64 x = x.
Proof. intros. by apply Z.mod_small. Qed.
Lemma i32_small x : INT_MIN ≤ x ≤ INT_MAX → i32 x = x.
Proof. unfold INT_MIN, INT_MAX, i32. intros. rewrite Z.mod_small; lia. Qed.

Lemma u8_range x : 0 ≤ u8 x < 256.
Proof. by apply (Z.mod_pos_bound x (2 ^ 8)). Qed.
Lemma u32_range x : 0 ≤ u32 x < 2 ^ 32.
Proof. by apply Z.mod_pos_bound. Qed.
Lemma u64_range x : 0 ≤ u64 x < 2 ^ 64.
Proof. by apply Z.mod_pos_bound. Qed.
Lemma i32_range x : INT_MIN ≤ i32 x ≤ INT_MAX.
Proof.
  unfold INT_MIN, INT_MAX, i32.
  pose proof (Z.mod_pos_bound (x + 2 ^ 31) (2 ^ 32)). lia.
Qed.

Create Rewrite HintDb cint.
#[export] Hint Rewrite u8_small u16_small u32_small u64_small i32_small
  using (unfold INT_MIN, INT_MAX in *; lia) : cint.

(** ** Tactics *)

(** Split a boolean test of the goal and turn both outcomes into facts that [lia] reads. *)
Ltac case_bool :=
  match goal with
  | |- context [if ?b then _ else _] =>
      lazymatch b with
      | context [if _ then _ else _] => fail
      | _ => destruct b eqn:?
      end
  end.

(** One step of a weakest-precondition goal whose head is a monadic primitive. *)
Ltac wp_step :=
  lazymatch goal with
  | |- wp (bind _ _) _ _ => apply wp_bind
  | |- wp (ret _) _ _ => apply wp_ret
  | |- wp (gets _) _ _ => apply wp_gets
  | |- wp get _ _ => apply wp_get
  | |- wp (put _) _ _ => apply wp_put
  | |- wp (modify _) _ _ => apply wp_modify
  | |- wp (zoom _ _ _) _ _ => apply wp_zoom
  | |- wp (int_of _) _ _ => apply wp_int_of; [unfold INT_MIN, INT_MAX in *; lia|]
  end.
Ltac wp_steps := repeat (wp_step; simpl).

(** Use a specification given as a weakest precondition for the head of the goal. *)
Tactic Notation "wp_use" uconstr(H) := eapply wp_mono; [eapply H|].
