(* ===== verification/Layout.v ===== *)
(** * Layout of C structs (the AArch64 ABI)

    The sources access their structs by field; the models of the files and devices read and write
    bytes at an offset.  A struct is declared here the way the headers declare it, and the
    offsets that the models use are checked against the declaration. *)
From stdpp Require Import base list strings.
From Stdlib Require Import ZArith.
From S2P Require Import Prelude.

Inductive ctype : Type :=
| U8 | U16 | U32 | U64 | Char | Int | Bool | Size | Ptr
| Array (t : ctype) (n : nat)
| Nested (size align : Z).     (* a field that is itself a struct *)

Fixpoint csize (t : ctype) : Z :=
  match t with
  | U8 | Char | Bool => 1
  | U16 => 2
  | U32 | Int => 4
  | U64 | Size | Ptr => 8
  | Array t n => csize t * Z.of_nat n
  | Nested size _ => size
  end.

Fixpoint calign (t : ctype) : Z :=
  match t with
  | Array t _ => calign t
  | Nested _ align => align
  | t => csize t
  end.

(** A struct: whether it is packed, and its fields. *)
Record cstruct : Type := mk_cstruct {
  packed : bool;
  fields : list (string * ctype);
}.

Definition align_up (n a : Z) : Z := (n + a - 1) / a * a.

(** The offsets of the fields from [at_] on, and the offset behind the last one. *)
Fixpoint place (pack : bool) (at_ : Z) (fs : list (string * ctype)) : list (string * Z) * Z :=
  match fs with
  | [] => ([], at_)
  | (f, t) :: fs' =>
      let o := if pack then at_ else align_up at_ (calign t) in
      let '(os, e) := place pack (o + csize t) fs' in
      ((f, o) :: os, e)
  end.

Definition offsets (s : cstruct) : list (string * Z) := (place (packed s) 0 (fields s)).1.

Definition struct_align (s : cstruct) : Z :=
  if packed s then 1 else foldr (λ f a, Z.max (calign f.2) a) 1 (fields s).

Definition sizeof (s : cstruct) : Z := align_up (place (packed s) 0 (fields s)).2 (struct_align s).

(** The offset of a field. *)
Definition offset_in (s : cstruct) (f : string) : option Z :=
  snd <$> List.find (λ p, String.eqb f p.1) (offsets s).

(** The fields [fs] of [s] are at the offsets given, and [s] has [size] bytes. *)
Definition layout_is (s : cstruct) (fs : list (string * Z)) (size : Z) : Prop :=
  Forall (λ p, offset_in s p.1 = Some p.2) fs ∧ sizeof s = size.

(** Proves [layout_is] by computation. *)
Ltac check_layout := split; [repeat (apply Forall_cons; split; [reflexivity|]); by apply Forall_nil|reflexivity].
