(* ===== verification/Memory.v ===== *)
(** * Byte-addressed memory

    The memory every component shares: addresses are integers, a mapped byte
    either holds a value in [0, 256) or has not been written since it became
    a local variable ([None]).  Accesses outside the map are faults.  Local
    arrays of a C function are fresh bytes that live as long as the call
    ([with_local]).  The laws below describe every access by one update,
    [put_cells], whose lookup is [put_cells_lookup]. *)
From stdpp Require Import base list gmap.
From Stdlib Require Import ZArith Lia.
From S2P Require Import Prelude.

Abbreviation mem := (gmap Z (option Z)).

(** ** Byte accesses *)

Definition loadb (p : Z) : M mem Z := λ m,
  match m !! p with
  | Some (Some b) => Ok b m
  | Some None => Fault (Uninitialised p)
  | None => Fault (BadAddress p)
  end.

Definition storeb (p v : Z) : M mem unit := λ m,
  match m !! p with
  | Some _ => Ok tt (<[p := Some (u8 v)]> m)
  | None => Fault (BadAddress p)
  end.

(** ** Little-endian words *)

Fixpoint load_le (n : nat) (p : Z) : M mem Z :=
  match n with
  | O => ret 0
  | S n' =>
      let* b := loadb p in
      let* r := load_le n' (p + 1) in
      ret (b + 256 * r)
  end.

Fixpoint store_le (n : nat) (p v : Z) : M mem unit :=
  match n with
  | O => ret tt
  | S n' => storeb p v ;; store_le n' (p + 1) (v / 256)
  end.

Definition load16 := load_le 2.
Definition load32 := load_le 4.
Definition load64 := load_le 8.
Definition store16 := store_le 2.
Definition store32 := store_le 4.
Definition store64 := store_le 8.

Fixpoint le_bytes (n : nat) (v : Z) : list Z :=
  match n with
  | O => []
  | S n' => v mod 256 :: le_bytes n' (v / 256)
  end.

Fixpoint le_val (bs : list Z) : Z :=
  match bs with
  | [] => 0
  | b :: bs' => b + 256 * le_val bs'
  end.

(** ** Runs of bytes *)

Fixpoint put_cells (p : Z) (cs : list (option Z)) (m : mem) : mem :=
  match cs with
  | [] => m
  | c :: cs' => <[p := c]> (put_cells (p + 1) cs' m)
  end.

Definition put_bytes (p : Z) (bs : list Z) (m : mem) : mem := put_cells p (Some <$> bs) m.

Fixpoint drop_cells (p : Z) (n : nat) (m : mem) : mem :=
  match n with
  | O => m
  | S n' => delete p (drop_cells (p + 1) n' m)
  end.

(** The bytes [bs] are stored from [p] on. *)
Definition bytes_at (m : mem) (p : Z) (bs : list Z) : Prop :=
  ∀ i b, bs !! i = Some b → m !! (p + Z.of_nat i) = Some (Some b).

(** The [n] bytes from [p] on are accessible. *)
Definition mapped (m : mem) (p n : Z) : Prop :=
  ∀ a, p ≤ a < p + n → is_Some (m !! a).

(** The value a program reads at [p], when it can. *)
Definition peekb (m : mem) (p : Z) : option Z := m !! p ≫= id.
Definition peek (n : nat) (m : mem) (p : Z) : option Z :=
  match load_le n p m with Ok v _ => Some v | _ => None end.

(** ** Local arrays *)

Definition top_address (m : mem) : Z := map_fold (λ a _ acc, Z.max a acc) 0 m.

(** A gap of unmapped bytes on both sides, so that an access outside the array is a fault. *)
Definition LOCAL_GAP : Z := 16.
Definition fresh_address (m : mem) : Z := top_address m + LOCAL_GAP.

Definition with_cells {A} (cs : list (option Z)) (f : Z → M mem A) : M mem A := λ m,
  let p := fresh_address m in
  match f p (put_cells p cs m) with
  | Ok a m' => Ok a (drop_cells p (length cs) m')
  | Hang m' => Hang m'
  | Fault e => Fault e
  end.

(** [char buf[n];] in a function body: [n] bytes nobody has written. *)
Definition with_local {A} (n : Z) (f : Z → M mem A) : M mem A :=
  with_cells (replicate (Z.to_nat n) None) f.

(** A string literal: its characters and the terminating NUL. *)
Definition with_literal {A} (s : list Z) (f : Z → M mem A) : M mem A :=
  with_cells (Some <$> (s ++ [0])) f.

(** Loops over memory that scan mapped bytes get one round per mapped byte and one to stop. *)
Definition mem_fuel {A} (k : nat → M mem A) : M mem A := λ m, k (S (size m)) m.

(** * Laws *)

Lemma put_cells_lookup p cs m a :
  put_cells p cs m !! a =
  if decide (p ≤ a < p + Z.of_nat (length cs)) then cs !! Z.to_nat (a - p) else m !! a.
Proof.
  revert p. induction cs as [|c cs IH]; intros p; simpl.
  { case_decide; [lia|done]. }
  destruct (decide (a = p)) as [->|Hne].
  - rewrite lookup_insert_eq, decide_True by lia. by rewrite Z.sub_diag.
  - rewrite lookup_insert_ne, IH by done.
    destruct (decide (p + 1 ≤ a < p + 1 + Z.of_nat (length cs))).
    + rewrite decide_True by lia.
      by replace (Z.to_nat (a - p)) with (S (Z.to_nat (a - (p + 1)))) by lia.
    + by rewrite decide_False by lia.
Qed.

Lemma put_bytes_lookup p bs m a :
  put_bytes p bs m !! a =
  if decide (p ≤ a < p + Z.of_nat (length bs)) then Some <$> bs !! Z.to_nat (a - p) else m !! a.
Proof. unfold put_bytes. by rewrite put_cells_lookup, length_fmap, list_lookup_fmap. Qed.

Lemma put_bytes_outside p bs m a :
  ¬ (p ≤ a < p + Z.of_nat (length bs)) → put_bytes p bs m !! a = m !! a.
Proof. intros. by rewrite put_bytes_lookup, decide_False. Qed.

Lemma drop_cells_lookup p n m a :
  drop_cells p n m !! a = if decide (p ≤ a < p + Z.of_nat n) then None else m !! a.
Proof.
  revert p. induction n as [|n IH]; intros p; simpl.
  { case_decide; [lia|done]. }
  destruct (decide (a = p)) as [->|Hne].
  - by rewrite lookup_delete_eq, decide_True by lia.
  - rewrite lookup_delete_ne, IH by done.
    destruct (decide (p + 1 ≤ a < p + 1 + Z.of_nat n)).
    + by rewrite decide_True by lia.
    + by rewrite decide_False by lia.
Qed.

Lemma put_cells_app p cs ds m :
  put_cells p (cs ++ ds) m = put_cells p cs (put_cells (p + Z.of_nat (length cs)) ds m).
Proof.
  revert p. induction cs as [|c cs IH]; intros p; simpl.
  - by rewrite Z.add_0_r.
  - rewrite IH. do 3 f_equal. lia.
Qed.

Lemma put_bytes_app p bs cs m :
  put_bytes p (bs ++ cs) m = put_bytes p bs (put_bytes (p + Z.of_nat (length bs)) cs m).
Proof. unfold put_bytes. by rewrite fmap_app, put_cells_app, length_fmap. Qed.

Lemma put_bytes_nil p m : put_bytes p [] m = m.
Proof. done. Qed.

Lemma put_bytes_cons p b bs m :
  put_bytes p (b :: bs) m = <[p := Some b]> (put_bytes (p + 1) bs m).
Proof. done. Qed.

Lemma put_bytes_snoc p bs b m :
  put_bytes p (bs ++ [b]) m = <[p + Z.of_nat (length bs) := Some b]> (put_bytes p bs m).
Proof.
  apply map_eq. intros a. rewrite put_bytes_lookup, length_app; simpl.
  destruct (decide (a = p + Z.of_nat (length bs))) as [->|Hne].
  - rewrite lookup_insert_eq, decide_True by lia.
    rewrite lookup_app_r by lia. replace (Z.to_nat _ - _)%nat with 0%nat by lia. done.
  - rewrite lookup_insert_ne, put_bytes_lookup by done.
    destruct (decide (p ≤ a < p + Z.of_nat (length bs))).
    + rewrite decide_True by lia. by rewrite lookup_app_l by lia.
    + by rewrite decide_False by lia.
Qed.

(** *** [bytes_at] and [mapped] *)

Lemma bytes_at_put p bs m : bytes_at (put_bytes p bs m) p bs.
Proof.
  intros i b Hi. apply lookup_lt_Some in Hi as ?.
  rewrite put_bytes_lookup, decide_True by lia.
  replace (Z.to_nat (p + Z.of_nat i - p)) with i by lia. by rewrite Hi.
Qed.

Lemma bytes_at_put_ne p bs q cs m :
  bytes_at m q cs →
  p + Z.of_nat (length bs) ≤ q ∨ q + Z.of_nat (length cs) ≤ p →
  bytes_at (put_bytes p bs m) q cs.
Proof.
  intros Hat Hdisj i b Hi. apply lookup_lt_Some in Hi as ?.
  rewrite put_bytes_outside by lia. by apply Hat.
Qed.

Lemma bytes_at_nil m p : bytes_at m p [].
Proof. done. Qed.

Lemma bytes_at_cons m p b bs :
  bytes_at m p (b :: bs) ↔ m !! p = Some (Some b) ∧ bytes_at m (p + 1) bs.
Proof.
  split.
  - intros H. split.
    + specialize (H 0%nat b eq_refl). by rewrite Z.add_0_r in H.
    + intros i c Hi. specialize (H (S i) c Hi).
      by replace (p + 1 + Z.of_nat i) with (p + Z.of_nat (S i)) by lia.
  - intros [H0 H] [|i] c Hi; simpl in Hi.
    + injection Hi as <-. by rewrite Z.add_0_r.
    + replace (p + Z.of_nat (S i)) with (p + 1 + Z.of_nat i) by lia. by apply H.
Qed.

Lemma bytes_at_app m p bs cs :
  bytes_at m p (bs ++ cs) ↔ bytes_at m p bs ∧ bytes_at m (p + Z.of_nat (length bs)) cs.
Proof.
  revert p. induction bs as [|b bs IH]; intros p; simpl.
  - rewrite Z.add_0_r. split; [intros H; split; [apply bytes_at_nil|done]|by intros [_ H]].
  - rewrite !bytes_at_cons, IH.
    replace (p + Z.of_nat (S (length bs))) with (p + 1 + Z.of_nat (length bs)) by lia.
    tauto.
Qed.

Lemma bytes_at_splice m p xs ys ys' zs :
  bytes_at m p (xs ++ ys ++ zs) → length ys' = length ys →
  bytes_at (put_bytes (p + Z.of_nat (length xs)) ys' m) p (xs ++ ys' ++ zs).
Proof.
  intros [Hx [Hy Hz]%bytes_at_app]%bytes_at_app Hlen. apply bytes_at_app. split.
  { apply bytes_at_put_ne; [done|lia]. }
  apply bytes_at_app. split; [apply bytes_at_put|].
  rewrite Hlen. apply bytes_at_put_ne; [done|lia].
Qed.

Lemma bytes_at_lookup m p bs i b : bytes_at m p bs → bs !! i = Some b →
  m !! (p + Z.of_nat i) = Some (Some b).
Proof. auto. Qed.

(** [bytes_at] with the index as an integer. *)
Lemma bytes_at_lookupZ m p bs i b : bytes_at m p bs → 0 ≤ i → bs !! Z.to_nat i = Some b →
  m !! (p + i) = Some (Some b).
Proof. intros H Hi Hb. specialize (H _ _ Hb). by rewrite Z2Nat.id in H. Qed.

Lemma bytes_at_mapped m p bs : bytes_at m p bs → mapped m p (Z.of_nat (length bs)).
Proof.
  intros H a Ha. destruct (lookup_lt_is_Some_2 bs (Z.to_nat (a - p))) as [b Hb]; [lia|].
  apply H in Hb. replace (p + _) with a in Hb by lia. by eexists.
Qed.

Lemma bytes_at_insert_ne m p bs a c :
  bytes_at m p bs → ¬ (p ≤ a < p + Z.of_nat (length bs)) → bytes_at (<[a := c]> m) p bs.
Proof.
  intros H Ha i b Hi. apply lookup_lt_Some in Hi as ?.
  rewrite lookup_insert_ne by lia. by apply H.
Qed.

Lemma bytes_at_agree m m' p bs :
  bytes_at m p bs → (∀ a, p ≤ a < p + Z.of_nat (length bs) → m' !! a = m !! a) → bytes_at m' p bs.
Proof.
  intros H Hag i b Hi. apply lookup_lt_Some in Hi as ?. rewrite Hag by lia. by apply H.
Qed.

(** Writing back what is there changes nothing. *)
Lemma put_bytes_id m p bs : bytes_at m p bs → put_bytes p bs m = m.
Proof.
  intros H. apply map_eq. intros a. rewrite put_bytes_lookup. case_decide; [|done].
  destruct (lookup_lt_is_Some_2 bs (Z.to_nat (a - p))) as [b Hb]; [lia|].
  rewrite Hb. symmetry. simpl. replace a with (p + (a - p)) at 1 by lia.
  eapply bytes_at_lookupZ; [done|lia|done].
Qed.

(** A later write of the same extent hides an earlier one. *)
Lemma put_bytes_put_bytes p bs cs m :
  length bs = length cs → put_bytes p bs (put_bytes p cs m) = put_bytes p bs m.
Proof.
  intros Hlen. apply map_eq. intros a. rewrite !put_bytes_lookup, Hlen.
  by destruct (decide _).
Qed.

Lemma put_bytes_insert p bs m i v :
  (i < length bs)%nat →
  <[p + Z.of_nat i := Some v]> (put_bytes p bs m) = put_bytes p (<[i := v]> bs) m.
Proof.
  intros Hi. apply map_eq. intros a. rewrite put_bytes_lookup, length_insert.
  destruct (decide (a = p + Z.of_nat i)) as [->|Hne].
  - rewrite lookup_insert_eq, decide_True by lia.
    replace (Z.to_nat (p + Z.of_nat i - p)) with i by lia.
    by rewrite list_lookup_insert_eq.
  - rewrite lookup_insert_ne, put_bytes_lookup by done. case_decide; [|done].
    by rewrite list_lookup_insert_ne by lia.
Qed.

Lemma put_bytes_comm p bs q cs m :
  p + Z.of_nat (length bs) ≤ q ∨ q + Z.of_nat (length cs) ≤ p →
  put_bytes p bs (put_bytes q cs m) = put_bytes q cs (put_bytes p bs m).
Proof.
  intros. apply map_eq. intros a. rewrite !put_bytes_lookup.
  destruct (decide (p ≤ a < _)), (decide (q ≤ a < _)); try lia; done.
Qed.

Lemma mapped_weaken m p n q k : mapped m p n → p ≤ q → q + k ≤ p + n → mapped m q k.
Proof. intros H ?? a Ha. apply H. lia. Qed.

Lemma mapped_insert m p n a c : mapped m p n → mapped (<[a := c]> m) p n.
Proof. intros H x Hx. destruct (decide (x = a)) as [->|].
  - rewrite lookup_insert_eq. by eexists.
  - rewrite lookup_insert_ne by done. by apply H. Qed.

Lemma mapped_put m p n q cs : mapped m p n → mapped (put_cells q cs m) p n.
Proof.
  intros H a Ha. rewrite put_cells_lookup. case_decide; [|by apply H].
  apply lookup_lt_is_Some. lia.
Qed.

Lemma mapped_put_bytes m p n q bs : mapped m p n → mapped (put_bytes q bs m) p n.
Proof. apply mapped_put. Qed.

Lemma mapped_put_self m p n bs :
  n ≤ Z.of_nat (length bs) → mapped (put_bytes p bs m) p n.
Proof. intros H. eapply mapped_weaken; [apply bytes_at_mapped, bytes_at_put|lia|lia]. Qed.

Create HintDb mem.
#[export] Hint Resolve mapped_put mapped_put_bytes mapped_insert bytes_at_put bytes_at_nil : mem.

(** *** Sizes: a scan of distinct mapped bytes is no longer than the map *)

Lemma mapped_size (m : mem) p n : mapped m p n → n ≤ Z.of_nat (size m).
Proof.
  intros H. destruct (Z.le_gt_cases n 0) as [|Hn]; [lia|].
  set (l := (λ i, p + Z.of_nat i) <$> seq 0 (Z.to_nat n)).
  assert (NoDup l) as Hnd.
  { apply NoDup_fmap_2_strong; [|apply NoDup_seq]. intros; lia. }
  assert ((list_to_set l : gset Z) ⊆ dom m) as Hsub.
  { intros a. rewrite elem_of_list_to_set. unfold l. rewrite list_elem_of_fmap.
    intros (i & -> & Hi%elem_of_seq). apply elem_of_dom, H. lia. }
  apply subseteq_size in Hsub. rewrite size_list_to_set in Hsub by done.
  unfold l in Hsub. rewrite length_fmap, length_seq, size_dom in Hsub. lia.
Qed.

Lemma bytes_at_size (m : mem) p bs : bytes_at m p bs → (length bs ≤ size m)%nat.
Proof. intros H%bytes_at_mapped%mapped_size. lia. Qed.

(** *** Specifications of the accesses *)

Lemma loadb_ok m p b : m !! p = Some (Some b) → loadb p m = Ok b m.
Proof. unfold loadb. by intros ->. Qed.

Lemma storeb_ok m p v : is_Some (m !! p) → storeb p v m = Ok tt (<[p := Some (u8 v)]> m).
Proof. unfold storeb. by intros [c ->]. Qed.

Lemma wp_loadb m p b (Q : Z → mem → Prop) :
  m !! p = Some (Some b) → Q b m → wp (loadb p) m Q.
Proof. intros H HQ. eapply wp_intro; [by apply loadb_ok|done]. Qed.

Lemma wp_storeb m p v (Q : unit → mem → Prop) :
  is_Some (m !! p) → Q tt (<[p := Some (u8 v)]> m) → wp (storeb p v) m Q.
Proof. intros H HQ. eapply wp_intro; [by apply storeb_ok|done]. Qed.

Lemma length_le_bytes n v : length (le_bytes n v) = n.
Proof. revert v. induction n; intros; simpl; auto. Qed.

Lemma le_bytes_range n v : Forall (λ b, 0 ≤ b < 256) (le_bytes n v).
Proof.
  revert v. induction n; intros v; simpl; constructor; [|done].
  apply Z.mod_pos_bound. lia.
Qed.

Lemma le_val_le_bytes n v : le_val (le_bytes n v) = v mod 256 ^ Z.of_nat n.
Proof.
  revert v. induction n as [|n IH]; intros v; cbn [le_bytes le_val].
  { by rewrite Z.mod_1_r. }
  rewrite IH, Nat2Z.inj_succ, Z.pow_succ_r, Z.rem_mul_r by lia. lia.
Qed.

Lemma le_val_range bs : Forall (λ b, 0 ≤ b < 256) bs →
  0 ≤ le_val bs < 256 ^ Z.of_nat (length bs).
Proof.
  induction 1 as [|b bs Hb _ IH]; cbn [le_val length]; [lia|].
  rewrite Nat2Z.inj_succ, Z.pow_succ_r by lia. lia.
Qed.

Lemma load_le_ok m p bs : bytes_at m p bs → load_le (length bs) p m = Ok (le_val bs) m.
Proof.
  revert p. induction bs as [|b bs IH]; intros p H; [done|].
  apply bytes_at_cons in H as [H0 H]. cbn [load_le length].
  rewrite (bind_ok _ _ _ _ _ (loadb_ok _ _ _ H0)).
  by rewrite (bind_ok _ _ _ _ _ (IH _ H)).
Qed.

Lemma store_le_ok m n p v : mapped m p (Z.of_nat n) →
  store_le n p v m = Ok tt (put_bytes p (le_bytes n v) m).
Proof.
  revert p v m. induction n as [|n IH]; intros p v m H; [done|].
  cbn [store_le le_bytes]. rewrite (bind_ok _ _ _ tt (<[p:=Some (u8 v)]> m)).
  2: { apply storeb_ok, H. lia. }
  rewrite IH; [|by apply mapped_insert; eapply mapped_weaken; [done|lia|lia]].
  f_equal. rewrite put_bytes_cons. apply map_eq. intros a.
  rewrite put_bytes_lookup. destruct (decide (a = p)) as [->|].
  - rewrite decide_False by lia. by rewrite !lookup_insert_eq.
  - rewrite !(lookup_insert_ne _ p) by done. by rewrite put_bytes_lookup.
Qed.

(** A word of [n] bytes with value [v]. *)
Definition word_at (n : nat) (m : mem) (p v : Z) : Prop := bytes_at m p (le_bytes n v).

Lemma load_word_ok n m p v : word_at n m p v → 0 ≤ v < 256 ^ Z.of_nat n →
  load_le n p m = Ok v m.
Proof.
  intros H Hv. apply load_le_ok in H. rewrite length_le_bytes in H.
  by rewrite H, le_val_le_bytes, Z.mod_small.
Qed.

Lemma loadb_word m p v : word_at 1 m p v → 0 ≤ v < 256 → loadb p m = Ok v m.
Proof.
  intros H Hv. apply loadb_ok. pose proof (bytes_at_lookupZ m p _ 0 (v mod 256) H) as E.
  rewrite Z.add_0_r in E. rewrite E; [by rewrite Z.mod_small|lia|done].
Qed.

Lemma wp_load_word n m p v (Q : Z → mem → Prop) :
  word_at n m p v → 0 ≤ v < 256 ^ Z.of_nat n → Q v m → wp (load_le n p) m Q.
Proof. intros H Hv HQ. eapply wp_intro; [by apply load_word_ok|done]. Qed.

Lemma wp_store_word n m p v (Q : unit → mem → Prop) :
  mapped m p (Z.of_nat n) → Q tt (put_bytes p (le_bytes n v) m) → wp (store_le n p v) m Q.
Proof. intros H HQ. eapply wp_intro; [by apply store_le_ok|done]. Qed.

(** *** Local arrays *)

Lemma top_address_spec m a : is_Some (m !! a) → a ≤ top_address m.
Proof.
  unfold top_address. revert a.
  apply (map_fold_weak_ind (λ (r : Z) (m : mem), ∀ a, is_Some (m !! a) → a ≤ r)).
  - intros a. rewrite lookup_empty. by intros [? ?].
  - intros i x m' r Hi IH a. destruct (decide (a = i)) as [->|]; [lia|].
    rewrite lookup_insert_ne by done. intros Ha%IH. lia.
Qed.

Lemma top_address_bound m B : 0 ≤ B → (∀ a, is_Some (m !! a) → a ≤ B) → 0 ≤ top_address m ≤ B.
Proof.
  intros HB. unfold top_address. revert m.
  apply (map_fold_weak_ind (λ (r : Z) (m : mem), (∀ a, is_Some (m !! a) → a ≤ B) → 0 ≤ r ≤ B)); [lia|].
  intros i x m' r Hi IH Hm. assert (i ≤ B) by (apply Hm; rewrite lookup_insert_eq; by eexists).
  assert (0 ≤ r ≤ B); [|lia]. apply IH. intros a Ha. apply Hm. destruct (decide (a = i)) as [->|].
  - rewrite lookup_insert_eq. by eexists.
  - by rewrite lookup_insert_ne.
Qed.

(** Every accessible address is below [B]. *)
Definition below (B : Z) (m : mem) : Prop := ∀ a, is_Some (m !! a) → 0 ≤ a < B.

Lemma fresh_address_bound B m : 0 ≤ B → below B m → 0 ≤ fresh_address m ≤ B + LOCAL_GAP.
Proof.
  intros HB Hm. pose proof (top_address_bound m B HB) as H. unfold fresh_address, LOCAL_GAP.
  assert (0 ≤ top_address m ≤ B); [|lia]. apply H. intros a Ha. specialize (Hm a Ha). lia.
Qed.

Lemma fresh_address_spec m a : fresh_address m - LOCAL_GAP < a → m !! a = None.
Proof.
  intros Ha. destruct (m !! a) eqn:E; [|done].
  assert (a ≤ top_address m) by (apply top_address_spec; eauto).
  unfold fresh_address in Ha. lia.
Qed.

(** A block that only the call owns: the caller sees the memory without it. *)
Lemma wp_with_cells {A} cs (f : Z → M mem A) m (Q : A → mem → Prop) :
  (∀ p, (∀ a, p - LOCAL_GAP < a → m !! a = None) →
    wp (f p) (put_cells p cs m) (λ a m', Q a (drop_cells p (length cs) m'))) →
  wp (with_cells cs f) m Q.
Proof.
  intros H. specialize (H (fresh_address m) (fresh_address_spec m)).
  unfold wp, with_cells in *. by destruct (f _ _).
Qed.

(** Dropping the local block undoes any change made inside it. *)
Lemma drop_put_cells p n cs m :
  length cs = n → (∀ a, p ≤ a < p + Z.of_nat n → m !! a = None) →
  drop_cells p n (put_cells p cs m) = m.
Proof.
  intros <- Hm. apply map_eq. intros a.
  rewrite drop_cells_lookup. case_decide; [by rewrite Hm|].
  by rewrite put_cells_lookup, decide_False.
Qed.

(** *** Reading back without changing the state *)

Lemma loadb_state m p v m' : loadb p m = Ok v m' → m' = m ∧ m !! p = Some (Some v).
Proof. unfold loadb. destruct (m !! p) as [[b|]|]; intros; by simplify_eq. Qed.

Lemma load_le_state n p m v m' : load_le n p m = Ok v m' → m' = m.
Proof.
  revert p v m'. induction n as [|n IH]; intros p v m'; cbn [load_le].
  - unfold ret. by intros [= _ ->].
  - unfold bind at 1. destruct (loadb p m) as [b m1| |] eqn:E; [|done..].
    apply loadb_state in E as [-> _]. unfold bind.
    destruct (load_le n (p + 1) m) as [w m2| |] eqn:E2; [|done..].
    apply IH in E2 as ->. unfold ret. by intros [= _ ->].
Qed.

Lemma peek_load n m p v : peek n m p = Some v ↔ load_le n p m = Ok v m.
Proof.
  unfold peek. destruct (load_le n p m) as [w m'| |] eqn:E; [|done..].
  apply load_le_state in E as ->. split; congruence.
Qed.

Lemma peek_word n m p v : word_at n m p v → 0 ≤ v < 256 ^ Z.of_nat n → peek n m p = Some v.
Proof. intros H Hv. by apply peek_load, load_word_ok. Qed.

Lemma peek_S n m p v : peek (S n) m p = Some v ↔
  ∃ b w, m !! p = Some (Some b) ∧ peek n m (p + 1) = Some w ∧ v = b + 256 * w.
Proof.
  rewrite peek_load. cbn [load_le]. split.
  - unfold bind at 1. destruct (loadb p m) as [b m1| |] eqn:E; [|done..].
    apply loadb_state in E as [-> Hb]. unfold bind.
    destruct (load_le n (p + 1) m) as [w m2| |] eqn:E2; [|done..].
    apply load_le_state in E2 as ?. subst. unfold ret. intros [= <-].
    exists b, w. split; [done|]. split; [by apply peek_load|done].
  - intros (b & w & Hb & Hw & ->). rewrite (bind_ok _ _ _ _ _ (loadb_ok _ _ _ Hb)).
    apply peek_load in Hw. by rewrite (bind_ok _ _ _ _ _ Hw).
Qed.

Lemma peek_agree n m m' p v :
  (∀ a, p ≤ a < p + Z.of_nat n → m' !! a = m !! a) → peek n m p = Some v → peek n m' p = Some v.
Proof.
  revert p v. induction n as [|n IH]; intros p v Hag; [done|].
  rewrite !peek_S. intros (b & w & Hb & Hw & ->). exists b, w.
  rewrite Hag by lia. split; [done|]. split; [|done]. apply IH; [|done]. intros. apply Hag. lia.
Qed.

Lemma peek_mapped n m p v : peek n m p = Some v → mapped m p (Z.of_nat n).
Proof.
  revert p v. induction n as [|n IH]; intros p v; [intros _ a ?; lia|].
  rewrite peek_S. intros (b & w & Hb & Hw & _) a Ha. destruct (decide (a = p)) as [->|].
  - by eexists.
  - apply (IH _ _ Hw). lia.
Qed.

Lemma peek_put n m p v : 0 ≤ v < 256 ^ Z.of_nat n →
  peek n (put_bytes p (le_bytes n v) m) p = Some v.
Proof. intros Hv. apply peek_word; [apply bytes_at_put|done]. Qed.

(** Dropping a local array leaves what was outside it. *)
Lemma drop_cells_eq p n (m m' : mem) :
  (∀ a, p ≤ a < p + Z.of_nat n → m !! a = None) →
  (∀ a, ¬ (p ≤ a < p + Z.of_nat n) → m' !! a = m !! a) → drop_cells p n m' = m.
Proof.
  intros Hin Hout. apply map_eq. intros a. rewrite drop_cells_lookup.
  case_decide as H; [by rewrite Hin|by apply Hout].
Qed.

(** A region that is mapped lies below a fresh array. *)
Lemma mapped_below_fresh (m : mem) p q n : (∀ a, p - LOCAL_GAP < a → m !! a = None) →
  mapped m q n → 0 < n → q + n ≤ p.
Proof.
  intros Hp Hm Hn. destruct (Z.le_gt_cases (q + n) p) as [|Hgt]; [done|].
  destruct (Hm (q + n - 1)) as [c Hc]; [lia|]. rewrite Hp in Hc; [done|]. unfold LOCAL_GAP. lia.
Qed.

Lemma mapped_put_cells_self p cs (m : mem) n : n ≤ Z.of_nat (length cs) → mapped (put_cells p cs m) p n.
Proof.
  intros Hn a Ha. rewrite put_cells_lookup, decide_True by lia. apply lookup_lt_is_Some. lia.
Qed.

(** Bytes that a computation finds in a concrete memory. *)
Lemma bytes_at_check m p bs :
  bool_decide ((λ i, m !! (p + Z.of_nat i)) <$> seq 0 (length bs) = (Some ∘ Some) <$> bs) = true →
  bytes_at m p bs.
Proof.
  intros H%bool_decide_eq_true_1 i b Hi. apply (f_equal (lookup i)) in H.
  rewrite !list_lookup_fmap, Hi, lookup_seq_lt in H by by eapply lookup_lt_Some. by injection H.
Qed.

Fixpoint all_mapped (n : nat) (m : mem) (p : Z) : bool :=
  match n with
  | O => true
  | S n' => match m !! p with Some _ => all_mapped n' m (p + 1) | None => false end
  end.

Lemma mapped_check m p n : all_mapped (Z.to_nat n) m p = true → mapped m p n.
Proof.
  cut (∀ k q, all_mapped k m q = true → mapped m q (Z.of_nat k)).
  { intros H Hc a Ha. apply (H _ _ Hc). lia. }
  induction k as [|k IH]; intros q H a Ha; [lia|]. cbn [all_mapped] in H.
  destruct (m !! q) eqn:E; [|done]. destruct (decide (a = q)) as [->|]; [by eexists|].
  apply (IH (q + 1) H). lia.
Qed.

Lemma below_check B m : forallb (λ '(a, _), (0 <=? a) && (a <? B)) (map_to_list m) = true → below B m.
Proof.
  intros H a [c Hc]. rewrite forallb_forall in H. specialize (H (a, c)). cbv beta iota in H.
  assert (In (a, c) (map_to_list m)) as Hin by (apply list_elem_of_In; by apply elem_of_map_to_list).
  apply H in Hin. lia.
Qed.

(** *** Memories that are written down

    The facts about a memory that is a series of [put_bytes] and [put_cells] follow from the
    addresses, without computing the memory. *)

Lemma bytes_at_put_cells_ne p bs q cs m :
  bytes_at m p bs → p + Z.of_nat (length bs) ≤ q ∨ q + Z.of_nat (length cs) ≤ p →
  bytes_at (put_cells q cs m) p bs.
Proof.
  intros H Hne. eapply bytes_at_agree; [exact H|]. intros a Ha. rewrite put_cells_lookup, decide_False; [done|lia].
Qed.

Lemma below_put_cells B q cs m : below B m → 0 ≤ q → q + Z.of_nat (length cs) ≤ B → below B (put_cells q cs m).
Proof. intros H H0 HB a. rewrite put_cells_lookup. case_decide; [lia|apply H]. Qed.

Lemma below_put_bytes B q bs m : below B m → 0 ≤ q → q + Z.of_nat (length bs) ≤ B → below B (put_bytes q bs m).
Proof. intros. apply below_put_cells; [done|done|by rewrite length_fmap]. Qed.

Lemma below_empty B : below B ∅.
Proof. intros a [c Hc]. by rewrite lookup_empty in Hc. Qed.

Lemma mapped_put_bytes_self p bs m n : n ≤ Z.of_nat (length bs) → mapped (put_bytes p bs m) p n.
Proof. intros Hn. apply mapped_put_cells_self. by rewrite length_fmap. Qed.


(** *** Separate regions *)

(** Regions, each a first address and a size, of which no two share an address. *)
Definition separate (rs : list (Z * Z)) : Prop :=
  ∀ i j x y a, rs !! i = Some x → rs !! j = Some y →
    x.1 ≤ a < x.1 + x.2 → y.1 ≤ a < y.1 + y.2 → i = j.

Lemma separate_apart rs i j x y a : separate rs → rs !! i = Some x → rs !! j = Some y → i ≠ j →
  x.1 ≤ a < x.1 + x.2 → ¬ (y.1 ≤ a < y.1 + y.2).
Proof. intros Hs Hx Hy Hne Ha Hb. by eapply Hne, Hs. Qed.

(** A store inside one region keeps what another one holds. *)
Lemma separate_keep rs i j x y m p bs q cs : separate rs → rs !! i = Some x → rs !! j = Some y → i ≠ j →
  x.1 ≤ p → p + Z.of_nat (length bs) ≤ x.1 + x.2 → y.1 ≤ q → q + Z.of_nat (length cs) ≤ y.1 + y.2 →
  bytes_at m p bs → bytes_at (put_bytes q cs m) p bs.
Proof.
  intros Hs Hx Hy Hne H1 H2 H3 H4 Hb. eapply bytes_at_agree; [exact Hb|]. intros a Ha.
  apply put_bytes_outside. intros Hc. apply (separate_apart rs i j x y a Hs Hx Hy Hne); lia.
Qed.

Lemma separate_check rs :
  forallb (λ i, forallb (λ j, (i =? j)%nat || match rs !! i, rs !! j with
    | Some x, Some y => (x.1 + x.2 <=? y.1) || (y.1 + y.2 <=? x.1)
    | _, _ => true end) (seq 0 (length rs))) (seq 0 (length rs)) = true → separate rs.
Proof.
  intros H i j x y a Hx Hy Ha Hb. rewrite forallb_forall in H.
  assert (∀ k z, rs !! k = Some z → In k (seq 0 (length rs))) as Hin.
  { intros k z Hk%lookup_lt_Some. apply in_seq. lia. }
  specialize (H i (Hin _ _ Hx)). rewrite forallb_forall in H. specialize (H j (Hin _ _ Hy)).
  rewrite Hx, Hy in H. destruct (Nat.eqb_spec i j); [done|]. cbn [orb] in H. lia.
Qed.

Ltac solve_extent := rewrite ?length_le_bytes, ?length_replicate; first [lia | simpl; lia].

Ltac peel_bytes :=
  lazymatch goal with
  | |- bytes_at (put_bytes ?q ?cs ?m) ?p ?bs =>
      tryif constr_eq q p then apply bytes_at_put
      else (apply (bytes_at_put_ne q cs p bs m); [peel_bytes|solve_extent])
  | |- bytes_at (put_cells ?q ?cs ?m) ?p ?bs => apply (bytes_at_put_cells_ne p bs q cs m); [peel_bytes|solve_extent]
  end.

Ltac peel_mapped :=
  lazymatch goal with
  | |- mapped (put_bytes ?q ?cs ?m) ?p ?n =>
      first [constr_eq q p; apply mapped_put_bytes_self; solve_extent | apply mapped_put_bytes; peel_mapped]
  | |- mapped (put_cells ?q ?cs ?m) ?p ?n =>
      first [constr_eq q p; apply mapped_put_cells_self; solve_extent | apply mapped_put; peel_mapped]
  end.

Ltac peel_below :=
  lazymatch goal with
  | |- below ?B (put_bytes ?q ?cs ?m) => apply (below_put_bytes B q cs m); [peel_below|lia|solve_extent]
  | |- below ?B (put_cells ?q ?cs ?m) => apply (below_put_cells B q cs m); [peel_below|lia|solve_extent]
  | |- below _ ∅ => apply below_empty
  end.

(** A word, a series of bytes and a mapped range of the memory [ram]; the values are computed first. *)
Tactic Notation "word_of" tactic3(opened) :=
  lazymatch goal with |- word_at ?n ?m ?p ?v =>
    let p' := eval vm_compute in p in let v' := eval vm_compute in v in
    change (bytes_at m p' (le_bytes n v')); opened; peel_bytes end.
Tactic Notation "range_of" tactic3(opened) :=
  lazymatch goal with |- mapped ?m ?p ?n =>
    let p' := eval vm_compute in p in let n' := eval vm_compute in n in
    change (mapped m p' n'); opened; peel_mapped end.

(** *** Arrays of 64-bit words *)

Definition words (ws : list Z) : list Z := ws ≫= le_bytes 8.

Lemma length_words ws : length (words ws) = (8 * length ws)%nat.
Proof.
  induction ws as [|w ws IH]; [done|]. unfold words in *. cbn [mbind list_bind].
  rewrite length_app, IH, length_le_bytes. simpl. lia.
Qed.

Lemma words_app ws vs : words (ws ++ vs) = words ws ++ words vs.
Proof. apply bind_app. Qed.

Lemma words_middle ws w vs : words (ws ++ w :: vs) = words ws ++ le_bytes 8 w ++ words vs.
Proof. by rewrite words_app. Qed.

Lemma word_in_words m p ws k w : bytes_at m p (words ws) → ws !! k = Some w →
  word_at 8 m (p + 8 * Z.of_nat k) w.
Proof.
  intros H Hk. rewrite <-(take_drop_middle _ _ _ Hk), words_middle in H.
  apply lookup_lt_Some in Hk. apply bytes_at_app in H as [_ [H _]%bytes_at_app].
  rewrite length_words, length_take in H. unfold word_at.
  by replace (p + 8 * Z.of_nat k) with (p + Z.of_nat (8 * (k `min` length ws))) by lia.
Qed.

Lemma put_word_in_words p ws k w v m : ws !! k = Some w →
  put_bytes (p + 8 * Z.of_nat k) (le_bytes 8 v) (put_bytes p (words ws) m) =
  put_bytes p (words (<[k := v]> ws)) m.
Proof.
  intros Hk. rewrite <-(take_drop_middle _ _ _ Hk) at 1. rewrite insert_take_drop by by eapply lookup_lt_Some.
  apply lookup_lt_Some in Hk. rewrite !words_middle, !put_bytes_app, !length_words, !length_take.
  replace (p + 8 * Z.of_nat k) with (p + Z.of_nat (8 * (k `min` length ws))) by lia.
  rewrite put_bytes_comm by (rewrite !length_words, !length_le_bytes, length_take; lia).
  by rewrite put_bytes_put_bytes by by rewrite !length_le_bytes.
Qed.
