(* ===== verification/CString.v ===== *)
(** * String and memory functions (kernel/string.c, kernel/math.c)

    Each function is the loop of the source over [Memory].  A C string is a run of
    non-zero bytes and a NUL ([cstr]); [char] is unsigned, as on AArch64. *)
From stdpp Require Import base list gmap.
From Stdlib Require Import ZArith Lia.
From Stdlib Require Ascii String.
From S2P Require Import Prelude Memory.

Export String.StringSyntax.

(** The bytes of a string literal. *)
Definition chars (s : String.string) : list Z :=
  (λ c, Z.of_N (Ascii.N_of_ascii c)) <$> String.list_ascii_of_string s.
Arguments chars s%_string_scope.

(** ** math.c *)

Definition min (a b : Z) : Z := if a <? b then a else b.

(** ** string.c *)

(** [while ( *src != 0) { *dest = *src; src++; dest++; } *dest = 0; return dest;] *)
Definition copy_loop (dest src : Z) : M mem Z :=
  mem_fuel (λ fuel, loop fuel (λ '(dest, src),
    let* c := loadb src in
    if c =? 0 then storeb dest 0 ;; ret (inr dest)
    else storeb dest c ;; ret (inl (dest + 1, src + 1))) (dest, src)).

(** The same with [&& n > 0] in the condition and [n--] in the body. *)
Definition copy_loop_n (dest src n : Z) : M mem Z :=
  mem_fuel (λ fuel, loop fuel (λ '(dest, src, n),
    let* c := loadb src in
    if negb (c =? 0) && (0 <? n)
    then storeb dest c ;; ret (inl (dest + 1, src + 1, n - 1))
    else storeb dest 0 ;; ret (inr dest)) (dest, src, n)).

(** [while ( *dest != 0) dest++;] *)
Definition skip_loop (dest : Z) : M mem Z :=
  mem_fuel (λ fuel, loop fuel (λ dest,
    let* c := loadb dest in
    if c =? 0 then ret (inr dest) else ret (inl (dest + 1))) dest).

Definition strcpy (dest src : Z) : M mem Z := copy_loop dest src.

Definition strncpy (dest src n : Z) : M mem Z := copy_loop_n dest src n.

Definition strset (dest c : Z) : M mem unit :=
  mem_fuel (λ fuel, loop fuel (λ dest,
    let* d := loadb dest in
    if d =? 0 then ret (inr tt) else storeb dest c ;; ret (inl (dest + 1))) dest).

Definition strcat (dest src : Z) : M mem Z :=
  let* dest := skip_loop dest in copy_loop dest src.

Definition strncat (dest src n : Z) : M mem Z :=
  let* dest := skip_loop dest in copy_loop_n dest src n.

Definition strcmp (s1 s2 : Z) : M mem Z :=
  let* (s1, s2) := mem_fuel (λ fuel, loop fuel (λ '(s1, s2),
    let* c1 := loadb s1 in
    if c1 =? 0 then ret (inr (s1, s2)) else
    let* c2 := loadb s2 in
    if c1 =? c2 then ret (inl (s1 + 1, s2 + 1)) else ret (inr (s1, s2))) (s1, s2)) in
  let* c1 := loadb s1 in
  let* c2 := loadb s2 in
  ret (c1 - c2).

Definition strlen (str : Z) : M mem Z :=
  mem_fuel (λ fuel, loop fuel (λ '(str, len),
    let* c := loadb str in
    if c =? 0 then ret (inr len)
    else let* len := int_of (len + 1) in ret (inl (str + 1, len))) (str, 0)).

(** The 64-bit pattern: eight rounds of [big_c <<= 8; big_c |= c;]. *)
Definition memset_pattern (c : Z) : Z :=
  Nat.iter 8 (λ big_c, Z.lor (u64 (Z.shiftl big_c 8)) (u64 c)) 0.

Definition memset (str c n : Z) : M mem Z :=
  let big_c := memset_pattern c in
  let big_writes := i32 (n / 8) in
  let* big_bytes := int_of (big_writes * 8) in
  let small_writes := i32 (u64 (n - big_bytes)) in
  for_int big_writes (λ i, store64 (str + 8 * i) big_c) ;;
  for_int small_writes (λ i, storeb (str + big_bytes + i) c) ;;
  ret str.

Definition strrev (str : Z) : M mem unit :=
  let* len := strlen str in
  mem_fuel (λ fuel, loop fuel (λ '(lft, rgt),
    if lft <? rgt then
      let* swap := loadb (str + lft) in
      let* r := loadb (str + rgt) in
      storeb (str + lft) r ;;
      storeb (str + rgt) swap ;;
      ret (inl (lft + 1, rgt - 1))
    else ret (inr tt)) (0, len - 1)).

Definition memcpy (dest src n : Z) : M mem Z :=
  for_int n (λ i, let* c := loadb (src + i) in storeb (dest + i) c) ;;
  ret dest.

(** ** The specification side *)

Definition char_ok (b : Z) : Prop := 0 < b < 256.

(** The C string with characters [s] starts at [p]. *)
Definition cstr (m : mem) (p : Z) (s : list Z) : Prop :=
  bytes_at m p (s ++ [0]) ∧ Forall char_ok s.

(** The comparison of two strings as lists: the difference of the first bytes that
    differ, the end of a string counting as 0. *)
Fixpoint str_diff (s t : list Z) : Z :=
  match s, t with
  | [], [] => 0
  | [], b :: _ => 0 - b
  | a :: _, [] => a - 0
  | a :: s', b :: t' => if a =? b then str_diff s' t' else a - b
  end.

(** Strict lexicographic order on character lists. *)
Fixpoint str_lt (s t : list Z) : bool :=
  match s, t with
  | _, [] => false
  | [], _ :: _ => true
  | a :: s', b :: t' => (a <? b) || ((a =? b) && str_lt s' t')
  end.

Definition disjoint (p n q k : Z) : Prop := p + n ≤ q ∨ q + k ≤ p.

(** * Lemmas *)

Lemma cstr_bytes m p s : cstr m p s → bytes_at m p s ∧ m !! (p + Z.of_nat (length s)) = Some (Some 0).
Proof.
  intros [H _]. apply bytes_at_app in H as [H0 H]. split; [done|].
  by apply bytes_at_cons in H as [H _].
Qed.

Lemma cstr_bytes_nul m p s : cstr m p s → bytes_at m (p + Z.of_nat (length s)) [0].
Proof. intros [H _]. by apply bytes_at_app in H as [_ H]. Qed.

Lemma cstr_size m p s : cstr m p s → (length s < size m)%nat.
Proof. intros [H%bytes_at_size _]. rewrite length_app in H. simpl in H. lia. Qed.

Lemma cstr_char m p s i b : cstr m p s → s !! i = Some b →
  m !! (p + Z.of_nat i) = Some (Some b) ∧ 0 < b < 256.
Proof.
  intros H Hi. split; [by apply (cstr_bytes _ _ _ H)|].
  destruct H as [_ H]. by eapply Forall_lookup in H.
Qed.

Lemma cstr_agree m m' p s : cstr m p s →
  (∀ a, p ≤ a < p + Z.of_nat (length s) + 1 → m' !! a = m !! a) → cstr m' p s.
Proof.
  intros [H Hs] Hag. split; [|done]. eapply bytes_at_agree; [done|].
  intros a. rewrite length_app; simpl. intros. apply Hag. lia.
Qed.

Lemma cstr_mapped m p s : cstr m p s → mapped m p (Z.of_nat (length s) + 1).
Proof.
  intros [H%bytes_at_mapped _]. rewrite length_app in H; simpl in H.
  eapply mapped_weaken; [done|lia|lia].
Qed.

Lemma cstr_put p s m : Forall char_ok s → cstr (put_bytes p (s ++ [0]) m) p s.
Proof. split; [apply bytes_at_put|done]. Qed.

(** Every position of a C string is either a character or the NUL. *)
Lemma cstr_scan m p s i : cstr m p s → (i ≤ length s)%nat →
  (∃ b, s !! i = Some b ∧ m !! (p + Z.of_nat i) = Some (Some b) ∧ 0 < b < 256) ∨
  (i = length s ∧ m !! (p + Z.of_nat i) = Some (Some 0)).
Proof.
  intros H Hi. destruct (decide (i = length s)) as [->|Hne].
  - right. split; [done|]. apply (cstr_bytes _ _ _ H).
  - left. destruct (lookup_lt_is_Some_2 s i) as [b Hb]; [lia|].
    exists b. split; [done|]. eapply cstr_char; done.
Qed.

(** [a] lies outside the first [k] bytes from [p]. *)
Ltac outside := rewrite put_bytes_outside by (rewrite ?length_take, ?length_app; simpl; lia).

Lemma copy_loop_spec m dest src s :
  cstr m src s →
  mapped m dest (Z.of_nat (length s) + 1) →
  disjoint dest (Z.of_nat (length s) + 1) src (Z.of_nat (length s) + 1) →
  copy_loop dest src m = Ok (dest + Z.of_nat (length s)) (put_bytes dest (s ++ [0]) m).
Proof.
  intros Hs Hd Hdis. apply wp_eq. unfold copy_loop, mem_fuel. pose proof (cstr_size _ _ _ Hs).
  apply (wp_loop (λ '(d, q) mm, ∃ i, (i ≤ length s)%nat ∧ d = dest + Z.of_nat i ∧
    q = src + Z.of_nat i ∧ mm = put_bytes dest (take i s) m)
    (λ '(_, q), Z.to_nat (src + Z.of_nat (length s) - q))).
  - intros [d q] mm (i & Hi & -> & -> & ->). unfold disjoint in Hdis. apply wp_bind.
    assert (is_Some (put_bytes dest (take i s) m !! (dest + Z.of_nat i))) as Hmap.
    { apply mapped_put_bytes with (p := dest) (n := Z.of_nat (length s) + 1); [done|lia]. }
    destruct (cstr_scan _ _ _ i Hs Hi) as [(b & Hb & Hm & Hr)|[-> Hm]].
    + eapply wp_loadb; [outside; done|]. destruct (Z.eqb_spec b 0); [lia|].
      apply wp_bind, wp_storeb; [done|]. apply wp_ret.
      apply lookup_lt_Some in Hb as ?. split; [|lia].
      exists (S i). repeat split; try lia. erewrite take_S_r by done.
      rewrite put_bytes_snoc, length_take, u8_small by lia.
      by replace (i `min` length s)%nat with i by lia.
    + eapply wp_loadb; [outside; done|]. simpl.
      apply wp_bind, wp_storeb; [done|]. apply wp_ret. split; [done|].
      rewrite take_ge by done. by rewrite put_bytes_snoc.
  - exists 0%nat. rewrite !Z.add_0_r, take_0. split; [lia|done].
  - lia.
Qed.

Lemma copy_loop_n_spec m dest src s n :
  cstr m src s → 0 ≤ n →
  mapped m dest (Z.min n (Z.of_nat (length s)) + 1) →
  disjoint dest (Z.min n (Z.of_nat (length s)) + 1) src (Z.of_nat (length s) + 1) →
  copy_loop_n dest src n m =
    Ok (dest + Z.min n (Z.of_nat (length s))) (put_bytes dest (take (Z.to_nat n) s ++ [0]) m).
Proof.
  intros Hs Hn Hd Hdis. apply wp_eq. unfold copy_loop_n, mem_fuel.
  pose proof (cstr_size _ _ _ Hs).
  apply (wp_loop (λ '(d, q, k) mm, ∃ i, (i ≤ length s)%nat ∧ Z.of_nat i ≤ n ∧
    d = dest + Z.of_nat i ∧ q = src + Z.of_nat i ∧ k = n - Z.of_nat i ∧
    mm = put_bytes dest (take i s) m)
    (λ '(_, q, _), Z.to_nat (src + Z.of_nat (length s) - q))).
  - intros [[d q] k] mm (i & Hi & Hin & -> & -> & -> & ->). unfold disjoint in Hdis. apply wp_bind.
    assert (is_Some (put_bytes dest (take i s) m !! (dest + Z.of_nat i))) as Hmap.
    { eapply mapped_put_bytes; [exact Hd|lia]. }
    destruct (cstr_scan _ _ _ i Hs Hi) as [(b & Hb & Hm & Hr)|[-> Hm]].
    + eapply wp_loadb; [outside; done|]. apply lookup_lt_Some in Hb as ?.
      destruct (Z.eqb_spec b 0); [lia|]. destruct (Z.ltb_spec 0 (n - Z.of_nat i)); simpl.
      * apply wp_bind, wp_storeb; [done|]. apply wp_ret. split; [|lia].
        exists (S i). repeat split; try lia. erewrite take_S_r by done.
        rewrite put_bytes_snoc, length_take, u8_small by lia.
        by replace (i `min` length s)%nat with i by lia.
      * apply wp_bind, wp_storeb; [done|]. apply wp_ret. split; [lia|].
        replace (Z.to_nat n) with i by lia. rewrite put_bytes_snoc, length_take.
        by replace (i `min` length s)%nat with i by lia.
    + eapply wp_loadb; [outside; done|]. simpl.
      apply wp_bind, wp_storeb; [done|]. apply wp_ret. split; [lia|].
      rewrite !take_ge by lia. by rewrite put_bytes_snoc.
  - exists 0%nat. rewrite !Z.add_0_r, take_0. repeat split; lia.
  - lia.
Qed.

Lemma skip_loop_spec m dest s :
  cstr m dest s → skip_loop dest m = Ok (dest + Z.of_nat (length s)) m.
Proof.
  intros Hs. apply wp_eq. unfold skip_loop, mem_fuel. pose proof (cstr_size _ _ _ Hs).
  apply (wp_loop (λ d mm, mm = m ∧ ∃ i, (i ≤ length s)%nat ∧ d = dest + Z.of_nat i)
    (λ d, Z.to_nat (dest + Z.of_nat (length s) - d))).
  - intros d mm (-> & i & Hi & ->). apply wp_bind.
    destruct (cstr_scan _ _ _ i Hs Hi) as [(b & Hb & Hm & Hr)|[-> Hm]].
    + eapply wp_loadb; [done|]. destruct (Z.eqb_spec b 0); [lia|]. apply wp_ret.
      apply lookup_lt_Some in Hb as ?. split; [|lia]. split; [done|]. exists (S i). lia.
    + eapply wp_loadb; [done|]. simpl. by apply wp_ret.
  - split; [done|]. exists 0%nat. lia.
  - lia.
Qed.

Lemma strlen_spec m p s :
  cstr m p s → Z.of_nat (length s) ≤ INT_MAX → strlen p m = Ok (Z.of_nat (length s)) m.
Proof.
  intros Hs Hmax. apply wp_eq. unfold strlen, mem_fuel. pose proof (cstr_size _ _ _ Hs).
  apply (wp_loop (λ '(q, len) mm, mm = m ∧ ∃ i, (i ≤ length s)%nat ∧ q = p + Z.of_nat i ∧
    len = Z.of_nat i) (λ '(q, _), Z.to_nat (p + Z.of_nat (length s) - q))).
  - intros [q len] mm (-> & i & Hi & -> & ->). apply wp_bind.
    destruct (cstr_scan _ _ _ i Hs Hi) as [(b & Hb & Hm & Hr)|[-> Hm]].
    + eapply wp_loadb; [done|]. destruct (Z.eqb_spec b 0); [lia|].
      apply lookup_lt_Some in Hb as ?.
      wp_step. wp_step. apply wp_ret. split; [|lia]. split; [done|]. exists (S i). lia.
    + eapply wp_loadb; [done|]. simpl. by apply wp_ret.
  - split; [done|]. exists 0%nat. lia.
  - lia.
Qed.

Lemma strcpy_spec m dest src s :
  cstr m src s →
  mapped m dest (Z.of_nat (length s) + 1) →
  disjoint dest (Z.of_nat (length s) + 1) src (Z.of_nat (length s) + 1) →
  strcpy dest src m = Ok (dest + Z.of_nat (length s)) (put_bytes dest (s ++ [0]) m).
Proof. apply copy_loop_spec. Qed.

Lemma strcat_spec m dest src d s :
  cstr m dest d → cstr m src s →
  mapped m (dest + Z.of_nat (length d)) (Z.of_nat (length s) + 1) →
  disjoint (dest + Z.of_nat (length d)) (Z.of_nat (length s) + 1) src (Z.of_nat (length s) + 1) →
  strcat dest src m =
    Ok (dest + Z.of_nat (length d) + Z.of_nat (length s))
       (put_bytes (dest + Z.of_nat (length d)) (s ++ [0]) m).
Proof.
  intros Hd Hs Hm Hdis. unfold strcat. rewrite (bind_ok _ _ _ _ _ (skip_loop_spec _ _ _ Hd)).
  by apply copy_loop_spec.
Qed.

Lemma strncat_spec m dest src d s n :
  cstr m dest d → cstr m src s → 0 ≤ n →
  mapped m (dest + Z.of_nat (length d)) (Z.min n (Z.of_nat (length s)) + 1) →
  disjoint (dest + Z.of_nat (length d)) (Z.min n (Z.of_nat (length s)) + 1)
    src (Z.of_nat (length s) + 1) →
  strncat dest src n m =
    Ok (dest + Z.of_nat (length d) + Z.min n (Z.of_nat (length s)))
       (put_bytes (dest + Z.of_nat (length d)) (take (Z.to_nat n) s ++ [0]) m).
Proof.
  intros Hd Hs Hn Hm Hdis. unfold strncat. rewrite (bind_ok _ _ _ _ _ (skip_loop_spec _ _ _ Hd)).
  by apply copy_loop_n_spec.
Qed.

Lemma strset_spec m dest s c :
  cstr m dest s → strset dest c m = Ok tt (put_bytes dest (replicate (length s) (u8 c)) m).
Proof.
  intros Hs. apply wp_eq. unfold strset, mem_fuel. pose proof (cstr_size _ _ _ Hs).
  apply (wp_loop (λ d mm, ∃ i, (i ≤ length s)%nat ∧ d = dest + Z.of_nat i ∧
    mm = put_bytes dest (replicate i (u8 c)) m)
    (λ d, Z.to_nat (dest + Z.of_nat (length s) - d))).
  - intros d mm (i & Hi & -> & ->). apply wp_bind.
    destruct (cstr_scan _ _ _ i Hs Hi) as [(b & Hb & Hm & Hr)|[-> Hm]].
    + apply lookup_lt_Some in Hb as ?. eapply wp_loadb.
      { rewrite put_bytes_outside; [done|rewrite length_replicate; lia]. }
      destruct (Z.eqb_spec b 0); [lia|]. apply wp_bind, wp_storeb.
      { rewrite put_bytes_outside; [by eexists|rewrite length_replicate; lia]. }
      apply wp_ret. split; [|lia]. exists (S i). repeat split; try lia.
      rewrite (replicate_S_end i). by rewrite put_bytes_snoc, length_replicate.
    + eapply wp_loadb.
      { rewrite put_bytes_outside; [done|rewrite length_replicate; lia]. }
      simpl. by apply wp_ret.
  - exists 0%nat. rewrite Z.add_0_r. split; [lia|done].
  - lia.
Qed.

Lemma strcmp_spec m p q s t :
  cstr m p s → cstr m q t → strcmp p q m = Ok (str_diff s t) m.
Proof.
  intros Hs Ht. apply wp_eq. unfold strcmp. apply wp_bind. unfold mem_fuel.
  pose proof (cstr_size _ _ _ Hs).
  apply (wp_loop (λ '(p', q') mm, mm = m ∧ ∃ i, (i ≤ length s)%nat ∧ (i ≤ length t)%nat ∧
    p' = p + Z.of_nat i ∧ q' = q + Z.of_nat i ∧
    str_diff s t = str_diff (drop i s) (drop i t))
    (λ '(p', _), Z.to_nat (p + Z.of_nat (length s) - p'))).
  - intros [p' q'] mm (-> & i & Hi & Hj & -> & -> & Heq). apply wp_bind.
    destruct (cstr_scan _ _ _ i Hs Hi) as [(a & Ha & Hma & Hra)|[-> Hma]];
      (eapply wp_loadb; [exact Hma|]); simpl.
    + destruct (Z.eqb_spec a 0); [lia|]. apply wp_bind.
      assert (Hdiff : str_diff s t = str_diff (a :: drop (S i) s) (drop i t))
        by by rewrite Heq, (drop_S _ _ _ Ha).
      apply lookup_lt_Some in Ha as ?.
      destruct (cstr_scan _ _ _ i Ht Hj) as [(b & Hb & Hmb & Hrb)|[-> Hmb]];
        (eapply wp_loadb; [exact Hmb|]).
      * apply lookup_lt_Some in Hb as ?. rewrite (drop_S _ _ _ Hb) in Hdiff. simpl in Hdiff.
        destruct (Z.eqb_spec a b) as [->|Hne]; apply wp_ret.
        -- split; [|lia]. split; [done|]. exists (S i). repeat split; try lia.
        -- apply wp_bind. eapply wp_loadb; [exact Hma|]. apply wp_bind.
           eapply wp_loadb; [exact Hmb|]. by apply wp_ret.
      * destruct (Z.eqb_spec a 0); [lia|]. apply wp_ret.
        apply wp_bind. eapply wp_loadb; [exact Hma|]. apply wp_bind.
        eapply wp_loadb; [exact Hmb|]. apply wp_ret. by rewrite Hdiff, (drop_ge t) by lia.
    + apply wp_ret. destruct (cstr_scan _ _ _ (length s) Ht Hj) as [(b & Hb & Hmb & Hrb)|[Hl Hmb]].
      all: apply wp_bind; eapply wp_loadb; [exact Hma|]; apply wp_bind;
        eapply wp_loadb; [exact Hmb|]; apply wp_ret; split; [|done].
      * by rewrite Heq, (drop_ge s), (drop_S _ _ _ Hb) by lia.
      * by rewrite Heq, (drop_ge s), (drop_ge t) by lia.
  - split; [done|]. exists 0%nat. rewrite !Z.add_0_r, !drop_0. repeat split; lia.
  - lia.
Qed.

(** The eight bytes of the pattern are the fill byte. *)
Lemma memset_pattern_bytes c : 0 ≤ c < 256 → le_bytes 8 (memset_pattern c) = replicate 8 c.
Proof.
  intros Hc.
  assert (forallb (λ n, bool_decide
    (le_bytes 8 (memset_pattern (Z.of_nat n)) = replicate 8 (Z.of_nat n))) (seq 0 256) = true)
    as H by (vm_compute; reflexivity).
  rewrite forallb_forall in H. specialize (H (Z.to_nat c)).
  rewrite Z2Nat.id in H by lia. eapply bool_decide_eq_true_1, H, in_seq. lia.
Qed.

Lemma memset_spec m str c n :
  0 ≤ c < 256 → 0 ≤ n ≤ INT_MAX → mapped m str n →
  memset str c n m = Ok str (put_bytes str (replicate (Z.to_nat n) c) m).
Proof.
  intros Hc Hn Hm. apply wp_eq. unfold memset. cbv zeta.
  pose proof (Z.div_mod n 8). pose proof (Z.mod_pos_bound n 8). unfold INT_MAX in Hn.
  rewrite i32_small by (unfold INT_MIN, INT_MAX; lia).
  wp_step. wp_step. apply wp_bind.
  apply (wp_for_int (λ i mm, mm = put_bytes str (replicate (Z.to_nat (8 * i)) c) m)).
  { unfold INT_MAX. lia. }
  { intros i mm Hi ->. apply wp_store_word.
    { apply mapped_put_bytes. eapply mapped_weaken; [done|lia|lia]. }
    rewrite memset_pattern_bytes by done.
    replace (Z.to_nat (8 * (i + 1))) with (Z.to_nat (8 * i) + 8)%nat by lia.
    rewrite replicate_add, put_bytes_app, length_replicate, Z2Nat.id by lia.
    apply put_bytes_comm. rewrite !length_replicate. lia. }
  { done. }
  intros mm ->. rewrite u64_small, i32_small by (unfold INT_MIN, INT_MAX; lia).
  apply wp_bind. apply (wp_for_int (λ i mm,
    mm = put_bytes str (replicate (Z.to_nat (n / 8 * 8 + i)) c) m)).
  { unfold INT_MAX. lia. }
  { intros i mm Hi ->. apply wp_storeb.
    { eapply mapped_put_bytes; [exact Hm|lia]. }
    rewrite u8_small by lia.
    replace (Z.to_nat (n / 8 * 8 + (i + 1))) with (S (Z.to_nat (n / 8 * 8 + i))) by lia.
    by rewrite replicate_S_end, put_bytes_snoc, length_replicate, Z2Nat.id, Z.add_assoc by lia. }
  { by rewrite Z.add_0_r, (Z.mul_comm 8). }
  intros mm ->. apply wp_ret. split; [done|].
  by replace (n / 8 * 8 + (n - n / 8 * 8)) with n by lia.
Qed.

Lemma memcpy_spec m dest src bs :
  bytes_at m src bs → Forall (λ b, 0 ≤ b < 256) bs →
  Z.of_nat (length bs) ≤ INT_MAX →
  mapped m dest (Z.of_nat (length bs)) →
  disjoint dest (Z.of_nat (length bs)) src (Z.of_nat (length bs)) →
  memcpy dest src (Z.of_nat (length bs)) m = Ok dest (put_bytes dest bs m).
Proof.
  intros Hs Hr Hmax Hd Hdis. unfold disjoint in Hdis. apply wp_eq. unfold memcpy. apply wp_bind.
  apply (wp_for_int (λ i mm, mm = put_bytes dest (take (Z.to_nat i) bs) m)); [lia| |done|].
  - intros i mm Hi ->. destruct (lookup_lt_is_Some_2 bs (Z.to_nat i)) as [b Hb]; [lia|].
    apply wp_bind. eapply wp_loadb.
    { outside. eapply bytes_at_lookupZ; [done|lia|done]. }
    apply wp_storeb.
    { eapply mapped_put_bytes; [exact Hd|lia]. }
    eapply Forall_lookup in Hr; [|done]. simpl in Hr.
    replace (Z.to_nat (i + 1)) with (S (Z.to_nat i)) by lia. erewrite take_S_r by done.
    rewrite put_bytes_snoc, length_take, u8_small by lia.
    by replace (Z.of_nat (Z.to_nat i `min` length bs)) with i by lia.
  - intros mm ->. apply wp_ret. split; [done|]. by rewrite take_ge by lia.
Qed.

(** The memory of [strrev] after [i] exchanges: the outer [i] characters of both ends
    are already reversed. *)
Definition rev_state (m : mem) (p : Z) (s : list Z) (i : Z) (mm : mem) : Prop :=
  let len := Z.of_nat (length s) in
  ∀ a, mm !! a =
    if decide (p ≤ a < p + len ∧ (a - p < i ∨ len - i ≤ a - p))
    then Some <$> s !! Z.to_nat (len - 1 - (a - p)) else m !! a.

Lemma rev_state_done m p s i mm :
  cstr m p s → rev_state m p s i mm → Z.of_nat (length s) - 1 ≤ 2 * i →
  mm = put_bytes p (reverse s) m.
Proof.
  intros [Hs _]%cstr_bytes Hst Hi. apply map_eq. intros a.
  rewrite Hst, put_bytes_lookup, length_reverse.
  destruct (decide (p ≤ a < p + Z.of_nat (length s))) as [Ha|]; [|by rewrite decide_False by lia].
  rewrite reverse_lookup by lia.
  replace (length s - S (Z.to_nat (a - p)))%nat
    with (Z.to_nat (Z.of_nat (length s) - 1 - (a - p))) by lia.
  destruct (decide _) as [|Hmid]; [done|].
  destruct (lookup_lt_is_Some_2 s (Z.to_nat (a - p))) as [b Hb]; [lia|].
  replace (Z.of_nat (length s) - 1 - (a - p)) with (a - p) by lia.
  rewrite Hb. simpl. replace a with (p + (a - p)) at 1 by lia.
  eapply bytes_at_lookupZ; [done|lia|done].
Qed.

Lemma rev_state_step m p s i mm x y :
  rev_state m p s i mm → 0 ≤ i → i < Z.of_nat (length s) - 1 - i →
  s !! Z.to_nat i = Some x → s !! Z.to_nat (Z.of_nat (length s) - 1 - i) = Some y →
  rev_state m p s (i + 1)
    (<[p + (Z.of_nat (length s) - 1 - i) := Some x]> (<[p + i := Some y]> mm)).
Proof.
  intros Hst Hi Hlt Hx Hy a. set (len := Z.of_nat (length s)) in *.
  destruct (decide (a = p + (len - 1 - i))) as [->|Hn1].
  { rewrite lookup_insert_eq, decide_True by lia.
    replace (len - 1 - (p + (len - 1 - i) - p)) with i by lia. by rewrite Hx. }
  rewrite lookup_insert_ne by done. destruct (decide (a = p + i)) as [->|Hn2].
  { rewrite lookup_insert_eq, decide_True by lia.
    replace (len - 1 - (p + i - p)) with (len - 1 - i) by lia. by rewrite Hy. }
  rewrite lookup_insert_ne, Hst by done. fold len.
  destruct (decide _), (decide _); try lia; done.
Qed.

Lemma strrev_spec m p s :
  cstr m p s → Z.of_nat (length s) ≤ INT_MAX →
  strrev p m = Ok tt (put_bytes p (reverse s) m).
Proof.
  intros Hs Hmax. unfold strrev. rewrite (bind_ok _ _ _ _ _ (strlen_spec _ _ _ Hs Hmax)).
  apply wp_eq. unfold mem_fuel. pose proof (cstr_size _ _ _ Hs).
  destruct (cstr_bytes _ _ _ Hs) as [Hb _]. pose proof (bytes_at_mapped _ _ _ Hb) as Hmap.
  apply (wp_loop (λ '(l, r) mm, 0 ≤ l ∧ 2 * l ≤ Z.of_nat (length s) ∧
    r = Z.of_nat (length s) - 1 - l ∧ rev_state m p s l mm)
    (λ '(l, r), Z.to_nat (Z.of_nat (length s) - l))).
  - intros [l r] mm (Hl & Hl2 & -> & Hst).
    destruct (Z.ltb_spec l (Z.of_nat (length s) - 1 - l)).
    + destruct (lookup_lt_is_Some_2 s (Z.to_nat l)) as [x Hx]; [lia|].
      destruct (lookup_lt_is_Some_2 s (Z.to_nat (Z.of_nat (length s) - 1 - l))) as [y Hy]; [lia|].
      assert (Forall char_ok s) as Hok by apply Hs.
      pose proof (Forall_lookup_1 _ _ _ _ Hok Hx) as [Hx0 Hx1].
      pose proof (Forall_lookup_1 _ _ _ _ Hok Hy) as [Hy0 Hy1].
      apply wp_bind. eapply wp_loadb.
      { rewrite Hst, decide_False by lia. eapply bytes_at_lookupZ; [done|lia|exact Hx]. }
      apply wp_bind. eapply wp_loadb.
      { rewrite Hst, decide_False by lia. eapply bytes_at_lookupZ; [done|lia|exact Hy]. }
      apply wp_bind, wp_storeb.
      { rewrite Hst, decide_False by lia. apply Hmap. lia. }
      apply wp_bind, wp_storeb.
      { rewrite lookup_insert_ne, Hst, decide_False by lia. apply Hmap. lia. }
      rewrite !u8_small by lia. apply wp_ret. split; [|lia].
      repeat split; try lia. by apply rev_state_step.
    + apply wp_ret. split; [done|]. eapply rev_state_done; [done|done|lia].
  - repeat split; try lia. intros a. by rewrite decide_False by lia.
  - lia.
Qed.

(** ** Termination *)

(** The mapped bytes a scan from [p] may still visit. *)
Definition ahead (p : Z) (m : mem) : nat := size (filter (λ a, p ≤ a) (dom m)).

Lemma ahead_size p m : (ahead p m ≤ size m)%nat.
Proof.
  unfold ahead. rewrite <-size_dom. apply subseteq_size.
  intros a. by rewrite elem_of_filter; intros [_ ?].
Qed.

Lemma ahead_step p m : is_Some (m !! p) → (ahead (p + 1) m < ahead p m)%nat.
Proof.
  intros Hp%elem_of_dom. unfold ahead. apply subset_size. split.
  - intros a. rewrite !elem_of_filter. intros [? ?]. split; [lia|done].
  - intros Hsub. specialize (Hsub p). rewrite !elem_of_filter in Hsub.
    destruct Hsub as [? _]; [done|lia].
Qed.

Lemma ahead_store p m a c : is_Some (m !! a) → ahead p (<[a := c]> m) = ahead p m.
Proof.
  intros Ha%elem_of_dom. unfold ahead. rewrite dom_insert_L.
  by replace ({[a]} ∪ dom m) with (dom m : gset Z) by set_solver.
Qed.

Lemma loadb_cases p m :
  (∃ b, loadb p m = Ok b m ∧ is_Some (m !! p)) ∨ loadb p m = Fault (Uninitialised p) ∨
  loadb p m = Fault (BadAddress p).
Proof. unfold loadb. destruct (m !! p) as [[b|]|]; eauto 10. Qed.

Lemma storeb_cases p v m :
  (storeb p v m = Ok tt (<[p := Some (u8 v)]> m) ∧ is_Some (m !! p)) ∨
  storeb p v m = Fault (BadAddress p).
Proof. unfold storeb. destruct (m !! p) as [c|]; eauto 10. Qed.

(** Case analysis on the byte accesses of a loop body. *)
Ltac access_step :=
  match goal with
  | |- context [loadb ?p ?m] =>
      let H := fresh "Hld" in
      destruct (loadb_cases p m) as [(? & H & ?)|[H|H]]; rewrite H; simpl; try done
  | |- context [storeb ?p ?v ?m] =>
      let H := fresh "Hst" in
      destruct (storeb_cases p v m) as [[H ?]|H]; rewrite H; simpl; try done
  | |- context [if ?b then _ else _] => destruct b; simpl; try done
  end.

Ltac scan_terminates meas :=
  unfold mem_fuel; apply (loop_terminates (λ _ _, True) meas); [|done|];
  [intros l s _; simpl; repeat match goal with x : (_ * _)%type |- _ => destruct x end;
   simpl; unfold bind, ret; repeat access_step; split; [done|];
   rewrite ?ahead_store by done; by apply ahead_step
  |pose proof ahead_size; simpl; unfold lt; apply le_n_S; auto].

Lemma copy_loop_terminates dest src m : copy_loop dest src m ≠ Fault OutOfFuel.
Proof. unfold copy_loop. scan_terminates (λ (l : Z * Z) m, ahead l.2 m). Qed.

Lemma copy_loop_n_terminates dest src n m : copy_loop_n dest src n m ≠ Fault OutOfFuel.
Proof. unfold copy_loop_n. scan_terminates (λ (l : Z * Z * Z) m, ahead l.1.2 m). Qed.

Lemma skip_loop_terminates dest m : skip_loop dest m ≠ Fault OutOfFuel.
Proof. unfold skip_loop. scan_terminates ahead. Qed.

Lemma strset_terminates dest c m : strset dest c m ≠ Fault OutOfFuel.
Proof. unfold strset. scan_terminates ahead. Qed.

Lemma strlen_terminates p m : strlen p m ≠ Fault OutOfFuel.
Proof. unfold strlen, int_of. scan_terminates (λ (l : Z * Z) m, ahead l.1 m). Qed.

Lemma bind_no_fuel {St A B} (x : M St A) (k : A → M St B) s :
  x s ≠ Fault OutOfFuel → (∀ a s', k a s' ≠ Fault OutOfFuel) → bind x k s ≠ Fault OutOfFuel.
Proof. unfold bind. destruct (x s) as [a s'|s'|f]; naive_solver. Qed.

Lemma strcmp_terminates p q m : strcmp p q m ≠ Fault OutOfFuel.
Proof.
  unfold strcmp. apply bind_no_fuel.
  - scan_terminates (λ (l : Z * Z) m, ahead l.1 m).
  - intros [a b] s. unfold bind. by repeat access_step.
Qed.

(** ** Comparison of strings *)

Lemma str_diff_0 s t : Forall char_ok s → Forall char_ok t → str_diff s t = 0 ↔ s = t.
Proof.
  unfold char_ok. intros Hs. revert t.
  induction Hs as [|a s Ha Hs IH]; intros [|b t] Ht; simpl; [done| |split; [lia|done]|].
  - apply Forall_cons in Ht as [Hb _]. split; [lia|done].
  - apply Forall_cons in Ht as [Hb Ht]. destruct (Z.eqb_spec a b) as [->|Hne].
    + rewrite IH by done. naive_solver.
    + split; [lia|]. naive_solver.
Qed.

Lemma str_diff_neg s t : Forall char_ok s → Forall char_ok t →
  str_diff s t < 0 ↔ str_lt s t = true.
Proof.
  unfold char_ok. intros Hs. revert t.
  induction Hs as [|a s Ha Hs IH]; intros [|b t] Ht; simpl; [done| |split; [lia|done]|].
  - apply Forall_cons in Ht as [Hb _]. split; [done|lia].
  - apply Forall_cons in Ht as [Hb Ht]. destruct (Z.eqb_spec a b) as [->|Hne]; simpl.
    + rewrite Z.ltb_irrefl. simpl. by apply IH.
    + rewrite orb_false_r, Z.ltb_lt. lia.
Qed.

(** * Properties *)

(** Copying and appending: a string written by [strcpy] and extended by [strcat] reads
    as the concatenation. *)
Lemma strcat_cstr m dest src d s :
  cstr m dest d → cstr m src s →
  mapped m dest (Z.of_nat (length d + length s) + 1) →
  disjoint dest (Z.of_nat (length d + length s) + 1) src (Z.of_nat (length s) + 1) →
  strcat dest src m = Ok (dest + Z.of_nat (length d + length s))
    (put_bytes dest (d ++ s ++ [0]) m).
Proof.
  unfold disjoint. intros Hd Hs Hm Hdis. rewrite (strcat_spec _ _ _ d s); try done.
  - f_equal; [lia|]. symmetry. rewrite put_bytes_app.
    destruct (cstr_bytes _ _ _ Hd) as [Hb _].
    apply put_bytes_id. apply bytes_at_put_ne; [done|]. lia.
  - eapply mapped_weaken; [done|lia|lia].
  - unfold disjoint. lia.
Qed.

(** [strcat] turns the string at [dest] into the concatenation, returns the
    address of its terminator, and writes nothing outside the string. *)
Theorem strcat_concatenates m dest src d s :
  cstr m dest d → cstr m src s →
  mapped m dest (Z.of_nat (length d + length s) + 1) →
  disjoint dest (Z.of_nat (length d + length s) + 1) src (Z.of_nat (length s) + 1) →
  ∃ m', strcat dest src m = Ok (dest + Z.of_nat (length d + length s)) m' ∧
    cstr m' dest (d ++ s) ∧
    ∀ a, ¬ (dest + Z.of_nat (length d) ≤ a ≤ dest + Z.of_nat (length d + length s)) →
      m' !! a = m !! a.
Proof.
  intros Hd Hs Hm Hdis. eexists. split; [by apply strcat_cstr|]. split.
  - rewrite app_assoc. apply cstr_put, Forall_app. split; [apply Hd|apply Hs].
  - intros a Ha. rewrite put_bytes_app, (put_bytes_comm dest) by (unfold disjoint in *; lia).
    rewrite put_bytes_outside by (rewrite length_app; simpl; lia).
    destruct (cstr_bytes _ _ _ Hd) as [Hb _]. by rewrite put_bytes_id.
Qed.

Definition demo_mem : mem :=
  put_bytes 100 (chars "ab" ++ [0; 7; 7; 7; 7]) (put_bytes 200 (chars "cd" ++ [0]) ∅).

Lemma demo_cstr_ab : cstr demo_mem 100 (chars "ab").
Proof.
  split; [|by repeat constructor].
  intros [|[|[|]]] b H; simplify_eq/=; reflexivity.
Defined.

Lemma demo_cstr_cd : cstr demo_mem 200 (chars "cd").
Proof.
  split; [|by repeat constructor].
  intros [|[|[|]]] b H; simplify_eq/=; reflexivity.
Defined.

Lemma demo_mapped : mapped demo_mem 100 7.
Proof. apply mapped_put_self. simpl. lia. Defined.

Lemma strcat_concatenates_witness :
  ∃ m', strcat 100 200 demo_mem = Ok 104 m' ∧ cstr m' 100 (chars "abcd").
Proof.
  destruct (strcat_concatenates demo_mem 100 200 (chars "ab") (chars "cd")
    demo_cstr_ab demo_cstr_cd) as (m' & H & Hc & _).
  - eapply mapped_weaken; [apply demo_mapped|lia|simpl; lia].
  - left. simpl. lia.
  - by exists m'.
Defined.

(** [strcmp] returns 0 exactly on equal strings, and a negative value exactly when the
    first string comes first in lexicographic order. *)
Theorem strcmp_orders m p q s t :
  cstr m p s → cstr m q t →
  ∃ r, strcmp p q m = Ok r m ∧ (r = 0 ↔ s = t) ∧ (r < 0 ↔ str_lt s t = true).
Proof.
  intros Hs Ht. exists (str_diff s t). split; [by apply strcmp_spec|].
  split; [apply str_diff_0|apply str_diff_neg]; by (apply Hs || apply Ht).
Qed.

Lemma strcmp_orders_witness :
  ∃ r, strcmp 100 200 demo_mem = Ok r demo_mem ∧ r < 0.
Proof.
  destruct (strcmp_orders demo_mem 100 200 (chars "ab") (chars "cd")
    demo_cstr_ab demo_cstr_cd) as (r & H & _ & Hlt).
  exists r. split; [done|]. by apply Hlt.
Defined.

(** [strrev] leaves the reversed string, and a second call restores the memory. *)
Theorem strrev_involutive m p s :
  cstr m p s → Z.of_nat (length s) ≤ INT_MAX →
  ∃ m', strrev p m = Ok tt m' ∧ cstr m' p (reverse s) ∧ strrev p m' = Ok tt m.
Proof.
  intros Hs Hmax. exists (put_bytes p (reverse s) m).
  destruct (cstr_bytes _ _ _ Hs) as [Hb Hnul].
  assert (cstr (put_bytes p (reverse s) m) p (reverse s)) as Hrev.
  { split; [|by apply Forall_reverse, Hs]. apply bytes_at_app. split; [apply bytes_at_put|].
    apply bytes_at_cons. split; [|apply bytes_at_nil].
    by rewrite put_bytes_outside, length_reverse by (rewrite length_reverse; lia). }
  split; [by apply strrev_spec|]. split; [done|].
  rewrite (strrev_spec _ _ (reverse s)) by (rewrite ?length_reverse; done).
  rewrite reverse_involutive, put_bytes_put_bytes by (by rewrite length_reverse).
  by rewrite put_bytes_id.
Qed.

Lemma strrev_involutive_witness :
  ∃ m', strrev 100 demo_mem = Ok tt m' ∧ cstr m' 100 (chars "ba").
Proof.
  destruct (strrev_involutive demo_mem 100 (chars "ab") demo_cstr_ab) as (m' & H & Hc & _).
  - simpl. unfold INT_MAX. lia.
  - by exists m'.
Defined.

(** *** memset byte by byte *)

(** The loop without the eight-byte writes. *)
Definition memset_bytewise (str c n : Z) : M mem Z :=
  for_up (Z.to_nat n) 0 (λ i, storeb (str + i) c) ;;
  ret str.

(** A word whose bytes are all [c] is written like as many bytes. *)
Lemma store_le_bytewise k str lo v c m : 0 ≤ c < 256 → le_bytes k v = replicate k c →
  store_le k (str + lo) v m = for_up k lo (λ i, storeb (str + i) c) m.
Proof.
  intros Hc. revert lo v m. induction k as [|k IH]; intros lo v m Hv; [done|].
  cbn [le_bytes replicate] in Hv. injection Hv as Hv Hrest. cbn [store_le for_up]. apply bind_ext.
  - unfold storeb. assert (u8 v = u8 c) as -> by (unfold u8 in *; rewrite (Z.mod_small c); [exact Hv|lia]). done.
  - intros _ m'. rewrite <-Z.add_assoc. by apply IH.
Qed.

Lemma big_writes_bytewise k str lo c m : 0 ≤ c < 256 →
  for_up k lo (λ i, store64 (str + 8 * i) (memset_pattern c)) m = for_up (8 * k) (8 * lo) (λ i, storeb (str + i) c) m.
Proof.
  intros Hc. revert lo m. induction k as [|k IH]; intros lo m; [done|].
  replace (8 * S k)%nat with (8 + 8 * k)%nat by lia. rewrite for_up_app.
  change (for_up (S k) lo ?f) with (f lo ;; for_up k (lo + 1) f). apply bind_ext.
  - by apply store_le_bytewise, memset_pattern_bytes.
  - intros _ m'. rewrite IH. by replace (8 * (lo + 1)) with (8 * lo + Z.of_nat 8) by lia.
Qed.

(** C31: [memset] with its eight-byte writes is the loop over bytes, for a value that fits a byte: with
    the same result, the same memory, and the same fault where the destination is not mapped. *)
Theorem memset_equivalent str c n m : 0 ≤ c < 256 → 0 ≤ n ≤ INT_MAX →
  memset str c n m = memset_bytewise str c n m.
Proof.
  intros Hc Hn. unfold memset, memset_bytewise. cbv zeta.
  pose proof (Z.div_mod n 8 ltac:(lia)). pose proof (Z.mod_pos_bound n 8 ltac:(lia)). unfold INT_MAX in Hn.
  rewrite (i32_small (n / 8)) by (unfold INT_MIN, INT_MAX; lia).
  assert (int_of (n / 8 * 8) m = Ok (n / 8 * 8) m) as Hb by (apply wp_eq, wp_int_of; [unfold INT_MIN, INT_MAX; lia|done]).
  rewrite (bind_ok _ _ _ _ _ Hb), u64_small, i32_small by (unfold INT_MIN, INT_MAX; lia).
  rewrite <-bind_assoc. apply bind_ext; [|done].
  replace (Z.to_nat n) with (8 * Z.to_nat (n / 8) + Z.to_nat (n - n / 8 * 8))%nat by lia. rewrite for_up_app.
  unfold bind at 1 2. rewrite for_int_up by (unfold INT_MAX; lia). rewrite big_writes_bytewise by done.
  change (8 * 0) with 0. destruct (for_up _ 0 _ m) as [[] m'|m'|f]; [|done..].
  rewrite for_int_up by (unfold INT_MAX; lia).
  replace (0 + Z.of_nat (8 * Z.to_nat (n / 8))) with (n / 8 * 8 + 0) by lia. rewrite for_up_shift.
  apply for_up_ext. intros i m'' _. by rewrite Z.add_assoc.
Qed.

(** Two writes of eight bytes and four of one. *)
Lemma memset_equivalent_witness : memset 100 5 20 demo_mem = memset_bytewise 100 5 20 demo_mem.
Proof. apply memset_equivalent; [lia|unfold INT_MAX; lia]. Defined.

(** A source of [n] or more characters makes [strncpy] write [n + 1] bytes: the NUL goes
    one past an [n]-byte buffer, as with [job->name] and [MAX_NAME_CHAR]. *)
Theorem strncpy_writes_past_n m dest src s n :
  cstr m src s → 0 ≤ n ≤ Z.of_nat (length s) → mapped m dest (n + 1) →
  disjoint dest (n + 1) src (Z.of_nat (length s) + 1) →
  ∃ m', strncpy dest src n m = Ok (dest + n) m' ∧
    bytes_at m' dest (take (Z.to_nat n) s) ∧ m' !! (dest + n) = Some (Some 0).
Proof.
  intros Hs Hn Hm Hdis. eexists. split.
  { unfold strncpy. rewrite (copy_loop_n_spec _ _ _ s); rewrite ?Z.min_l by lia; done || lia. }
  pose proof (bytes_at_put dest (take (Z.to_nat n) s ++ [0]) m) as H.
  apply bytes_at_app in H as [H1 H2]. split; [done|].
  apply bytes_at_cons in H2 as [H2 _]. rewrite length_take in H2.
  by replace (Z.of_nat (Z.to_nat n `min` length s)) with n in H2 by lia.
Qed.

Lemma strncpy_writes_past_n_witness :
  ∃ m', strncpy 100 200 2 demo_mem = Ok 102 m' ∧ m' !! 102 = Some (Some 0).
Proof.
  destruct (strncpy_writes_past_n demo_mem 100 200 (chars "cd") 2 demo_cstr_cd)
    as (m' & H & _ & Hz).
  - simpl. lia.
  - eapply mapped_weaken; [apply demo_mapped|lia|lia].
  - left. lia.
  - by exists m'.
Defined.

(** On any memory whatever, the scans of string.c end: they find a NUL or fault at the
    first byte that cannot be read or written; the fuel of the model is never used up. *)
Theorem string_loops_terminate m :
  (∀ p, strlen p m ≠ Fault OutOfFuel) ∧ (∀ p q, strcmp p q m ≠ Fault OutOfFuel) ∧
  (∀ d s, strcpy d s m ≠ Fault OutOfFuel) ∧ (∀ d s n, strncpy d s n m ≠ Fault OutOfFuel) ∧
  (∀ d s, strcat d s m ≠ Fault OutOfFuel) ∧ (∀ d s n, strncat d s n m ≠ Fault OutOfFuel) ∧
  (∀ d c, strset d c m ≠ Fault OutOfFuel).
Proof.
  split_and!; intros.
  - apply strlen_terminates.
  - apply strcmp_terminates.
  - apply copy_loop_terminates.
  - apply copy_loop_n_terminates.
  - apply bind_no_fuel; [apply skip_loop_terminates|intros; apply copy_loop_terminates].
  - apply bind_no_fuel; [apply skip_loop_terminates|intros; apply copy_loop_n_terminates].
  - apply strset_terminates.
Qed.
