(* ===== verification/Heap.v ===== *)
(** * The kernel heap (kernel/alloc/heap.c, include/heap.h)

    [struct heap] is a record passed by value and returned; its table is in memory, one
    byte per block.  The specification side is a list of segments, free blocks and used
    regions; [heap_rep] relates the two, and first fit on segments is what the byte
    scans of the source implement. *)
From stdpp Require Import base list gmap.
From Stdlib Require Import ZArith Lia.
From S2P Require Import Prelude Memory.

Definition HEAP_BLOCK_SIZE_BYTES : Z := 4096.
Definition HEAP_BLOCK_TAKEN : Z := 0x80.
Definition HEAP_BLOCK_FIRST : Z := 0x40.
Definition HEAP_BLOCK_LAST : Z := 0x20.

Record heap : Type := mk_heap {
  heap_start_address : Z;
  heap_tbl : Z;            (* field [heap] of the struct: the table *)
  blocks : Z;
  free_blocks : Z;
}.

(** ** Operations *)

Definition heap_createtable (heap_start_address table_address heap_blocks : Z) : M mem heap :=
  let table := table_address in
  for_int heap_blocks (λ i, storeb table 0) ;;
  ret (mk_heap heap_start_address table_address heap_blocks heap_blocks).

(** [*p |= mask] *)
Definition or_byte (p mask : Z) : M mem unit :=
  let* b := loadb p in storeb p (Z.lor b mask).

Definition mark_region_taken (from to : Z) : M mem unit :=
  or_byte from HEAP_BLOCK_FIRST ;;
  or_byte to HEAP_BLOCK_LAST ;;
  loop (S (Z.to_nat (to + 1 - from))) (λ from,
    if from <=? to then or_byte from HEAP_BLOCK_TAKEN ;; ret (inl (from + 1))
    else ret (inr tt)) from.

Definition mark_region_free (from : Z) : M mem Z :=
  mem_fuel (λ fuel, loop fuel (λ '(from, freed),
    let* b := loadb from in
    if Z.land b HEAP_BLOCK_LAST =? 0
    then storeb from 0 ;; ret (inl (from + 1, freed + 1))
    else storeb from 0 ;; ret (inr freed)) (from, 1)).

(** [while ( *block & HEAP_BLOCK_TAKEN && block < last_block) block++;] *)
Definition skip_taken (block last_block : Z) : M mem Z :=
  loop (S (Z.to_nat (last_block - block))) (λ block,
    let* b := loadb block in
    if negb (Z.land b HEAP_BLOCK_TAKEN =? 0) && (block <? last_block)
    then ret (inl (block + 1)) else ret (inr block)) block.

(** [while (blocks_found < alloc_blocks && block < last_block && !( *block & TAKEN)) ...] *)
Definition count_free (block last_block alloc_blocks : Z) : M mem (Z * Z) :=
  loop (S (Z.to_nat (last_block - block))) (λ '(block, blocks_found),
    if (blocks_found <? alloc_blocks) && (block <? last_block) then
      let* b := loadb block in
      if Z.land b HEAP_BLOCK_TAKEN =? 0 then ret (inl (block + 1, blocks_found + 1))
      else ret (inr (block, blocks_found))
    else ret (inr (block, blocks_found))) (block, 0).

Definition alloc_blocks_of (size : Z) : Z :=
  size / HEAP_BLOCK_SIZE_BYTES + (if size mod HEAP_BLOCK_SIZE_BYTES =? 0 then 0 else 1).

(** The pointer and the updated struct; the null pointer when there is no room. *)
Definition heap_alloc (h : heap) (size : Z) : M mem (Z * heap) :=
  if size =? 0 then ret (0, h) else
  let block := heap_tbl h in
  let alloc_blocks := alloc_blocks_of size in
  let last_block := block + blocks h in
  loop (S (Z.to_nat (blocks h))) (λ block,
    if block <? last_block then
      let* start := skip_taken block last_block in
      if start =? last_block then ret (inr (0, h)) else
      let* (block, blocks_found) := count_free start last_block alloc_blocks in
      if blocks_found =? alloc_blocks then
        mark_region_taken start (block - 1) ;;
        let* off := int_of (i32 (start - heap_tbl h) * HEAP_BLOCK_SIZE_BYTES) in
        ret (inr (heap_start_address h + off,
          mk_heap (heap_start_address h) (heap_tbl h) (blocks h)
            (u64 (free_blocks h - alloc_blocks))))
      else if block =? last_block then ret (inr (0, h))
      else ret (inl block)
    else ret (inr (0, h))) block.

Definition heap_free (h : heap) (ptr : Z) : M mem heap :=
  let offset := i32 (ptr - heap_start_address h) in
  let start := heap_tbl h + Z.quot offset HEAP_BLOCK_SIZE_BYTES in
  let* b := loadb start in
  if Z.land b HEAP_BLOCK_FIRST =? 0 then ret h else
  let* freed_blocks := mark_region_free start in
  ret (mk_heap (heap_start_address h) (heap_tbl h) (blocks h)
    (u64 (free_blocks h + i32 freed_blocks))).

(** [sizeof(heap_table_t)] is the size of a pointer. *)
Definition heap_table_size (blocks : Z) : Z := u64 (blocks * 8).

Definition heap_get_free_blocks (h : heap) : Z := free_blocks h.

(** ** Specification: a list of segments *)

Inductive seg : Type := Free | Used (n : nat).

#[global] Instance seg_eq_dec : EqDecision seg.
Proof. solve_decision. Defined.

Definition seg_len (s : seg) : nat := match s with Free => 1 | Used n => n end.

Definition seg_ok (s : seg) : Prop := (1 ≤ seg_len s)%nat.

(** The table bytes of a segment. *)
Definition render (s : seg) : list Z :=
  match s with
  | Free => [0]
  | Used 0 => []
  | Used 1 => [0xe0]
  | Used (S (S n)) => 0xc0 :: replicate n 0x80 ++ [0xa0]
  end.

Definition table (segs : list seg) : list Z := concat (render <$> segs).

Definition count_segs_free (segs : list seg) : nat := length (filter (λ s, s = Free) segs).

(** First fit: the first [k] free blocks in a row become a used region; with the region's
    first block. *)
Fixpoint alloc_segs (k : nat) (segs : list seg) : option (nat * list seg) :=
  if bool_decide (take k segs = replicate k Free)
  then Some (0%nat, Used k :: drop k segs)
  else match segs with
       | [] => None
       | s :: segs' =>
           '(i, r) ← alloc_segs k segs'; Some ((seg_len s + i)%nat, s :: r)
       end.

(** The first fit on raw table bytes. *)
Definition is_free (b : Z) : bool := Z.land b HEAP_BLOCK_TAKEN =? 0.

Fixpoint run (P : Z → bool) (l : list Z) : nat :=
  match l with
  | [] => 0
  | b :: l' => if P b then S (run P l') else 0
  end.

Fixpoint first_fit (k : nat) (l : list Z) : option nat :=
  if (k <=? run is_free l)%nat then Some 0%nat
  else match l with [] => None | _ :: l' => S <$> first_fit k l' end.

(** The bytes of a region after [mark_region_taken]: byte [x] of [len], with the loop at [i]. *)
Definition mark_byte (i len x : nat) (b : Z) : Z :=
  let b := if decide (x = 0%nat) then Z.lor b HEAP_BLOCK_FIRST else b in
  let b := if decide (S x = len) then Z.lor b HEAP_BLOCK_LAST else b in
  if decide (x < i)%nat then Z.lor b HEAP_BLOCK_TAKEN else b.
Definition mark_upto (i : nat) (bs : list Z) : list Z := imap (mark_byte i (length bs)) bs.
Definition mark_taken (bs : list Z) : list Z := mark_upto (length bs) bs.

(** The struct and the memory hold the segments [segs].  The scan reads one byte past the
    table ([g]), so that byte must be readable too. *)
Record heap_rep (h : heap) (m : mem) (segs : list seg) : Prop := {
  rep_bytes : ∃ g, bytes_at m (heap_tbl h) (table segs ++ [g]);
  rep_ok : Forall seg_ok segs;
  rep_blocks : blocks h = Z.of_nat (length (table segs));
  rep_free : free_blocks h = Z.of_nat (count_segs_free segs);
  rep_bound : blocks h ≤ 2 ^ 19;
}.

(** * Lemmas *)

Definition byte_ok (b : Z) : Prop := 0 ≤ b < 256.

Lemma lor_byte a b : byte_ok a → byte_ok b → byte_ok (Z.lor a b).
Proof.
  unfold byte_ok. intros Ha Hb. split; [apply Z.lor_nonneg; lia|].
  destruct (Z.eq_dec (Z.lor a b) 0) as [->|Hne]; [lia|].
  apply Z.log2_lt_cancel. change (Z.log2 256) with 8.
  rewrite Z.log2_lor by lia.
  assert (∀ x, 0 ≤ x < 256 → Z.log2 x < 8) as Hl.
  { intros x Hx. destruct (Z.eq_dec x 0) as [->|]; [done|].
    apply Z.log2_lt_pow2; lia. }
  pose proof (Hl a Ha). pose proof (Hl b Hb). lia.
Qed.

Lemma length_render s : length (render s) = seg_len s.
Proof.
  destruct s as [|[|[|n]]]; simpl; try done. rewrite length_app, length_replicate. simpl. lia.
Qed.

Lemma length_mark_upto i bs : length (mark_upto i bs) = length bs.
Proof. apply length_imap. Qed.

Lemma mark_upto_lookup i bs x : mark_upto i bs !! x = mark_byte i (length bs) x <$> bs !! x.
Proof. apply list_lookup_imap. Qed.

Lemma render_used k : (1 ≤ k)%nat → mark_taken (replicate k 0) = render (Used k).
Proof.
  intros Hk. apply list_eq. intros i. unfold mark_taken.
  rewrite mark_upto_lookup, length_replicate.
  destruct (decide (i < k)%nat) as [Hi|Hi].
  2: { rewrite !lookup_ge_None_2; [done|rewrite length_render; simpl; lia|
       rewrite length_replicate; lia]. }
  rewrite lookup_replicate_2 by done. cbn. unfold mark_byte.
  destruct k as [|[|n]]; [lia| |]; cbn [render].
  - destruct i as [|i]; [done|lia].
  - rewrite (decide_True (P := (i < S (S n))%nat)) by done. destruct i as [|i]; [done|].
    rewrite (decide_False (P := S i = 0%nat)) by lia. rewrite lookup_cons.
    destruct (decide (S (S i) = S (S n))) as [He|He].
    + rewrite lookup_app_r by (rewrite length_replicate; lia).
      rewrite length_replicate. by replace (i - n)%nat with 0%nat by lia.
    + rewrite lookup_app_l by (rewrite length_replicate; lia).
      by rewrite lookup_replicate_2 by lia.
Qed.

Lemma table_app s1 s2 : table (s1 ++ s2) = table s1 ++ table s2.
Proof. unfold table. by rewrite fmap_app, concat_app. Qed.

Lemma table_cons s segs : table (s :: segs) = render s ++ table segs.
Proof. done. Qed.

Lemma table_replicate_free k : table (replicate k Free) = replicate k 0.
Proof. induction k as [|k IH]; [done|]. cbn [replicate]. by rewrite table_cons, IH. Qed.

Lemma count_segs_free_app s1 s2 :
  count_segs_free (s1 ++ s2) = (count_segs_free s1 + count_segs_free s2)%nat.
Proof. unfold count_segs_free. by rewrite filter_app, length_app. Qed.

Lemma count_segs_free_replicate k : count_segs_free (replicate k Free) = k.
Proof.
  induction k as [|k IH]; [done|]. unfold count_segs_free in *. cbn [replicate].
  rewrite filter_cons_True by done. simpl. by rewrite IH.
Qed.

(** ** First fit on bytes *)

Definition is_taken (b : Z) : bool := negb (is_free b).

Lemma run_length P l : (run P l ≤ length l)%nat.
Proof. induction l as [|b l IH]; simpl; [done|]. destruct (P b); lia. Qed.

(** The byte after a run that does not reach the end stops it. *)
Lemma run_stop P l : (run P l < length l)%nat → ∃ b, l !! run P l = Some b ∧ P b = false.
Proof.
  induction l as [|b l IH]; simpl; [lia|]. destruct (P b) eqn:E.
  - intros H. apply IH. lia.
  - intros _. by exists b.
Qed.

Lemma run_lookup P l i b : (i < run P l)%nat → l !! i = Some b → P b = true.
Proof.
  revert i. induction l as [|c l IH]; intros i; simpl; [lia|].
  destruct (P c) eqn:E; [|lia]. destruct i as [|i]; simpl; [by intros _ [= ->]|].
  intros. apply (IH i); [lia|done].
Qed.

Lemma run_drop P l i : (i ≤ run P l)%nat → run P (drop i l) = (run P l - i)%nat.
Proof.
  revert l. induction i as [|i IH]; intros l Hi; [by rewrite drop_0, Nat.sub_0_r|].
  destruct l as [|b l]; simpl in *; [lia|]. destruct (P b); [|lia].
  rewrite IH by lia. lia.
Qed.

Lemma first_fit_shift k l i :
  (∀ j, (j < i)%nat → (run is_free (drop j l) < k)%nat) → (i ≤ length l)%nat →
  first_fit k l = (λ x, (i + x)%nat) <$> first_fit k (drop i l).
Proof.
  revert l. induction i as [|i IH]; intros l Hj Hi.
  { rewrite drop_0. by destruct (first_fit k l). }
  destruct l as [|b l]; simpl in Hi; [lia|].
  pose proof (Hj 0%nat) as H0. rewrite drop_0 in H0.
  cbn [first_fit]. destruct (Nat.leb_spec k (run is_free (b :: l))); [lia|].
  rewrite (IH l) by (try lia; intros j Hlt; apply (Hj (S j)); lia).
  simpl. by destruct (first_fit k (drop i l)).
Qed.

(** No fit starts inside a taken run. *)
Lemma first_fit_taken k l : (1 ≤ k)%nat →
  first_fit k l = (λ x, (run is_taken l + x)%nat) <$> first_fit k (drop (run is_taken l) l).
Proof.
  intros Hk. apply first_fit_shift; [|apply run_length].
  intros j Hj. pose proof (run_length is_taken l).
  destruct (lookup_lt_is_Some_2 l j) as [b Hb]; [lia|].
  pose proof (run_lookup _ _ _ _ Hj Hb) as Ht. rewrite (drop_S l b j) by done. simpl.
  unfold is_taken in Ht. destruct (is_free b); [done|lia].
Qed.

(** No fit starts inside a free run that is too short. *)
Lemma first_fit_short k l : (run is_free l < k)%nat →
  first_fit k l = (λ x, (run is_free l + x)%nat) <$> first_fit k (drop (run is_free l) l).
Proof.
  intros Hk. apply first_fit_shift; [|apply run_length].
  intros j Hj. rewrite run_drop by lia. lia.
Qed.

Lemma first_fit_here k l : (k ≤ run is_free l)%nat → first_fit k l = Some 0%nat.
Proof. intros H%Nat.leb_le. destruct l; cbn [first_fit]; by rewrite H. Qed.

Lemma first_fit_none k l : (length l < k)%nat → first_fit k l = None.
Proof.
  induction l as [|b l IH]; intros Hk; simpl in *.
  - destruct (Nat.leb_spec k 0); [lia|done].
  - pose proof (run_length is_free (b :: l)) as Hr. simpl in Hr.
    destruct (Nat.leb_spec k (if is_free b then S (run is_free l) else 0)%nat); [lia|].
    by rewrite IH by lia.
Qed.

Lemma first_fit_bound k l i : first_fit k l = Some i → (i + k ≤ length l)%nat ∧
  (k ≤ run is_free (drop i l))%nat.
Proof.
  revert i. induction l as [|b l IH]; intros i Hi; simpl in Hi.
  - destruct (Nat.leb_spec k 0); [|done]. injection Hi as <-. simpl. lia.
  - destruct (Nat.leb_spec k (if is_free b then S (run is_free l) else 0)%nat) as [Hk|Hk].
    + injection Hi as <-. rewrite drop_0. simpl. pose proof (run_length is_free l).
      destruct (is_free b); lia.
    + apply fmap_Some in Hi as (j & Hj & ->). apply IH in Hj. simpl. lia.
Qed.

(** ** The scans of the source *)

Section scans.
Context (m : mem) (tbl : Z) (t : list Z) (g : Z).
Hypothesis Ht : bytes_at m tbl (t ++ [g]).

Lemma table_byte i b : t !! i = Some b → m !! (tbl + Z.of_nat i) = Some (Some b).
Proof. intros Hi. apply Ht. by apply lookup_app_l_Some. Qed.

Lemma table_guard : m !! (tbl + Z.of_nat (length t)) = Some (Some g).
Proof. apply Ht. rewrite lookup_app_r by lia. by rewrite Nat.sub_diag. Qed.

Lemma skip_taken_spec i : (i ≤ length t)%nat →
  skip_taken (tbl + Z.of_nat i) (tbl + Z.of_nat (length t)) m =
    Ok (tbl + Z.of_nat (i + run is_taken (drop i t))) m.
Proof.
  intros Hi. apply wp_eq. unfold skip_taken. pose proof (run_length is_taken (drop i t)) as Hrl.
  rewrite length_drop in Hrl.
  apply (wp_loop (λ b mm, mm = m ∧ ∃ j, (i ≤ j ≤ i + run is_taken (drop i t))%nat ∧
    b = tbl + Z.of_nat j) (λ b, Z.to_nat (tbl + Z.of_nat (length t) - b))).
  - intros b mm (-> & j & Hj & ->). apply wp_bind.
    assert (run is_taken (drop j t) = (i + run is_taken (drop i t) - j)%nat) as Hrun.
    { replace (drop j t) with (drop (j - i) (drop i t)) by (rewrite drop_drop; f_equal; lia).
      rewrite run_drop by lia. lia. }
    destruct (decide (j < length t)%nat) as [Hlt|].
    + destruct (lookup_lt_is_Some_2 t j Hlt) as [x Hx].
      eapply wp_loadb; [by apply table_byte|].
      rewrite (drop_S t x j Hx) in Hrun. simpl in Hrun.
      change (negb (Z.land x HEAP_BLOCK_TAKEN =? 0)) with (is_taken x).
      destruct (is_taken x), (Z.ltb_spec (tbl + Z.of_nat j) (tbl + Z.of_nat (length t))); simpl; try lia.
      * apply wp_ret. split; [|lia]. split; [done|]. exists (S j). lia.
      * apply wp_ret. split; [|done]. lia.
    + assert (j = length t) as -> by lia. eapply wp_loadb; [apply table_guard|].
      rewrite Z.ltb_irrefl, andb_false_r. apply wp_ret. split; [|done]. lia.
  - split; [done|]. exists i. lia.
  - lia.
Qed.

Lemma count_free_spec i k : (i ≤ length t)%nat →
  count_free (tbl + Z.of_nat i) (tbl + Z.of_nat (length t)) (Z.of_nat k) m =
    Ok (tbl + Z.of_nat (i + k `min` run is_free (drop i t)),
        Z.of_nat (k `min` run is_free (drop i t))) m.
Proof.
  intros Hi. apply wp_eq. unfold count_free. pose proof (run_length is_free (drop i t)) as Hrl.
  rewrite length_drop in Hrl.
  apply (wp_loop (λ '(b, f) mm, mm = m ∧ ∃ j, (j ≤ k `min` run is_free (drop i t))%nat ∧
    b = tbl + Z.of_nat (i + j) ∧ f = Z.of_nat j) (λ '(b, _), Z.to_nat (tbl + Z.of_nat (length t) - b))).
  - intros [b f] mm (-> & j & Hj & -> & ->).
    assert (run is_free (drop (i + j) t) = (run is_free (drop i t) - j)%nat) as Hrun.
    { rewrite <-drop_drop. rewrite run_drop by lia. lia. }
    destruct (Z.ltb_spec (Z.of_nat j) (Z.of_nat k)); simpl;
      [|apply wp_ret; split; [f_equal; lia|done]].
    destruct (Z.ltb_spec (tbl + Z.of_nat (i + j)) (tbl + Z.of_nat (length t))); simpl;
      [|apply wp_ret; split; [f_equal; lia|done]].
    destruct (lookup_lt_is_Some_2 t (i + j)) as [x Hx]; [lia|].
    apply wp_bind. eapply wp_loadb; [by apply table_byte|].
    rewrite (drop_S t x _ Hx) in Hrun. simpl in Hrun.
    change (Z.land x HEAP_BLOCK_TAKEN =? 0) with (is_free x).
    destruct (is_free x); apply wp_ret.
    + split; [|lia]. split; [done|]. exists (S j). repeat split; lia.
    + split; [f_equal; lia|done].
  - split; [done|]. exists 0%nat. rewrite Nat.add_0_r. lia.
  - lia.
Qed.
End scans.

(** ** Marking regions *)

Lemma mark_byte_ok i len x b : byte_ok b → byte_ok (mark_byte i len x b).
Proof.
  intros Hb. unfold mark_byte, HEAP_BLOCK_FIRST, HEAP_BLOCK_LAST, HEAP_BLOCK_TAKEN.
  assert (byte_ok 0x40 ∧ byte_ok 0x20 ∧ byte_ok 0x80) as (? & ? & ?) by (unfold byte_ok; lia).
  repeat case_decide; repeat apply lor_byte; done.
Qed.

Lemma or_byte_ok m p b mask : m !! p = Some (Some b) → byte_ok b → byte_ok mask →
  or_byte p mask m = Ok tt (<[p := Some (Z.lor b mask)]> m).
Proof.
  intros Hp Hb Hm. unfold or_byte. rewrite (bind_ok _ _ _ _ _ (loadb_ok _ _ _ Hp)).
  rewrite storeb_ok by by rewrite Hp. f_equal. rewrite u8_small; [done|].
  by apply (lor_byte b mask).
Qed.

Lemma or_byte_put m p bs i b mask : bs !! i = Some b → byte_ok b → byte_ok mask →
  or_byte (p + Z.of_nat i) mask (put_bytes p bs m) =
    Ok tt (put_bytes p (<[i := Z.lor b mask]> bs) m).
Proof.
  intros Hi Hb Hm. rewrite (or_byte_ok _ _ b); [|by apply bytes_at_put|done|done].
  by rewrite put_bytes_insert by by eapply lookup_lt_Some.
Qed.

Lemma mark_upto_S i bs b : bs !! i = Some b →
  <[i := Z.lor (mark_byte i (length bs) i b) HEAP_BLOCK_TAKEN]> (mark_upto i bs)
    = mark_upto (S i) bs.
Proof.
  intros Hb. apply list_eq. intros x. apply lookup_lt_Some in Hb as ?.
  destruct (decide (x = i)) as [->|Hne].
  - rewrite list_lookup_insert_eq by by rewrite length_mark_upto.
    rewrite mark_upto_lookup, Hb. simpl. f_equal. unfold mark_byte.
    rewrite (decide_False (P := (i < i)%nat)), (decide_True (P := (i < S i)%nat)) by lia. done.
  - rewrite list_lookup_insert_ne, !mark_upto_lookup by done.
    destruct (bs !! x); [|done]. simpl. f_equal. unfold mark_byte.
    destruct (decide (x < i)%nat), (decide (x < S i)%nat); try lia; done.
Qed.

(** The two stores before the loop. *)
Lemma mark_upto_0 bs b0 b1 :
  bs !! 0%nat = Some b0 →
  <[0%nat := Z.lor b0 HEAP_BLOCK_FIRST]> bs !! (length bs - 1)%nat = Some b1 →
  <[(length bs - 1)%nat := Z.lor b1 HEAP_BLOCK_LAST]> (<[0%nat := Z.lor b0 HEAP_BLOCK_FIRST]> bs)
    = mark_upto 0 bs.
Proof.
  intros Hb0 Hb1. apply lookup_lt_Some in Hb0 as Hlen. apply list_eq. intros x.
  rewrite mark_upto_lookup. destruct (decide (x < length bs)%nat) as [Hx|Hx].
  2: { rewrite !lookup_ge_None_2; [done|lia|rewrite !length_insert; lia]. }
  destruct (lookup_lt_is_Some_2 bs x) as [b Hb]; [done|]. rewrite Hb.
  cbn [fmap option_fmap option_map]. unfold mark_byte. simpl.
  assert (<[0%nat := Z.lor b0 HEAP_BLOCK_FIRST]> bs !! x =
    Some (if decide (x = 0%nat) then Z.lor b HEAP_BLOCK_FIRST else b)) as Hbx.
  { case_decide as Hx0; [subst x|].
    - rewrite list_lookup_insert_eq by done. congruence.
    - by rewrite list_lookup_insert_ne by done. }
  destruct (decide (S x = length bs)) as [He|He].
  - replace (length bs - 1)%nat with x in * by lia.
    rewrite list_lookup_insert_eq by (rewrite length_insert; lia). congruence.
  - by rewrite list_lookup_insert_ne by lia.
Qed.

Lemma mark_region_taken_spec m from bs :
  bytes_at m from bs → Forall byte_ok bs → (1 ≤ length bs)%nat →
  mark_region_taken from (from + Z.of_nat (length bs) - 1) m =
    Ok tt (put_bytes from (mark_taken bs) m).
Proof.
  intros Hbs Hok Hlen. set (k := length bs) in *. apply wp_eq. unfold mark_region_taken.
  destruct (lookup_lt_is_Some_2 bs 0) as [b0 Hb0]; [lia|].
  pose proof (Forall_lookup_1 _ _ _ _ Hok Hb0) as Hok0. simpl in Hok0.
  assert (byte_ok 0x40 ∧ byte_ok 0x20 ∧ byte_ok 0x80) as (? & ? & ?) by (unfold byte_ok; lia).
  apply wp_bind. rewrite <-(put_bytes_id m from bs) at 1 by done.
  eapply wp_intro; [rewrite <-(Z.add_0_r from) at 1; by apply (or_byte_put m from bs 0 b0)|].
  set (bs1 := <[0%nat := Z.lor b0 HEAP_BLOCK_FIRST]> bs).
  assert (length bs1 = k) as Hk1 by apply length_insert.
  destruct (lookup_lt_is_Some_2 bs1 (k - 1)) as [b1 Hb1]; [lia|].
  assert (byte_ok b1) as Hok1.
  { assert (Forall byte_ok bs1) as HF by (apply Forall_insert; [done|by apply lor_byte]).
    exact (Forall_lookup_1 _ _ _ _ HF Hb1). }
  apply wp_bind. replace (from + Z.of_nat k - 1) with (from + Z.of_nat (k - 1)) by lia.
  eapply wp_intro; [by apply (or_byte_put m from bs1 (k - 1) b1)|].
  pose proof (mark_upto_0 bs b0 b1 Hb0 Hb1) as Hmark. fold k bs1 in Hmark. rewrite Hmark.
  apply (wp_loop (λ f mm, ∃ i, (i ≤ k)%nat ∧ f = from + Z.of_nat i ∧
    mm = put_bytes from (mark_upto i bs) m) (λ f, Z.to_nat (from + Z.of_nat k - f))).
  - intros f mm (i & Hi & -> & ->).
    destruct (Z.leb_spec (from + Z.of_nat i) (from + Z.of_nat (k - 1))).
    + destruct (lookup_lt_is_Some_2 bs i) as [b Hb]; [fold k; lia|]. apply wp_bind.
      eapply wp_intro.
      { apply (or_byte_put m from (mark_upto i bs) i); [by rewrite mark_upto_lookup, Hb| |done].
        by apply mark_byte_ok, (Forall_lookup_1 _ _ _ _ Hok Hb). }
      apply wp_ret. split; [|lia]. exists (S i). fold k. split; [lia|]. split; [lia|].
      by rewrite <-(mark_upto_S i bs b).
    + apply wp_ret. split; [done|]. by replace i with (length bs) by (fold k; lia).
  - exists 0%nat. rewrite Z.add_0_r. split; [lia|done].
  - lia.
Qed.

(** ** [heap_alloc] on raw table bytes *)

Lemma alloc_blocks_of_pos size : 0 < size → 1 ≤ alloc_blocks_of size.
Proof.
  intros. unfold alloc_blocks_of, HEAP_BLOCK_SIZE_BYTES.
  pose proof (Z.div_mod size 4096). pose proof (Z.mod_pos_bound size 4096).
  destruct (Z.eqb_spec (size mod 4096) 0); lia.
Qed.

(** The number of blocks covers the request and wastes less than one block. *)
Lemma alloc_blocks_of_covers size : 0 < size →
  size ≤ alloc_blocks_of size * HEAP_BLOCK_SIZE_BYTES < size + HEAP_BLOCK_SIZE_BYTES.
Proof.
  intros. unfold alloc_blocks_of, HEAP_BLOCK_SIZE_BYTES.
  pose proof (Z.div_mod size 4096). pose proof (Z.mod_pos_bound size 4096).
  destruct (Z.eqb_spec (size mod 4096) 0); lia.
Qed.

Lemma heap_alloc_bytes h m t g size :
  bytes_at m (heap_tbl h) (t ++ [g]) → Forall byte_ok t →
  blocks h = Z.of_nat (length t) → blocks h ≤ 2 ^ 19 → 0 < size →
  let k := Z.to_nat (alloc_blocks_of size) in
  heap_alloc h size m =
    match first_fit k t with
    | None => Ok (0, h) m
    | Some i =>
        Ok (heap_start_address h + 4096 * Z.of_nat i,
            mk_heap (heap_start_address h) (heap_tbl h) (blocks h)
              (u64 (free_blocks h - Z.of_nat k)))
           (put_bytes (heap_tbl h + Z.of_nat i) (mark_taken (take k (drop i t))) m)
    end.
Proof.
  intros Ht Hok Hn Hbound Hsize k. unfold heap_alloc.
  destruct (Z.eqb_spec size 0); [lia|]. pose proof (alloc_blocks_of_pos _ Hsize) as Hpos.
  rewrite Hn. assert (alloc_blocks_of size = Z.of_nat k) as -> by (unfold k; lia).
  assert (1 ≤ k)%nat as Hk by (unfold k; lia). clearbody k.
  set (res := match first_fit k t with Some _ => _ | None => _ end).
  assert (∃ r mr, res = Ok r mr) as (r & mr & Hres).
  { unfold res. destruct (first_fit k t); eauto. }
  rewrite Hres. apply wp_eq.
  apply (wp_loop (λ b mm, mm = m ∧ ∃ i, (i ≤ length t)%nat ∧ b = heap_tbl h + Z.of_nat i ∧
    first_fit k t = (λ x, (i + x)%nat) <$> first_fit k (drop i t))
    (λ b, Z.to_nat (heap_tbl h + Z.of_nat (length t) - b))).
  2: { split; [done|]. exists 0%nat. rewrite drop_0. repeat split; [lia..|].
       by destruct (first_fit k t). }
  2: lia.
  intros b mm (-> & i & Hi & -> & Hff).
  assert (first_fit k t = None → r = (0, h) ∧ mr = m) as Hnone.
  { intros E. unfold res in Hres. rewrite E in Hres. by injection Hres as <- <-. }
  destruct (Z.ltb_spec (heap_tbl h + Z.of_nat i) (heap_tbl h + Z.of_nat (length t))).
  2: { apply wp_ret. destruct Hnone as [-> ->]; [|done].
       rewrite Hff, first_fit_none; [done|]. rewrite length_drop. lia. }
  apply wp_bind. eapply wp_intro; [by eapply skip_taken_spec|].
  set (j := (i + run is_taken (drop i t))%nat).
  pose proof (run_length is_taken (drop i t)) as Hrl. rewrite length_drop in Hrl.
  rewrite (first_fit_taken k (drop i t)), drop_drop in Hff by done. fold j in Hff.
  destruct (Z.eqb_spec (heap_tbl h + Z.of_nat j) (heap_tbl h + Z.of_nat (length t))) as [He|He].
  { apply wp_ret. destruct Hnone as [-> ->]; [|done].
    rewrite Hff, (first_fit_none k (drop j t)); [done|]. rewrite length_drop. lia. }
  apply wp_bind. eapply wp_intro; [eapply count_free_spec; [done|lia]|]. simpl.
  pose proof (run_length is_free (drop j t)) as Hrf. rewrite length_drop in Hrf.
  destruct (decide (k ≤ run is_free (drop j t))%nat) as [Hfit|Hfit].
  - rewrite Nat.min_l, Z.eqb_refl by lia. rewrite (first_fit_here k (drop j t)) in Hff by done. simpl in Hff.
    rewrite Nat.add_0_r in Hff. fold j in Hff. unfold res in Hres. rewrite Hff in Hres.
    injection Hres as <- <-. apply wp_bind.
    assert (length (take k (drop j t)) = k) as Hlt by (rewrite length_take, length_drop; lia).
    replace (heap_tbl h + Z.of_nat (j + k) - 1) with (heap_tbl h + Z.of_nat j +
      Z.of_nat (length (take k (drop j t))) - 1) by lia.
    eapply wp_intro; [apply mark_region_taken_spec; [| |lia]|].
    { apply bytes_at_app in Ht as [Ht _]. rewrite <-(take_drop j t) in Ht.
      apply bytes_at_app in Ht as [_ Ht]. rewrite length_take in Ht.
      replace (j `min` length t)%nat with j in Ht by lia.
      rewrite <-(take_drop k (drop j t)) in Ht. by apply bytes_at_app in Ht as [Ht _]. }
    { by apply Forall_take, Forall_drop. }
    unfold HEAP_BLOCK_SIZE_BYTES. rewrite i32_small by (unfold INT_MIN, INT_MAX; lia).
    wp_step. wp_step. apply wp_ret. split; [|done]. f_equal. lia.
  - destruct (Z.eqb_spec (Z.of_nat (k `min` run is_free (drop j t))) (Z.of_nat k)); [lia|].
    rewrite Nat.min_r by lia. rewrite (first_fit_short k (drop j t)), drop_drop in Hff by lia.
    set (j2 := (j + run is_free (drop j t))%nat) in *.
    destruct (Z.eqb_spec (heap_tbl h + Z.of_nat j2) (heap_tbl h + Z.of_nat (length t))).
    + apply wp_ret. destruct Hnone as [-> ->]; [|done].
      rewrite Hff, (first_fit_none k (drop j2 t)); [done|]. rewrite length_drop. lia.
    + apply wp_ret.
      destruct (run_stop is_taken (drop i t)) as (x & Hx & Hfree); [rewrite length_drop; lia|].
      assert (1 ≤ run is_free (drop j t))%nat.
      { rewrite lookup_drop in Hx. fold j in Hx. rewrite (drop_S t x j) by done. simpl.
        unfold is_taken in Hfree. destruct (is_free x); [lia|done]. }
      split; [|lia]. split; [done|]. exists j2. repeat split; [lia|].
      rewrite Hff. destruct (first_fit k (drop j2 t)); simpl; [|done]. f_equal. lia.
Qed.

(** ** Segments and table bytes *)

Lemma render_used_byte n j : (j < n)%nat →
  ∃ b, render (Used n) !! j = Some b ∧ is_free b = false ∧
    (Z.land b HEAP_BLOCK_FIRST =? 0) = negb (bool_decide (j = 0%nat)) ∧
    (Z.land b HEAP_BLOCK_LAST =? 0) = negb (bool_decide (S j = n)).
Proof.
  intros Hj. destruct n as [|[|n]]; [lia| |]; cbn [render].
  { assert (j = 0%nat) as -> by lia. by eexists. }
  destruct j as [|j]; [by eexists|]. rewrite lookup_cons.
  destruct (decide (j = n)) as [->|].
  - rewrite lookup_app_r by (rewrite length_replicate; lia).
    rewrite length_replicate, Nat.sub_diag. eexists. split; [done|].
    by rewrite !bool_decide_eq_false_2, bool_decide_eq_true_2 by lia.
  - rewrite lookup_app_l by (rewrite length_replicate; lia).
    rewrite lookup_replicate_2 by lia. eexists. split; [done|].
    by rewrite !bool_decide_eq_false_2 by lia.
Qed.

Lemma render_byte_ok s : Forall byte_ok (render s).
Proof.
  unfold byte_ok. destruct s as [|[|[|n]]]; cbn [render]; repeat constructor; try lia.
  apply Forall_app. split; [by apply Forall_replicate; lia|repeat constructor; lia].
Qed.

Lemma table_byte_ok segs : Forall byte_ok (table segs).
Proof.
  induction segs as [|s segs IH]; [constructor|]. rewrite table_cons.
  apply Forall_app. split; [apply render_byte_ok|done].
Qed.

Lemma run_free_used n l : (1 ≤ n)%nat → run is_free (render (Used n) ++ l) = 0%nat.
Proof. destruct n as [|[|n]]; [lia|done..]. Qed.

Lemma run_free_table k segs : Forall seg_ok segs →
  (k ≤ run is_free (table segs))%nat ↔ take k segs = replicate k Free.
Proof.
  intros Hok. revert segs Hok. induction k as [|k IH]; intros segs Hok.
  { rewrite take_0. split; [done|lia]. }
  destruct Hok as [|s segs Hs Hok]; [by simpl; split; [lia|]|]. rewrite table_cons.
  destruct s as [|n]; cbn [take replicate].
  - simpl. rewrite <-Nat.succ_le_mono, IH by done. split; [by intros ->|by intros [= ->]].
  - rewrite run_free_used by done. split; [lia|done].
Qed.

Lemma first_fit_used k n l : (1 ≤ k)%nat →
  first_fit k (render (Used n) ++ l) = (λ x, (n + x)%nat) <$> first_fit k l.
Proof.
  intros Hk. rewrite (first_fit_shift k _ n).
  - f_equal. by rewrite drop_app_length' by by rewrite length_render.
  - intros j Hj. destruct (render_used_byte n j Hj) as (b & Hb & Hf & _).
    erewrite (drop_S _ b); [|by apply lookup_app_l_Some]. simpl. rewrite Hf. lia.
  - rewrite length_app, length_render. simpl. lia.
Qed.

(** The scan of the table bytes is first fit on the segments. *)
Lemma first_fit_table k segs : Forall seg_ok segs → (1 ≤ k)%nat →
  first_fit k (table segs) = fst <$> alloc_segs k segs.
Proof.
  intros Hok Hk. induction Hok as [|s segs Hs Hok IH].
  { cbn [alloc_segs]. rewrite bool_decide_eq_false_2 by (destruct k; simpl; done || lia).
    rewrite first_fit_none; [done|simpl; lia]. }
  cbn [alloc_segs]. case_bool_decide as Hfree.
  { apply (run_free_table k (s :: segs)) in Hfree; [|by constructor].
    by rewrite first_fit_here. }
  assert (¬ (k ≤ run is_free (table (s :: segs)))%nat) as Hn
    by (rewrite run_free_table; [done|by constructor]).
  rewrite table_cons in *. destruct s as [|n].
  - rewrite (first_fit_shift k _ 1).
    + simpl. rewrite drop_0, IH. by destruct (alloc_segs k segs) as [[i r]|].
    + intros j Hj. assert (j = 0%nat) as -> by lia. rewrite drop_0. lia.
    + simpl. lia.
  - rewrite first_fit_used, IH by done. by destruct (alloc_segs k segs) as [[i r]|].
Qed.

Lemma alloc_segs_split k segs i segs' : alloc_segs k segs = Some (i, segs') →
  ∃ pre post, segs = pre ++ replicate k Free ++ post ∧ segs' = pre ++ Used k :: post ∧
    i = length (table pre).
Proof.
  revert i segs'. induction segs as [|s segs IH]; intros i segs'; cbn [alloc_segs].
  - case_bool_decide as H; [|done]. intros [= <- <-].
    exists [], []. rewrite drop_nil, <-H, take_nil. done.
  - case_bool_decide as H.
    { intros [= <- <-]. exists [], (drop k (s :: segs)). rewrite <-H. simpl app.
      by rewrite take_drop. }
    destruct (alloc_segs k segs) as [[j r]|]; [|done]. simpl. intros [= <- <-].
    destruct (IH _ _ eq_refl) as (pre & post & -> & -> & ->).
    exists (s :: pre), post. rewrite table_cons, length_app, length_render. done.
Qed.

Lemma length_table_used k segs1 segs2 :
  length (table (segs1 ++ Used k :: segs2)) = length (table (segs1 ++ replicate k Free ++ segs2)).
Proof.
  rewrite !table_app, table_cons, table_replicate_free, !length_app, length_render,
    length_replicate. done.
Qed.

Lemma count_segs_free_le segs : (count_segs_free segs ≤ length (table segs))%nat.
Proof.
  induction segs as [|[|x] segs IH]; [done| |]; rewrite table_cons, length_app;
    unfold count_segs_free in *.
  - rewrite filter_cons_True by done. simpl. lia.
  - rewrite filter_cons_False by done. lia.
Qed.

Lemma count_segs_free_used n segs : count_segs_free (Used n :: segs) = count_segs_free segs.
Proof. unfold count_segs_free. by rewrite filter_cons_False. Qed.

(** Allocation on the representation. *)
Lemma heap_alloc_rep h m segs size :
  heap_rep h m segs → 0 < size →
  match alloc_segs (Z.to_nat (alloc_blocks_of size)) segs with
  | None => heap_alloc h size m = Ok (0, h) m
  | Some (i, segs') => ∃ h' bs,
      heap_alloc h size m =
        Ok (heap_start_address h + 4096 * Z.of_nat i, h')
           (put_bytes (heap_tbl h + Z.of_nat i) bs m) ∧
      length bs = Z.to_nat (alloc_blocks_of size) ∧
      (i + length bs ≤ length (table segs))%nat ∧
      heap_rep h' (put_bytes (heap_tbl h + Z.of_nat i) bs m) segs' ∧
      heap_tbl h' = heap_tbl h ∧ heap_start_address h' = heap_start_address h ∧
      blocks h' = blocks h
  end.
Proof.
  intros [[g Hb] Hok Hn Hf Hbound] Hsize. pose proof (alloc_blocks_of_pos _ Hsize).
  pose proof (heap_alloc_bytes h m (table segs) g size Hb (table_byte_ok _) Hn Hbound Hsize) as Ha.
  cbv zeta in Ha. set (k := Z.to_nat (alloc_blocks_of size)) in *.
  rewrite first_fit_table in Ha by (done || lia).
  destruct (alloc_segs k segs) as [[i segs']|] eqn:Hs; [|done]. simpl in Ha.
  apply alloc_segs_split in Hs as (pre & post & -> & -> & ->).
  assert (take k (drop (length (table pre)) (table (pre ++ replicate k Free ++ post)))
    = replicate k 0) as Hk.
  { rewrite !table_app, drop_app_length, table_replicate_free.
    by rewrite take_app_length' by by rewrite length_replicate. }
  rewrite Hk, render_used in Ha by lia. eexists _, (render (Used k)).
  split; [exact Ha|]. rewrite length_render. cbn [seg_len].
  split; [done|]. split.
  { rewrite !table_app, !length_app, table_replicate_free, length_replicate. lia. }
  split; [|done]. rewrite !count_segs_free_app, count_segs_free_replicate in Hf.
  assert (blocks h = Z.of_nat (length (table (pre ++ Used k :: post)))) as Hn'
    by by rewrite length_table_used.
  split; simpl; [| |done| |done].
  - exists g. rewrite !table_app, table_replicate_free, <-!app_assoc in Hb.
    rewrite table_app, table_cons, <-!app_assoc.
    eapply bytes_at_splice; [done|]. by rewrite length_render, length_replicate.
  - rewrite !Forall_app in *. destruct Hok as (? & ? & ?). split; [done|].
    constructor; [unfold seg_ok; simpl; lia|done].
  - rewrite !table_app, table_replicate_free, !length_app, length_replicate in Hn.
    rewrite u64_small; [|rewrite Hf; split; [lia|]].
    + rewrite Hf, count_segs_free_app, count_segs_free_used. lia.
    + pose proof (count_segs_free_le pre). pose proof (count_segs_free_le post). lia.
Qed.

Lemma mark_region_free_spec m p n :
  bytes_at m p (render (Used n)) → (1 ≤ n)%nat →
  mark_region_free p m = Ok (Z.of_nat n) (put_bytes p (replicate n 0) m).
Proof.
  intros Hb Hn. apply wp_eq. unfold mark_region_free, mem_fuel.
  pose proof (bytes_at_size _ _ _ Hb) as Hsz. rewrite length_render in Hsz. simpl in Hsz.
  apply (wp_loop (λ '(f, c) mm, ∃ i, (i < n)%nat ∧ f = p + Z.of_nat i ∧ c = 1 + Z.of_nat i ∧
    mm = put_bytes p (replicate i 0) m) (λ '(f, _), Z.to_nat (p + Z.of_nat n - f))).
  - intros [f c] mm (i & Hi & -> & -> & ->).
    destruct (render_used_byte n i Hi) as (b & Hbi & _ & _ & Hlast). apply wp_bind.
    assert (put_bytes p (replicate i 0) m !! (p + Z.of_nat i) = Some (Some b)) as Hm.
    { rewrite put_bytes_outside by (rewrite length_replicate; lia). by apply Hb. }
    eapply wp_loadb; [done|]. rewrite Hlast.
    assert (<[p + Z.of_nat i := Some (u8 0)]> (put_bytes p (replicate i 0) m)
      = put_bytes p (replicate (S i) 0) m) as Hput.
    { by rewrite replicate_S_end, put_bytes_snoc, length_replicate. }
    case_bool_decide as He; simpl; apply wp_bind, wp_storeb; try (by eexists); rewrite Hput;
      apply wp_ret.
    + split; [lia|]. by rewrite He.
    + split; [|lia]. exists (S i). repeat split; lia.
  - exists 0%nat. rewrite Z.add_0_r. split; [lia|done].
  - lia.
Qed.

Lemma heap_free_rep h m pre n post :
  heap_rep h m (pre ++ Used n :: post) →
  ∃ h', heap_free h (heap_start_address h + 4096 * Z.of_nat (length (table pre))) m =
      Ok h' (put_bytes (heap_tbl h + Z.of_nat (length (table pre))) (replicate n 0) m) ∧
    heap_rep h' (put_bytes (heap_tbl h + Z.of_nat (length (table pre))) (replicate n 0) m)
      (pre ++ replicate n Free ++ post) ∧
    heap_tbl h' = heap_tbl h ∧ heap_start_address h' = heap_start_address h ∧
    blocks h' = blocks h.
Proof.
  intros [[g Hb] Hok Hn Hf Hbound]. pose proof (length_table_used n pre post) as Hlen.
  rewrite table_app, table_cons, <-!app_assoc in Hb.
  rewrite Forall_app, Forall_cons in Hok. destruct Hok as (? & Hokn & ?).
  unfold seg_ok in Hokn. simpl in Hokn.
  assert (length (table pre) + n ≤ length (table (pre ++ Used n :: post)))%nat as Hin.
  { rewrite table_app, table_cons, !length_app, length_render. simpl. lia. }
  set (x := length (table pre)) in *. eexists. split.
  { unfold heap_free, HEAP_BLOCK_SIZE_BYTES.
    replace (heap_start_address h + 4096 * Z.of_nat x - heap_start_address h)
      with (Z.of_nat x * 4096) by lia.
    rewrite i32_small by (unfold INT_MIN, INT_MAX; lia). rewrite Z.quot_mul by lia.
    destruct (render_used_byte n 0) as (b & Hb0 & _ & Hfirst & _); [lia|].
    assert (bytes_at m (heap_tbl h + Z.of_nat x) (render (Used n))) as Hr.
    { apply bytes_at_app in Hb as [_ Hb]. by apply bytes_at_app in Hb as [Hb _]. }
    erewrite bind_ok; [|apply loadb_ok; rewrite <-(Z.add_0_r (_ + _)); by apply (Hr 0%nat)].
    rewrite Hfirst. simpl. erewrite bind_ok; [|by apply mark_region_free_spec].
    unfold ret. rewrite i32_small by (unfold INT_MIN, INT_MAX; lia). reflexivity. }
  split; [|done]. rewrite count_segs_free_app, count_segs_free_used in Hf.
  split; simpl; [| |by rewrite <-Hlen| |done].
  - exists g. rewrite !table_app, table_replicate_free, <-!app_assoc.
    eapply bytes_at_splice; [done|]. by rewrite length_render, length_replicate.
  - rewrite !Forall_app. split_and!; [done| |done].
    apply Forall_replicate. unfold seg_ok. simpl. lia.
  - rewrite Hf, !count_segs_free_app, count_segs_free_replicate.
    pose proof (count_segs_free_le pre). pose proof (count_segs_free_le post).
    rewrite table_app, table_cons, !length_app, length_render in Hn. simpl in Hn.
    rewrite u64_small by lia. lia.
Qed.

(** The used regions, as (first block, number of blocks). *)
Fixpoint regions_from (i : nat) (segs : list seg) : list (nat * nat) :=
  match segs with
  | [] => []
  | Free :: r => regions_from (S i) r
  | Used n :: r => (i, n) :: regions_from (i + n)%nat r
  end.
Definition regions (segs : list seg) : list (nat * nat) := regions_from 0 segs.

Lemma regions_from_app i s1 s2 :
  regions_from i (s1 ++ s2) = regions_from i s1 ++ regions_from (i + length (table s1)) s2.
Proof.
  revert i. induction s1 as [|[|n] s1 IH]; intros i; cbn [regions_from app].
  - cbn. by rewrite Nat.add_0_r.
  - rewrite IH. by replace (i + length (table (Free :: s1)))%nat
      with (S i + length (table s1))%nat by (rewrite table_cons; simpl; lia).
  - rewrite IH. by replace (i + length (table (Used n :: s1)))%nat
      with (i + n + length (table s1))%nat
      by (rewrite table_cons, length_app, length_render; simpl; lia).
Qed.

Lemma regions_from_bounds i segs j l : (j, l) ∈ regions_from i segs →
  (i ≤ j ∧ j + l ≤ i + length (table segs))%nat.
Proof.
  revert i. induction segs as [|[|n] segs IH]; intros i; cbn [regions_from app].
  - by intros ?%not_elem_of_nil.
  - intros H%IH. rewrite table_cons. simpl. lia.
  - rewrite elem_of_cons, table_cons, length_app, length_render. simpl.
    intros [[= -> ->]|H%IH]; lia.
Qed.

Lemma regions_from_free i k : regions_from i (replicate k Free) = [].
Proof. revert i. induction k; intros; simpl; auto. Qed.

(** What [alloc_segs] does to the used regions. *)
Lemma alloc_segs_regions k segs i segs' : alloc_segs k segs = Some (i, segs') →
  regions segs' ≡ₚ (i, k) :: regions segs ∧
  ∀ j l, (j, l) ∈ regions segs → (i + k ≤ j ∨ j + l ≤ i)%nat.
Proof.
  intros (pre & post & -> & -> & ->)%alloc_segs_split. unfold regions.
  rewrite !regions_from_app. cbn [regions_from app].
  rewrite regions_from_free, table_replicate_free, length_replicate. simpl. split.
  - by rewrite Permutation_middle.
  - intros j l. rewrite elem_of_app. intros [H%regions_from_bounds|H%regions_from_bounds]; lia.
Qed.

Lemma alloc_segs_none k segs : Forall seg_ok segs →
  alloc_segs k segs = None ↔ ¬ ∃ pre post, segs = pre ++ replicate k Free ++ post.
Proof.
  intros Hok. split.
  - intros Hnone (pre & post & ->). revert Hnone. clear Hok.
    induction pre as [|s pre IH]; simpl.
    + intros Hnone. destruct (replicate k Free ++ post) eqn:E; cbn [alloc_segs] in Hnone;
        rewrite <-E, take_app_length' in Hnone by (by rewrite length_replicate);
        by rewrite bool_decide_eq_true_2 in Hnone.
    + case_bool_decide; [done|]. intros Hnone. apply IH.
      by destruct (alloc_segs k _) as [[i r]|].
  - intros Hno. destruct (alloc_segs k segs) as [[i r]|] eqn:E; [|done].
    apply alloc_segs_split in E as (pre & post & -> & _). destruct Hno. by eexists _, _.
Qed.

Lemma heap_createtable_spec m start tbl n :
  0 < n ≤ INT_MAX → is_Some (m !! tbl) →
  heap_createtable start tbl n m = Ok (mk_heap start tbl n n) (<[tbl := Some 0]> m).
Proof.
  intros Hn Hm. apply wp_eq. unfold heap_createtable. apply wp_bind.
  apply (wp_for_int (λ i mm, mm = if i =? 0 then m else <[tbl := Some 0]> m)); [lia| |done|].
  - intros i mm Hi ->. apply wp_storeb.
    { destruct (i =? 0); [done|]. rewrite lookup_insert_eq. by eexists. }
    destruct (Z.eqb_spec (i + 1) 0); [lia|].
    destruct (i =? 0); [done|]. by rewrite insert_insert_eq.
  - intros mm ->. destruct (Z.eqb_spec n 0); [lia|]. by apply wp_ret.
Qed.

(** * Properties *)

(** C12: [heap_alloc] implements first fit on the list of segments: it fails when first fit
    fails, changing nothing; otherwise it returns the address of the region first fit picks,
    the struct and the table represent the new segments (free count included), and no byte
    outside the table changes. *)
Theorem heap_alloc_refines_first_fit h m segs size :
  heap_rep h m segs → 0 < size →
  match alloc_segs (Z.to_nat (alloc_blocks_of size)) segs with
  | None => heap_alloc h size m = Ok (0, h) m
  | Some (i, segs') => ∃ h' m',
      heap_alloc h size m = Ok (heap_start_address h + 4096 * Z.of_nat i, h') m' ∧
      heap_rep h' m' segs' ∧
      ∀ a, ¬ (heap_tbl h ≤ a < heap_tbl h + blocks h) → m' !! a = m !! a
  end.
Proof.
  intros Hrep Hsize. pose proof (heap_alloc_rep h m segs size Hrep Hsize) as H.
  destruct (alloc_segs _ segs) as [[i segs']|]; [|done].
  destruct H as (h' & bs & Ha & Hlen & Hin & Hrep' & _). eexists _, _. split; [done|].
  split; [done|]. intros a Hout. rewrite (rep_blocks _ _ _ Hrep) in Hout.
  apply put_bytes_outside. lia.
Qed.

(** C18: an allocation that succeeds returns blocks inside the heap that cover the request and
    overlap no region in use; the regions in use afterwards are the old ones and the new one. *)
Theorem heap_alloc_disjoint h m segs size p h' m' :
  heap_rep h m segs → 0 < size → 0 < heap_start_address h →
  heap_alloc h size m = Ok (p, h') m' → p ≠ 0 →
  ∃ i k segs', p = heap_start_address h + 4096 * Z.of_nat i ∧
    size ≤ 4096 * Z.of_nat k ∧ Z.of_nat (i + k) ≤ blocks h ∧
    heap_rep h' m' segs' ∧ regions segs' ≡ₚ (i, k) :: regions segs ∧
    ∀ j l, (j, l) ∈ regions segs → (i + k ≤ j ∨ j + l ≤ i)%nat.
Proof.
  intros Hrep Hsize Hstart Ha Hp. pose proof (heap_alloc_rep h m segs size Hrep Hsize) as H.
  pose proof (alloc_blocks_of_covers _ Hsize). unfold HEAP_BLOCK_SIZE_BYTES in *.
  destruct (alloc_segs _ segs) as [[i segs']|] eqn:Hs; [|rewrite H in Ha; congruence].
  destruct H as (h1 & bs & Ha' & Hlen & Hin & Hrep' & _). rewrite Ha' in Ha. simplify_eq.
  apply alloc_segs_regions in Hs as [Hperm Hdis].
  exists i, (Z.to_nat (alloc_blocks_of size)), segs'. rewrite (rep_blocks _ _ _ Hrep).
  split; [done|]. split; [lia|]. split; [lia|]. done.
Qed.

(** [heap_alloc] returns the null pointer exactly when no run of free blocks is as long as
    the request. *)
Theorem heap_alloc_null_iff h m segs size :
  heap_rep h m segs → 0 < size → 0 < heap_start_address h →
  heap_alloc h size m = Ok (0, h) m ↔
  ¬ ∃ pre post, segs = pre ++ replicate (Z.to_nat (alloc_blocks_of size)) Free ++ post.
Proof.
  intros Hrep Hsize Hstart. rewrite <-alloc_segs_none by apply Hrep.
  pose proof (heap_alloc_rep h m segs size Hrep Hsize) as H.
  destruct (alloc_segs _ segs) as [[i segs']|]; [|done].
  destruct H as (h1 & bs & Ha & _). rewrite Ha. split; [|done]. intros. simplify_eq. lia.
Qed.

(** C22: [heap_free] of the address of a used region frees exactly its blocks; the rest of the
    segments and every byte outside the table stay as they were. *)
Theorem heap_free_refines h m pre n post :
  heap_rep h m (pre ++ Used n :: post) →
  ∃ h' m', heap_free h (heap_start_address h + 4096 * Z.of_nat (length (table pre))) m = Ok h' m' ∧
    heap_rep h' m' (pre ++ replicate n Free ++ post) ∧
    heap_get_free_blocks h' = heap_get_free_blocks h + Z.of_nat n ∧
    ∀ a, ¬ (heap_tbl h ≤ a < heap_tbl h + blocks h) → m' !! a = m !! a.
Proof.
  intros Hrep. destruct (heap_free_rep h m pre n post Hrep) as (h' & Ha & Hrep' & _).
  eexists _, _. split; [done|]. split; [done|]. split.
  - unfold heap_get_free_blocks. rewrite (rep_free _ _ _ Hrep'), (rep_free _ _ _ Hrep).
    rewrite !count_segs_free_app, count_segs_free_used, count_segs_free_replicate. lia.
  - intros a Hout. rewrite (rep_blocks _ _ _ Hrep), table_app, table_cons, !length_app,
      length_render in Hout. simpl in Hout.
    apply put_bytes_outside. rewrite length_replicate. lia.
Qed.

(** freeing a fresh allocation restores the struct and the whole memory. *)
Theorem heap_alloc_free_restores h m segs size p h' m' :
  heap_rep h m segs → 0 < size → 0 < heap_start_address h →
  heap_alloc h size m = Ok (p, h') m' → p ≠ 0 →
  heap_free h' p m' = Ok h m.
Proof.
  intros Hrep Hsize Hstart Ha Hp. pose proof (heap_alloc_rep h m segs size Hrep Hsize) as H.
  pose proof (alloc_blocks_of_pos _ Hsize) as Hk.
  destruct (alloc_segs _ segs) as [[i segs']|] eqn:Hs; [|rewrite H in Ha; congruence].
  destruct H as (h1 & bs & Ha' & Hlen & Hin & Hrep' & Ht & Hst & Hbl). rewrite Ha' in Ha.
  injection Ha as <- <- <-. apply alloc_segs_split in Hs as (pre & post & -> & -> & ->).
  destruct (heap_free_rep _ _ _ _ _ Hrep') as (h2 & Hf & Hrep2 & Ht2 & Hst2 & Hbl2).
  rewrite Hst in Hf. rewrite Hf. f_equal.
  - destruct h as [hs ht hb hf], h2 as [? ? ? ?]. simpl in *.
    pose proof (rep_free _ _ _ Hrep) as E1. pose proof (rep_free _ _ _ Hrep2) as E2.
    simpl in *. congruence.
  - rewrite Ht, put_bytes_put_bytes by (rewrite length_replicate; lia).
    apply put_bytes_id. destruct (rep_bytes _ _ _ Hrep) as [g Hb].
    rewrite !table_app, table_replicate_free, <-!app_assoc in Hb.
    apply bytes_at_app in Hb as [_ Hb]. by apply bytes_at_app in Hb as [Hb _].
Qed.

(** A pointer into a block that does not begin a region is ignored by [heap_free]. *)
Theorem heap_free_ignores_inner h m segs x b r :
  heap_rep h m segs → table segs !! x = Some b → (Z.land b HEAP_BLOCK_FIRST = 0) →
  0 ≤ r < 4096 →
  heap_free h (heap_start_address h + 4096 * Z.of_nat x + r) m = Ok h m.
Proof.
  intros [[g Hb] Hok Hn Hf Hbound] Hx Hfirst Hr. unfold heap_free, HEAP_BLOCK_SIZE_BYTES.
  apply lookup_lt_Some in Hx as Hlt.
  replace (_ - _) with (4096 * Z.of_nat x + r) by lia.
  rewrite i32_small by (unfold INT_MIN, INT_MAX; lia).
  rewrite Z.quot_div_nonneg by lia.
  replace ((4096 * Z.of_nat x + r) / 4096) with (Z.of_nat x)
    by (rewrite Z.mul_comm, Z.div_add_l, Z.div_small; lia).
  erewrite bind_ok; [|apply loadb_ok; apply Hb; by apply lookup_app_l_Some].
  by rewrite Hfirst.
Qed.

(** [heap_createtable] writes 0 to the first byte of the table only, whatever the number
    of blocks: its loop never advances [table]. *)
Theorem heap_createtable_clears_one_byte m start tbl n :
  0 < n ≤ INT_MAX → is_Some (m !! tbl) →
  heap_createtable start tbl n m = Ok (mk_heap start tbl n n) (<[tbl := Some 0]> m).
Proof. apply heap_createtable_spec. Qed.

(** ** Witnesses *)

Definition demo_heap : heap := mk_heap 0x2000 0x1000 4 3.
Definition demo_heap_mem : mem := put_bytes 0x1000 [0; 0xe0; 0; 0; 7] ∅.

Lemma demo_heap_rep : heap_rep demo_heap demo_heap_mem [Free; Used 1; Free; Free].
Proof.
  split; [|by repeat constructor|done|done|done].
  exists 7. apply (bytes_at_put 0x1000 [0; 0xe0; 0; 0; 7]).
Defined.

Lemma heap_alloc_refines_first_fit_witness :
  ∃ h' m', heap_alloc demo_heap 5000 demo_heap_mem = Ok (0x4000, h') m' ∧
    heap_rep h' m' [Free; Used 1; Used 2].
Proof.
  pose proof (heap_alloc_refines_first_fit demo_heap demo_heap_mem _ 5000 demo_heap_rep
    ltac:(lia)) as (h' & m' & H & Hr & _).
  by exists h', m'.
Defined.

Definition demo_heap_after : heap := mk_heap 0x2000 0x1000 4 1.
Definition demo_heap_mem_after : mem := put_bytes 0x1000 [0; 0xe0; 0xc0; 0xa0; 7] ∅.

Lemma heap_alloc_disjoint_witness :
  heap_alloc demo_heap 5000 demo_heap_mem = Ok (0x4000, demo_heap_after) demo_heap_mem_after ∧
  ∃ i k segs', 0x4000 = 0x2000 + 4096 * Z.of_nat i ∧ 5000 ≤ 4096 * Z.of_nat k ∧ Z.of_nat (i + k) ≤ 4 ∧
    heap_rep demo_heap_after demo_heap_mem_after segs' ∧ regions segs' ≡ₚ [(i, k); (1%nat, 1%nat)] ∧ (i + k ≤ 1 ∨ 2 ≤ i)%nat.
Proof.
  assert (heap_alloc demo_heap 5000 demo_heap_mem = Ok (0x4000, demo_heap_after) demo_heap_mem_after) as Hrun by (vm_compute; reflexivity).
  split; [exact Hrun|].
  destruct (heap_alloc_disjoint demo_heap demo_heap_mem [Free; Used 1; Free; Free] 5000 0x4000 demo_heap_after demo_heap_mem_after demo_heap_rep)
    as (i & k & segs' & Hi & Hk & Hin & Hrep & Hperm & Hdis); [lia|simpl; lia|exact Hrun|lia|].
  exists i, k, segs'. split; [exact Hi|]. split; [exact Hk|]. split; [exact Hin|]. split; [exact Hrep|]. split; [exact Hperm|].
  apply (Hdis 1%nat 1%nat). by left.
Defined.

Lemma heap_alloc_null_iff_witness :
  heap_alloc demo_heap 12000 demo_heap_mem = Ok (0, demo_heap) demo_heap_mem ∧
  ¬ ∃ pre post, [Free; Used 1; Free; Free] = pre ++ replicate 3 Free ++ post.
Proof.
  assert (heap_alloc demo_heap 12000 demo_heap_mem = Ok (0, demo_heap) demo_heap_mem) as H
    by (vm_compute; reflexivity).
  split; [exact H|].
  apply (heap_alloc_null_iff demo_heap demo_heap_mem _ 12000 demo_heap_rep); [lia|simpl; lia|done].
Defined.

Lemma heap_free_refines_witness :
  ∃ h' m', heap_free demo_heap 0x3000 demo_heap_mem = Ok h' m' ∧
    heap_rep h' m' [Free; Free; Free; Free].
Proof.
  destruct (heap_free_refines demo_heap demo_heap_mem [Free] 1 [Free; Free] demo_heap_rep)
    as (h' & m' & H & Hr & _).
  by exists h', m'.
Defined.

Lemma heap_alloc_free_restores_witness :
  heap_free (mk_heap 0x2000 0x1000 4 1) 0x4000 (put_bytes 0x1000 [0; 0xe0; 0xc0; 0xa0; 7] ∅) =
    Ok demo_heap demo_heap_mem.
Proof.
  apply (heap_alloc_free_restores demo_heap demo_heap_mem [Free; Used 1; Free; Free] 5000);
    [exact demo_heap_rep|lia|simpl; lia|vm_compute; reflexivity|lia].
Defined.

Lemma heap_free_ignores_inner_witness :
  heap_free demo_heap 0x4010 demo_heap_mem = Ok demo_heap demo_heap_mem.
Proof.
  apply (heap_free_ignores_inner demo_heap demo_heap_mem [Free; Used 1; Free; Free] 2 0 16
    demo_heap_rep); [reflexivity|reflexivity|lia].
Defined.

Lemma heap_createtable_clears_one_byte_witness :
  heap_createtable 0x2000 0x1000 4 (put_bytes 0x1000 [1; 1; 1; 1] ∅) =
    Ok (mk_heap 0x2000 0x1000 4 4) (<[0x1000 := Some 0]> (put_bytes 0x1000 [1; 1; 1; 1] ∅)).
Proof. apply heap_createtable_clears_one_byte; [unfold INT_MAX; lia|by eexists]. Defined.
