(* ===== verification/Slab.v ===== *)
(** * The slab allocator (kernel/alloc/slab.c, include/slab.h)

    [struct slab] is never written after [slab_create], so it is a record passed by value;
    its header is in memory, one bit per slot.  The specification side is the set of slots
    in use ([slab_rep]). *)
From stdpp Require Import base list gmap.
From Stdlib Require Import ZArith Lia.
From S2P Require Import Prelude Memory CString.

Record slab : Type := mk_slab {
  starting_address : Z;
  max_store : Z;
  object_size : Z;
  header_size : Z;
}.

(** ** Operations *)

Definition slab_align_to_object {St} (object_size size : Z) : M St Z :=
  let* q := divu size object_size in
  let* r := modu size object_size in
  let count := i32 (q + (if r =? 0 then 0 else 1)) in
  ret (i32 (u64 (object_size * u64 count))).

Definition slab_get_header_size {St} (object_size max_store : Z) : M St Z :=
  let offset := i32 (max_store mod 8) in
  let quot := i32 (max_store / 8) in
  let* header_bytes := if offset =? 0 then ret quot else int_of (quot + 1) in
  let* r := slab_align_to_object object_size (u64 header_bytes) in
  ret (u64 r).

Definition slab_get_needed_size {St} (object_size max_store : Z) : M St Z :=
  let* header := slab_get_header_size object_size max_store in
  let objects := u64 (object_size * max_store) in
  ret (u64 (header + objects)).

Definition slab_header_reset_value : Z := 0.

Definition slab_create (object_size max_store starting_address : Z) : M mem slab :=
  let* total_size := slab_get_needed_size object_size max_store in
  let* header_size := slab_get_header_size object_size max_store in
  let slab := mk_slab starting_address max_store object_size header_size in
  let default_val := slab_header_reset_value in
  memset starting_address default_val header_size ;;
  ret slab.

(** [n] is an [int]; [%] and [/] truncate towards zero. *)
Definition slab_get_header_bit (s : slab) (n : Z) : M mem Z :=
  let header_byte := starting_address s in
  let offset := Z.rem n 8 in
  let quot := Z.quot n 8 in
  let* b := loadb (header_byte + quot) in
  let* bit := shl32 1 offset in
  ret (if Z.land b bit =? 0 then 0 else 1).

Definition slab_set_header_bit (s : slab) (n v : Z) : M mem unit :=
  let header_byte := starting_address s in
  let offset := Z.rem n 8 in
  let quot := Z.quot n 8 in
  let* b := loadb (header_byte + quot) in
  let* bit := shl32 1 offset in
  storeb (header_byte + quot) (Z.land b (Z.lnot bit)) ;;
  let* b := loadb (header_byte + quot) in
  let* bit := shl32 v offset in
  storeb (header_byte + quot) (Z.lor b bit).

(** [count] is a [size_t], so [count >= 0] always holds: a full header is scanned past slot 0. *)
Definition slab_get_next_slot (s : slab) : M mem Z :=
  loop (S (Z.to_nat (max_store s))) (λ count,
    if 0 <=? count then
      let* bit := slab_get_header_bit s (i32 count) in
      if bit =? 0 then ret (inr count) else ret (inl (u64 (count - 1)))
    else ret (inr (u64 (-1)))) (u64 (max_store s - 1)).

Definition slab_allocate (s : slab) : M mem Z :=
  let* next := slab_get_next_slot s in
  let slot := i32 next in
  if slot =? -1 then ret 0 else
  slab_set_header_bit s slot 1 ;;
  let slot_position := u32 (header_size s) in
  let slot_position := u32 (slot_position + object_size s * slot) in
  ret (starting_address s + slot_position).

(** [while (offset >= object_size) { offset -= object_size; slot++; }]; with a zero object
    size [slot++] passes [INT_MAX]. *)
Definition slab_free_loop {St} (object_size offset : Z) : M St (Z * Z) :=
  if object_size =? 0 then fail IntOverflow else
  loop (S (Z.to_nat (offset / object_size))) (λ '(offset, slot),
    if object_size <=? offset then
      let* slot := int_of (slot + 1) in ret (inl (offset - object_size, slot))
    else ret (inr (offset, slot))) (offset, 0).

Definition slab_free (s : slab) (ptr : Z) : M mem Z :=
  let offset := u64 ptr in
  let offset := u64 (offset - u64 (starting_address s)) in
  let offset := u64 (offset - header_size s) in
  let* (offset, slot) := slab_free_loop (object_size s) offset in
  if negb (offset =? 0) then ret 0 else
  let* bit := slab_get_header_bit s slot in
  if bit =? 1 then slab_set_header_bit s slot 0 ;; ret 1
  else ret 0.

Definition slab_get_size {St} (s : slab) : M St Z :=
  slab_get_needed_size (object_size s) (max_store s).

(** ** Specification *)

Definition slot_address (s : slab) (n : Z) : Z :=
  starting_address s + header_size s + object_size s * n.

(** Bit [n] of a header. *)
Definition header_bit (hb : list Z) (n : Z) : bool :=
  Z.testbit (default 0 (hb !! Z.to_nat (n / 8))) (n mod 8).

(** A usable geometry: offsets fit 32 bits and the objects lie in the address space. *)
Record slab_ok (s : slab) : Prop := {
  ok_max : 0 < max_store s ≤ INT_MAX;
  ok_obj : 0 < object_size s;
  ok_hdr : max_store s ≤ 8 * header_size s;
  ok_fit : header_size s + object_size s * max_store s ≤ 2 ^ 32;
  ok_addr : 0 ≤ starting_address s ∧
    starting_address s + header_size s + object_size s * max_store s ≤ 2 ^ 64;
}.

(** The header holds exactly the slots of [used]. *)
Definition slab_rep (s : slab) (m : mem) (used : gset Z) : Prop :=
  ∃ hb, bytes_at m (starting_address s) hb ∧ Forall (λ b, 0 ≤ b < 256) hb ∧
    max_store s ≤ 8 * Z.of_nat (length hb) ∧
    Z.of_nat (length hb) ≤ header_size s ∧
    ∀ n, 0 ≤ n < max_store s → header_bit hb n = bool_decide (n ∈ used).

(** The highest slot below [n] that is not in use. *)
Fixpoint top_free (used : gset Z) (n : nat) : option Z :=
  match n with
  | O => None
  | S n' => if bool_decide (Z.of_nat n' ∈ used) then top_free used n' else Some (Z.of_nat n')
  end.

Definition free_slot (s : slab) (used : gset Z) : option Z :=
  top_free used (Z.to_nat (max_store s)).

(** * Lemmas *)

Lemma top_free_spec used n k : top_free used n = Some k →
  0 ≤ k < Z.of_nat n ∧ (k ∉ used) ∧ (∀ j, k < j < Z.of_nat n → j ∈ used).
Proof.
  induction n as [|n IH]; simpl; [done|]. case_bool_decide as Hn.
  - intros H%IH. destruct H as (? & ? & Hj). split; [lia|]. split; [done|].
    intros j Hlt. destruct (decide (j = Z.of_nat n)) as [->|]; [done|]. apply Hj. lia.
  - intros [= <-]. split; [lia|]. split; [done|]. intros j Hj. lia.
Qed.

Lemma top_free_none used n : top_free used n = None ↔ ∀ j, 0 ≤ j < Z.of_nat n → j ∈ used.
Proof.
  induction n as [|n IH]; simpl; [split; [lia|done]|]. case_bool_decide as Hn.
  - rewrite IH. split; intros H j Hj.
    + destruct (decide (j = Z.of_nat n)) as [->|]; [done|]. apply H. lia.
    + apply H. lia.
  - split; [done|]. intros H. destruct Hn. apply H. lia.
Qed.

Lemma i32_pow2 o : 0 ≤ o < 8 → i32 (Z.shiftl 1 o) = 2 ^ o.
Proof.
  intros Ho. rewrite Z.shiftl_1_l. apply i32_small. unfold INT_MIN, INT_MAX.
  pose proof (Z.pow_le_mono_r 2 o 7). pose proof (Z.pow_nonneg 2 o). lia.
Qed.

Lemma land_pow2 b o : 0 ≤ o → (Z.land b (2 ^ o) =? 0) = negb (Z.testbit b o).
Proof.
  intros Ho. destruct (Z.testbit b o) eqn:E; simpl.
  - apply Z.eqb_neq. intros H. pose proof (Z.land_spec b (2 ^ o) o) as Hs.
    rewrite H, E, Z.pow2_bits_true, Z.bits_0 in Hs by done. done.
  - apply Z.eqb_eq. apply Z.bits_inj'. intros i Hi. rewrite Z.land_spec, Z.bits_0.
    rewrite Z.pow2_bits_eqb by done. destruct (Z.eqb_spec o i) as [->|];
      [by rewrite E|by rewrite andb_false_r].
Qed.

Lemma clearbit_land b o : 0 ≤ o → Z.land b (Z.lnot (2 ^ o)) = Z.clearbit b o.
Proof. intros Ho. by rewrite <-Z.ldiff_land, Z.clearbit_spec'. Qed.

Lemma setbit_lor b o : 0 ≤ o → Z.lor (Z.clearbit b o) (2 ^ o) = Z.setbit b o.
Proof.
  intros Ho. apply Z.bits_inj'. intros i Hi.
  rewrite Z.lor_spec, Z.clearbit_eqb, Z.setbit_eqb, Z.pow2_bits_eqb by done.
  by destruct (Z.testbit b i), (o =? i).
Qed.

Lemma byte_bits b : (∀ i, 8 ≤ i → Z.testbit b i = false) → 0 ≤ b → 0 ≤ b < 256.
Proof.
  intros Hb H0. split; [done|]. destruct (Z.eq_dec b 0) as [->|Hne]; [done|].
  apply Z.log2_lt_cancel. change (Z.log2 256) with 8.
  destruct (Z.lt_ge_cases (Z.log2 b) 8) as [|Hge]; [done|].
  specialize (Hb _ Hge). rewrite Z.bit_log2 in Hb by lia. done.
Qed.

Lemma byte_high b i : 0 ≤ b < 256 → 8 ≤ i → Z.testbit b i = false.
Proof.
  intros Hb Hi. destruct (Z.eq_dec b 0) as [->|]; [apply Z.bits_0|].
  apply Z.bits_above_log2; [lia|]. apply Z.lt_le_trans with 8; [|done].
  apply Z.log2_lt_pow2; lia.
Qed.

Lemma setbit_byte b o : 0 ≤ b < 256 → 0 ≤ o < 8 → 0 ≤ Z.setbit b o < 256.
Proof.
  intros Hb Ho. apply byte_bits.
  - intros i Hi. rewrite Z.setbit_eqb, byte_high by lia. by destruct (Z.eqb_spec o i); [lia|].
  - rewrite Z.setbit_spec'. apply Z.lor_nonneg. pose proof (Z.pow_nonneg 2 o). lia.
Qed.

Lemma clearbit_byte b o : 0 ≤ b < 256 → 0 ≤ o → 0 ≤ Z.clearbit b o < 256.
Proof.
  intros Hb Ho. apply byte_bits.
  - intros i Hi. by rewrite Z.clearbit_eqb, byte_high by lia.
  - rewrite Z.clearbit_spec'. apply Z.ldiff_nonneg. lia.
Qed.

Definition bit_update (b o : Z) (v : bool) : Z := if v then Z.setbit b o else Z.clearbit b o.

Lemma bit_update_byte b o v : 0 ≤ b < 256 → 0 ≤ o < 8 → 0 ≤ bit_update b o v < 256.
Proof. intros. destruct v; [by apply setbit_byte|apply clearbit_byte; lia]. Qed.

Lemma bit_update_testbit b o v i : 0 ≤ o → 0 ≤ i →
  Z.testbit (bit_update b o v) i = if decide (i = o) then v else Z.testbit b i.
Proof.
  intros Ho Hi. destruct v; simpl.
  - rewrite Z.setbit_eqb by done. case_decide; destruct (Z.eqb_spec o i); subst; done.
  - rewrite Z.clearbit_eqb. case_decide; destruct (Z.eqb_spec o i); subst; try done.
    + by rewrite andb_false_r.
    + by rewrite andb_true_r.
Qed.

(** The header after a bit was changed. *)
Definition header_update (hb : list Z) (n : Z) (v : bool) : list Z :=
  <[Z.to_nat (n / 8) := bit_update (default 0 (hb !! Z.to_nat (n / 8))) (n mod 8) v]> hb.

Lemma header_update_bit hb n v k : 0 ≤ n → n / 8 < Z.of_nat (length hb) → 0 ≤ k →
  header_bit (header_update hb n v) k = if decide (k = n) then v else header_bit hb k.
Proof.
  intros Hn Hlen Hk. unfold header_bit, header_update.
  pose proof (Z.mod_pos_bound n 8). pose proof (Z.mod_pos_bound k 8).
  pose proof (Z.div_mod n 8). pose proof (Z.div_mod k 8).
  pose proof (Z.div_pos n 8). pose proof (Z.div_pos k 8).
  destruct (decide (k / 8 = n / 8)) as [He|Hne].
  - rewrite He, list_lookup_insert_eq by lia. simpl.
    rewrite bit_update_testbit by lia.
    destruct (decide (k mod 8 = n mod 8)), (decide (k = n)); done || lia.
  - rewrite list_lookup_insert_ne by lia. rewrite decide_False by congruence. done.
Qed.

(** The bit operations on the byte that holds the bit. *)
Lemma get_bit_byte s m n b : 0 ≤ n → m !! (starting_address s + n / 8) = Some (Some b) →
  slab_get_header_bit s n m = Ok (if Z.testbit b (n mod 8) then 1 else 0) m.
Proof.
  intros Hn Hm. pose proof (Z.mod_pos_bound n 8). unfold slab_get_header_bit.
  rewrite Z.rem_mod_nonneg, Z.quot_div_nonneg by lia.
  rewrite (bind_ok _ _ _ _ _ (loadb_ok _ _ _ Hm)).
  apply wp_eq. apply wp_bind, wp_shl32; [lia|]. apply wp_ret. split; [|done].
  rewrite i32_pow2, land_pow2 by lia. by destruct (Z.testbit b (n mod 8)).
Qed.

Lemma set_bit_byte s m n b (v : bool) : 0 ≤ n → 0 ≤ b < 256 →
  m !! (starting_address s + n / 8) = Some (Some b) →
  slab_set_header_bit s n (if v then 1 else 0) m =
    Ok tt (<[starting_address s + n / 8 := Some (bit_update b (n mod 8) v)]> m).
Proof.
  intros Hn Hr Hm. pose proof (Z.mod_pos_bound n 8).
  apply wp_eq. unfold slab_set_header_bit.
  rewrite Z.rem_mod_nonneg, Z.quot_div_nonneg by lia.
  apply wp_bind. eapply wp_loadb; [done|]. apply wp_bind, wp_shl32; [lia|].
  rewrite i32_pow2, clearbit_land by lia.
  apply wp_bind, wp_storeb; [by eexists|].
  pose proof (clearbit_byte b (n mod 8)). rewrite u8_small by lia.
  apply wp_bind. eapply wp_loadb; [apply lookup_insert_eq|].
  apply wp_bind, wp_shl32; [lia|].
  apply wp_storeb; [rewrite lookup_insert_eq; by eexists|].
  split; [done|]. rewrite insert_insert_eq.
  assert (Z.lor (Z.clearbit b (n mod 8)) (i32 (Z.shiftl (if v then 1 else 0)%Z (n mod 8)))
    = bit_update b (n mod 8) v) as ->.
  { destruct v; simpl; [by rewrite i32_pow2, setbit_lor by lia|].
    rewrite Z.shiftl_0_l. apply Z.lor_0_r. }
  by rewrite u8_small by (apply bit_update_byte; lia).
Qed.

Section slab_ops.
Context (s : slab) (m : mem) (hb : list Z).
Hypothesis Hhb : bytes_at m (starting_address s) hb.
Hypothesis Hbyte : Forall (λ b, 0 ≤ b < 256) hb.

Lemma header_byte n : 0 ≤ n → n / 8 < Z.of_nat (length hb) →
  ∃ b, hb !! Z.to_nat (n / 8) = Some b ∧ 0 ≤ b < 256 ∧
    m !! (starting_address s + n / 8) = Some (Some b).
Proof.
  intros Hn Hlen. pose proof (Z.div_pos n 8).
  destruct (lookup_lt_is_Some_2 hb (Z.to_nat (n / 8))) as [b Hb]; [lia|].
  exists b. split; [done|]. split; [by apply (Forall_lookup_1 _ _ _ _ Hbyte Hb)|].
  eapply bytes_at_lookupZ; [done|lia|done].
Qed.

Lemma slab_get_header_bit_spec n : 0 ≤ n → n / 8 < Z.of_nat (length hb) →
  slab_get_header_bit s n m = Ok (if header_bit hb n then 1 else 0) m.
Proof.
  intros Hn Hlen. destruct (header_byte n Hn Hlen) as (b & Hb & Hr & Hm).
  rewrite (get_bit_byte s m n b) by done. unfold header_bit. by rewrite Hb.
Qed.

Lemma slab_set_header_bit_spec n (v : bool) : 0 ≤ n → n / 8 < Z.of_nat (length hb) →
  slab_set_header_bit s n (if v then 1 else 0) m =
    Ok tt (put_bytes (starting_address s) (header_update hb n v) m).
Proof.
  intros Hn Hlen. destruct (header_byte n Hn Hlen) as (b & Hb & Hr & Hm).
  pose proof (Z.div_pos n 8). rewrite (set_bit_byte s m n b) by done. f_equal.
  unfold header_update. rewrite Hb. simpl.
  rewrite <-put_bytes_insert by (by eapply lookup_lt_Some).
  by rewrite put_bytes_id, Z2Nat.id by (done || lia).
Qed.
End slab_ops.

(** ** Slots *)

Lemma header_index s (hb : list Z) n :
  0 ≤ n < max_store s → max_store s ≤ 8 * Z.of_nat (length hb) → n / 8 < Z.of_nat (length hb).
Proof. intros Hn Hlen. apply Z.div_lt_upper_bound; lia. Qed.

Lemma slab_get_next_slot_spec s m used :
  slab_ok s → slab_rep s m used →
  slab_get_next_slot s m =
    match free_slot s used with
    | Some n => Ok n m
    | None => Fault (ShiftRange (-1))
    end.
Proof.
  intros [Hmax _ _ _ _] (hb & Hhb & Hb & Hlen & _ & Hbits). unfold slab_get_next_slot, free_slot.
  unfold INT_MAX in Hmax. set (N := Z.to_nat (max_store s)).
  assert (HN : Z.of_nat N = max_store s) by lia. clearbody N.
  assert (∀ k, (k ≤ N)%nat →
    loop (S k) (λ count, if 0 <=? count then
      let* bit := slab_get_header_bit s (i32 count) in
      if bit =? 0 then ret (inr count) else ret (inl (u64 (count - 1)))
      else ret (inr (u64 (-1)))) (u64 (Z.of_nat k - 1)) m =
    match top_free used k with Some n => Ok n m | None => Fault (ShiftRange (-1)) end) as Hloop.
  { induction k as [|k IH]; intros Hk.
    - cbn [loop top_free]. change (u64 (Z.of_nat 0 - 1)) with (2 ^ 64 - 1).
      change (0 <=? 2 ^ 64 - 1) with true. cbv iota.
      destruct (header_byte s m hb Hhb Hb 0) as (b & _ & _ & Hm); [done|change (0 / 8) with 0; lia|].
      unfold slab_get_header_bit. change (i32 (2 ^ 64 - 1)) with (-1).
      change (Z.quot (-1) 8) with (0 / 8). change (Z.rem (-1) 8) with (-1).
      unfold bind. by rewrite (loadb_ok _ _ _ Hm).
    - rewrite (u64_small (Z.of_nat (S k) - 1)) by lia. replace (Z.of_nat (S k) - 1) with (Z.of_nat k) by lia.
      change (loop (S (S k)) ?f ?x) with (let* r := f x in
        match r with inl l' => loop (S k) f l' | inr a => ret a end).
      cbv beta. destruct (Z.leb_spec 0 (Z.of_nat k)); [|lia].
      rewrite i32_small by (unfold INT_MIN, INT_MAX; lia).
      cbn [top_free]. rewrite (bind_ok _ _ _ (if bool_decide (Z.of_nat k ∈ used)
        then inl (u64 (Z.of_nat k - 1)) else inr (Z.of_nat k)) m).
      + case_bool_decide; [apply IH; lia|done].
      + erewrite bind_ok; [|apply (slab_get_header_bit_spec s m hb Hhb Hb);
          [lia|apply (header_index s); lia]].
        rewrite Hbits by lia. by case_bool_decide. }
  specialize (Hloop N). rewrite HN in Hloop. by apply Hloop.
Qed.

Lemma header_update_bytes (hb : list Z) n v :
  Forall (λ b, 0 ≤ b < 256) hb → Forall (λ b, 0 ≤ b < 256) (header_update hb n v).
Proof.
  intros Hb. pose proof (Z.mod_pos_bound n 8). apply Forall_insert; [done|].
  apply bit_update_byte; [|lia]. destruct (hb !! _) as [b|] eqn:E; [|done].
  by apply (Forall_lookup_1 _ _ _ _ Hb E).
Qed.

Lemma slab_set_rep s m used hb n (v : bool) :
  bytes_at m (starting_address s) hb → Forall (λ b, 0 ≤ b < 256) hb →
  max_store s ≤ 8 * Z.of_nat (length hb) → Z.of_nat (length hb) ≤ header_size s →
  (∀ n, 0 ≤ n < max_store s → header_bit hb n = bool_decide (n ∈ used)) →
  0 ≤ n < max_store s →
  slab_rep s (put_bytes (starting_address s) (header_update hb n v) m)
    (if v then {[n]} ∪ used else used ∖ {[n]}).
Proof.
  intros Hhb Hb Hlen Hle Hbits Hn. pose proof (header_index s hb n Hn Hlen) as Hi.
  assert (length (header_update hb n v) = length hb) as Hl by apply length_insert.
  exists (header_update hb n v). split; [apply bytes_at_put|]. rewrite Hl.
  split; [|split; [done|split; [done|]]].
  - by apply header_update_bytes.
  - intros k Hk. rewrite header_update_bit by lia. case_decide as E.
    + subst k. destruct v; symmetry; [apply bool_decide_eq_true_2|apply bool_decide_eq_false_2];
        set_solver.
    + rewrite Hbits by done. apply bool_decide_ext. destruct v; set_solver.
Qed.

(** The bytes of the header region, the only ones the operations write. *)
Definition only_header (s : slab) (m m' : mem) : Prop :=
  ∀ a, ¬ (starting_address s ≤ a < starting_address s + header_size s) → m' !! a = m !! a.

Lemma slab_allocate_at s m used hb n :
  slab_ok s → bytes_at m (starting_address s) hb → Forall (λ b, 0 ≤ b < 256) hb →
  max_store s ≤ 8 * Z.of_nat (length hb) → slab_rep s m used → free_slot s used = Some n →
  slab_allocate s m =
    Ok (slot_address s n) (put_bytes (starting_address s) (header_update hb n true) m).
Proof.
  intros Hok Hhb Hb Hlen Hrep Hfree.
  pose proof (slab_get_next_slot_spec s m used Hok Hrep) as Hnext.
  rewrite Hfree in Hnext. apply top_free_spec in Hfree as (Hn & _ & _).
  destruct Hok as [Hmax Hobj Hhdr Hfit Haddr]. unfold INT_MAX in Hmax.
  rewrite Z2Nat.id in Hn by lia. pose proof (header_index s hb n Hn Hlen) as Hi.
  unfold slab_allocate. rewrite (bind_ok _ _ _ _ _ Hnext).
  rewrite i32_small by (unfold INT_MIN, INT_MAX; lia).
  destruct (Z.eqb_spec n (-1)); [lia|].
  erewrite bind_ok; [|apply (slab_set_header_bit_spec s m hb Hhb Hb n true); lia].
  unfold ret, slot_address. rewrite (u32_small (header_size s)) by nia.
  rewrite u32_small by nia. f_equal. lia.
Qed.

Lemma header_update_only s hb n v m : Z.of_nat (length hb) ≤ header_size s →
  only_header s m (put_bytes (starting_address s) (header_update hb n v) m).
Proof. intros Hle a Ha. apply put_bytes_outside. unfold header_update. rewrite length_insert. lia. Qed.

Lemma slab_allocate_rep s m used n :
  slab_ok s → slab_rep s m used → free_slot s used = Some n →
  ∃ m', slab_allocate s m = Ok (slot_address s n) m' ∧
    slab_rep s m' ({[n]} ∪ used) ∧ only_header s m m'.
Proof.
  intros Hok Hrep Hfree. pose proof Hrep as (hb & Hhb & Hb & Hlen & Hle & Hbits).
  pose proof (top_free_spec _ _ _ Hfree) as (Hn & _ & _). pose proof (ok_max s Hok).
  eexists. split; [by eapply slab_allocate_at|]. split.
  - apply (slab_set_rep s m used hb n true); try done. lia.
  - by apply header_update_only.
Qed.

Lemma slab_free_loop_spec {St} (obj off : Z) (s : St) : 0 < obj → 0 ≤ off → off / obj < INT_MAX →
  slab_free_loop obj off s = Ok (off mod obj, off / obj) s.
Proof.
  intros Hobj Hoff Hmax. unfold slab_free_loop. destruct (Z.eqb_spec obj 0); [lia|].
  pose proof (Z.div_mod off obj). pose proof (Z.mod_pos_bound off obj).
  pose proof (Z.div_pos off obj). apply wp_eq.
  apply (wp_loop (λ '(o, k) s', s' = s ∧ 0 ≤ k ≤ off / obj ∧ o = off - obj * k)
    (λ '(_, k), Z.to_nat (off / obj - k))).
  - intros [o k] s' (-> & Hk & ->). destruct (Z.leb_spec obj (off - obj * k)) as [Hle|Hlt].
    + wp_step. wp_step. apply wp_ret. assert (k < off / obj) by nia.
      split; [|lia]. split; [done|]. split; lia.
    + assert (k = off / obj) as -> by nia. apply wp_ret. split; [|done]. f_equal. lia.
  - split; [done|]. split; lia.
  - lia.
Qed.

(** [slab_free] on an address behind the header: the slot and the rest. *)
Lemma slab_free_at s m n r : slab_ok s → 0 ≤ n < INT_MAX → 0 ≤ r < object_size s →
  slot_address s n + r < 2 ^ 64 →
  slab_free s (slot_address s n + r) m =
    (if r =? 0 then
       let* bit := slab_get_header_bit s n in
       if bit =? 1 then slab_set_header_bit s n 0 ;; ret 1 else ret 0
     else ret 0) m.
Proof.
  intros [Hmax Hobj Hhdr Hfit Haddr] Hn Hr Htop. unfold slab_free, slot_address in *.
  unfold INT_MAX in Hmax. assert (0 ≤ object_size s * n) by nia.
  rewrite (u64_small (_ + r)), (u64_small (starting_address s)) by lia.
  rewrite (u64_small (_ - starting_address s)), (u64_small (_ - header_size s)) by lia.
  replace (_ - header_size s) with (r + n * object_size s) by lia.
  assert ((r + n * object_size s) / object_size s = n) as Hd
    by (rewrite Z.div_add, Z.div_small; lia).
  assert ((r + n * object_size s) mod object_size s = r) as Hm
    by (rewrite Z.mod_add, Z.mod_small; lia).
  erewrite bind_ok; [|apply slab_free_loop_spec; rewrite ?Hd; lia].
  rewrite Hd, Hm. cbn beta iota. by destruct (r =? 0).
Qed.

(** The slots of a usable slab are addresses that fit. *)
Lemma slot_in_space s n r : slab_ok s → 0 ≤ n < max_store s → 0 ≤ r < object_size s →
  0 ≤ n < INT_MAX ∧ slot_address s n + r < 2 ^ 64.
Proof. intros [Hmax Hobj Hhdr Hfit Haddr] Hn Hr. unfold slot_address, INT_MAX in *. split; nia. Qed.

Lemma slab_free_bit s m hb n :
  slab_ok s → bytes_at m (starting_address s) hb → Forall (λ b, 0 ≤ b < 256) hb →
  max_store s ≤ 8 * Z.of_nat (length hb) → 0 ≤ n < max_store s →
  slab_free s (slot_address s n) m =
    if header_bit hb n
    then Ok 1 (put_bytes (starting_address s) (header_update hb n false) m) else Ok 0 m.
Proof.
  intros Hok Hhb Hb Hlen Hn. pose proof (header_index s hb n Hn Hlen) as Hi.
  pose proof (ok_obj s Hok). destruct (slot_in_space s n 0 Hok Hn ltac:(lia)).
  pose proof (slab_free_at s m n 0 Hok ltac:(lia) ltac:(lia) ltac:(lia)) as Hfree.
  rewrite Z.add_0_r in Hfree. rewrite Hfree. cbn [Z.eqb].
  rewrite (bind_ok _ _ _ _ _ (slab_get_header_bit_spec s m hb Hhb Hb n (proj1 Hn) Hi)).
  destruct (header_bit hb n); [|done]. simpl. erewrite bind_ok; [done|].
  apply (slab_set_header_bit_spec s m hb Hhb Hb n false); lia.
Qed.

Lemma slab_free_rep s m used n :
  slab_ok s → slab_rep s m used → 0 ≤ n < max_store s →
  if bool_decide (n ∈ used) then
    ∃ m', slab_free s (slot_address s n) m = Ok 1 m' ∧
      slab_rep s m' (used ∖ {[n]}) ∧ only_header s m m'
  else slab_free s (slot_address s n) m = Ok 0 m.
Proof.
  intros Hok (hb & Hhb & Hb & Hlen & Hle & Hbits) Hn.
  pose proof (slab_free_bit s m hb n Hok Hhb Hb Hlen Hn) as Hfree.
  rewrite (Hbits n Hn) in Hfree. case_bool_decide; [|done].
  eexists. split; [done|]. split; [|by apply header_update_only].
  by apply (slab_set_rep s m used hb n false).
Qed.

(** Changing a bit and changing it back restores the header. *)
Lemma header_update_undo hb n (v : bool) :
  0 ≤ n → n / 8 < Z.of_nat (length hb) → header_bit hb n = v →
  header_update (header_update hb n (negb v)) n v = hb.
Proof.
  intros Hn Hi Hv. unfold header_update. pose proof (Z.div_pos n 8).
  pose proof (Z.mod_pos_bound n 8).
  rewrite list_lookup_insert_eq, list_insert_insert_eq by lia. simpl.
  destruct (lookup_lt_is_Some_2 hb (Z.to_nat (n / 8))) as [b Hb]; [lia|].
  unfold header_bit in Hv. rewrite Hb in *. simpl in *.
  replace (bit_update _ _ _) with b; [by apply list_insert_id|].
  apply Z.bits_inj'. intros i Hi0. rewrite !bit_update_testbit by lia.
  by case_decide; [subst i|].
Qed.

(** ** Geometry *)

(** Bytes of header for [n] slots, and a size rounded up to whole objects. *)
Definition header_bytes (n : Z) : Z := n / 8 + (if n mod 8 =? 0 then 0 else 1).
Definition round_up (obj size : Z) : Z :=
  obj * (size / obj + (if size mod obj =? 0 then 0 else 1)).

Lemma round_up_range obj size : 0 < obj → 0 ≤ size → size ≤ round_up obj size < size + obj.
Proof.
  intros Hobj Hsize. unfold round_up. pose proof (Z.div_mod size obj).
  pose proof (Z.mod_pos_bound size obj). destruct (Z.eqb_spec (size mod obj) 0); nia.
Qed.

Lemma header_bytes_range n : 0 ≤ n → n ≤ 8 * header_bytes n < n + 8.
Proof.
  intros Hn. unfold header_bytes. pose proof (Z.div_mod n 8). pose proof (Z.mod_pos_bound n 8).
  destruct (Z.eqb_spec (n mod 8) 0); lia.
Qed.

Lemma slab_align_spec {St} (obj size : Z) (s : St) :
  0 < obj → 0 ≤ size → size + obj ≤ INT_MAX →
  slab_align_to_object obj size s = Ok (round_up obj size) s.
Proof.
  intros Hobj Hsize Hmax. unfold INT_MAX in Hmax. unfold slab_align_to_object. apply wp_eq.
  apply wp_bind, wp_divu; [lia|]. apply wp_bind, wp_modu; [lia|]. apply wp_ret.
  split; [|done]. pose proof (round_up_range obj size Hobj Hsize). unfold round_up in *.
  set (c := size / obj + (if size mod obj =? 0 then 0 else 1)) in *.
  assert (0 ≤ c) by nia. assert (c ≤ obj * c) by nia.
  rewrite (i32_small c) by (unfold INT_MIN, INT_MAX; lia).
  rewrite (u64_small c), u64_small by lia. rewrite i32_small by (unfold INT_MIN, INT_MAX; lia).
  done.
Qed.

Lemma slab_get_header_size_spec {St} (obj n : Z) (s : St) :
  0 < obj → 0 ≤ n ≤ INT_MAX → header_bytes n + obj ≤ INT_MAX →
  slab_get_header_size obj n s = Ok (round_up obj (header_bytes n)) s.
Proof.
  intros Hobj Hn Hmax. pose proof (header_bytes_range n (proj1 Hn)).
  pose proof (round_up_range obj (header_bytes n) Hobj). unfold INT_MAX in *.
  pose proof (Z.mod_pos_bound n 8). pose proof (Z.div_mod n 8).
  assert (∀ s : St, (if i32 (n mod 8) =? 0 then ret (i32 (n / 8)) else int_of (i32 (n / 8) + 1)) s
    = Ok (header_bytes n) s) as Hb.
  { intros s0. rewrite !i32_small by (unfold INT_MIN, INT_MAX; lia). unfold header_bytes.
    destruct (n mod 8 =? 0); [by rewrite Z.add_0_r|]. apply wp_eq. by wp_step. }
  unfold slab_get_header_size. rewrite (bind_ok _ _ _ _ _ (Hb s)), u64_small by lia.
  rewrite (bind_ok _ _ _ _ _ (slab_align_spec obj (header_bytes n) s Hobj ltac:(lia)
    ltac:(unfold INT_MAX; lia))).
  unfold ret. by rewrite u64_small by lia.
Qed.

Lemma slab_get_needed_size_spec {St} (obj n : Z) (s : St) :
  0 < obj → 0 ≤ n ≤ INT_MAX → header_bytes n + obj ≤ INT_MAX → obj * n ≤ 2 ^ 32 →
  slab_get_needed_size obj n s = Ok (round_up obj (header_bytes n) + obj * n) s.
Proof.
  intros Hobj Hn Hmax Hfit. unfold slab_get_needed_size.
  rewrite (bind_ok _ _ _ _ _ (slab_get_header_size_spec obj n s Hobj Hn Hmax)).
  pose proof (header_bytes_range n (proj1 Hn)).
  pose proof (round_up_range obj (header_bytes n) Hobj ltac:(lia)). unfold INT_MAX in *.
  assert (0 ≤ obj * n) by nia. unfold ret. cbv beta. by rewrite (u64_small (obj * n)), u64_small by lia.
Qed.

Lemma header_bit_zero k n : header_bit (replicate k 0) n = false.
Proof.
  unfold header_bit. destruct (replicate k 0 !! _) as [b|] eqn:E; simpl; [|apply Z.bits_0].
  apply lookup_replicate in E as [-> _]. apply Z.bits_0.
Qed.

Lemma slab_create_rep obj n start m :
  0 < obj → 0 < n ≤ INT_MAX → header_bytes n + obj ≤ INT_MAX →
  round_up obj (header_bytes n) + obj * n ≤ 2 ^ 32 →
  0 ≤ start → start + round_up obj (header_bytes n) + obj * n ≤ 2 ^ 64 →
  mapped m start (round_up obj (header_bytes n)) →
  let s := mk_slab start n obj (round_up obj (header_bytes n)) in
  let m' := put_bytes start (replicate (Z.to_nat (header_size s)) 0) m in
  slab_create obj n start m = Ok s m' ∧ slab_ok s ∧ slab_rep s m' ∅.
Proof.
  intros Hobj Hn Hmax Hfit Hstart Htop Hm s m'.
  pose proof (header_bytes_range n ltac:(lia)) as Hhb.
  pose proof (round_up_range obj (header_bytes n) Hobj ltac:(lia)) as Hru.
  unfold INT_MAX in *. split; [|split].
  - unfold slab_create.
    rewrite (bind_ok _ _ _ _ _ (slab_get_needed_size_spec obj n m Hobj
      ltac:(unfold INT_MAX; lia) ltac:(unfold INT_MAX; lia) ltac:(lia))).
    rewrite (bind_ok _ _ _ _ _ (slab_get_header_size_spec obj n m Hobj
      ltac:(unfold INT_MAX; lia) ltac:(unfold INT_MAX; lia))).
    subst m' s. simpl. erewrite bind_ok; [reflexivity|].
    apply memset_spec; [done|unfold INT_MAX; lia|done].
  - split; simpl; unfold INT_MAX; lia.
  - exists (replicate (Z.to_nat (header_size s)) 0). rewrite length_replicate. simpl.
    split; [apply bytes_at_put|]. split; [by apply Forall_replicate|].
    split; [lia|]. split; [lia|]. intros k _. rewrite header_bit_zero.
    symmetry. apply bool_decide_eq_false_2. set_solver.
Qed.

(** * Properties *)

(** C16: [slab_allocate] takes the highest slot whose bit is clear: it returns the address of
    that slot, the header represents the enlarged set of slots and no byte outside the header
    changes.  With no free slot it does not return the null pointer by the code's rules: the
    unsigned counter wraps and the shift amount becomes -1. *)
Theorem slab_allocate_refines s m used :
  slab_ok s → slab_rep s m used →
  match free_slot s used with
  | Some n => ∃ m', slab_allocate s m = Ok (slot_address s n) m' ∧
      0 ≤ n < max_store s ∧ (n ∉ used) ∧ (∀ k, n < k < max_store s → k ∈ used) ∧
      slab_rep s m' ({[n]} ∪ used) ∧ only_header s m m'
  | None => (∀ k, 0 ≤ k < max_store s → k ∈ used) ∧
      slab_allocate s m = Fault (ShiftRange (-1))
  end.
Proof.
  intros Hok Hrep. pose proof (ok_max s Hok). destruct (free_slot s used) as [n|] eqn:Hn.
  - destruct (slab_allocate_rep s m used n Hok Hrep Hn) as (m' & ? & ? & ?).
    apply top_free_spec in Hn as (Hr & Hnot & Htop). rewrite Z2Nat.id in * by lia.
    by exists m'.
  - split.
    + intros k Hk. eapply top_free_none; [exact Hn|lia].
    + pose proof (slab_get_next_slot_spec s m used Hok Hrep) as H1. rewrite Hn in H1.
      unfold slab_allocate. by rewrite (bind_fault _ _ _ _ H1).
Qed.

(** C37: [slab_free] of the address of a slot in use clears its bit and returns 1, changing
    nothing outside the header; of a slot that is free (a double free) or of an address inside
    a slot that is not its first byte it returns 0 and changes nothing. *)
Theorem slab_free_refines s m used n r :
  slab_ok s → slab_rep s m used → 0 ≤ n < max_store s → 0 ≤ r < object_size s →
  if bool_decide (r = 0 ∧ n ∈ used) then
    ∃ m', slab_free s (slot_address s n + r) m = Ok 1 m' ∧
      slab_rep s m' (used ∖ {[n]}) ∧ only_header s m m'
  else slab_free s (slot_address s n + r) m = Ok 0 m.
Proof.
  intros Hok Hrep Hn Hr. destruct (decide (r = 0)) as [->|Hne].
  - pose proof (slab_free_rep s m used n Hok Hrep Hn) as H. rewrite Z.add_0_r.
    destruct (decide (n ∈ used)).
    + rewrite bool_decide_eq_true_2 in H |- * by done. destruct H as (m' & ? & ? & ?).
      by exists m'.
    + rewrite bool_decide_eq_false_2 in H |- * by tauto. done.
  - destruct (slot_in_space s n r Hok Hn Hr).
    rewrite bool_decide_eq_false_2 by tauto. rewrite slab_free_at by (done || lia).
    by destruct (Z.eqb_spec r 0).
Qed.

(** Freeing the slot just allocated restores the whole memory. *)
Theorem slab_alloc_free_restores s m used p m' :
  slab_ok s → slab_rep s m used → slab_allocate s m = Ok p m' → slab_free s p m' = Ok 1 m.
Proof.
  intros Hok Hrep Ha. destruct (free_slot s used) as [n|] eqn:Hn.
  2:{ pose proof (slab_get_next_slot_spec s m used Hok Hrep) as H1. rewrite Hn in H1.
      unfold slab_allocate in Ha. by rewrite (bind_fault _ _ _ _ H1) in Ha. }
  pose proof Hrep as (hb & Hhb & Hb & Hlen & Hle & Hbits). pose proof (ok_max s Hok).
  erewrite slab_allocate_at in Ha by done. injection Ha as <- <-.
  apply top_free_spec in Hn as (Hr & Hnot & _). rewrite Z2Nat.id in Hr by lia.
  pose proof (header_index s hb n Hr Hlen) as Hi.
  assert (length (header_update hb n true) = length hb) as Hl by apply length_insert.
  rewrite (slab_free_bit s _ (header_update hb n true)); try done.
  - rewrite header_update_bit, decide_True by (done || lia).
    rewrite (header_update_undo hb n false : _ → _ → _ → header_update (header_update hb n true) n false = hb);
      [|lia|done|by rewrite Hbits, bool_decide_eq_false_2].
    by rewrite put_bytes_put_bytes, put_bytes_id.
  - apply bytes_at_put.
  - by apply header_update_bytes.
  - by rewrite Hl.
Qed.

(** C38: [slab_create] builds an empty slab of the requested geometry: it clears exactly the
    header and every slot lies behind the header, inside the size [slab_get_needed_size]
    announces, distinct slots being disjoint. *)
Theorem slab_create_empty obj n start m :
  0 < obj → 0 < n ≤ INT_MAX → header_bytes n + obj ≤ INT_MAX →
  round_up obj (header_bytes n) + obj * n ≤ 2 ^ 32 →
  0 ≤ start → start + round_up obj (header_bytes n) + obj * n ≤ 2 ^ 64 →
  mapped m start (round_up obj (header_bytes n)) →
  ∃ s m' size, slab_create obj n start m = Ok s m' ∧ slab_get_size s m' = Ok size m' ∧
    slab_ok s ∧ slab_rep s m' ∅ ∧ only_header s m m' ∧
    header_size s mod obj = 0 ∧
    (∀ i, 0 ≤ i < n → start + header_size s ≤ slot_address s i ∧
      slot_address s i + obj ≤ start + size) ∧
    (∀ i j, 0 ≤ i < n → 0 ≤ j < n → i ≠ j →
      slot_address s i + obj ≤ slot_address s j ∨ slot_address s j + obj ≤ slot_address s i).
Proof.
  intros Hobj Hn Hmax Hfit Hstart Htop Hm.
  destruct (slab_create_rep obj n start m) as (Hc & Hok & Hrep); try done.
  do 3 eexists. split; [done|]. split.
  { apply slab_get_needed_size_spec; simpl; try (done || lia).
    pose proof (round_up_range obj (header_bytes n)). pose proof (header_bytes_range n). lia. }
  split; [done|]. split; [done|]. unfold slot_address. simpl. split; [|split; [|split]].
  - intros a Ha. apply put_bytes_outside. rewrite length_replicate. simpl in *. lia.
  - unfold round_up. by rewrite Z.mul_comm, Z.mod_mul by lia.
  - intros i Hi. nia.
  - intros i j Hi Hj Hij. nia.
Qed.

(** [slab_free] has no check that the slot exists: for an address past the last slot whose
    header bit would lie past the header, it clears a bit of the byte found there (the first
    objects, for a header without spare bits). *)
Theorem slab_free_past_end s m n b :
  slab_ok s → max_store s ≤ n < INT_MAX → slot_address s n < 2 ^ 64 →
  m !! (starting_address s + n / 8) = Some (Some b) → 0 ≤ b < 256 →
  Z.testbit b (n mod 8) = true →
  slab_free s (slot_address s n) m =
    Ok 1 (<[starting_address s + n / 8 := Some (Z.clearbit b (n mod 8))]> m).
Proof.
  intros Hok Hn Htop Hm Hb Hbit. pose proof (ok_max s Hok). pose proof (ok_obj s Hok).
  pose proof (slab_free_at s m n 0 Hok ltac:(lia) ltac:(lia) ltac:(lia)) as H1.
  rewrite Z.add_0_r in H1. rewrite H1. cbn [Z.eqb].
  rewrite (bind_ok _ _ _ _ _ (get_bit_byte s m n b ltac:(lia) Hm)), Hbit. simpl.
  erewrite bind_ok; [reflexivity|]. apply (set_bit_byte s m n b false); [lia|done|done].
Qed.

(** ** Witnesses: two four-byte slots at address 100 *)

Definition demo_slab : slab := mk_slab 100 2 4 4.
Definition demo_slab_mem : mem := put_bytes 100 [1; 0; 0; 0; 9; 9; 9; 9; 8; 8; 8; 8] ∅.

Lemma demo_slab_ok : slab_ok demo_slab.
Proof. split; simpl; unfold INT_MAX; lia. Defined.

Lemma demo_slab_rep : slab_rep demo_slab demo_slab_mem {[0]}.
Proof.
  exists [1; 0; 0; 0]. split; [apply (bytes_at_app _ _ _ [9; 9; 9; 9; 8; 8; 8; 8]), bytes_at_put|].
  split; [by repeat constructor|]. split; [done|]. split; [done|].
  intros n Hn. simpl in Hn. assert (n = 0 ∨ n = 1) as [-> | ->] by lia; done.
Defined.

Lemma slab_allocate_refines_witness :
  ∃ m', slab_allocate demo_slab demo_slab_mem = Ok 108 m' ∧ slab_rep demo_slab m' {[1; 0]}.
Proof.
  pose proof (slab_allocate_refines demo_slab demo_slab_mem {[0]} demo_slab_ok demo_slab_rep)
    as (m' & H & _ & _ & _ & Hrep & _).
  by exists m'.
Defined.

Lemma slab_free_refines_witness :
  ∃ m', slab_free demo_slab 104 demo_slab_mem = Ok 1 m' ∧ slab_rep demo_slab m' ({[0]} ∖ {[0]}).
Proof.
  pose proof (slab_free_refines demo_slab demo_slab_mem {[0]} 0 0 demo_slab_ok demo_slab_rep
    ltac:(simpl; lia) ltac:(simpl; lia)) as (m' & H & Hrep & _).
  by exists m'.
Defined.

Lemma slab_alloc_free_restores_witness :
  ∃ m', slab_allocate demo_slab demo_slab_mem = Ok 108 m' ∧
    slab_free demo_slab 108 m' = Ok 1 demo_slab_mem.
Proof.
  eexists. split; [vm_compute; reflexivity|].
  apply (slab_alloc_free_restores _ _ {[0]} _ _ demo_slab_ok demo_slab_rep). reflexivity.
Defined.

Lemma slab_create_empty_witness :
  ∃ s m' size, slab_create 4 2 100 demo_slab_mem = Ok s m' ∧ slab_get_size s m' = Ok size m' ∧
    slab_rep s m' ∅.
Proof.
  assert (mapped demo_slab_mem 100 4) as Hm.
  { eapply mapped_weaken; [apply (bytes_at_mapped _ 100), bytes_at_put|lia|simpl; lia]. }
  destruct (slab_create_empty 4 2 100 demo_slab_mem ltac:(lia) ltac:(unfold INT_MAX; lia)
    ltac:(done) ltac:(done) ltac:(lia) ltac:(done) Hm) as (s & m' & size & H & Hs & _ & Hrep & _).
  by exists s, m', size.
Defined.

(** Slot 32 does not exist, but its bit is bit 0 of the first object. *)
Lemma slab_free_past_end_witness :
  slab_free demo_slab 232 demo_slab_mem = Ok 1 (<[104 := Some 8]> demo_slab_mem).
Proof.
  apply (slab_free_past_end demo_slab demo_slab_mem 32 9 demo_slab_ok);
    [simpl; unfold INT_MAX; lia|done|done|lia|done].
Defined.
