(* ===== verification/Machine.v ===== *)
(** * The machine: memory, system registers, devices

    What the inline assembly and the [volatile] accesses of the sources act on.  Memory is
    [Memory.mem]; [mrs] and [msr] read and write [sysregs]; every effect a device or the MMU
    can see is an event of [trace], newest first.  What devices answer is not under the
    program's control: it is an [environment], a function of the events so far. *)
From stdpp Require Import base list gmap.
From Stdlib Require Import ZArith Lia.
From S2P Require Import Prelude Memory.

Inductive sysreg : Type :=
| TTBR0_EL1 | TCR_EL1 | SCTLR_EL1 | VBAR_EL1 | DAIF
| ELR_EL1 | SP_EL0 | SPSR_EL1 | ESR_EL1
| CNTFRQ_EL0 | CNTP_CTL_EL0 | CNTP_TVAL_EL0 | CNTPCT_EL0
| ICC_BPR0_EL1 | ICC_BPR1_EL1 | ICC_PMR_EL1 | ICC_IGRPEN0_EL1 | ICC_IGRPEN1_EL1
| ICC_SRE_EL1 | ICC_IAR0_EL1 | ICC_IAR1_EL1 | ICC_EOIR0_EL1 | ICC_EOIR1_EL1.

#[global] Instance sysreg_eq_dec : EqDecision sysreg.
Proof. solve_decision. Defined.

Inductive event : Type :=
| Mmio_write (width a v : Z)
| Mmio_read (width a v : Z)
| Msr (r : sysreg) (v : Z)
| Mrs_volatile (r : sysreg) (v : Z)
| Tlbi_vmalle1
| Dsb
| Eret.

#[global] Instance event_eq_dec : EqDecision event.
Proof. solve_decision. Defined.

(** The answers of the devices and of the registers that change by themselves. *)
Record environment : Type := mk_environment {
  env_mmio : list event → Z → Z;
  env_reg : list event → sysreg → Z;
}.

Record machine : Type := mk_machine {
  ram : mem;
  sysregs : sysreg → Z;
  trace : list event;
  env : environment;
}.

Definition set_ram (m : mem) (s : machine) : machine :=
  mk_machine m (sysregs s) (trace s) (env s).
Definition emit_event (e : event) (s : machine) : machine :=
  mk_machine (ram s) (sysregs s) (e :: trace s) (env s).

(** An operation on memory alone. *)
Definition on_ram {A} (m : M mem A) : M machine A := zoom ram set_ram m.

Definition emit (e : event) : M machine unit := modify (emit_event e).

(** ** Register accesses *)

(** The counter and the interrupt acknowledge registers change between reads. *)
Definition volatile_reg (r : sysreg) : bool :=
  match r with CNTPCT_EL0 | ICC_IAR0_EL1 | ICC_IAR1_EL1 => true | _ => false end.

Definition set_reg (r : sysreg) (v : Z) (f : sysreg → Z) : sysreg → Z :=
  λ r', if decide (r' = r) then v else f r'.

Definition mrs (r : sysreg) : M machine Z := λ s,
  if volatile_reg r then
    let v := u64 (env_reg (env s) (trace s) r) in
    Ok v (emit_event (Mrs_volatile r v) s)
  else Ok (sysregs s r) s.

Definition msr (r : sysreg) (v : Z) : M machine unit := λ s,
  Ok tt (mk_machine (ram s) (set_reg r v (sysregs s)) (Msr r v :: trace s) (env s)).

(** ** Device registers *)

Definition mmio_read32 (a : Z) : M machine Z := λ s,
  let v := u32 (env_mmio (env s) (trace s) a) in Ok v (emit_event (Mmio_read 4 a v) s).
Definition mmio_write32 (a v : Z) : M machine unit := emit (Mmio_write 4 a (u32 v)).
Definition mmio_write8 (a v : Z) : M machine unit := emit (Mmio_write 1 a (u8 v)).

(** * Laws *)

Lemma set_reg_same r v f : set_reg r v f r = v.
Proof. unfold set_reg. by rewrite decide_True. Qed.
Lemma set_reg_other r r' v f : r' ≠ r → set_reg r v f r' = f r'.
Proof. intros. unfold set_reg. by rewrite decide_False. Qed.

Lemma wp_on_ram {A} (m : M mem A) s (Q : A → machine → Prop) :
  wp m (ram s) (λ a t, Q a (set_ram t s)) → wp (on_ram m) s Q.
Proof. apply wp_zoom. Qed.

Lemma on_ram_ok {A} (m : M mem A) s a t : m (ram s) = Ok a t → on_ram m s = Ok a (set_ram t s).
Proof. unfold on_ram, zoom. by intros ->. Qed.

Lemma on_ram_fault {A} (m : M mem A) s f : m (ram s) = Fault f → on_ram m s = Fault f.
Proof. unfold on_ram, zoom. by intros ->. Qed.

Lemma set_ram_id s : set_ram (ram s) s = s.
Proof. by destruct s. Qed.

Lemma wp_mrs r s (Q : Z → machine → Prop) :
  volatile_reg r = false → Q (sysregs s r) s → wp (mrs r) s Q.
Proof. intros Hv HQ. unfold wp, mrs. by rewrite Hv. Qed.

Lemma wp_msr r v s (Q : unit → machine → Prop) :
  Q tt (mk_machine (ram s) (set_reg r v (sysregs s)) (Msr r v :: trace s) (env s)) →
  wp (msr r v) s Q.
Proof. done. Qed.

(** ** Local arrays of functions that also use devices *)

Definition local_cells {A} (cs : list (option Z)) (f : Z → M machine A) : M machine A := λ s,
  let p := fresh_address (ram s) in
  match f p (set_ram (put_cells p cs (ram s)) s) with
  | Ok a s' => Ok a (set_ram (drop_cells p (length cs) (ram s')) s')
  | Hang s' => Hang s'
  | Fault f => Fault f
  end.

Definition local_array {A} (n : Z) (f : Z → M machine A) : M machine A :=
  local_cells (replicate (Z.to_nat n) None) f.
Definition local_literal {A} (s : list Z) (f : Z → M machine A) : M machine A :=
  local_cells (Some <$> (s ++ [0])) f.

Definition ram_fuel {A} (k : nat → M machine A) : M machine A := λ s, k (S (size (ram s))) s.

Lemma wp_local_cells {A} cs (f : Z → M machine A) s (Q : A → machine → Prop) :
  (∀ p, (∀ a, p - LOCAL_GAP < a → ram s !! a = None) →
    wp (f p) (set_ram (put_cells p cs (ram s)) s)
      (λ a s', Q a (set_ram (drop_cells p (length cs) (ram s')) s'))) →
  wp (local_cells cs f) s Q.
Proof.
  intros H. unfold local_cells, wp in *. specialize (H (fresh_address (ram s))).
  destruct (f _ _); apply H; intros x Hx; by apply fresh_address_spec.
Qed.
