(* ===== verification/Log.v ===== *)
(** * Console, timer and log (kernel/uart.c, kernel/timer/timer.c, kernel/log.c)

    [klog] formats into arrays on the stack and sends the result to the UART.  The arrays
    have the sizes of the source; an access outside one is a fault.  The specification side
    is a pure formatter on character lists. *)
From stdpp Require Import base list gmap.
From Stdlib Require Import ZArith Lia.
From S2P Require Import Prelude Memory CString Machine.

(** ** uart.c *)

Definition UART_BASEADDRESS : Z := 0x09000000.

Definition put_char (c : Z) : M machine unit := mmio_write8 UART_BASEADDRESS c.

Definition put_string (str : Z) : M machine unit :=
  ram_fuel (λ fuel, loop fuel (λ str,
    let* c := on_ram (loadb str) in
    if c =? 0 then ret (inr tt) else
    put_char c ;;
    ret (inl (str + 1))) str).

(** ** timer.c *)

Definition timer_getfrequency : M machine Z :=
  let* frequency := mrs CNTFRQ_EL0 in ret (u32 frequency).

Definition timer_enable : M machine unit :=
  let enable_bit := Z.shiftl 1 0 in
  let* x0 := mrs CNTP_CTL_EL0 in
  msr CNTP_CTL_EL0 (Z.lor x0 enable_bit).

Definition timer_disable : M machine unit :=
  let mask_but_enable_bit := u64 (Z.lnot (Z.shiftl 1 0)) in
  let* x0 := mrs CNTP_CTL_EL0 in
  msr CNTP_CTL_EL0 (Z.land x0 mask_but_enable_bit).

Definition timer_write_tval (tval : Z) : M machine unit :=
  let write_value := u32 tval in
  msr CNTP_TVAL_EL0 write_value.

Definition timer_read_systemcounter : M machine Z := mrs CNTPCT_EL0.

Definition timer_read_systemcounter_usec : M machine Z :=
  let* val := timer_read_systemcounter in
  let* frequency := timer_getfrequency in
  let freq_usec := frequency / 1000000 in
  divu val freq_usec.

(** ** log.c *)

(** [va_arg]: the next argument and the rest. *)
Definition va_arg {St} (vars : list Z) : M St (Z * list Z) :=
  match vars with
  | [] => fail MissingArgument
  | a :: vars => ret (a, vars)
  end.

Definition digit_char (mod_ : Z) : Z := if mod_ <? 10 then mod_ + 48 else mod_ - 10 + 97.

(** One round of [while (num > 0) { ... }]. *)
Definition digits_step (buffer base : Z) (l : Z * Z) : M mem (Z * Z + Z) :=
  let '(i, num) := l in
  if 0 <? num then
    let* r := modu num (u64 base) in
    let mod_ := i32 r in
    storeb (buffer + i) (digit_char mod_) ;;
    let* num := divu num (u64 base) in
    ret (inl (i + 1, num))
  else ret (inr i).

(** A 64-bit number has at most 64 digits in a base above 1; a smaller base leaves the buffer
    first. *)
Definition digits_loop (buffer base i num : Z) : M mem Z :=
  loop 65 (digits_step buffer base) (i, num).

Definition uint64_to_string (str num base : Z) : M mem unit :=
  with_local 50 (λ buffer,
    let* i := if num =? 0 then storeb (buffer + 0) 48 ;; ret 1 else ret 0 in
    let* i := digits_loop buffer base i num in
    storeb (buffer + i) 0 ;;
    strrev buffer ;;
    strcpy str buffer ;;
    ret tt).

(** The state of the formatter's loop. *)
Record fmt_state : Type := mk_fmt_state {
  fmt_str : Z;
  fmt_format : Z;
  fmt_inserted : Z;
  fmt_vars : list Z;
}.

(** One round of the loop of [sprintf_internal]; the conversions declare an [inserted] of
    their own, so only literal characters are counted. *)
Definition sprintf_step (buffer : Z) (st : fmt_state) : M mem (fmt_state + Z) :=
  let '(mk_fmt_state str format inserted vars) := st in
  let* c := loadb format in
  if c =? 0 then
    storeb str 0 ;;
    ret (inr (i32 inserted))
  else if c =? 37 (* '%' *) then
    let* type := loadb (format + 1) in
    if type =? 0 then ret (inr (-1)) else
    if (type =? 120 (* 'x' *)) || (type =? 113 (* 'q' *)) then
      let base := if type =? 120 then 16 else 10 in
      let* (num, vars) := va_arg vars in
      uint64_to_string buffer num base ;;
      let* inserted' := strlen buffer in
      strcat str buffer ;;
      ret (inl (mk_fmt_state (str + inserted') (format + 2) inserted vars))
    else if type =? 115 (* 's' *) then
      let* (strarg, vars) := va_arg vars in
      strcat str strarg ;;
      let* inserted' := strlen strarg in
      ret (inl (mk_fmt_state (str + inserted') (format + 2) inserted vars))
    else
      storeb str 63 (* '?' *) ;;
      ret (inl (mk_fmt_state (str + 1) (format + 1) (u64 (inserted + 1)) vars))
  else
    storeb str c ;;
    ret (inl (mk_fmt_state (str + 1) (format + 1) (u64 (inserted + 1)) vars)).

Definition sprintf_internal (str format : Z) (vars : list Z) : M mem Z :=
  with_local 100 (λ buffer,
    memset buffer 0 100 ;;
    mem_fuel (λ fuel,
      loop fuel (sprintf_step buffer) (mk_fmt_state str format 0 vars))).

Definition sprintf (str format : Z) (vars : list Z) : M mem Z := sprintf_internal str format vars.

Definition klog (str : Z) : M machine unit :=
  local_array 50 (λ buffer, local_array 15 (λ prefix,
    on_ram (memset prefix 0 15) ;;
    let* usec := timer_read_systemcounter_usec in
    local_literal (chars "[%q] ") (λ format, on_ram (sprintf prefix format [usec])) ;;
    on_ram (strcpy buffer prefix) ;;
    on_ram (strcat buffer str) ;;
    local_literal [10] (λ newline, on_ram (strcat buffer newline)) ;;
    put_string buffer)).

Definition klogf (format : Z) (vars : list Z) : M machine unit :=
  local_array 40 (λ buffer,
    on_ram (memset buffer 0 40) ;;
    on_ram (sprintf_internal buffer format vars) ;;
    klog buffer).

(** Calls with a string literal. *)
Definition klog_lit (s : list Z) : M machine unit := local_literal s klog.
Definition klogf_lit (s : list Z) (vars : list Z) : M machine unit :=
  local_literal s (λ format, klogf format vars).

(** ** Specification: numerals and formats *)

(** The digits of a number, least significant first. *)
Fixpoint lsd_digits (fuel : nat) (base num : Z) : list Z :=
  match fuel with
  | O => []
  | S f => if num =? 0 then [] else num mod base :: lsd_digits f base (num / base)
  end.

Definition to_digits (base num : Z) : list Z :=
  if num =? 0 then [0] else reverse (lsd_digits 64 base num).

(** The number a digit string denotes. *)
Definition of_digits (base : Z) (ds : list Z) : Z := foldl (λ acc d, acc * base + d) 0 ds.

(** The text of a number. *)
Definition numeral (base num : Z) : list Z := digit_char <$> to_digits base num.

(** What a format produces and how many literal characters it has; [rd] gives the string at a
    pointer.  [None]: an argument is missing or the format ends with a percent sign. *)
Fixpoint format (rd : Z → list Z) (fmt vars : list Z) : option (list Z * Z) :=
  match fmt with
  | [] => Some ([], 0)
  | c :: rest =>
      if c =? 37 then
        match rest with
        | [] => None
        | type :: rest' =>
            if (type =? 120) || (type =? 113) then
              match vars with
              | [] => None
              | num :: vars =>
                  '(out, n) ← format rd rest' vars;
                  Some (numeral (if type =? 120 then 16 else 10) num ++ out, n)
              end
            else if type =? 115 then
              match vars with
              | [] => None
              | arg :: vars => '(out, n) ← format rd rest' vars; Some (rd arg ++ out, n)
              end
            else '(out, n) ← format rd rest vars; Some (63 :: out, n + 1)
        end
      else '(out, n) ← format rd rest vars; Some (c :: out, n + 1)
  end.

(** The arguments that are string pointers. *)
Fixpoint string_args (fmt vars : list Z) : list Z :=
  match fmt with
  | [] => []
  | c :: rest =>
      if c =? 37 then
        match rest with
        | [] => []
        | type :: rest' =>
            if (type =? 120) || (type =? 113) then string_args rest' (tail vars)
            else if type =? 115 then take 1 vars ++ string_args rest' (tail vars)
            else string_args rest vars
        end
      else string_args rest vars
  end.

(** * Lemmas *)

(** ** Numerals *)

Lemma of_digits_snoc base ds d : of_digits base (ds ++ [d]) = of_digits base ds * base + d.
Proof. unfold of_digits. by rewrite foldl_app. Qed.

Lemma of_digits_bound base ds : 1 < base → Forall (λ d, 0 ≤ d < base) ds → 0 ≤ of_digits base ds < base ^ Z.of_nat (length ds).
Proof.
  intros Hb. induction ds as [|d ds IH] using rev_ind; [done|]. intros [Hds [Hd _]%Forall_cons]%Forall_app.
  specialize (IH Hds). rewrite of_digits_snoc, length_app, Nat2Z.inj_add, Z.pow_add_r by lia. change (Z.of_nat (length [d])) with 1. rewrite Z.pow_1_r.
  set (x := of_digits base ds) in *. set (P := base ^ _) in *. clearbody x P. split; nia.
Qed.

Lemma lsd_digits_value fuel base num : 2 ≤ base → 0 ≤ num < 2 ^ Z.of_nat fuel →
  of_digits base (reverse (lsd_digits fuel base num)) = num.
Proof.
  intros Hb. revert num. induction fuel as [|f IH]; intros num Hn; simpl.
  - change (2 ^ Z.of_nat 0) with 1 in Hn. unfold of_digits. simpl. lia.
  - destruct (Z.eqb_spec num 0) as [->|Hne]; [done|].
    rewrite reverse_cons, of_digits_snoc, IH.
    + rewrite (Z.div_mod num base) at 3 by lia. lia.
    + split; [apply Z.div_pos; lia|]. apply Z.div_lt_upper_bound; [lia|].
      rewrite Nat2Z.inj_succ, Z.pow_succ_r in Hn by lia. nia.
Qed.

Lemma lsd_digits_range fuel base num : 0 < base → Forall (λ d, 0 ≤ d < base) (lsd_digits fuel base num).
Proof.
  intros Hb. revert num. induction fuel as [|f IH]; intros num; simpl; [done|].
  destruct (num =? 0); constructor; [by apply Z.mod_pos_bound|done].
Qed.

Lemma lsd_digits_length fuel base num : (length (lsd_digits fuel base num) ≤ fuel)%nat.
Proof. revert num. induction fuel; intros num; simpl; [lia|]. destruct (num =? 0); simpl; [lia|]. by apply le_n_S. Qed.

(** The most significant digit is not 0. *)
Lemma lsd_digits_last fuel base num : 2 ≤ base → 0 < num < 2 ^ Z.of_nat fuel →
  ∃ d, last (lsd_digits fuel base num) = Some d ∧ d ≠ 0.
Proof.
  intros Hb. revert num. induction fuel as [|f IH]; intros num Hn; simpl.
  - change (2 ^ Z.of_nat 0) with 1 in Hn. lia.
  - destruct (Z.eqb_spec num 0); [lia|]. rewrite last_cons.
    destruct (Z.eq_dec (num / base) 0) as [E|E].
    + rewrite E. replace (lsd_digits f base 0) with (@nil Z) by (by destruct f). simpl.
      exists (num mod base). split; [done|]. pose proof (Z.div_mod num base). lia.
    + destruct (IH (num / base)) as (d & -> & Hd); [|by exists d].
      assert (0 ≤ num / base) by (apply Z.div_pos; lia). split; [lia|].
      apply Z.div_lt_upper_bound; [lia|]. rewrite Nat2Z.inj_succ, Z.pow_succ_r in Hn by lia. nia.
Qed.

Lemma digit_char_ok d : 0 ≤ d < 36 → char_ok (digit_char d).
Proof. unfold digit_char, char_ok. destruct (Z.ltb_spec d 10); lia. Qed.

Lemma digits_loop_spec m p base i num fuel :
  2 ≤ base ≤ 36 → 0 ≤ num < 2 ^ Z.of_nat fuel →
  mapped m (p + i) (Z.of_nat (length (lsd_digits fuel base num))) →
  loop (S fuel) (digits_step p base) (i, num) m =
    Ok (i + Z.of_nat (length (lsd_digits fuel base num)))
       (put_bytes (p + i) (digit_char <$> lsd_digits fuel base num) m).
Proof.
  intros Hb. revert i num m. induction fuel as [|f IH]; intros i num m Hn Hm.
  - change (2 ^ Z.of_nat 0) with 1 in Hn. assert (num = 0) as -> by lia.
    simpl. unfold bind, ret. by rewrite Z.add_0_r.
  - apply wp_eq. change (loop (S (S f)) ?g ?x) with (let* r := g x in
      match r with inl l' => loop (S f) g l' | inr a => ret a end).
    cbn [lsd_digits digits_step] in *. destruct (Z.ltb_spec 0 num) as [Hpos|Hz].
    2:{ assert (num = 0) as -> by lia. simpl. by rewrite Z.add_0_r. }
    destruct (Z.eqb_spec num 0); [lia|]. cbn [length fmap list_fmap] in *.
    rewrite (u64_small base) by lia. pose proof (Z.mod_pos_bound num base).
    apply wp_bind, wp_bind, wp_modu; [lia|]. rewrite i32_small by (unfold INT_MIN, INT_MAX; lia).
    apply wp_bind, wp_storeb; [apply Hm; lia|]. apply wp_bind, wp_divu; [lia|]. apply wp_ret, wp_eq.
    pose proof (digit_char_ok (num mod base) ltac:(lia)) as Hc. unfold char_ok in Hc.
    rewrite u8_small by lia. rewrite IH.
    + f_equal; [lia|]. rewrite put_bytes_cons, Z.add_assoc.
      apply (put_bytes_comm (p + i + 1) _ (p + i) [_]). simpl. lia.
    + assert (0 ≤ num / base) by (apply Z.div_pos; lia). split; [done|].
      apply Z.div_lt_upper_bound; [lia|]. rewrite Nat2Z.inj_succ, Z.pow_succ_r in Hn by lia. nia.
    + apply mapped_insert. eapply mapped_weaken; [done|lia|lia].
Qed.

Lemma lsd_digits_short fuel base num k : 2 ≤ base → 0 ≤ num < base ^ Z.of_nat k →
  (length (lsd_digits fuel base num) ≤ k)%nat.
Proof.
  intros Hb. revert num k. induction fuel as [|f IH]; intros num k Hn; cbn [lsd_digits]; [simpl; lia|].
  destruct (Z.eqb_spec num 0); [simpl; lia|]. destruct k as [|k].
  - change (base ^ Z.of_nat 0) with 1 in Hn. lia.
  - cbn [length]. apply le_n_S, IH. rewrite Nat2Z.inj_succ, Z.pow_succ_r in Hn by lia.
    split; [apply Z.div_pos; lia|apply Z.div_lt_upper_bound; lia].
Qed.

Lemma lsd_digits_nonempty fuel base num : num ≠ 0 → (0 < fuel)%nat →
  (1 ≤ length (lsd_digits fuel base num))%nat.
Proof.
  intros Hn Hf. destruct fuel; [lia|]. cbn [lsd_digits].
  destruct (Z.eqb_spec num 0); [done|]. cbn [length]. lia.
Qed.

(** The text of a 64-bit number in base 10 to 36 fits the 50-byte buffer. *)
Lemma numeral_facts base num : 10 ≤ base ≤ 36 → 0 ≤ num < 2 ^ 64 →
  Forall char_ok (numeral base num) ∧ (1 ≤ length (numeral base num) ≤ 20)%nat.
Proof.
  intros Hb Hn. unfold numeral, to_digits. rewrite length_fmap.
  destruct (Z.eqb_spec num 0) as [->|Hne].
  - split; [by repeat constructor|]. simpl. lia.
  - rewrite length_reverse. split.
    + apply Forall_fmap, Forall_reverse.
      eapply Forall_impl; [apply (lsd_digits_range 64 base num); lia|].
      intros d Hd. cbv beta in Hd. apply digit_char_ok. lia.
    + split; [apply lsd_digits_nonempty; lia|]. apply lsd_digits_short; [lia|].
      assert (2 ^ 64 < 10 ^ Z.of_nat 20) by done. split; [lia|].
      apply Z.lt_le_trans with (10 ^ Z.of_nat 20); [lia|]. apply Z.pow_le_mono_l. lia.
Qed.

Lemma numeral_length base num k : 10 ≤ base ≤ 36 → (0 < k)%nat → 0 ≤ num < base ^ Z.of_nat k →
  (length (numeral base num) ≤ k)%nat.
Proof.
  intros Hb Hk Hn. unfold numeral, to_digits. rewrite length_fmap.
  destruct (Z.eqb_spec num 0) as [->|Hne]; [simpl; lia|]. rewrite length_reverse. by apply lsd_digits_short; [lia|].
Qed.

(** The digits as the loop and the special case for 0 leave them. *)
Definition raw_digits (base num : Z) : list Z :=
  if num =? 0 then [0] else lsd_digits 64 base num.

Lemma raw_digits_loop m p base num :
  10 ≤ base ≤ 36 → 0 ≤ num < 2 ^ 64 → mapped m p (Z.of_nat (length (raw_digits base num))) →
  (let* i := if num =? 0 then storeb (p + 0) 48 ;; ret 1 else ret 0 in
   digits_loop p base i num) m =
    Ok (Z.of_nat (length (raw_digits base num))) (put_bytes p (digit_char <$> raw_digits base num) m).
Proof.
  intros Hb Hn Hm. unfold raw_digits, digits_loop in *. destruct (Z.eqb_spec num 0) as [->|Hne].
  - apply wp_eq. apply wp_bind, wp_bind. rewrite Z.add_0_r. apply wp_storeb; [apply Hm; simpl; lia|].
    apply wp_ret. done.
  - unfold bind at 1. unfold ret. rewrite (digits_loop_spec m p base 0 num 64).
    + by rewrite Z.add_0_r.
    + lia.
    + change (Z.of_nat 64) with 64. lia.
    + by rewrite Z.add_0_r.
Qed.

Lemma numeral_raw base num : numeral base num = reverse (digit_char <$> raw_digits base num).
Proof.
  unfold numeral, to_digits, raw_digits. destruct (num =? 0); [done|]. by rewrite fmap_reverse.
Qed.

Lemma uint64_to_string_spec m str num base :
  10 ≤ base ≤ 36 → 0 ≤ num < 2 ^ 64 →
  mapped m str (Z.of_nat (length (numeral base num)) + 1) →
  uint64_to_string str num base m = Ok tt (put_bytes str (numeral base num ++ [0]) m).
Proof.
  intros Hb Hn Hm. destruct (numeral_facts base num Hb Hn) as [Hok Hlen].
  rewrite numeral_raw in *. set (ds := digit_char <$> raw_digits base num) in *.
  rewrite length_reverse in *.
  assert (length (raw_digits base num) = length ds) as Hraw by (unfold ds; by rewrite length_fmap).
  apply wp_eq. unfold uint64_to_string, with_local. apply wp_with_cells.
  intros p Hp. rewrite length_replicate. change (Z.to_nat 50) with 50%nat.
  set (m0 := put_cells p (replicate 50 None) m).
  pose proof (mapped_below_fresh m p str _ Hp Hm ltac:(lia)) as Hbelow.
  assert (mapped m0 p 50) as Hm0 by (by apply mapped_put_cells_self).
  assert (cstr (put_bytes p (ds ++ [0]) m0) p ds) as Hc1.
  { apply cstr_put. apply Forall_reverse in Hok. by rewrite reverse_involutive in Hok. }
  assert (cstr (put_bytes p (reverse ds) (put_bytes p (ds ++ [0]) m0)) p (reverse ds)) as Hc2.
  { split; [|done]. apply bytes_at_app. split; [apply bytes_at_put|]. rewrite length_reverse.
    eapply bytes_at_agree; [apply (cstr_bytes_nul _ _ _ Hc1)|].
    intros a Ha. apply put_bytes_outside. rewrite length_reverse. lia. }
  eapply wp_intro.
  { rewrite <-bind_assoc. rewrite (bind_ok _ _ _ _ _ (raw_digits_loop m0 p base num Hb Hn
      ltac:(eapply mapped_weaken; [exact Hm0|lia|lia]))).
    rewrite Hraw. fold ds. rewrite (bind_ok _ _ _ tt (put_bytes p (ds ++ [0]) m0)).
    2:{ rewrite storeb_ok, <-put_bytes_snoc; [done|]. apply mapped_put_bytes with (p := p) (n := 50); [done|lia]. }
    rewrite (bind_ok _ _ _ _ _ (strrev_spec _ _ _ Hc1 ltac:(unfold INT_MAX; lia))).
    rewrite (bind_ok _ _ _ _ _ (strcpy_spec _ _ _ _ Hc2 ltac:(apply mapped_put_bytes, mapped_put_bytes, mapped_put;
      rewrite length_reverse; done) ltac:(rewrite length_reverse; unfold disjoint; lia))).
    reflexivity. }
  split; [done|]. apply drop_cells_eq.
  - intros a Ha. rewrite put_bytes_outside by (rewrite length_app, length_reverse; simpl; lia).
    apply Hp. unfold LOCAL_GAP. lia.
  - intros a Ha. rewrite !put_bytes_lookup. rewrite length_app, length_reverse. simpl.
    case_decide; [done|]. rewrite !length_app, !decide_False by (simpl; lia).
    unfold m0. by rewrite put_cells_lookup, decide_False by (rewrite length_replicate; lia).
Qed.

(** ** The formatter *)

Lemma format_count rd fmt vars out n : format rd fmt vars = Some (out, n) → 0 ≤ n ≤ Z.of_nat (length out).
Proof.
  remember (length fmt) as k eqn:Hk. revert fmt vars out n Hk.
  induction k as [k IH] using lt_wf_ind. intros [|c rest] vars out n Hk; cbn [format].
  { intros [= <- <-]. simpl. lia. }
  assert (∀ r vs pre e, (length r < k)%nat → 0 ≤ e ≤ Z.of_nat (length pre) →
    ('(o, n') ← format rd r vs; Some (pre ++ o, n' + e)) = Some (out, n) →
    0 ≤ n ≤ Z.of_nat (length out)) as Hstep.
  { intros r vs pre e Hr He. destruct (format rd r vs) as [[o n']|] eqn:E; [|done].
    intros [= <- <-]. specialize (IH _ Hr r vs o n' eq_refl E). rewrite length_app. lia. }
  simpl in Hk. destruct (c =? 37); [|apply (Hstep rest vars [c] 1); simpl; lia].
  destruct rest as [|type rest']; [done|]. simpl in Hk.
  destruct ((type =? 120) || (type =? 113)).
  { destruct vars as [|v vars]; [done|]. intros H. apply (Hstep rest' vars (numeral (if type =? 120 then 16 else 10) v) 0); [lia|lia|].
    destruct (format rd rest' vars) as [[o n']|]; [|done]. simpl in *. by rewrite Z.add_0_r. }
  destruct (type =? 115); [|apply (Hstep (type :: rest') vars [63] 1); simpl; lia].
  destruct vars as [|v vars]; [done|]. intros H. apply (Hstep rest' vars (rd v) 0); [lia|lia|].
  destruct (format rd rest' vars) as [[o n']|]; [|done]. simpl in *. by rewrite Z.add_0_r.
Qed.

(** The memory while [sprintf_internal] runs: [done_] is in the destination, followed by
    zeros; only the destination and the scratch buffer differ from [m]. *)
Record fmt_mem (m : mem) (str p : Z) (done_ : list Z) (room : nat) (mm : mem) : Prop := {
  fm_dest : bytes_at mm str (done_ ++ replicate (S room) 0);
  fm_buf : mapped mm p 100;
  fm_rest : ∀ a, ¬ (str ≤ a < str + Z.of_nat (length done_ + S room)) → ¬ (p ≤ a < p + 100) →
    mm !! a = m !! a;
}.

Section formatter.
Context (m : mem) (str p : Z).

Lemma fmt_mem_nul done_ room mm : fmt_mem m str p done_ room mm →
  mm !! (str + Z.of_nat (length done_)) = Some (Some 0).
Proof.
  intros [H _ _]. apply bytes_at_app in H as [_ H]. by apply bytes_at_cons in H as [H _].
Qed.

(** Writing the next characters at the end of the destination. *)
Lemma fmt_mem_extend done_ room mm s :
  fmt_mem m str p done_ (length s + room) mm → p + 100 ≤ str ∨ str + Z.of_nat (length done_ + S (length s + room)) ≤ p →
  fmt_mem m str p (done_ ++ s) room (put_bytes (str + Z.of_nat (length done_)) s mm).
Proof.
  intros [Hd Hb Hr] Hdis. split.
  - replace (S (length s + room)) with (length s + S room)%nat in Hd by lia.
    rewrite replicate_add, !app_assoc in Hd. rewrite <-app_assoc in Hd |- *.
    apply (bytes_at_splice mm str done_ (replicate (length s) 0) s); [done|].
    by rewrite length_replicate.
  - by apply mapped_put_bytes.
  - intros a Ha Hp. rewrite length_app in Ha. rewrite put_bytes_outside by lia. apply Hr; lia.
Qed.

(** The same with the NUL that [strcat] adds: it overwrites a zero. *)
Lemma fmt_mem_extend_nul done_ room mm s :
  fmt_mem m str p done_ (length s + room) mm → p + 100 ≤ str ∨ str + Z.of_nat (length done_ + S (length s + room)) ≤ p →
  fmt_mem m str p (done_ ++ s) room (put_bytes (str + Z.of_nat (length done_)) (s ++ [0]) mm).
Proof.
  intros H Hdis. rewrite put_bytes_app. pose proof (fm_dest _ _ _ _ _ _ H) as Hd.
  replace (put_bytes (str + Z.of_nat (length done_) + Z.of_nat (length s)) [0] mm) with mm.
  { by apply fmt_mem_extend. }
  symmetry. apply put_bytes_id. apply bytes_at_app in Hd as [_ Hd].
  replace (S (length s + room)) with (length s + S room)%nat in Hd by lia.
  rewrite replicate_add in Hd. apply bytes_at_app in Hd as [_ Hd].
  rewrite length_replicate in Hd. apply (bytes_at_app _ _ [0]) in Hd as [Hd _]. done.
Qed.

Context (rd : Z → list Z) (OUT : list Z) (N fend : Z).
Local Abbreviation L := (Z.of_nat (length OUT)).
Hypothesis Hfresh : ∀ a, p ≤ a < p + 100 → m !! a = None.
Hypothesis Hdis : p + 100 ≤ str ∨ str + L + 1 ≤ p.
Hypothesis HL : L ≤ INT_MAX.

(** A string of the caller that the destination does not overlap. *)
Definition foreign (q : Z) (s : list Z) : Prop :=
  cstr m q s ∧ disjoint q (Z.of_nat (length s) + 1) str (L + 1).

Lemma foreign_keep done_ room mm q s : fmt_mem m str p done_ room mm →
  (length done_ + room = length OUT)%nat → foreign q s → cstr mm q s.
Proof.
  intros Hmm Hroom [Hq Hd]. eapply cstr_agree; [done|]. intros a Ha.
  apply (fm_rest _ _ _ _ _ _ Hmm); [unfold disjoint in Hd; lia|]. intros Hp.
  destruct (cstr_mapped _ _ _ Hq a) as [c Hc]; [lia|]. by rewrite Hfresh in Hc.
Qed.

(** The invariant of the formatter's loop. *)
Definition fmt_inv (st : fmt_state) (mm : mem) : Prop :=
  ∃ done_ fmt out n, fmt_str st = str + Z.of_nat (length done_) ∧
    foreign (fmt_format st) fmt ∧ fmt_format st = fend - Z.of_nat (length fmt) ∧
    format rd fmt (fmt_vars st) = Some (out, n) ∧ done_ ++ out = OUT ∧
    0 ≤ fmt_inserted st ∧ 0 ≤ n ≤ Z.of_nat (length out) ∧ fmt_inserted st + n = N ∧
    fmt_inserted st ≤ Z.of_nat (length done_) ∧
    Forall (λ v, 0 ≤ v < 2 ^ 64) (fmt_vars st) ∧
    Forall (λ v, foreign v (rd v)) (string_args fmt (fmt_vars st)) ∧
    fmt_mem m str p done_ (length out) mm.

Definition fmt_measure (st : fmt_state) : nat := Z.to_nat (fend - fmt_format st).

Lemma foreign_tail q c s : foreign q (c :: s) → foreign (q + 1) s ∧ 0 < c < 256.
Proof.
  intros [[H Hok] Hd]. unfold foreign, disjoint in *. cbn [length] in Hd. inversion Hok; subst.
  split; [|done]. split; [|lia]. split; [|done]. by apply bytes_at_cons in H as [_ H].
Qed.

Lemma foreign_load done_ room mm q c s : fmt_mem m str p done_ room mm →
  (length done_ + room = length OUT)%nat → foreign q (c :: s) → mm !! q = Some (Some c).
Proof.
  intros Hmm Hroom Hf. eapply foreign_keep in Hf as [H _]; [|done|done].
  by apply bytes_at_cons in H as [H _].
Qed.

(** One literal character. *)
Lemma fmt_step_char done_ room mm c (Q : unit → mem → Prop) : fmt_mem m str p done_ (S room) mm →
  (length done_ + S room = length OUT)%nat → 0 < c < 256 →
  (fmt_mem m str p (done_ ++ [c]) room (put_bytes (str + Z.of_nat (length done_)) [c] mm) →
    Q tt (put_bytes (str + Z.of_nat (length done_)) [c] mm)) →
  wp (storeb (str + Z.of_nat (length done_)) c) mm Q.
Proof.
  intros Hmm Hroom Hc HQ. apply wp_storeb; [rewrite (fmt_mem_nul _ _ _ Hmm); by eexists|].
  rewrite u8_small by lia. apply HQ. apply (fmt_mem_extend done_ room mm [c]); [done|].
  simpl. lia.
Qed.

(** A conversion appends its text with [strcat]. *)
Lemma fmt_step_cat done_ room mm q s (Q : Z → mem → Prop) :
  fmt_mem m str p done_ (length s + room) mm →
  (length done_ + (length s + room) = length OUT)%nat → cstr mm q s →
  disjoint str (L + 1) q (Z.of_nat (length s) + 1) →
  (fmt_mem m str p (done_ ++ s) room (put_bytes (str + Z.of_nat (length done_)) (s ++ [0]) mm) →
    Q (str + Z.of_nat (length done_) + Z.of_nat (length s))
      (put_bytes (str + Z.of_nat (length done_)) (s ++ [0]) mm)) →
  wp (strcat (str + Z.of_nat (length done_)) q) mm Q.
Proof.
  intros Hmm Hroom Hq Hd HQ. pose proof (fm_dest _ _ _ _ _ _ Hmm) as Hdest.
  eapply wp_intro.
  { apply (strcat_spec mm _ q [] s); [|done|..].
    - split; [|done]. apply bytes_at_cons. split; [by eapply fmt_mem_nul|apply bytes_at_nil].
    - simpl. rewrite Z.add_0_r. apply bytes_at_mapped in Hdest.
      rewrite length_app, length_replicate in Hdest. eapply mapped_weaken; [done|lia|lia].
    - simpl. unfold disjoint in *. lia. }
  simpl. rewrite Z.add_0_r. apply HQ. apply fmt_mem_extend_nul; [done|]. lia.
Qed.

(** The step at a literal character or at a percent sign that is printed as a question mark. *)
Lemma fmt_inv_char q done_ rest out n vars mm c ins :
  foreign (q + 1) rest → q + 1 = fend - Z.of_nat (length rest) →
  format rd rest vars = Some (out, n) → done_ ++ c :: out = OUT → 0 < c < 256 →
  0 ≤ ins ≤ Z.of_nat (length done_) → ins + (n + 1) = N →
  Forall (λ v, 0 ≤ v < 2 ^ 64) vars → Forall (λ v, foreign v (rd v)) (string_args rest vars) →
  fmt_mem m str p done_ (S (length out)) mm →
  wp (storeb (str + Z.of_nat (length done_)) c) mm (λ _ mm',
    fmt_inv (mk_fmt_state (str + Z.of_nat (length done_) + 1) (q + 1) (u64 (ins + 1)) vars) mm').
Proof.
  intros Hf Hend Hfmt Hout Hc Hins HN Hvars Hargs Hmm.
  assert (length done_ + S (length out) = length OUT)%nat as Hlen.
  { rewrite <-Hout, length_app. simpl. lia. }
  apply (fmt_step_char done_ (length out)); try done. intros Hmm'.
  pose proof (format_count _ _ _ _ _ Hfmt). exists (done_ ++ [c]), rest, out, n. simpl.
  unfold INT_MAX in HL. rewrite u64_small by lia. rewrite length_app. simpl.
  do 4 (split; [first [done|lia]|]). split; [by rewrite <-app_assoc|].
  do 4 (split; [lia|]). done.
Qed.

(** The step at a conversion whose text [s] is at [src]. *)
Lemma fmt_inv_cat q done_ rest out n vars mm src s ins :
  foreign (q + 2) rest → q + 2 = fend - Z.of_nat (length rest) →
  format rd rest vars = Some (out, n) → done_ ++ s ++ out = OUT →
  cstr mm src s → disjoint str (L + 1) src (Z.of_nat (length s) + 1) →
  0 ≤ ins ≤ Z.of_nat (length done_) → ins + n = N →
  Forall (λ v, 0 ≤ v < 2 ^ 64) vars → Forall (λ v, foreign v (rd v)) (string_args rest vars) →
  fmt_mem m str p done_ (length s + length out) mm →
  wp (strcat (str + Z.of_nat (length done_)) src) mm (λ _ mm',
    cstr mm' src s ∧
    fmt_inv (mk_fmt_state (str + Z.of_nat (length done_) + Z.of_nat (length s)) (q + 2) ins vars) mm').
Proof.
  intros Hf Hend Hfmt Hout Hsrc Hd Hins HN Hvars Hargs Hmm.
  assert (length done_ + (length s + length out) = length OUT)%nat as Hlen.
  { rewrite <-Hout, !length_app. lia. }
  apply (fmt_step_cat done_ (length out) mm src s); try done. intros Hmm'. split.
  - eapply cstr_agree; [done|]. intros a Ha. apply put_bytes_outside.
    rewrite length_app. simpl. unfold disjoint in Hd. lia.
  - pose proof (format_count _ _ _ _ _ Hfmt). exists (done_ ++ s), rest, out, n. simpl.
    rewrite length_app. do 4 (split; [first [done|lia]|]). split; [by rewrite <-app_assoc|].
    do 4 (split; [lia|]). done.
Qed.

Lemma fmt_mem_buffer done_ room mm bs : fmt_mem m str p done_ room mm →
  (length done_ + room = length OUT)%nat → (length bs ≤ 100)%nat →
  fmt_mem m str p done_ room (put_bytes p bs mm).
Proof.
  intros [Hd Hb Hr] Hlen Hbs. split.
  - apply bytes_at_put_ne; [done|]. rewrite length_app, length_replicate. lia.
  - by apply mapped_put_bytes.
  - intros a Ha Hp. rewrite put_bytes_outside by lia. by apply Hr.
Qed.

(** A numeric conversion. *)
Lemma fmt_inv_num q done_ rest out n vars mm num base ins :
  base = 10 ∨ base = 16 → 0 ≤ num < 2 ^ 64 →
  foreign (q + 2) rest → q + 2 = fend - Z.of_nat (length rest) →
  format rd rest vars = Some (out, n) → done_ ++ numeral base num ++ out = OUT →
  0 ≤ ins ≤ Z.of_nat (length done_) → ins + n = N →
  Forall (λ v, 0 ≤ v < 2 ^ 64) vars → Forall (λ v, foreign v (rd v)) (string_args rest vars) →
  fmt_mem m str p done_ (length (numeral base num) + length out) mm →
  wp (uint64_to_string p num base ;;
      let* inserted' := strlen p in
      strcat (str + Z.of_nat (length done_)) p ;;
      ret (A := fmt_state + Z)
        (inl (mk_fmt_state (str + Z.of_nat (length done_) + inserted') (q + 2) ins vars))) mm
    (λ r mm', ∃ st', r = inl st' ∧ fmt_format st' = q + 2 ∧ fmt_inv st' mm').
Proof.
  intros Hbase Hnum Hf Hend Hfmt Hout Hins HN Hvars Hargs Hmm.
  destruct (numeral_facts base num ltac:(lia) Hnum) as [Hok Hlen].
  assert (length done_ + (length (numeral base num) + length out) = length OUT)%nat as Htot.
  { rewrite <-Hout, !length_app. lia. }
  assert (cstr (put_bytes p (numeral base num ++ [0]) mm) p (numeral base num)) as Hc
    by by apply cstr_put.
  apply wp_bind. eapply wp_intro.
  { apply uint64_to_string_spec; [lia|done|]. eapply mapped_weaken; [apply Hmm|lia|lia]. }
  apply wp_bind. eapply wp_intro; [apply strlen_spec; [exact Hc|unfold INT_MAX; lia]|].
  apply wp_bind. eapply wp_mono.
  { eapply (fmt_inv_cat q done_ rest out n vars _ p (numeral base num) ins); try done.
    - unfold disjoint. lia.
    - apply fmt_mem_buffer; [done|lia|]. rewrite length_app. simpl. lia. }
  intros ? mm' [_ Hinv]. apply wp_ret. by eexists.
Qed.

Lemma sprintf_step_inv st mm : fmt_inv st mm →
  wp (sprintf_step p st) mm (λ r mm', match r with
    | inl st' => fmt_inv st' mm' ∧ (fmt_measure st' < fmt_measure st)%nat
    | inr a => a = N ∧ fmt_mem m str p OUT 0 mm' end).
Proof.
  destruct st as [s f ins vars].
  intros (done_ & fmt & out & n & Hs & Hf & Hend & Hfmt & Hout & Hi0 & Hn & HN & Hil & Hv & Ha & Hmm).
  simpl in *. subst s. unfold fmt_measure. simpl.
  assert (length done_ + length out = length OUT)%nat as Hlen by (rewrite <-Hout, length_app; lia).
  destruct fmt as [|c rest].
  { apply wp_bind. eapply wp_loadb.
    { eapply foreign_keep in Hf as [Hf _]; [|done|done]. apply bytes_at_cons in Hf as [Hf _]. exact Hf. }
    simpl. injection Hfmt as <- <-. rewrite app_nil_r in Hout. subst done_.
    apply wp_bind, wp_storeb; [rewrite (fmt_mem_nul _ _ _ Hmm); by eexists|]. apply wp_ret.
    unfold INT_MAX in HL. rewrite i32_small by (unfold INT_MIN, INT_MAX; lia). split; [lia|].
    rewrite insert_id; [done|]. by rewrite (fmt_mem_nul _ _ _ Hmm). }
  destruct (foreign_tail _ _ _ Hf) as [Hf1 Hc]. cbn [length] in Hend.
  apply wp_bind. eapply wp_loadb; [by eapply foreign_load|].
  destruct (Z.eqb_spec c 0); [lia|]. cbn [format string_args] in *.
  destruct (Z.eqb_spec c 37) as [->|Hne37].
  2:{ destruct (format rd rest vars) as [[out' n']|] eqn:Hfmt'; [|done].
      injection Hfmt as <- <-. cbn [length] in *. apply wp_bind. eapply wp_mono.
      { apply (fmt_inv_char f done_ rest out' n' vars mm c ins); try done; lia. }
      intros ? mm' Hinv. apply wp_ret. split; [done|]. simpl. lia. }
  destruct rest as [|type rest']; [done|].
  destruct (foreign_tail _ _ _ Hf1) as [Hf2 Ht]. cbn [length] in Hend.
  replace (f + 1 + 1) with (f + 2) in Hf2 by lia.
  apply wp_bind. eapply wp_loadb; [by eapply foreign_load|].
  destruct (Z.eqb_spec type 0); [lia|].
  destruct ((type =? 120) || (type =? 113)) eqn:Hnum.
  { destruct vars as [|num vars]; [done|]. cbn [tail] in Ha. apply Forall_cons in Hv as [Hnr Hv'].
    destruct (format rd rest' vars) as [[out' n']|] eqn:Hfmt'; [|done]. injection Hfmt as <- <-.
    rewrite length_app in *. apply wp_bind, wp_ret. eapply wp_mono.
    { apply (fmt_inv_num f done_ rest' out' n' vars mm num); try done; try lia.
      destruct (type =? 120); lia. }
    intros r mm' (st' & -> & Hst' & Hinv). split; [done|]. rewrite Hst'. lia. }
  destruct (Z.eqb_spec type 115) as [->|Hns].
  { destruct vars as [|arg vars]; [done|]. cbn [tail take app] in Ha.
    apply Forall_cons in Hv as [_ Hv']. apply Forall_cons in Ha as [Harg Ha'].
    destruct (format rd rest' vars) as [[out' n']|] eqn:Hfmt'; [|done]. injection Hfmt as <- <-.
    rewrite length_app in *. apply wp_bind, wp_ret, wp_bind. eapply wp_mono.
    { apply (fmt_inv_cat f done_ rest' out' n' vars mm arg (rd arg) ins); try done; try lia.
      - by eapply foreign_keep.
      - destruct Harg as [_ Hd]. unfold disjoint in *. lia. }
    intros ? mm' [Hcstr Hinv]. apply wp_bind. eapply wp_intro.
    { apply strlen_spec; [exact Hcstr|lia]. }
    apply wp_ret. split; [done|]. simpl. lia. }
  destruct (format rd (type :: rest') vars) as [[out' n']|] eqn:Hfmt'; [|done].
  injection Hfmt as <- <-. cbn [length] in *. apply wp_bind. eapply wp_mono.
  { apply (fmt_inv_char f done_ (type :: rest') out' n' vars mm 63 ins); try done; cbn [length]; lia. }
  intros ? mm' Hinv. apply wp_ret. split; [done|]. simpl. lia.
Qed.

Lemma sprintf_loop_spec st mm fuel : fmt_inv st mm → (fmt_measure st < fuel)%nat →
  wp (loop fuel (sprintf_step p) st) mm (λ r mm', r = N ∧ fmt_mem m str p OUT 0 mm').
Proof.
  intros Hinv Hfuel. apply (wp_loop fmt_inv fmt_measure); [|done|done].
  intros st' mm' Hinv'. by apply sprintf_step_inv.
Qed.
End formatter.

Lemma sprintf_internal_spec m str fptr fmt vars rd out n :
  format rd fmt vars = Some (out, n) → Forall (λ v, 0 ≤ v < 2 ^ 64) vars →
  Z.of_nat (length out) ≤ INT_MAX →
  foreign m str out fptr fmt → Forall (λ v, foreign m str out v (rd v)) (string_args fmt vars) →
  bytes_at m str (replicate (S (length out)) 0) →
  sprintf_internal str fptr vars m = Ok n (put_bytes str (out ++ [0]) m).
Proof.
  intros Hfmt Hv HL Hf Hargs Hzero. apply wp_eq. unfold sprintf_internal, with_local.
  apply wp_with_cells. intros p Hp. rewrite length_replicate. change (Z.to_nat 100) with 100%nat.
  pose proof (bytes_at_mapped _ _ _ Hzero) as Hmap. rewrite length_replicate in Hmap.
  pose proof (mapped_below_fresh m p str _ Hp Hmap ltac:(lia)) as Hbelow.
  assert (∀ a, p ≤ a < p + 100 → m !! a = None) as Hfresh.
  { intros a Ha. apply Hp. unfold LOCAL_GAP. lia. }
  apply wp_bind. eapply wp_intro.
  { apply memset_spec; [done|unfold INT_MAX; lia|by apply mapped_put_cells_self]. }
  set (m1 := put_bytes p (replicate (Z.to_nat 100) 0) _).
  assert (fmt_mem m str p [] (length out) m1) as Hmm.
  { split; [|by apply mapped_put_self|].
    - cbn [app]. eapply bytes_at_agree; [exact Hzero|]. intros a Ha. rewrite length_replicate in Ha.
      unfold m1. rewrite put_bytes_outside, put_cells_lookup, decide_False;
        [done|rewrite ?length_replicate; lia..].
    - intros a _ Ha. unfold m1. rewrite put_bytes_outside, put_cells_lookup, decide_False;
        [done|rewrite ?length_replicate; lia..]. }
  assert (cstr m1 fptr fmt) as Hc.
  { eapply (foreign_keep m str p out); [exact Hfresh|exact Hmm|done|exact Hf]. }
  pose proof (format_count _ _ _ _ _ Hfmt). unfold mem_fuel. eapply wp_mono.
  { apply (sprintf_loop_spec m str p rd out n (fptr + Z.of_nat (length fmt)));
      [exact Hfresh|lia|exact HL| |].
    - exists [], fmt, out, n. cbn [fmt_str fmt_format fmt_inserted fmt_vars length app].
      split; [lia|]. split; [exact Hf|]. split; [lia|]. split; [exact Hfmt|]. split; [reflexivity|].
      do 4 (split; [lia|]). split; [exact Hv|]. split; [exact Hargs|exact Hmm].
    - unfold fmt_measure. cbn [fmt_format]. pose proof (cstr_size _ _ _ Hc). lia. }
  intros r mm [-> Hfin]. split; [done|]. apply drop_cells_eq.
  - intros a Ha. rewrite put_bytes_outside by (rewrite length_app; simpl; lia). by apply Hfresh.
  - intros a Ha. rewrite put_bytes_lookup. case_decide as Hin.
    + rewrite length_app in Hin. simpl in Hin.
      destruct (lookup_lt_is_Some_2 (out ++ [0]) (Z.to_nat (a - str))) as [b Hb].
      { rewrite length_app. simpl. lia. }
      rewrite Hb. replace a with (str + Z.of_nat (Z.to_nat (a - str))) by lia.
      by apply (fm_dest _ _ _ _ _ _ Hfin).
    + rewrite length_app in Hin. simpl in Hin. apply (fm_rest _ _ _ _ _ _ Hfin); [lia|done].
Qed.

(** ** The UART *)

(** The events of printing [s], newest first. *)
Definition uart_events (s : list Z) : list event :=
  reverse ((λ c, Mmio_write 1 UART_BASEADDRESS c) <$> s).

(** The characters that are sent, in order. *)
Fixpoint uart_output (tr : list event) : list Z :=
  match tr with
  | [] => []
  | Mmio_write width a v :: tr' =>
      uart_output tr' ++ (if (width =? 1) && (a =? UART_BASEADDRESS) then [v] else [])
  | _ :: tr' => uart_output tr'
  end.

Lemma uart_output_events s tr : uart_output (uart_events s ++ tr) = uart_output tr ++ s.
Proof.
  unfold uart_events. revert tr. induction s as [|c s IH]; intros tr; [by rewrite app_nil_r|].
  rewrite fmap_cons, reverse_cons, <-app_assoc, IH. cbn [app uart_output]. rewrite Z.eqb_refl. cbn.
  by rewrite <-app_assoc.
Qed.

Lemma put_string_spec s str cs : cstr (ram s) str cs →
  put_string str s = Ok tt (mk_machine (ram s) (sysregs s) (uart_events cs ++ trace s) (env s)).
Proof.
  intros Hs. apply wp_eq. unfold put_string, ram_fuel. pose proof (cstr_size _ _ _ Hs).
  apply (wp_loop (λ q s', ∃ i, (i ≤ length cs)%nat ∧ q = str + Z.of_nat i ∧
      s' = mk_machine (ram s) (sysregs s) (uart_events (take i cs) ++ trace s) (env s))
    (λ q, Z.to_nat (str + Z.of_nat (length cs) - q))).
  - intros q s' (i & Hi & -> & ->). apply wp_bind, wp_on_ram. cbn [ram].
    destruct (cstr_scan _ _ _ i Hs Hi) as [(b & Hb & Hm & Hr)|[-> Hm]]; (eapply wp_loadb; [done|]).
    + destruct (Z.eqb_spec b 0); [lia|]. apply wp_bind. unfold put_char, mmio_write8, emit.
      apply wp_modify, wp_ret. apply lookup_lt_Some in Hb as ?. split; [|lia].
      exists (S i). split; [lia|]. split; [lia|]. unfold emit_event, set_ram. cbn [ram sysregs trace env].
      f_equal. rewrite u8_small by lia. erewrite take_S_r by done. unfold uart_events.
      by rewrite fmap_app, reverse_app.
    + apply wp_ret. split; [done|]. by rewrite take_ge by done.
  - exists 0%nat. split; [lia|]. split; [lia|]. by destruct s.
  - lia.
Qed.

(** ** klog *)

Lemma cstr_append m p d s : cstr m p d → Forall char_ok s →
  cstr (put_bytes (p + Z.of_nat (length d)) (s ++ [0]) m) p (d ++ s).
Proof.
  intros Hd Hs. split; [|by apply Forall_app; split; [apply Hd|]].
  rewrite <-app_assoc. apply bytes_at_app. split; [|apply bytes_at_put].
  apply bytes_at_put_ne; [apply (cstr_bytes _ _ _ Hd)|]. lia.
Qed.

(** A call with a literal that only writes [bs] at [dst], a mapped place. *)
Lemma local_literal_put {A} (s : machine) lit dst bs (g : Z → M mem A) a :
  Forall char_ok lit → mapped (ram s) dst (Z.of_nat (length bs)) → (0 < length bs)%nat →
  (∀ q m', cstr m' q lit → dst + Z.of_nat (length bs) ≤ q →
    (∀ x, is_Some (ram s !! x) → m' !! x = ram s !! x ∧ x < q) →
    g q m' = Ok a (put_bytes dst bs m')) →
  local_literal lit (λ q, on_ram (g q)) s = Ok a (set_ram (put_bytes dst bs (ram s)) s).
Proof.
  intros Hlit Hm Hbs Hg. apply wp_eq. unfold local_literal. apply wp_local_cells. intros p Hp.
  pose proof (mapped_below_fresh _ _ _ _ Hp Hm ltac:(lia)) as Hbelow.
  eapply wp_intro.
  { apply on_ram_ok, Hg; [by apply cstr_put|done|]. intros x [c Hx]. cbn [ram set_ram].
    assert (x < p) as Hxp.
    { destruct (Z.le_gt_cases p x); [|lia]. rewrite Hp in Hx; [done|]. unfold LOCAL_GAP. lia. }
    split; [|done]. change (put_cells p (Some <$> lit ++ [0]) (ram s)) with (put_bytes p (lit ++ [0]) (ram s)).
    apply put_bytes_outside. lia. }
  split; [done|]. unfold set_ram. cbn [ram sysregs trace env]. f_equal. apply drop_cells_eq.
  - intros x Hx. rewrite put_bytes_outside by lia. apply Hp. unfold LOCAL_GAP. lia.
  - intros x Hx. rewrite !put_bytes_lookup. case_decide; [done|].
    rewrite put_cells_lookup, decide_False by lia. done.
Qed.

(** The text [klog] sends, given the time in microseconds. *)
Definition klog_text (usec : Z) (msg : list Z) : list Z :=
  chars "[" ++ numeral 10 usec ++ chars "] " ++ msg ++ [10].

(** The time [klog] prints: the counter divided by the counts per microsecond. *)
Definition usec_now (s : machine) : Z :=
  u64 (env_reg (env s) (trace s) CNTPCT_EL0) / (u32 (sysregs s CNTFRQ_EL0) / 1000000).

Lemma timer_usec_spec s : 1000000 ≤ u32 (sysregs s CNTFRQ_EL0) →
  timer_read_systemcounter_usec s =
    Ok (usec_now s) (emit_event (Mrs_volatile CNTPCT_EL0 (u64 (env_reg (env s) (trace s) CNTPCT_EL0))) s).
Proof.
  intros Hf. unfold timer_read_systemcounter_usec, timer_read_systemcounter, bind, mrs. simpl.
  unfold timer_getfrequency, bind, mrs, ret. simpl. unfold divu.
  assert (1 ≤ u32 (sysregs s CNTFRQ_EL0) / 1000000) by (apply Z.div_le_lower_bound; lia).
  by destruct (Z.eqb_spec (u32 (sysregs s CNTFRQ_EL0) / 1000000) 0); [lia|].
Qed.

Lemma usec_now_range s : 1000000 ≤ u32 (sysregs s CNTFRQ_EL0) → 0 ≤ usec_now s < 2 ^ 64.
Proof.
  intros Hf. unfold usec_now. pose proof (u64_range (env_reg (env s) (trace s) CNTPCT_EL0)).
  assert (1 ≤ u32 (sysregs s CNTFRQ_EL0) / 1000000) by (apply Z.div_le_lower_bound; lia).
  split; [apply Z.div_pos; lia|]. apply Z.div_lt_upper_bound; nia.
Qed.

Lemma prefix_format usec : format (λ _, []) (chars "[%q] ") [usec] =
  Some (chars "[" ++ numeral 10 usec ++ chars "] ", 3).
Proof. reflexivity. Qed.

Lemma prefix_ok usec : 0 ≤ usec < 2 ^ 64 → Forall char_ok (chars "[" ++ numeral 10 usec ++ chars "] ").
Proof.
  intros Hu. destruct (numeral_facts 10 usec ltac:(lia) Hu) as [Hok _].
  apply Forall_app. split; [by repeat constructor|]. apply Forall_app. split; [done|].
  by repeat constructor.
Qed.

(** Formatting the prefix into its zeroed array. *)
Lemma klog_prefix s dst usec :
  let text := chars "[" ++ numeral 10 usec ++ chars "] " in
  0 ≤ usec < 2 ^ 64 → bytes_at (ram s) dst (replicate (S (length text)) 0) →
  local_literal (chars "[%q] ") (λ format, on_ram (sprintf dst format [usec])) s =
    Ok 3 (set_ram (put_bytes dst (text ++ [0]) (ram s)) s).
Proof.
  intros text Hu Hz. pose proof (bytes_at_mapped _ _ _ Hz) as Hm. rewrite length_replicate in Hm.
  destruct (numeral_facts 10 usec ltac:(lia) Hu) as [_ Hlen].
  assert (length text = (length (numeral 10 usec) + 3)%nat) as Htext.
  { unfold text. rewrite !length_app. simpl. lia. }
  assert (length (text ++ [0]) = S (length text)) as Hl by (rewrite length_app; simpl; lia).
  apply (local_literal_put s _ dst (text ++ [0]) (λ q, sprintf dst q [usec])).
  - by repeat constructor.
  - by rewrite Hl.
  - lia.
  - intros q m' Hq Hle Hag. rewrite Hl in Hle.
    apply (sprintf_internal_spec m' dst q (chars "[%q] ") [usec] (λ _, []) text 3).
    + apply prefix_format.
    + by apply Forall_singleton.
    + unfold INT_MAX. lia.
    + split; [done|]. unfold disjoint. lia.
    + constructor.
    + eapply bytes_at_agree; [exact Hz|]. rewrite length_replicate. intros a Ha.
      apply Hag, Hm. lia.
Qed.

(** The calls of [klog] on its arrays at [b] and [p], up to the output. *)
Lemma klog_format s b p str msg usec :
  let text := chars "[" ++ numeral 10 usec ++ chars "] " in
  0 ≤ usec < 2 ^ 64 → cstr (ram s) str msg →
  mapped (ram s) b 50 → mapped (ram s) p 15 →
  (length text ≤ 14)%nat → (length text + length msg ≤ 48)%nat →
  b + 50 ≤ p → str + Z.of_nat (length msg) < b →
  bytes_at (ram s) p (replicate 15 0) →
  ∃ m', (∀ k : M machine unit,
      (local_literal (chars "[%q] ") (λ format, on_ram (sprintf p format [usec])) ;;
       on_ram (strcpy b p) ;; on_ram (strcat b str) ;;
       local_literal [10] (λ newline, on_ram (strcat b newline)) ;; k) s = k (set_ram m' s)) ∧
    cstr m' b (text ++ msg ++ [10]) ∧
    ∀ a, ¬ (b ≤ a < b + 50) → ¬ (p ≤ a < p + 15) → m' !! a = ram s !! a.
Proof.
  intros text Hu Hmsg Hb Hp Hl1 Hl2 Hbp Hsb Hz. pose proof (prefix_ok usec Hu) as Hok. fold text in Hok.
  assert (bytes_at (ram s) p (replicate (S (length text)) 0)) as Hz'.
  { replace 15%nat with (S (length text) + (14 - length text))%nat in Hz by lia.
    rewrite replicate_add in Hz. by apply bytes_at_app in Hz as [Hz _]. }
  pose proof (klog_prefix s p usec Hu Hz') as Hpre. fold text in Hpre. clearbody text.
  set (m1 := put_bytes p (text ++ [0]) (ram s)). set (m2 := put_bytes b (text ++ [0]) m1).
  set (m3 := put_bytes (b + Z.of_nat (length text)) (msg ++ [0]) m2).
  set (m4 := put_bytes (b + Z.of_nat (length (text ++ msg))) ([10] ++ [0]) m3).
  assert (cstr m1 p text) as Hc1 by by apply cstr_put.
  assert (cstr m2 b text) as Hc2 by by apply cstr_put.
  assert (cstr m2 str msg) as Hs2.
  { eapply cstr_agree; [exact Hmsg|]. intros a Ha. unfold m2, m1.
    rewrite !put_bytes_outside by (rewrite length_app; simpl; lia). done. }
  assert (cstr m3 b (text ++ msg)) as Hc3 by (apply cstr_append; [done|apply Hmsg]).
  assert (cstr m4 b ((text ++ msg) ++ [10])) as Hc4 by (apply cstr_append; [done|by repeat constructor]).
  assert (mapped m1 b 50) as Hb1 by by apply mapped_put_bytes.
  assert (mapped m3 b 50) as Hb3 by by repeat apply mapped_put_bytes.
  exists m4. split; [|split].
  - intros k. rewrite (bind_ok _ _ _ _ _ Hpre). fold m1. set (s1 := set_ram m1 s).
    erewrite (bind_ok _ _ s1); [|apply (on_ram_ok _ s1), (strcpy_spec m1 b p text Hc1);
      [eapply mapped_weaken; [exact Hb1|lia|lia]|unfold disjoint; lia]].
    set (s2 := set_ram m2 s1).
    erewrite (bind_ok _ _ s2); [|apply (on_ram_ok _ s2), (strcat_spec m2 b str text msg Hc2 Hs2);
      [eapply mapped_weaken; [by apply mapped_put_bytes|lia|lia]|unfold disjoint; lia]].
    set (s3 := set_ram m3 s2).
    erewrite (bind_ok _ _ s3); [reflexivity|].
    apply (local_literal_put s3 [10] _ ([10] ++ [0]) (λ q, strcat b q)
      (b + Z.of_nat (length (text ++ msg)) + 1)); [by repeat constructor| |simpl; lia|].
    { change (length ([10] ++ [0])) with 2%nat. rewrite length_app.
      eapply mapped_weaken; [exact Hb3|lia|lia]. }
    intros q m' Hq Hle Hag. change (length ([10] ++ [0])) with 2%nat in Hle.
    assert (mapped (ram s3) b 50) as Hb3' by exact Hb3.
    assert (length (text ++ msg) ≤ 48)%nat as Hlen by (rewrite length_app; lia).
    rewrite (strcat_spec m' b q (text ++ msg) [10]); [done| |exact Hq| |].
    + eapply cstr_agree; [exact Hc3|]. intros a Ha. apply Hag.
      apply (cstr_mapped _ _ _ Hc3). lia.
    + intros a Ha. cbn [length] in Ha. destruct (Hag a) as [-> _]; apply Hb3'; lia.
    + unfold disjoint. cbn [length]. lia.
  - by rewrite app_assoc.
  - intros a Ha Hap. unfold m4, m3, m2, m1. rewrite length_app.
    rewrite !put_bytes_outside by (rewrite ?length_app; simpl; lia). done.
Qed.

Definition klog_prefix_text (usec : Z) : list Z := chars "[" ++ numeral 10 usec ++ chars "] ".

(** The end of [klog]: its frame [b], [p] is dropped and only the output remains. *)
Lemma klog_spec s str msg :
  1000000 ≤ u32 (sysregs s CNTFRQ_EL0) → cstr (ram s) str msg →
  (length (klog_prefix_text (usec_now s)) ≤ 14)%nat →
  (length (klog_prefix_text (usec_now s)) + length msg ≤ 48)%nat →
  klog str s = Ok tt (mk_machine (ram s) (sysregs s)
    (uart_events (klog_text (usec_now s) msg) ++
      Mrs_volatile CNTPCT_EL0 (u64 (env_reg (env s) (trace s) CNTPCT_EL0)) :: trace s) (env s)).
Proof.
  intros Hf Hmsg Hl1 Hl2. unfold klog_prefix_text in *. pose proof (usec_now_range s Hf) as Hu.
  apply wp_eq. unfold klog, local_array.
  apply wp_local_cells. intros b Hb. rewrite length_replicate. change (Z.to_nat 50) with 50%nat.
  set (s1 := set_ram _ s). apply wp_local_cells. intros p Hp. rewrite length_replicate.
  change (Z.to_nat 15) with 15%nat. set (s2 := set_ram _ s1).
  assert (mapped (ram s1) b 50) as Hmb by by apply mapped_put_cells_self.
  pose proof (mapped_below_fresh _ _ _ _ Hp Hmb ltac:(lia)) as Hbp.
  pose proof (mapped_below_fresh _ _ _ _ Hb (cstr_mapped _ _ _ Hmsg) ltac:(lia)) as Hsb.
  assert (mapped (ram s2) p 15) as Hmp by by apply mapped_put_cells_self.
  assert (∀ a, ¬ (b ≤ a < b + 50) → ¬ (p ≤ a < p + 15) → ram s2 !! a = ram s !! a) as Hout2.
  { intros a Ha Hap. cbn [ram set_ram s1 s2].
    rewrite !put_cells_lookup, !decide_False by (rewrite length_replicate; lia). done. }
  apply wp_bind. eapply wp_intro.
  { apply on_ram_ok, (memset_spec _ p 0 15); [done|unfold INT_MAX; lia|done]. }
  set (s3 := set_ram _ s2). apply wp_bind. eapply wp_intro; [by apply timer_usec_spec|].
  set (s4 := emit_event _ s3). change (usec_now s3) with (usec_now s).
  assert (cstr (ram s4) str msg) as Hmsg4.
  { eapply cstr_agree; [exact Hmsg|]. intros a Ha. cbn [ram set_ram emit_event s3 s4].
    rewrite put_bytes_outside by (rewrite length_replicate; lia). apply Hout2; lia. }
  assert (mapped (ram s4) b 50) as Hmb4.
  { cbn [ram set_ram emit_event s3 s4]. apply mapped_put_bytes. by apply mapped_put. }
  assert (mapped (ram s4) p 15) as Hmp4.
  { cbn [ram set_ram emit_event s3 s4]. by apply mapped_put_bytes. }
  assert (bytes_at (ram s4) p (replicate 15 0)) as Hz4 by apply bytes_at_put.
  assert (b + 50 ≤ p) as Hbp' by lia. assert (str + Z.of_nat (length msg) < b) as Hsb' by lia.
  destruct (klog_format s4 b p str msg (usec_now s) Hu Hmsg4 Hmb4 Hmp4 Hl1 Hl2 Hbp' Hsb' Hz4)
    as (m' & Hrun & Hc & Hout).
  eapply wp_intro.
  { rewrite Hrun. by apply put_string_spec. }
  split; [done|]. unfold set_ram. cbn [ram sysregs trace env set_ram emit_event s1 s2 s3 s4].
  f_equal.
  - apply drop_cells_eq.
    + intros a Ha. apply Hb. unfold LOCAL_GAP. lia.
    + intros a Ha. rewrite drop_cells_lookup. case_decide as Hap.
      * symmetry. apply Hb. unfold LOCAL_GAP. lia.
      * rewrite Hout by lia. cbn [ram set_ram emit_event s3 s4].
        rewrite put_bytes_outside by (rewrite length_replicate; lia). apply Hout2; lia.
  - f_equal. f_equal. unfold klog_text. by rewrite <-!app_assoc.
Qed.

(** What [klogf] puts into its 40 bytes and sends: the text of the format. *)
Lemma klogf_spec s fptr fmt vars rd out n :
  1000000 ≤ u32 (sysregs s CNTFRQ_EL0) → format rd fmt vars = Some (out, n) → Forall (λ v, 0 ≤ v < 2 ^ 64) vars →
  Forall char_ok out → cstr (ram s) fptr fmt → Forall (λ v, cstr (ram s) v (rd v)) (string_args fmt vars) →
  (length out ≤ 39)%nat → (length (klog_prefix_text (usec_now s)) ≤ 14)%nat →
  (length (klog_prefix_text (usec_now s)) + length out ≤ 48)%nat →
  klogf fptr vars s = Ok tt (mk_machine (ram s) (sysregs s)
    (uart_events (klog_text (usec_now s) out) ++
      Mrs_volatile CNTPCT_EL0 (u64 (env_reg (env s) (trace s) CNTPCT_EL0)) :: trace s) (env s)).
Proof.
  intros Hf Hfmt Hv Hok Hc Hargs Hlen Hl1 Hl2. apply wp_eq. unfold klogf, local_array. apply wp_local_cells.
  intros b Hb. rewrite length_replicate. change (Z.to_nat 40) with 40%nat. set (m1 := put_cells b _ (ram s)).
  assert (∀ q t, cstr (ram s) q t → cstr (put_bytes b (replicate 40 0) m1) q t ∧ q + Z.of_nat (length t) + 1 ≤ b) as Hkeep.
  { intros q t Ht. pose proof (mapped_below_fresh _ _ _ _ Hb (cstr_mapped _ _ _ Ht) ltac:(lia)) as Hbelow. split; [|lia].
    eapply cstr_agree; [exact Ht|]. intros a Ha. unfold m1.
    rewrite put_bytes_outside, put_cells_lookup, decide_False by (rewrite ?length_replicate; lia). done. }
  apply wp_bind. eapply wp_intro.
  { apply on_ram_ok, (memset_spec _ b 0 40); [done|unfold INT_MAX; lia|]. by apply mapped_put_cells_self. }
  change (Z.to_nat 40) with 40%nat. set (s2 := set_ram _ (set_ram m1 s)). apply wp_bind. eapply wp_intro.
  { apply on_ram_ok, (sprintf_internal_spec _ b fptr fmt vars rd out n Hfmt Hv).
    - unfold INT_MAX. lia.
    - destruct (Hkeep _ _ Hc). split; [done|]. unfold disjoint. lia.
    - eapply Forall_impl; [exact Hargs|]. intros v Hrv. destruct (Hkeep _ _ Hrv). split; [done|]. unfold disjoint. lia.
    - pose proof (bytes_at_put b (replicate 40 0) m1) as Hz.
      replace 40%nat with (S (length out) + (39 - length out))%nat in Hz by lia.
      rewrite replicate_add in Hz. apply bytes_at_app in Hz as [Hz _].
      eapply bytes_at_agree; [exact Hz|]. intros a Ha. cbn [ram set_ram s2]. do 2 f_equal.
      replace 40%nat with (S (length out) + (39 - length out))%nat by lia. by rewrite replicate_add. }
  set (s3 := set_ram _ s2). eapply wp_intro.
  { apply (klog_spec s3 b out Hf); [by apply cstr_put|exact Hl1|exact Hl2]. }
  split; [done|]. unfold set_ram. cbn [ram sysregs trace env s3 s2 set_ram]. f_equal. apply drop_cells_eq.
  - intros a Ha. apply Hb. unfold LOCAL_GAP. lia.
  - intros a Ha. unfold m1. rewrite !put_bytes_outside by (rewrite ?length_app, ?length_replicate; simpl; lia).
    by rewrite put_cells_lookup, decide_False by (rewrite length_replicate; lia).
Qed.

(** The line fits the arrays of [klogf] and [klog]. *)
Definition log_fits (mc : machine) (line : list Z) : Prop :=
  1000000 ≤ u32 (sysregs mc CNTFRQ_EL0) ∧ (length line ≤ 39)%nat ∧
  (length (klog_prefix_text (usec_now mc)) ≤ 14)%nat ∧ (length (klog_prefix_text (usec_now mc)) + length line ≤ 48)%nat.

Definition log_events (mc : machine) (line : list Z) : list event :=
  uart_events (klog_text (usec_now mc) line) ++ [Mrs_volatile CNTPCT_EL0 (u64 (env_reg (env mc) (trace mc) CNTPCT_EL0))].

Lemma length_log_events mc line :
  length (log_events mc line) = (length (klog_prefix_text (usec_now mc)) + length line + 2)%nat.
Proof.
  unfold log_events, uart_events, klog_text, klog_prefix_text.
  rewrite !length_app, length_reverse, length_fmap, !length_app. simpl. lia.
Qed.

(** The counter is read as less than [us] microseconds before each of the next [n] events. *)
Definition clock_below (us n : Z) (mc : machine) : Prop := ∀ new, Z.of_nat (length new) ≤ n →
  usec_now (mk_machine (ram mc) (sysregs mc) (new ++ trace mc) (env mc)) < us.

Lemma clock_below_same us n mc mc' : clock_below us n mc → sysregs mc' CNTFRQ_EL0 = sysregs mc CNTFRQ_EL0 →
  trace mc' = trace mc → env mc' = env mc → clock_below us n mc'.
Proof. intros Hc E1 E2 E3 new Hn. specialize (Hc new Hn). unfold usec_now in *. cbn in *. by rewrite E1, E2, E3. Qed.

Lemma clock_below_later us n k mc mc' new : clock_below us (n + k) mc → Z.of_nat (length new) ≤ k →
  sysregs mc' CNTFRQ_EL0 = sysregs mc CNTFRQ_EL0 → trace mc' = new ++ trace mc → env mc' = env mc → clock_below us n mc'.
Proof.
  intros Hc Hk E1 E2 E3 new' Hn. specialize (Hc (new' ++ new)). rewrite length_app, <-app_assoc in Hc. specialize (Hc ltac:(lia)).
  unfold usec_now in *. cbn in *. by rewrite E1, E2, E3.
Qed.

Lemma clock_below_weaken us n n' mc : clock_below us n mc → n' ≤ n → clock_below us n' mc.
Proof. intros Hc Hn new Hnew. apply Hc. lia. Qed.

Lemma clock_below_now us n mc : clock_below us n mc → 0 ≤ n → usec_now mc < us.
Proof. intros Hc Hn. apply (Hc []). simpl. lia. Qed.

(** A stamp below 10^11 has at most eleven digits. *)
Lemma prefix_fits mc : 1000000 ≤ u32 (sysregs mc CNTFRQ_EL0) → usec_now mc < 10 ^ 11 →
  (length (klog_prefix_text (usec_now mc)) ≤ 14)%nat.
Proof.
  intros Hf Hclock. pose proof (usec_now_range mc Hf). unfold klog_prefix_text. rewrite !length_app.
  change (length (chars "[")) with 1%nat. change (length (chars "] ")) with 2%nat.
  pose proof (numeral_length 10 (usec_now mc) 11 ltac:(lia) ltac:(lia) ltac:(lia)). lia.
Qed.

(** A literal of a call that only has output: it lies above the mapped memory. *)
Lemma local_literal_out {A} B lit (f : Z → M machine A) mc a tr : Forall char_ok lit → 0 ≤ B → below B (ram mc) →
  (∀ p m, cstr m p lit → (∀ x, is_Some (ram mc !! x) → m !! x = ram mc !! x ∧ x < p) → 0 ≤ p ≤ B + LOCAL_GAP →
    below (B + LOCAL_GAP + Z.of_nat (length lit) + 1) m →
    f p (set_ram m mc) = Ok a (mk_machine m (sysregs mc) tr (env mc))) →
  local_literal lit f mc = Ok a (mk_machine (ram mc) (sysregs mc) tr (env mc)).
Proof.
  intros Hlit HB Hlow Hf. pose proof (fresh_address_bound B (ram mc) HB Hlow) as Hp.
  pose proof (fresh_address_spec (ram mc)) as Hfresh. unfold local_literal, local_cells.
  set (p := fresh_address (ram mc)) in *. clearbody p.
  assert (∀ x, is_Some (ram mc !! x) → x < p) as Habove.
  { intros x [c Hx]. destruct (Z.lt_ge_cases x p) as [|Hge]; [done|]. rewrite Hfresh in Hx; [done|]. unfold LOCAL_GAP. lia. }
  rewrite Hf; [|by apply cstr_put| |done|].
  - unfold set_ram. cbn [ram sysregs trace env]. f_equal. f_equal. apply drop_cells_eq.
    + intros x Hx. apply Hfresh. unfold LOCAL_GAP. lia.
    + intros x Hx. by rewrite put_cells_lookup, decide_False.
  - intros x Hx. specialize (Habove x Hx). by rewrite put_cells_lookup, decide_False by lia.
  - intros x. rewrite put_cells_lookup, length_fmap, length_app. case_decide as Hin; simpl in Hin; [lia|].
    intros Hx. specialize (Hlow x Hx). unfold LOCAL_GAP. lia.
Qed.

(** Strings of the caller stay readable. *)
Lemma cstr_kept (m m' : mem) p q s : cstr m q s → (∀ x, is_Some (m !! x) → m' !! x = m !! x ∧ x < p) → cstr m' q s ∧ q < p.
Proof.
  intros Hs Hk. pose proof (cstr_mapped _ _ _ Hs) as Hm. split.
  - eapply cstr_agree; [exact Hs|]. intros x Hx. by destruct (Hk x (Hm x ltac:(lia))).
  - destruct (Hk q (Hm q ltac:(lia))). done.
Qed.

(** One of 10^11 and more is too long. *)
Lemma prefix_long usec : 10 ^ 11 ≤ usec < 2 ^ 64 → (15 ≤ length (klog_prefix_text usec))%nat.
Proof.
  intros Hu. unfold klog_prefix_text. rewrite !length_app. change (length (chars "[")) with 1%nat. change (length (chars "] ")) with 2%nat.
  unfold numeral, to_digits. destruct (Z.eqb_spec usec 0); [lia|]. rewrite length_fmap.
  set (ds := reverse (lsd_digits 64 10 usec)).
  assert (of_digits 10 ds = usec) as Eds by (apply lsd_digits_value; [lia|]; change (Z.of_nat 64) with 64; lia).
  pose proof (of_digits_bound 10 ds ltac:(lia) ltac:(apply Forall_reverse, lsd_digits_range; lia)) as Hds. rewrite Eds in Hds.
  destruct (Nat.le_gt_cases 12 (length ds)); [lia|]. pose proof (Z.pow_le_mono_r 10 (Z.of_nat (length ds)) 11 ltac:(lia) ltac:(lia)). lia.
Qed.

(** A call with a literal format: the line is on the UART. *)
Definition printed (line : list Z) (mc : machine) : machine :=
  mk_machine (ram mc) (sysregs mc) (log_events mc line ++ trace mc) (env mc).

Lemma klogf_lit_spec mc fmt vars rd out n : Forall char_ok fmt → format rd fmt vars = Some (out, n) →
  Forall (λ v, 0 ≤ v < 2 ^ 64) vars → Forall char_ok out → Forall (λ v, cstr (ram mc) v (rd v)) (string_args fmt vars) →
  log_fits mc out → below (2 ^ 63) (ram mc) → klogf_lit fmt vars mc = Ok tt (printed out mc).
Proof.
  intros Hfmt Hout Hv Hok Hargs (Hf & H1 & H2 & H3) Hlow. unfold printed.
  apply (local_literal_out (2 ^ 63)); [done|lia|done|]. intros p m Hc Hk _ _.
  rewrite (klogf_spec _ p fmt vars rd out n); try done.
  - unfold log_events. rewrite <-app_assoc. done.
  - eapply Forall_impl; [exact Hargs|]. intros v Hv'. by destruct (cstr_kept _ _ _ _ _ Hv' Hk).
Qed.

(** * Properties *)

(** [uint64_to_string] writes the numeral of the number: digits below the base, without a
    leading zero, that denote the number, as characters, then a NUL, and nothing else. *)
Theorem uint64_to_string_numeral m str num base :
  10 ≤ base ≤ 36 → 0 ≤ num < 2 ^ 64 → mapped m str 21 →
  ∃ ds, uint64_to_string str num base m = Ok tt (put_bytes str ((digit_char <$> ds) ++ [0]) m) ∧
    of_digits base ds = num ∧ Forall (λ d, 0 ≤ d < base) ds ∧
    (num = 0 → ds = [0]) ∧ (num ≠ 0 → ∃ d, head ds = Some d ∧ d ≠ 0).
Proof.
  intros Hb Hn Hm. destruct (numeral_facts base num Hb Hn) as [_ Hlen].
  exists (to_digits base num). split.
  { apply uint64_to_string_spec; [done|done|]. eapply mapped_weaken; [exact Hm|lia|lia]. }
  unfold to_digits. destruct (Z.eqb_spec num 0) as [->|Hne].
  - split; [done|]. split; [apply Forall_singleton; lia|]. done.
  - split; [apply lsd_digits_value; [lia|]; by change (Z.of_nat 64) with 64|].
    split; [apply Forall_reverse, lsd_digits_range; lia|]. split; [done|]. intros _.
    rewrite head_reverse. apply lsd_digits_last; [lia|]. change (Z.of_nat 64) with 64. lia.
Qed.

(** C26: [sprintf] on a zeroed destination stores what the format denotes, conversions
    included, and a NUL; the value it returns counts the literal characters only, because the
    conversions declare a variable of the same name. *)
Theorem sprintf_formats m str fptr fmt vars rd out n :
  format rd fmt vars = Some (out, n) → Forall (λ v, 0 ≤ v < 2 ^ 64) vars →
  Z.of_nat (length out) ≤ INT_MAX →
  foreign m str out fptr fmt → Forall (λ v, foreign m str out v (rd v)) (string_args fmt vars) →
  bytes_at m str (replicate (S (length out)) 0) →
  sprintf str fptr vars m = Ok n (put_bytes str (out ++ [0]) m) ∧ n ≤ Z.of_nat (length out).
Proof.
  intros Hfmt Hv HL Hf Ha Hz. split; [by eapply sprintf_internal_spec|].
  apply format_count in Hfmt. lia.
Qed.

(** C32: [klogf] sends the time in microseconds, the formatted text and a newline to the UART, in this
    order, and leaves memory and registers as they were, provided the text fits the 40 bytes of
    [klogf], the prefix its 15 and the whole line the 50 of [klog]. *)
Theorem klogf_prints s fptr fmt vars rd out n :
  1000000 ≤ u32 (sysregs s CNTFRQ_EL0) → format rd fmt vars = Some (out, n) → Forall (λ v, 0 ≤ v < 2 ^ 64) vars →
  Forall char_ok out → cstr (ram s) fptr fmt → Forall (λ v, cstr (ram s) v (rd v)) (string_args fmt vars) →
  (length out < 40)%nat → (length (klog_prefix_text (usec_now s)) < 15)%nat →
  (length (klog_text (usec_now s) out) < 50)%nat →
  klogf fptr vars s = Ok tt (mk_machine (ram s) (sysregs s)
    (uart_events (klog_text (usec_now s) out) ++
      Mrs_volatile CNTPCT_EL0 (u64 (env_reg (env s) (trace s) CNTPCT_EL0)) :: trace s) (env s)).
Proof.
  intros Hf Hfmt Hv Hok Hc Hargs Hlen Hl1 Hl2. apply (klogf_spec s fptr fmt vars rd out n); try done; [lia|lia|].
  unfold klog_text, klog_prefix_text in *. rewrite !length_app in *. simpl in *. lia.
Qed.

(** ** Witnesses and examples *)

Definition demo_log_mem : mem :=
  put_bytes 100 (chars "x=%x %s" ++ [0]) (put_bytes 200 (chars "ok" ++ [0])
    (put_bytes 300 (replicate 30 0) ∅)).
Definition demo_log (counter : Z) : machine :=
  mk_machine demo_log_mem (λ r, match r with CNTFRQ_EL0 => 62500000 | _ => 0 end) []
    (mk_environment (λ _ _, 0) (λ _ _, counter)).

Lemma uint64_to_string_numeral_witness :
  ∃ ds, uint64_to_string 300 48879 16 demo_log_mem =
      Ok tt (put_bytes 300 ((digit_char <$> ds) ++ [0]) demo_log_mem) ∧ of_digits 16 ds = 48879.
Proof.
  destruct (uint64_to_string_numeral demo_log_mem 300 48879 16) as (ds & H & Hds & _); [lia|lia| |].
  - apply (mapped_put_bytes _ _ _ 100), (mapped_put_bytes _ _ _ 200), mapped_put_self. simpl. lia.
  - exists ds. split; [exact H|exact Hds].
Defined.

Lemma sprintf_formats_witness :
  sprintf 300 100 [255; 200] demo_log_mem = Ok 3 (put_bytes 300 (chars "x=ff ok" ++ [0]) demo_log_mem).
Proof.
  apply (sprintf_formats demo_log_mem 300 100 (chars "x=%x %s") [255; 200] (λ _, chars "ok")
    (chars "x=ff ok") 3).
  - vm_compute. reflexivity.
  - apply Forall_cons. split; [lia|]. apply Forall_singleton. lia.
  - unfold INT_MAX. simpl. lia.
  - split; [by apply cstr_put; repeat constructor|]. unfold disjoint. simpl. lia.
  - apply Forall_singleton. split; [|unfold disjoint; simpl; lia].
    split; [|by repeat constructor]. apply bytes_at_put_ne; [apply bytes_at_put|simpl; lia].
  - apply bytes_at_put_ne; [apply bytes_at_put_ne|]; [|simpl; lia|simpl; lia].
    apply (bytes_at_app _ _ (replicate 8 0) (replicate 22 0)), (bytes_at_put 300 (replicate 30 0)).
Defined.

Lemma klogf_prints_witness :
  ∃ s', klogf 100 [255; 200] (demo_log 6250000) = Ok tt s' ∧
    trace s' = uart_events (chars "[100806] x=ff ok" ++ [10]) ++ [Mrs_volatile CNTPCT_EL0 6250000].
Proof.
  eexists. split.
  - apply (klogf_prints (demo_log 6250000) 100 (chars "x=%x %s") [255; 200] (λ _, chars "ok") (chars "x=ff ok") 3).
    + vm_compute. discriminate.
    + vm_compute. reflexivity.
    + apply Forall_cons. split; [lia|]. apply Forall_singleton. lia.
    + by repeat constructor.
    + by apply cstr_put; repeat constructor.
    + apply Forall_singleton. split; [|by repeat constructor]. apply (bytes_at_put_ne 100); [apply bytes_at_put|simpl; lia].
    + simpl. lia.
    + apply Nat.ltb_lt. vm_compute. reflexivity.
    + apply Nat.ltb_lt. vm_compute. reflexivity.
  - vm_compute. reflexivity.
Defined.

(** After 10^11 microseconds (28 hours) the prefix does not fit its array. *)
Example klog_prefix_overflows :
  ∃ a, klog 200 (demo_log (62 * 100000000000)) = Fault (BadAddress a).
Proof. eexists. vm_compute. reflexivity. Qed.
