(* ===== verification/LogOverflow.v ===== *)
(** * The log when a line does not fit (kernel/log.c)

    [klogf] formats into 40 bytes, [klog] puts the time into 15 and the line into 50; none of them
    looks at the length.  This file shows that a line that does not fit leaves its array: together
    with Log.v, the calls print exactly the lines that fit. *)
From stdpp Require Import base list gmap.
From Stdlib Require Import ZArith Lia.
From S2P Require Import Prelude Memory CString Machine Log.

(** ** Copying behind the end of an array *)

Lemma loadb_bad m a : m !! a = None → loadb a m = Fault (BadAddress a).
Proof. unfold loadb. by intros ->. Qed.

Lemma storeb_bad m a v : m !! a = None → storeb a v m = Fault (BadAddress a).
Proof. unfold storeb. by intros ->. Qed.

(** [copy_loop] stops at the first byte that is not there. *)
Lemma copy_loop_fault m dest src s k : cstr m src s → (k ≤ length s)%nat → mapped m dest (Z.of_nat k) →
  m !! (dest + Z.of_nat k) = None → disjoint dest (Z.of_nat k) src (Z.of_nat (length s) + 1) →
  copy_loop dest src m = Fault (BadAddress (dest + Z.of_nat k)).
Proof.
  intros Hs Hk Hd Hend Hdis. unfold copy_loop, mem_fuel. pose proof (cstr_size _ _ _ Hs). unfold disjoint in Hdis.
  apply (loop_faults _ (λ '(d, q) mm, ∃ i, (i ≤ k)%nat ∧ d = dest + Z.of_nat i ∧
    q = src + Z.of_nat i ∧ mm = put_bytes dest (take i s) m) (λ '(d, _), Z.to_nat (dest + Z.of_nat k - d))).
  - intros [d q] mm (i & Hi & -> & -> & ->). apply may_fault_bind, may_fault_wp.
    assert (put_bytes dest (take i s) m !! (src + Z.of_nat i) = m !! (src + Z.of_nat i)) as Esrc.
    { apply put_bytes_outside. rewrite length_take. lia. }
    assert (put_bytes dest (take i s) m !! (dest + Z.of_nat i) = m !! (dest + Z.of_nat i)) as Edst.
    { apply put_bytes_outside. rewrite length_take. lia. }
    destruct (decide (i = k)) as [->|Hne].
    + assert (∀ v B (h : M mem B) Q, may_fault (BadAddress (dest + Z.of_nat k)) (storeb (dest + Z.of_nat k) v ;; h)
        (put_bytes dest (take k s) m) Q) as Hf.
      { intros v B h Q. apply may_fault_bind, may_fault_here, storeb_bad. by rewrite Edst. }
      destruct (cstr_scan _ _ _ k Hs Hk) as [(b & Hb & Hm & Hr)|[-> Hm]];
        (eapply wp_loadb; [by rewrite Esrc|]); [destruct (Z.eqb_spec b 0); [lia|]|]; apply Hf.
    + destruct (cstr_scan _ _ _ i Hs ltac:(lia)) as [(b & Hb & Hm & Hr)|[-> Hm]]; [|lia].
      eapply wp_loadb; [by rewrite Esrc|]. destruct (Z.eqb_spec b 0); [lia|].
      apply may_fault_bind, may_fault_wp, wp_storeb; [rewrite Edst; apply Hd; lia|].
      eexists. split; [done|]. split; [|lia]. exists (S i). split; [lia|]. split; [lia|]. split; [lia|].
      erewrite take_S_r by done. rewrite put_bytes_snoc, length_take, u8_small by lia.
      apply lookup_lt_Some in Hb. by replace (i `min` length s)%nat with i by lia.
  - exists 0%nat. rewrite !Z.add_0_r, take_0. split; [lia|done].
  - lia.
Qed.

(** [strcat] to a string with room for [k] more bytes, the NUL included. *)
Lemma strcat_fault m dest src d s k : cstr m dest d → cstr m src s → (k ≤ length s)%nat →
  mapped m (dest + Z.of_nat (length d)) (Z.of_nat k) → m !! (dest + Z.of_nat (length d) + Z.of_nat k) = None →
  disjoint (dest + Z.of_nat (length d)) (Z.of_nat k) src (Z.of_nat (length s) + 1) →
  strcat dest src m = Fault (BadAddress (dest + Z.of_nat (length d) + Z.of_nat k)).
Proof.
  intros Hd Hs Hk Hm Hend Hdis. unfold strcat. rewrite (bind_ok _ _ _ _ _ (skip_loop_spec _ _ _ Hd)).
  by apply (copy_loop_fault m _ src s k).
Qed.

(** [strcat] at an address that is not there. *)
Lemma strcat_bad m dest src : m !! dest = None → strcat dest src m = Fault (BadAddress dest).
Proof.
  intros Hd. unfold strcat. apply bind_fault. unfold skip_loop, mem_fuel. cbn [loop].
  apply bind_fault, bind_fault. by apply loadb_bad.
Qed.

(** ** The formatter *)

Section overflow.
Context (m : mem) (str p : Z) (cap : nat) (rd : Z → list Z) (fend : Z).
Hypothesis Hfresh : ∀ a, p ≤ a < p + 100 → m !! a = None.
Hypothesis Hdis : p + 100 ≤ str ∨ str + Z.of_nat cap < p.
Hypothesis Hend : m !! (str + Z.of_nat cap) = None.

#[local] Abbreviation behind := (BadAddress (str + Z.of_nat cap)).

(** A string of the caller apart from the array of [cap] bytes. *)
Definition apart (q : Z) (s : list Z) : Prop := cstr m q s ∧ disjoint q (Z.of_nat (length s) + 1) str (Z.of_nat cap).

(** The array holds [done_], then zeros; only it and the scratch buffer differ from [m]. *)
Record over_mem (done_ : list Z) (mm : mem) : Prop := {
  om_length : (length done_ ≤ cap)%nat;
  om_dest : bytes_at mm str (done_ ++ replicate (cap - length done_) 0);
  om_buf : mapped mm p 100;
  om_rest a : ¬ (str ≤ a < str + Z.of_nat cap) → ¬ (p ≤ a < p + 100) → mm !! a = m !! a;
}.

Lemma over_keep done_ mm q s : over_mem done_ mm → apart q s → cstr mm q s.
Proof.
  intros Hmm [Hq Hd]. unfold disjoint in Hd. eapply cstr_agree; [exact Hq|]. intros a Ha.
  apply (om_rest _ _ Hmm); [lia|]. intros Hp. destruct (cstr_mapped _ _ _ Hq a) as [c Hc]; [lia|]. by rewrite Hfresh in Hc.
Qed.

Lemma over_end done_ mm : over_mem done_ mm → mm !! (str + Z.of_nat cap) = None.
Proof. intros Hmm. rewrite (om_rest _ _ Hmm); [exact Hend|lia|lia]. Qed.

Lemma over_next done_ mm : over_mem done_ mm → (length done_ < cap)%nat → mm !! (str + Z.of_nat (length done_)) = Some (Some 0).
Proof.
  intros Hmm Hlt. pose proof (om_dest _ _ Hmm) as Hd. apply bytes_at_app in Hd as [_ Hd].
  destruct (cap - length done_)%nat as [|r] eqn:E; [lia|]. by apply bytes_at_cons in Hd as [Hd _].
Qed.

Lemma over_room done_ mm : over_mem done_ mm → mapped mm (str + Z.of_nat (length done_)) (Z.of_nat (cap - length done_)).
Proof.
  intros Hmm. pose proof (om_dest _ _ Hmm) as Hd. apply bytes_at_app in Hd as [_ Hd].
  apply bytes_at_mapped in Hd. by rewrite length_replicate in Hd.
Qed.

Lemma over_extend done_ mm s : over_mem done_ mm → (length done_ + length s ≤ cap)%nat →
  over_mem (done_ ++ s) (put_bytes (str + Z.of_nat (length done_)) s mm).
Proof.
  intros [Hl Hd Hb Hr] Hs. split.
  - rewrite length_app. lia.
  - replace (cap - length done_)%nat with (length s + (cap - length (done_ ++ s)))%nat in Hd by (rewrite length_app; lia).
    rewrite replicate_add in Hd. rewrite <-app_assoc. apply (bytes_at_splice mm str done_ (replicate (length s) 0) s); [exact Hd|].
    by rewrite length_replicate.
  - by apply mapped_put_bytes.
  - intros a Ha Hp. rewrite put_bytes_outside by lia. by apply Hr.
Qed.

Lemma over_buffer done_ mm bs : over_mem done_ mm → (length bs ≤ 100)%nat → over_mem done_ (put_bytes p bs mm).
Proof.
  intros [Hl Hd Hb Hr] Hbs. split; [done| | |].
  - apply bytes_at_put_ne; [exact Hd|]. rewrite length_app, length_replicate. lia.
  - by apply mapped_put_bytes.
  - intros a Ha Hp. rewrite put_bytes_outside by lia. by apply Hr.
Qed.

Lemma over_store done_ mm c : over_mem done_ mm → 0 < c < 256 →
  may_fault behind (storeb (str + Z.of_nat (length done_)) c) mm (λ _ mm', over_mem (done_ ++ [c]) mm').
Proof.
  intros Hmm Hc. pose proof (om_length _ _ Hmm) as Hl. destruct (decide (length done_ = cap)) as [E|Hne].
  - apply may_fault_here. rewrite E. apply storeb_bad. by eapply over_end.
  - apply may_fault_wp, wp_storeb; [rewrite (over_next _ _ Hmm) by lia; by eexists|].
    rewrite u8_small by lia. apply (over_extend done_ mm [c]); [done|simpl; lia].
Qed.

Lemma over_cat done_ mm q s : over_mem done_ mm → cstr mm q s → disjoint q (Z.of_nat (length s) + 1) str (Z.of_nat cap) →
  may_fault behind (strcat (str + Z.of_nat (length done_)) q) mm (λ _ mm', over_mem (done_ ++ s) mm' ∧ cstr mm' q s).
Proof.
  intros Hmm Hs Hd. pose proof (om_length _ _ Hmm) as Hl. unfold disjoint in Hd.
  destruct (decide (length done_ = cap)) as [E|Hne].
  { apply may_fault_here. rewrite E. apply strcat_bad. by eapply over_end. }
  pose proof (over_room _ _ Hmm) as Hroom.
  assert (cstr mm (str + Z.of_nat (length done_)) []) as Hnil.
  { split; [|done]. apply bytes_at_cons. split; [apply (over_next _ _ Hmm); lia|apply bytes_at_nil]. }
  destruct (decide (length done_ + length s < cap)%nat) as [Hlt|Hge].
  - apply may_fault_wp. eapply wp_intro.
    { apply (strcat_spec mm _ q [] s Hnil Hs); simpl; rewrite Z.add_0_r; [eapply mapped_weaken; [exact Hroom|lia|lia]|unfold disjoint; lia]. }
    simpl. rewrite Z.add_0_r. pose proof (over_extend done_ mm (s ++ [0]) Hmm) as [H1 H2 H3 H4]; [rewrite length_app; simpl; lia|].
    split.
    + split; [rewrite length_app; lia| |exact H3|exact H4].
      replace (cap - length (done_ ++ s))%nat with (1 + (cap - length (done_ ++ s ++ [0%Z])))%nat by (rewrite !length_app in *; simpl in *; lia).
      rewrite replicate_add. revert H2. by rewrite <-!app_assoc.
    + eapply cstr_agree; [exact Hs|]. intros a Ha. apply put_bytes_outside. rewrite length_app. simpl. lia.
  - apply may_fault_here. rewrite (strcat_fault mm _ q [] s (cap - length done_) Hnil Hs); simpl; rewrite ?Z.add_0_r.
    + do 2 f_equal. lia.
    + lia.
    + exact Hroom.
    + replace (str + Z.of_nat (length done_) + Z.of_nat (cap - length done_)) with (str + Z.of_nat cap) by lia. by eapply over_end.
    + unfold disjoint. lia.
Qed.

Lemma over_num done_ mm num base {A} (k : Z → M mem A) Q : over_mem done_ mm → base = 10 ∨ base = 16 → 0 ≤ num < 2 ^ 64 →
  (∀ mm', over_mem (done_ ++ numeral base num) mm' → may_fault behind (k (Z.of_nat (length (numeral base num)))) mm' Q) →
  may_fault behind (uint64_to_string p num base ;; let* i := strlen p in strcat (str + Z.of_nat (length done_)) p ;; k i) mm Q.
Proof.
  intros Hmm Hbase Hnum Hk. destruct (numeral_facts base num ltac:(lia) Hnum) as [Hok Hlen].
  apply may_fault_bind, may_fault_wp. eapply wp_intro.
  { apply uint64_to_string_spec; [lia|done|]. eapply mapped_weaken; [apply Hmm|lia|lia]. }
  pose proof (cstr_put p (numeral base num) mm Hok) as Hc.
  apply may_fault_bind, may_fault_wp. eapply wp_intro; [apply strlen_spec; [exact Hc|unfold INT_MAX; lia]|].
  apply may_fault_bind. eapply may_fault_mono.
  - apply (over_cat done_ _ p); [apply over_buffer; [done|rewrite length_app; simpl; lia]|exact Hc|unfold disjoint; lia].
  - intros ? mm' [Hmm' _]. by apply Hk.
Qed.

(** The invariant of the loop: more is to come than the array takes. *)
Definition over_inv (st : fmt_state) (mm : mem) : Prop :=
  ∃ done_ fmt out n, fmt_str st = str + Z.of_nat (length done_) ∧ apart (fmt_format st) fmt ∧
    fmt_format st = fend - Z.of_nat (length fmt) ∧ format rd fmt (fmt_vars st) = Some (out, n) ∧
    (cap ≤ length done_ + length out)%nat ∧ Forall (λ v, 0 ≤ v < 2 ^ 64) (fmt_vars st) ∧
    Forall (λ v, apart v (rd v) ∧ Z.of_nat (length (rd v)) ≤ INT_MAX) (string_args fmt (fmt_vars st)) ∧ over_mem done_ mm.

Lemma apart_tail q c s : apart q (c :: s) → apart (q + 1) s ∧ 0 < c < 256.
Proof.
  intros [[H Hok] Hd]. unfold apart, disjoint in *. cbn [length] in Hd. inversion Hok; subst.
  split; [|done]. split; [|lia]. split; [|done]. by apply bytes_at_cons in H as [_ H].
Qed.

Lemma apart_load done_ mm q c s : over_mem done_ mm → apart q (c :: s) → mm !! q = Some (Some c).
Proof. intros Hmm Hf. eapply over_keep in Hf as [H _]; [|done]. by apply bytes_at_cons in H as [H _]. Qed.

Lemma over_step st mm : over_inv st mm → may_fault behind (sprintf_step p st) mm (λ r mm', ∃ st', r = inl st' ∧
  over_inv st' mm' ∧ (Z.to_nat (fend - fmt_format st') < Z.to_nat (fend - fmt_format st))%nat).
Proof.
  destruct st as [s f ins vars]. intros (done_ & fmt & out & n & Hs & Hf & Hlast & Hfmt & Hlen & Hv & Ha & Hmm). simpl in *. subst s.
  destruct fmt as [|c rest].
  { injection Hfmt as <- <-. pose proof (om_length _ _ Hmm) as Hl. simpl in Hlen. apply may_fault_bind, may_fault_wp. eapply wp_loadb.
    { eapply over_keep in Hf as [Hf _]; [|done]. apply bytes_at_cons in Hf as [Hf _]. exact Hf. }
    apply may_fault_bind, may_fault_here. replace (length done_) with cap by lia. apply storeb_bad. by eapply over_end. }
  destruct (apart_tail _ _ _ Hf) as [Hf1 Hc]. cbn [length] in Hlast.
  apply may_fault_bind, may_fault_wp. eapply wp_loadb; [by eapply apart_load|].
  destruct (Z.eqb_spec c 0); [lia|]. cbn [format string_args] in *.
  (* a character and one round more *)
  assert (∀ ch rest' out' n', 0 < ch < 256 → apart (f + 1) rest' → f + 1 = fend - Z.of_nat (length rest') →
    format rd rest' vars = Some (out', n') → (cap ≤ length done_ + length (ch :: out'))%nat →
    Forall (λ v, apart v (rd v) ∧ Z.of_nat (length (rd v)) ≤ INT_MAX) (string_args rest' vars) →
    may_fault behind (storeb (str + Z.of_nat (length done_)) ch ;;
      ret (inl (mk_fmt_state (str + Z.of_nat (length done_) + 1) (f + 1) (u64 (ins + 1)) vars) : fmt_state + Z)) mm
      (λ r mm', ∃ st', r = inl st' ∧ over_inv st' mm' ∧ (Z.to_nat (fend - fmt_format st') < Z.to_nat (fend - f))%nat)) as Hchar.
  { intros ch rest' out' n' Hch Hap Hf' Hfmt' Hlen' Ha'. apply may_fault_bind. eapply may_fault_mono; [by apply over_store|].
    intros ? mm' Hmm'. eexists. split; [done|]. cbn [fmt_format]. split; [|lia].
    exists (done_ ++ [ch]), rest', out', n'. cbn [fmt_str fmt_format fmt_vars]. rewrite length_app. simpl in *.
    split; [lia|]. split; [done|]. split; [done|]. split; [done|]. split; [lia|]. done. }
  destruct (Z.eqb_spec c 37) as [->|Hne37].
  2:{ destruct (format rd rest vars) as [[out' n']|] eqn:Hfmt'; [|done]. injection Hfmt as <- <-.
      apply (Hchar c rest out' n'); done || lia. }
  destruct rest as [|type rest']; [done|]. destruct (apart_tail _ _ _ Hf1) as [Hf2 Ht]. cbn [length] in Hlast.
  replace (f + 1 + 1) with (f + 2) in Hf2 by lia.
  apply may_fault_bind, may_fault_wp. eapply wp_loadb; [by eapply apart_load|]. destruct (Z.eqb_spec type 0); [lia|].
  destruct ((type =? 120) || (type =? 113)) eqn:Hnum.
  { destruct vars as [|num vars]; [done|]. cbn [tail] in Ha. apply Forall_cons in Hv as [Hnr Hv'].
    destruct (format rd rest' vars) as [[out' n']|] eqn:Hfmt'; [|done]. injection Hfmt as <- <-. rewrite length_app in *.
    apply may_fault_bind, may_fault_wp, wp_ret. apply over_num; [done|destruct (type =? 120); lia|done|].
    intros mm' Hmm'. eexists. split; [done|]. cbn [fmt_format]. split; [|lia]. eexists _, rest', out', n'. cbn [fmt_str fmt_format fmt_vars].
    rewrite length_app. split; [|split; [exact Hf2|split; [lia|split; [exact Hfmt'|split; [|split; [exact Hv'|split; [exact Ha|exact Hmm']]]]]]]; lia. }
  destruct (Z.eqb_spec type 115) as [->|Hns].
  { destruct vars as [|arg vars]; [done|]. cbn [tail take app] in Ha. apply Forall_cons in Hv as [_ Hv']. apply Forall_cons in Ha as [[Harg Hmax] Ha'].
    destruct (format rd rest' vars) as [[out' n']|] eqn:Hfmt'; [|done]. injection Hfmt as <- <-. rewrite length_app in *.
    apply may_fault_bind, may_fault_wp, wp_ret, may_fault_bind. eapply may_fault_mono.
    { apply (over_cat done_ mm arg (rd arg) Hmm); [by eapply over_keep|apply Harg]. }
    intros ? mm' [Hmm' Hcs]. apply may_fault_bind, may_fault_wp. eapply wp_intro; [apply strlen_spec; [exact Hcs|exact Hmax]|].
    eexists. split; [done|]. cbn [fmt_format]. split; [|lia]. exists (done_ ++ rd arg), rest', out', n'. cbn [fmt_str fmt_format fmt_vars].
    rewrite length_app. split; [lia|]. split; [exact Hf2|]. split; [lia|]. split; [exact Hfmt'|]. split; [lia|]. done. }
  destruct (format rd (type :: rest') vars) as [[out' n']|] eqn:Hfmt'; [|done]. injection Hfmt as <- <-.
  apply (Hchar 63 (type :: rest') out' n'); try done; cbn [length]; lia.
Qed.
End overflow.

(** A text that does not fit a zeroed array of [cap] bytes leaves it. *)
Lemma sprintf_overflows m str fptr fmt vars rd out n cap : format rd fmt vars = Some (out, n) →
  Forall (λ v, 0 ≤ v < 2 ^ 64) vars → apart m str cap fptr fmt →
  Forall (λ v, apart m str cap v (rd v) ∧ Z.of_nat (length (rd v)) ≤ INT_MAX) (string_args fmt vars) →
  bytes_at m str (replicate cap 0) → m !! (str + Z.of_nat cap) = None → (0 < cap ≤ length out)%nat →
  sprintf_internal str fptr vars m = Fault (BadAddress (str + Z.of_nat cap)).
Proof.
  intros Hfmt Hv Hf Hargs Hzero Hend Hcap. unfold sprintf_internal, with_local, with_cells.
  pose proof (fresh_address_spec m) as Hp. set (p := fresh_address m) in *. clearbody p.
  pose proof (bytes_at_mapped _ _ _ Hzero) as Hmap. rewrite length_replicate in Hmap.
  assert (str + Z.of_nat cap < p) as Hbelow.
  { destruct (Hmap (str + Z.of_nat cap - 1) ltac:(lia)) as [c Hc].
    destruct (Z.lt_ge_cases (str + Z.of_nat cap) p) as [|Hge]; [done|]. rewrite Hp in Hc; [done|]. unfold LOCAL_GAP. lia. }
  assert (∀ a, p ≤ a < p + 100 → m !! a = None) as Hfresh by (intros a Ha; apply Hp; unfold LOCAL_GAP; lia).
  match goal with |- match ?run with _ => _ end = _ => assert (run = Fault (BadAddress (str + Z.of_nat cap))) as ->; [|done] end.
  erewrite bind_ok; [|apply memset_spec; [done|unfold INT_MAX; lia|by apply mapped_put_cells_self]].
  set (m1 := put_bytes p (replicate (Z.to_nat 100) 0) _).
  assert (∀ a, ¬ (p ≤ a < p + 100) → m1 !! a = m !! a) as Hout.
  { intros a Ha. unfold m1. rewrite put_bytes_outside, put_cells_lookup, decide_False; [done|rewrite ?length_replicate; lia..]. }
  assert (over_mem m str p cap [] m1) as Hmm.
  { split; [simpl; lia| |by apply mapped_put_self|].
    - change (bytes_at m1 str (replicate (cap - 0) 0)). rewrite Nat.sub_0_r. eapply bytes_at_agree; [exact Hzero|]. intros a Ha. rewrite length_replicate in Ha. apply Hout. lia.
    - intros a _ Ha. by apply Hout. }
  pose proof (over_keep m str p cap Hfresh [] m1 fptr fmt Hmm Hf) as Hc. pose proof (cstr_size _ _ _ Hc). unfold mem_fuel.
  apply (loop_faults _ (over_inv m str p cap rd (fptr + Z.of_nat (length fmt)))
    (λ st, Z.to_nat (fptr + Z.of_nat (length fmt) - fmt_format st))).
  - intros st mm. apply over_step; [exact Hfresh|lia|exact Hend].
  - exists [], fmt, out, n. cbn [fmt_str fmt_format fmt_vars length app]. split; [lia|]. split; [exact Hf|]. split; [lia|].
    split; [exact Hfmt|]. split; [lia|]. done.
  - cbn [fmt_format]. lia.
Qed.

(** ** Calls of the log *)

(** The call stops at an address of [P] where there is no memory. *)
Definition stops {St A} (P : Z → Prop) (m : M St A) (s : St) : Prop := ∃ a, P a ∧ m s = Fault (BadAddress a).

Lemma stops_here {St A} (P : Z → Prop) (m : M St A) s a : m s = Fault (BadAddress a) → P a → stops P m s.
Proof. intros Ha HP. by exists a. Qed.

Lemma stops_bind {St A B} P (m : M St A) (k : A → M St B) s : stops P m s → stops P (bind m k) s.
Proof. intros (a & HP & Ha). exists a. split; [done|by apply bind_fault]. Qed.

Lemma stops_after {St A B} P (m : M St A) (k : A → M St B) s a s' : m s = Ok a s' → stops P (k a) s' → stops P (bind m k) s.
Proof. intros Ha (x & HP & Hx). exists x. by rewrite (bind_ok _ _ _ _ _ Ha). Qed.

Lemma stops_on_ram {A} P (m : M mem A) s : stops P m (ram s) → stops P (on_ram m) s.
Proof. intros (a & HP & Ha). exists a. split; [done|by apply on_ram_fault]. Qed.

Lemma stops_cells {A} P cs (f : Z → M machine A) s :
  (∀ p, p = fresh_address (ram s) → (∀ a, p - LOCAL_GAP < a → ram s !! a = None) → stops P (f p) (set_ram (put_cells p cs (ram s)) s)) →
  stops P (local_cells cs f) s.
Proof.
  intros Hf. destruct (Hf _ eq_refl (fresh_address_spec (ram s))) as (a & HP & Ha). exists a. split; [done|].
  unfold local_cells. by rewrite Ha.
Qed.

(** A literal: the call finds it above the memory that it can see. *)
Lemma stops_literal {A} P lit (f : Z → M machine A) s : Forall char_ok lit →
  (∀ p m', cstr m' p lit → (∀ x, is_Some (ram s !! x) → x + 2 ≤ p) →
    (∀ x, ¬ (p ≤ x < p + Z.of_nat (length lit) + 1) → m' !! x = ram s !! x) →
    stops P (f p) (set_ram m' s)) → stops P (local_literal lit f) s.
Proof.
  intros Hlit Hf. apply stops_cells. intros p _ Hp. apply Hf.
  - by apply cstr_put.
  - intros x [c Hx]. destruct (Z.le_gt_cases (x + 2) p); [done|]. rewrite Hp in Hx; [done|]. unfold LOCAL_GAP. lia.
  - intros x Hx. rewrite put_cells_lookup, length_fmap, length_app. apply decide_False. simpl. lia.
Qed.

(** The same with bounds for the addresses. *)
Lemma stops_literal_low {A} P B lit (f : Z → M machine A) s : Forall char_ok lit → 0 ≤ B → below B (ram s) →
  (∀ p m', cstr m' p lit → (∀ x, is_Some (ram s !! x) → m' !! x = ram s !! x ∧ x < p) → 0 ≤ p ≤ B + LOCAL_GAP →
    below (B + LOCAL_GAP + Z.of_nat (length lit) + 1) m' → stops P (f p) (set_ram m' s)) → stops P (local_literal lit f) s.
Proof.
  intros Hlit HB Hlow Hf. pose proof (fresh_address_bound B (ram s) HB Hlow) as Hp. pose proof (fresh_address_spec (ram s)) as Hfresh.
  assert (∀ x, is_Some (ram s !! x) → x < fresh_address (ram s)) as Habove.
  { intros x [c Hx]. destruct (Z.lt_ge_cases x (fresh_address (ram s))) as [|Hge]; [done|]. rewrite Hfresh in Hx; [done|]. unfold LOCAL_GAP. lia. }
  destruct (Hf (fresh_address (ram s)) (put_cells (fresh_address (ram s)) (Some <$> lit ++ [0]) (ram s))) as (a & HP & Ha).
  - by apply cstr_put.
  - intros x Hx. specialize (Habove x Hx). by rewrite put_cells_lookup, decide_False by lia.
  - done.
  - intros x. rewrite put_cells_lookup, length_fmap, length_app. case_decide as Hin; simpl in Hin; [lia|].
    intros Hx. specialize (Hlow x Hx). unfold LOCAL_GAP. lia.
  - exists a. split; [done|]. unfold local_literal, local_cells. by rewrite Ha.
Qed.

(** The arrays of [klog] while it runs: [b] of 50 bytes, [p] of 15, nothing behind them. *)
Record klog_frame (b p str : Z) (msg : list Z) (m : mem) : Prop := {
  kf_line : mapped m b 50;
  kf_prefix : mapped m p 15;
  kf_behind : m !! (b + 50) = None ∧ m !! (p + 15) = None;
  kf_order : b + 50 < p ∧ str + Z.of_nat (length msg) < b;
  kf_msg : cstr m str msg;
}.

(** The end of [klog], with the prefix in its array. *)
Lemma klog_line_stops (k : M machine unit) s b p str text msg : klog_frame b p str msg (ram s) → cstr (ram s) p text →
  Forall char_ok text → (length text ≤ 14)%nat → (49 ≤ length text + length msg)%nat →
  stops (λ a, a = b + 50) (on_ram (strcpy b p) ;; on_ram (strcat b str) ;; local_literal [10] (λ newline, on_ram (strcat b newline)) ;; k) s.
Proof.
  intros [Hb Hp [Hend _] [Hbp Hsb] Hmsg] Htext Hok Hl Hlong. set (m2 := put_bytes b (text ++ [0]) (ram s)).
  assert (cstr m2 b text) as Hc2 by by apply cstr_put.
  assert (cstr m2 str msg) as Hs2.
  { eapply cstr_agree; [exact Hmsg|]. intros a Ha. unfold m2. rewrite put_bytes_outside by (rewrite length_app; simpl; lia). done. }
  assert (mapped m2 b 50) as Hb2 by by apply mapped_put_bytes.
  assert (m2 !! (b + 50) = None) as Hend2 by (unfold m2; by rewrite put_bytes_outside by (rewrite length_app; simpl; lia)).
  eapply stops_after; [apply on_ram_ok, (strcpy_spec (ram s) b p text Htext); [eapply mapped_weaken; [exact Hb|lia|lia]|unfold disjoint; lia]|].
  fold m2. destruct (decide (50 ≤ length text + length msg)%nat) as [Hge|Hlt].
  { apply stops_bind, stops_on_ram. cbn [ram set_ram].
    eapply stops_here; [apply (strcat_fault m2 b str text msg (50 - length text) Hc2 Hs2)|lia];
      [lia|eapply mapped_weaken; [exact Hb2|lia|lia]| |unfold disjoint; lia].
    by replace (b + Z.of_nat (length text) + Z.of_nat (50 - length text)) with (b + 50) by lia. }
  set (m3 := put_bytes (b + Z.of_nat (length text)) (msg ++ [0]) m2).
  eapply stops_after; [apply on_ram_ok, (strcat_spec m2 b str text msg Hc2 Hs2); [eapply mapped_weaken; [exact Hb2|lia|lia]|unfold disjoint; lia]|].
  fold m3. assert (cstr m3 b (text ++ msg)) as Hc3 by (apply cstr_append; [done|apply Hmsg]).
  assert (mapped m3 b 50) as Hb3 by by apply mapped_put_bytes.
  assert (m3 !! (b + 50) = None) as Hend3 by (unfold m3; by rewrite put_bytes_outside by (rewrite length_app; simpl; lia)).
  apply stops_bind, stops_literal; [by repeat constructor|]. cbn [ram set_ram]. intros q m' Hq Habove Hag. apply stops_on_ram. cbn [ram set_ram].
  assert (length (text ++ msg) = 49%nat) as Hlen by (rewrite length_app; lia).
  assert (b + 51 ≤ q) as Hbq by (specialize (Habove (b + 49) (Hb3 (b + 49) ltac:(lia))); lia).
  eapply stops_here; [apply (strcat_fault m' b q (text ++ msg) [10] 1)|]; rewrite ?Hlen; [| | | | | |lia].
  - eapply cstr_agree; [exact Hc3|]. intros a Ha. apply Hag. lia.
  - exact Hq.
  - simpl. lia.
  - intros a Ha. rewrite Hag by lia. apply Hb3. lia.
  - replace (b + Z.of_nat 49 + Z.of_nat 1) with (b + 50) by lia. rewrite Hag by lia. exact Hend3.
  - unfold disjoint. lia.
Qed.

Lemma klog_stops s str msg lo : is_Some (ram s !! (lo - 1)) → 1000000 ≤ u32 (sysregs s CNTFRQ_EL0) → cstr (ram s) str msg →
  (15 ≤ length (klog_prefix_text (usec_now s)))%nat ∨ (49 ≤ length (klog_prefix_text (usec_now s)) + length msg)%nat →
  stops (λ a, lo < a) (klog str) s.
Proof.
  intros [v Hlo] Hf Hmsg Hlong. pose proof (usec_now_range s Hf) as Hu. unfold klog, local_array.
  apply stops_cells. intros b _ Hb. assert (lo - 1 < b) as Hlob.
  { destruct (Z.lt_ge_cases (lo - 1) b) as [|Hge]; [done|]. rewrite Hb in Hlo; [done|]. unfold LOCAL_GAP. lia. }
  change (Z.to_nat 50) with 50%nat. set (s1 := set_ram _ s).
  apply stops_cells. intros p _ Hp. change (Z.to_nat 15) with 15%nat. set (s2 := set_ram _ s1).
  assert (mapped (ram s1) b 50) as Hmb by by apply mapped_put_cells_self.
  assert (b + 50 < p) as Hbp.
  { destruct (Z.lt_ge_cases (b + 50) p) as [|Hge]; [done|]. destruct (Hmb (b + 49) ltac:(lia)) as [c Hc].
    rewrite Hp in Hc; [done|]. unfold LOCAL_GAP. lia. }
  pose proof (mapped_below_fresh _ _ _ _ Hb (cstr_mapped _ _ _ Hmsg) ltac:(lia)) as Hsb.
  assert (mapped (ram s2) p 15) as Hmp by by apply mapped_put_cells_self.
  eapply stops_after; [apply on_ram_ok, (memset_spec _ p 0 15); [done|unfold INT_MAX; lia|exact Hmp]|]. set (s3 := set_ram _ s2).
  eapply stops_after; [by apply timer_usec_spec|]. set (s4 := emit_event _ s3). change (usec_now s3) with (usec_now s).
  assert (∀ a, ¬ (b ≤ a < b + 50) → ¬ (p ≤ a < p + 15) → ram s4 !! a = ram s !! a) as Hout.
  { intros a Ha Hap. cbn [ram set_ram emit_event s1 s2 s3 s4].
    rewrite put_bytes_outside, !put_cells_lookup, !decide_False by (rewrite length_replicate; lia). done. }
  assert (klog_frame b p str msg (ram s4)) as Hfr.
  { split.
    - cbn [ram set_ram emit_event s3 s4]. apply mapped_put_bytes. by apply mapped_put.
    - cbn [ram set_ram emit_event s3 s4]. by apply mapped_put_bytes.
    - split; rewrite Hout by lia; apply Hb; unfold LOCAL_GAP; lia.
    - lia.
    - eapply cstr_agree; [exact Hmsg|]. intros a Ha. apply Hout; lia. }
  assert (bytes_at (ram s4) p (replicate 15 0)) as Hz4 by apply bytes_at_put. clearbody s4.
  pose proof (prefix_ok (usec_now s) Hu) as Hok. fold (klog_prefix_text (usec_now s)) in Hok.
  destruct (decide (15 ≤ length (klog_prefix_text (usec_now s)))%nat) as [Hge|Hlt].
  - apply stops_bind, stops_literal; [by repeat constructor|]. intros q m' Hq Habove Hag. apply stops_on_ram. cbn [ram set_ram].
    pose proof Hfr as [_ Hp4 [_ Hend] _ _]. specialize (Habove (p + 14) (Hp4 (p + 14) ltac:(lia))).
    eapply stops_here; [eapply (sprintf_overflows m' p q (chars "[%q] ") [usec_now s] (λ _, []) (klog_prefix_text (usec_now s)) 3 15)|simpl; lia].
    + apply prefix_format.
    + by apply Forall_singleton.
    + split; [exact Hq|]. unfold disjoint. lia.
    + constructor.
    + eapply bytes_at_agree; [exact Hz4|]. rewrite length_replicate. intros a Ha. apply Hag. lia.
    + rewrite Hag by lia. exact Hend.
    + lia.
  - assert (bytes_at (ram s4) p (replicate (S (length (klog_prefix_text (usec_now s)))) 0)) as Hz'.
    { replace 15%nat with (S (length (klog_prefix_text (usec_now s))) + (14 - length (klog_prefix_text (usec_now s))))%nat in Hz4 by lia.
      rewrite replicate_add in Hz4. by apply bytes_at_app in Hz4 as [Hz4 _]. }
    eapply stops_after; [by apply klog_prefix|]. fold (klog_prefix_text (usec_now s)).
    set (text := klog_prefix_text (usec_now s)) in *. clearbody text. destruct Hfr as [H1 H2 [H3 H4] [H5 H6] H7].
    destruct (klog_line_stops (put_string b) (set_ram (put_bytes p (text ++ [0]) (ram s4)) s4) b p str text msg) as (a & -> & Ha);
      [|by apply cstr_put|exact Hok|lia|lia|exists (b + 50); split; [lia|exact Ha]].
    split; cbn [ram set_ram]; try done.
    + by apply mapped_put_bytes.
    + by apply mapped_put_bytes.
    + split; (rewrite put_bytes_outside; [done|]; rewrite length_app; simpl; lia).
    + eapply cstr_agree; [exact H7|]. intros a Ha. apply put_bytes_outside. lia.
Qed.

Lemma length_klog_text usec msg : length (klog_text usec msg) = (length (klog_prefix_text usec) + length msg + 1)%nat.
Proof.
  unfold klog_text, klog_prefix_text. rewrite !length_app. change (length [10]) with 1%nat. lia.
Qed.

Lemma klogf_stops s fptr fmt vars rd out n : 1000000 ≤ u32 (sysregs s CNTFRQ_EL0) → format rd fmt vars = Some (out, n) →
  Forall (λ v, 0 ≤ v < 2 ^ 64) vars → Forall char_ok out → cstr (ram s) fptr fmt →
  Forall (λ v, cstr (ram s) v (rd v) ∧ Z.of_nat (length (rd v)) ≤ INT_MAX) (string_args fmt vars) →
  (40 ≤ length out)%nat ∨ (15 ≤ length (klog_prefix_text (usec_now s)))%nat ∨ (50 ≤ length (klog_text (usec_now s) out))%nat →
  stops (λ a, if decide (40 ≤ length out)%nat then a = fresh_address (ram s) + 40 else fresh_address (ram s) + 40 < a) (klogf fptr vars) s.
Proof.
  intros Hf Hfmt Hv Hok Hc Hargs Hlong. unfold klogf, local_array. apply stops_cells. intros b Eb Hb. rewrite <-Eb. change (Z.to_nat 40) with 40%nat.
  set (m1 := put_cells b _ (ram s)).
  eapply stops_after; [apply on_ram_ok, (memset_spec _ b 0 40); [done|unfold INT_MAX; lia|by apply mapped_put_cells_self]|].
  change (Z.to_nat 40) with 40%nat. set (s2 := set_ram _ (set_ram m1 s)).
  assert (∀ a, ¬ (b ≤ a < b + 40) → ram s2 !! a = ram s !! a) as Hout.
  { intros a Ha. cbn [ram set_ram s2]. unfold m1. rewrite put_bytes_outside, put_cells_lookup, decide_False; [done|rewrite ?length_replicate; lia..]. }
  assert (∀ q t, cstr (ram s) q t → cstr (ram s2) q t ∧ q + Z.of_nat (length t) + 1 ≤ b) as Hkeep.
  { intros q t Ht. pose proof (mapped_below_fresh _ _ _ _ Hb (cstr_mapped _ _ _ Ht) ltac:(lia)) as Hbelow. split; [|lia].
    eapply cstr_agree; [exact Ht|]. intros a Ha. apply Hout. lia. }
  assert (bytes_at (ram s2) b (replicate 40 0)) as Hz by apply (bytes_at_put b (replicate 40 0)).
  destruct (Hkeep _ _ Hc) as [Hc2 Hcb]. pose proof Hz as Hz2.
  case_decide as Hlt.
  { apply stops_bind, stops_on_ram. eapply stops_here; [apply (sprintf_overflows (ram s2) b fptr fmt vars rd out n 40 Hfmt Hv)|done].
    - split; [exact Hc2|]. unfold disjoint. lia.
    - eapply Forall_impl; [exact Hargs|]. intros v [Hrv Hm]. destruct (Hkeep _ _ Hrv). split; [|exact Hm]. split; [done|]. unfold disjoint. lia.
    - exact Hz.
    - rewrite Hout by lia. apply Hb. unfold LOCAL_GAP. lia.
    - lia. }
  eapply stops_after.
  { apply on_ram_ok, (sprintf_internal_spec (ram s2) b fptr fmt vars rd out n Hfmt Hv).
    - unfold INT_MAX. lia.
    - split; [exact Hc2|]. unfold disjoint. lia.
    - eapply Forall_impl; [exact Hargs|]. intros v [Hrv _]. destruct (Hkeep _ _ Hrv). split; [done|]. unfold disjoint. lia.
    - replace 40%nat with (S (length out) + (39 - length out))%nat in Hz by lia.
      rewrite replicate_add in Hz. by apply bytes_at_app in Hz as [Hz _]. }
  apply (klog_stops _ b out (b + 40)); [|exact Hf|by apply cstr_put|].
  { cbn [ram set_ram]. apply (mapped_put_bytes _ b 40); [|lia]. pose proof (bytes_at_mapped _ _ _ Hz2) as Hm. by rewrite length_replicate in Hm. }
  change (usec_now (set_ram _ s2)) with (usec_now s). rewrite length_klog_text in Hlong. destruct Hlong as [?|[?|?]]; [lia|by left|right; lia].
Qed.

(** A call with a literal format. *)
Lemma klogf_lit_stops s fmt vars rd out n : 1000000 ≤ u32 (sysregs s CNTFRQ_EL0) → Forall char_ok fmt → format rd fmt vars = Some (out, n) →
  Forall (λ v, 0 ≤ v < 2 ^ 64) vars → Forall char_ok out →
  Forall (λ v, cstr (ram s) v (rd v) ∧ Z.of_nat (length (rd v)) ≤ INT_MAX) (string_args fmt vars) →
  ¬ log_fits s out → stops (λ _, True) (klogf_lit fmt vars) s.
Proof.
  intros Hf Hfmt Hout Hv Hok Hargs Hlong. apply stops_literal; [done|]. intros p m' Hc Habove Hag.
  destruct (klogf_stops (set_ram m' s) p fmt vars rd out n) as (a & _ & Ha); try done; [..|by exists a].
  - eapply Forall_impl; [exact Hargs|]. intros v [Hrv Hm]. split; [|exact Hm]. pose proof (cstr_mapped _ _ _ Hrv) as Hmap.
    eapply cstr_agree; [exact Hrv|]. intros a Ha. apply Hag. specialize (Habove a (Hmap a ltac:(lia))). lia.
  - change (usec_now (set_ram m' s)) with (usec_now s). destruct (decide (40 ≤ length out)%nat) as [|H1]; [by left|right].
    destruct (decide (15 ≤ length (klog_prefix_text (usec_now s)))%nat) as [|H2]; [by left|right].
    destruct (decide (50 ≤ length (klog_text (usec_now s) out))%nat) as [|H3]; [assumption|]. destruct Hlong. split; [exact Hf|].
    rewrite length_klog_text in H3. lia.
Qed.

(** * Properties *)

(** C40: A line that does not fit is not cut: when the text is 40 characters or longer, or the time
    with its brackets takes more than 14, or the whole line more than 49, [klogf] runs over the end
    of one of its arrays: of its own 40 bytes, and stops at the first address behind them, or, with
    a shorter text, of one of the arrays that [klog] puts behind those. *)
Theorem klogf_overflows s fptr fmt vars rd out n (text := fresh_address (ram s)) :
  1000000 ≤ u32 (sysregs s CNTFRQ_EL0) → format rd fmt vars = Some (out, n) →
  Forall (λ v, 0 ≤ v < 2 ^ 64) vars → Forall char_ok out → cstr (ram s) fptr fmt →
  Forall (λ v, cstr (ram s) v (rd v) ∧ Z.of_nat (length (rd v)) ≤ INT_MAX) (string_args fmt vars) →
  (40 ≤ length out)%nat ∨ (15 ≤ length (klog_prefix_text (usec_now s)))%nat ∨ (50 ≤ length (klog_text (usec_now s) out))%nat →
  if decide (40 ≤ length out)%nat then klogf fptr vars s = Fault (BadAddress (text + 40))
  else ∃ a, text + 40 < a ∧ klogf fptr vars s = Fault (BadAddress a).
Proof.
  intros Hf Hfmt Hv Hok Hc Hargs Hlong. destruct (klogf_stops s fptr fmt vars rd out n Hf Hfmt Hv Hok Hc Hargs Hlong) as (a & Ha & Hrun).
  case_decide; [by subst|by exists a].
Qed.

(** ** Witness *)

(** The message of userspace/hello.c under the name init.c gives it has 42 characters. *)
Definition demo_hello_mem : mem :=
  put_bytes 100 (chars "'%s': '%s'" ++ [0]) (put_bytes 200 (chars "hello.elf" ++ [0])
    (put_bytes 300 (chars "Hello from spawned process!" ++ [0]) ∅)).
Definition demo_hello : machine :=
  mk_machine demo_hello_mem (λ r, match r with CNTFRQ_EL0 => 62500000 | _ => 0 end) [] (mk_environment (λ _ _, 0) (λ _ _, 6250000)).

Lemma klogf_overflows_witness : klogf 100 [200; 300] demo_hello = Fault (BadAddress (fresh_address demo_hello_mem + 40)).
Proof.
  set (line := chars "'hello.elf': 'Hello from spawned process!'").
  assert (40 ≤ length line)%nat as Hlong by (apply Nat.leb_le; vm_compute; reflexivity).
  cut (if decide (40 ≤ length line)%nat then klogf 100 [200; 300] demo_hello = Fault (BadAddress (fresh_address (ram demo_hello) + 40))
    else ∃ a, fresh_address (ram demo_hello) + 40 < a ∧ klogf 100 [200; 300] demo_hello = Fault (BadAddress a)).
  { rewrite decide_True by exact Hlong. done. }
  apply (klogf_overflows demo_hello 100 (chars "'%s': '%s'") [200; 300]
    (λ v, if v =? 200 then chars "hello.elf" else chars "Hello from spawned process!") line 6).
  - vm_compute. discriminate.
  - reflexivity.
  - apply Forall_cons. split; [lia|]. apply Forall_singleton. lia.
  - by repeat constructor.
  - by apply cstr_put; repeat constructor.
  - change (string_args (chars "'%s': '%s'") [200; 300]) with [200; 300]. constructor; [|apply Forall_singleton];
      (split; [|unfold INT_MAX; simpl; lia]); (split; [|by repeat constructor]); cbn [ram demo_hello]; unfold demo_hello_mem; peel_bytes.
  - by left.
Defined.
