(* ===== verification/Gic.v ===== *)
(** * Interrupt controller (kernel/gic/gic.c, include/gic.h)

    The distributor and redistributor are device registers, read and written as events of the
    machine; the CPU interface is a set of system registers.  The table of handlers is a
    static of the file: two arrays of pointers, an access outside them being a fault. *)
From stdpp Require Import base list gmap.
From Stdlib Require Import ZArith Lia.
From S2P Require Import Prelude Memory Slab Machine.

Definition GIC_DIST : Z := 0x08000000.
Definition GIC_REDIST : Z := 0x080a0000.
Definition GIC_REDIST_SGI : Z := 0x080b0000.
Definition MAX_INTS : Z := 1024.

(** ** Device registers *)

(** [*reg |= mask] and [*reg &= mask] on a volatile register. *)
Definition reg_or (a mask : Z) : M machine unit :=
  let* v := mmio_read32 a in mmio_write32 a (Z.lor v (u32 mask)).
Definition reg_and (a mask : Z) : M machine unit :=
  let* v := mmio_read32 a in mmio_write32 a (Z.land v (u32 mask)).

Definition gic_distributor_enable : M machine unit :=
  let ctrl := Z.lor 0 (Z.shiftl 1 4) in
  mmio_write32 (GIC_DIST + 0x0) ctrl ;;
  let ctrl := Z.lor ctrl (Z.shiftl 1 2) in
  let ctrl := Z.lor ctrl (Z.shiftl 1 1) in
  let ctrl := Z.lor ctrl (Z.shiftl 1 0) in
  mmio_write32 (GIC_DIST + 0x0) ctrl.

Definition gic_distributor_enable_id (intid : Z) : M machine unit :=
  let offset := Z.rem intid 32 in
  let reg := Z.quot intid 32 in
  let* bit := shl32 1 offset in
  reg_or (GIC_DIST + 0x100 + 4 * reg) bit.

Definition gic_distributor_set_group (id group : Z) : M machine unit :=
  let offset := Z.rem id 32 in
  let reg := Z.quot id 32 in
  let a := GIC_DIST + 0x80 + 4 * reg in
  let* bit := shl32 1 offset in
  if negb (group =? 0) then reg_or a bit else reg_and a (Z.lnot bit).

(** The shared body of the two functions that set a byte of a register. *)
Definition gic_set_byte (base id value : Z) : M machine unit :=
  let offset := Z.rem id 4 in
  let reg := Z.quot id 4 in
  let* shifted := shl32 (u8 value) (8 * offset) in
  let* mask := shl32 0xff (8 * offset) in
  let mask := Z.lnot mask in
  reg_and (base + 4 * reg) mask ;;
  reg_or (base + 4 * reg) shifted.

Definition gic_distributor_set_priority (id priority : Z) : M machine unit :=
  gic_set_byte (GIC_DIST + 0x400) id priority.

Definition gic_distributor_set_target (id value : Z) : M machine unit :=
  gic_set_byte (GIC_DIST + 0x800) id value.

(** The last loop polls the device: [polls] bounds how often. *)
Definition gic_redistributor_wake (polls : nat) : M machine unit :=
  let GICR_WAKER := GIC_REDIST + 0x14 in
  reg_and GICR_WAKER (Z.lnot (Z.shiftl 1 1)) ;;
  loop polls (λ _ : unit,
    let* v := mmio_read32 GICR_WAKER in
    if Z.land v (Z.shiftl 1 2) =? 0 then ret (inr tt) else ret (inl tt)) tt.

Definition gic_redistributor_enable_id (id : Z) : M machine unit :=
  let offset := Z.rem id 32 in
  let reg := Z.quot id 32 in
  let* bit := shl32 1 offset in
  reg_or (GIC_REDIST_SGI + 0x100 + 4 * reg) bit.

(** ** CPU interface *)

Definition gic_interface_setbinarypoint0 (bp : Z) : M machine unit :=
  msr ICC_BPR0_EL1 (Z.land (u8 bp) 7).
Definition gic_interface_setbinarypoint1 (bp : Z) : M machine unit :=
  msr ICC_BPR1_EL1 (Z.land (u8 bp) 7).
Definition gic_interface_setprioritymask (pmr : Z) : M machine unit := msr ICC_PMR_EL1 (u8 pmr).

Definition gic_interface_enablegroups : M machine unit :=
  msr ICC_IGRPEN0_EL1 1 ;;
  msr ICC_IGRPEN1_EL1 1.

Definition gic_interface_init : M machine unit := msr ICC_SRE_EL1 1.

Definition gic_interface_read_and_ack_group0 : M machine Z :=
  let* iar := mrs ICC_IAR0_EL1 in ret (u32 (Z.land iar 0xffffff)).
Definition gic_interface_read_and_ack_group1 : M machine Z :=
  let* iar := mrs ICC_IAR1_EL1 in ret (u32 (Z.land iar 0xffffff)).

Definition gic_interface_end_of_interrupt_group0 (intid : Z) : M machine unit :=
  msr ICC_EOIR0_EL1 (Z.land (u32 intid) 0xffffff).
Definition gic_interface_end_of_interrupt_group1 (intid : Z) : M machine unit :=
  msr ICC_EOIR1_EL1 (Z.land (u32 intid) 0xffffff).

(** ** Handlers *)

(** The two static arrays; 0 is the null pointer. *)
Record gic_table : Type := mk_gic_table {
  handlers : list Z;
  handler_params : list Z;
}.

Definition array_set (l : list Z) (i v : Z) : option (list Z) :=
  if (0 <=? i) && (i <? Z.of_nat (length l)) then Some (<[Z.to_nat i := v]> l) else None.
Definition array_get (l : list Z) (i : Z) : option Z := if 0 <=? i then l !! Z.to_nat i else None.

Definition gic_redistributor_set_handler (intid handler arg : Z) : M gic_table unit :=
  if (intid <? 0) || (MAX_INTS <? intid) then ret tt else
  let* t := get in
  match array_set (handlers t) intid handler, array_set (handler_params t) intid arg with
  | Some hs, Some ps => put (mk_gic_table hs ps)
  | _, _ => fail (BadAddress intid)
  end.

Definition gic_redistributor_get_handler (intid : Z) : M gic_table Z :=
  if (intid <? 0) || (MAX_INTS <? intid) then ret 0 else
  let* t := get in
  match array_get (handlers t) intid with Some h => ret h | None => fail (BadAddress intid) end.

Definition gic_redistributor_get_handler_param (intid : Z) : M gic_table Z :=
  if (intid <? 0) || (MAX_INTS <? intid) then ret 0 else
  let* t := get in
  match array_get (handler_params t) intid with Some h => ret h | None => fail (BadAddress intid) end.

Definition gic_redistributor_erase_handlers : M gic_table unit :=
  for_int MAX_INTS (λ i,
    let* t := get in
    match array_set (handlers t) i 0 with
    | Some hs => put (mk_gic_table hs (handler_params t))
    | None => fail (BadAddress i)
    end).

(** * Specification *)

Definition gic_ok (t : gic_table) : Prop :=
  length (handlers t) = Z.to_nat MAX_INTS ∧ length (handler_params t) = Z.to_nat MAX_INTS.

(** A register that reads back what was last written to it. *)
Definition reads_back (e : environment) (a : Z) : Prop := ∀ t v, env_mmio e (Mmio_write 4 a v :: t) a = v.

Definition byte_of (v j : Z) : Z := Z.land (Z.shiftr v (8 * j)) 0xff.

(** * Lemmas *)

Lemma array_set_get l i j v l' : array_set l i v = Some l' → 0 ≤ j →
  array_get l' j = if decide (j = i) then Some v else array_get l j.
Proof.
  unfold array_set, array_get. intros H Hj.
  destruct (Z.leb_spec 0 i), (Z.ltb_spec i (Z.of_nat (length l))); try done. simpl in H. simplify_eq.
  destruct (Z.leb_spec 0 j); [|lia]. case_decide as E.
  - subst j. apply list_lookup_insert_eq. lia.
  - apply list_lookup_insert_ne. lia.
Qed.

Lemma array_set_in l i v : 0 ≤ i < Z.of_nat (length l) →
  array_set l i v = Some (<[Z.to_nat i := v]> l).
Proof.
  intros Hi. unfold array_set. destruct (Z.leb_spec 0 i), (Z.ltb_spec i (Z.of_nat (length l))); lia || done.
Qed.

Lemma id_byte id : 0 ≤ id → 0 ≤ Z.rem id 4 < 4.
Proof. intros. rewrite Z.rem_mod_nonneg by lia. by apply Z.mod_pos_bound. Qed.

Lemma u32_bit x n : 0 ≤ n → Z.testbit (u32 x) n = (n <? 32) && Z.testbit x n.
Proof.
  intros Hn. unfold u32. destruct (Z.ltb_spec n 32); simpl.
  - apply Z.mod_pow2_bits_low. lia.
  - apply Z.mod_pow2_bits_high. lia.
Qed.

Lemma i32_bit x n : 0 ≤ n < 32 → Z.testbit (i32 x) n = Z.testbit x n.
Proof.
  intros Hn. rewrite <-(Z.mod_pow2_bits_low (i32 x) 32), <-(Z.mod_pow2_bits_low x 32) by lia.
  f_equal. unfold i32. rewrite Zminus_mod_idemp_l. f_equal. lia.
Qed.

Lemma ones8_bit n : 0 ≤ n → Z.testbit 0xff n = (n <? 8).
Proof. intros Hn. change 0xff with (Z.ones 8). destruct (Z.ltb_spec n 8);
  [apply Z.ones_spec_low; lia|apply Z.ones_spec_high; lia]. Qed.

Lemma byte_of_bit v j n : 0 ≤ j → 0 ≤ n →
  Z.testbit (byte_of v j) n = (n <? 8) && Z.testbit v (n + 8 * j).
Proof.
  intros Hj Hn. unfold byte_of. rewrite Z.land_spec, Z.shiftr_spec, ones8_bit by lia.
  apply andb_comm.
Qed.

(** The value the register gets: byte [k] replaced by [p]. *)
Definition byte_replaced (v p k : Z) : Z :=
  Z.lor (u32 (Z.land v (u32 (Z.lnot (i32 (Z.shiftl 0xff (8 * k))))))) (u32 (i32 (Z.shiftl p (8 * k)))).

Lemma byte_replaced_byte v p k j : 0 ≤ p < 256 → 0 ≤ k < 4 → 0 ≤ j < 4 →
  byte_of (u32 (byte_replaced v p k)) j = if decide (j = k) then p else byte_of v j.
Proof.
  intros Hp Hk Hj. apply Z.bits_inj'. intros n Hn. rewrite byte_of_bit by lia.
  destruct (Z.ltb_spec n 8) as [Hn8|Hn8]; simpl.
  - unfold byte_replaced. rewrite u32_bit, Z.lor_spec, !u32_bit, Z.land_spec, u32_bit by lia.
    rewrite Z.lnot_spec, !i32_bit, !Z.shiftl_spec by lia.
    destruct (Z.ltb_spec (n + 8 * j) 32); [|lia]. simpl. case_decide as E.
    + subst j. replace (n + 8 * k - 8 * k) with n by lia. rewrite ones8_bit by lia.
      destruct (Z.ltb_spec n 8); [|lia]. by rewrite andb_false_r.
    + rewrite byte_of_bit by lia. destruct (Z.ltb_spec n 8); [|lia]. simpl.
      assert (Z.testbit 0xff (n + 8 * j - 8 * k) = false ∧ Z.testbit p (n + 8 * j - 8 * k) = false)
        as [-> ->]; [|by rewrite andb_true_r, orb_false_r].
      destruct (Z.lt_ge_cases j k); [by rewrite !Z.testbit_neg_r by lia|].
      split; [|apply byte_high; lia]. rewrite ones8_bit by lia. apply Z.ltb_ge. lia.
  - symmetry. case_decide; [apply byte_high; lia|]. rewrite byte_of_bit by lia.
    by destruct (Z.ltb_spec n 8); [lia|].
Qed.

Lemma gic_set_byte_spec base id p s : 0 ≤ id → 0 ≤ p < 256 →
  let a := base + 4 * (id / 4) in
  reads_back (env s) a →
  ∃ v w s', gic_set_byte base id p s = Ok tt s' ∧ v = u32 (env_mmio (env s) (trace s) a) ∧
    ram s' = ram s ∧ sysregs s' = sysregs s ∧
    trace s' = Mmio_write 4 a w :: Mmio_read 4 a (u32 (Z.land v (u32 (Z.lnot (i32 (Z.shiftl 0xff (8 * (id mod 4)))))))) ::
      Mmio_write 4 a (u32 (Z.land v (u32 (Z.lnot (i32 (Z.shiftl 0xff (8 * (id mod 4)))))))) ::
      Mmio_read 4 a v :: trace s ∧
    ∀ j, 0 ≤ j < 4 → byte_of w j = if decide (j = id mod 4) then p else byte_of v j.
Proof.
  intros Hid Hp a Hrb. pose proof (Z.mod_pos_bound id 4).
  exists (u32 (env_mmio (env s) (trace s) a)), (u32 (byte_replaced (u32 (env_mmio (env s) (trace s) a)) p (id mod 4))).
  eexists. split; [|split; [done|]].
  - unfold gic_set_byte. rewrite Z.rem_mod_nonneg, Z.quot_div_nonneg, u8_small by lia.
    assert (∀ v s0, shl32 v (8 * (id mod 4)) s0 = @Ok machine Z (i32 (Z.shiftl v (8 * (id mod 4)))) s0) as Hshl.
    { intros v s0. apply wp_eq, wp_shl32; [lia|done]. }
    rewrite (bind_ok _ _ _ _ _ (Hshl p s)), (bind_ok _ _ _ _ _ (Hshl 0xff s)). reflexivity.
  - cbn [ram sysregs trace env emit_event]. fold a. rewrite Hrb.
    pose proof (u32_range (Z.land (u32 (env_mmio (env s) (trace s) a))
      (u32 (Z.lnot (i32 (Z.shiftl 0xff (8 * (id mod 4)))))))).
    rewrite (u32_small (u32 _)) by done. split; [done|]. split; [done|]. split; [done|].
    intros j Hj. apply byte_replaced_byte; lia.
Qed.

(** * Properties *)

(** The table of handlers is a map: after [gic_redistributor_set_handler] the handler and
    the parameter of the interrupt are the ones given and those of every other interrupt are
    unchanged; a negative id is ignored. *)
Theorem gic_handlers_map t intid handler arg j :
  gic_ok t → intid < MAX_INTS → 0 ≤ j < MAX_INTS →
  ∃ t', gic_redistributor_set_handler intid handler arg t = Ok tt t' ∧ gic_ok t' ∧
    gic_redistributor_get_handler j t' =
      (if decide (j = intid) then Ok handler t' else
       match gic_redistributor_get_handler j t with Ok h _ => Ok h t' | _ => Fault OutOfFuel end) ∧
    gic_redistributor_get_handler_param j t' =
      (if decide (j = intid) then Ok arg t' else
       match gic_redistributor_get_handler_param j t with Ok h _ => Ok h t' | _ => Fault OutOfFuel end).
Proof.
  intros [Hh Hp] Hid Hj. unfold MAX_INTS in *.
  unfold gic_redistributor_set_handler, gic_redistributor_get_handler, gic_redistributor_get_handler_param.
  change MAX_INTS with 1024. destruct (Z.ltb_spec j 0), (Z.ltb_spec 1024 j); try lia. cbn [orb].
  assert (∀ l, length l = Z.to_nat 1024 → ∃ v, array_get l j = Some v) as Hget.
  { intros l Hl. unfold array_get. destruct (Z.leb_spec 0 j); [|lia]. apply lookup_lt_is_Some. lia. }
  destruct (Hget _ Hh) as [hj Hhj], (Hget _ Hp) as [pj Hpj].
  destruct (Z.ltb_spec intid 0), (Z.ltb_spec 1024 intid); try lia; cbn [orb].
  - exists t. split; [done|]. split; [done|]. rewrite !decide_False by lia.
    unfold get, bind. by rewrite Hhj, Hpj.
  - pose proof (array_set_in (handlers t) intid handler ltac:(lia)) as Eh.
    pose proof (array_set_in (handler_params t) intid arg ltac:(lia)) as Ep.
    unfold get, bind, put. rewrite Eh, Ep. eexists. split; [done|].
    split; [split; simpl; by rewrite length_insert|]. cbn [handlers handler_params].
    rewrite (array_set_get _ intid j _ _ Eh), (array_set_get _ intid j _ _ Ep) by lia.
    rewrite Hhj, Hpj. by case_decide.
Qed.

(** The range check of the handler functions is off by one: interrupt 1024 passes it and
    the access is outside the arrays. *)
Theorem gic_handlers_off_by_one t handler arg :
  gic_ok t →
  gic_redistributor_set_handler MAX_INTS handler arg t = Fault (BadAddress MAX_INTS) ∧
  gic_redistributor_get_handler MAX_INTS t = Fault (BadAddress MAX_INTS) ∧
  ∀ intid, MAX_INTS < intid → gic_redistributor_set_handler intid handler arg t = Ok tt t.
Proof.
  intros [Hh Hp].
  assert (array_set (handlers t) MAX_INTS handler = None) as Es.
  { unfold array_set. rewrite Hh. reflexivity. }
  assert (array_get (handlers t) MAX_INTS = None) as Eg.
  { unfold array_get. apply lookup_ge_None. rewrite Hh. simpl. lia. }
  split; [|split].
  - unfold gic_redistributor_set_handler, get, bind. simpl. by rewrite Es.
  - unfold gic_redistributor_get_handler, get, bind. simpl. by rewrite Eg.
  - intros intid Hid. unfold gic_redistributor_set_handler.
    destruct (Z.ltb_spec MAX_INTS intid); [|lia]. by rewrite orb_true_r.
Qed.

(** Setting the priority of an interrupt rewrites only its byte of the priority register:
    if the register reads back what is written, the last value written has the priority in
    that byte and the old value in the other three. *)
Theorem gic_priority_byte id p s :
  0 ≤ id → 0 ≤ p < 256 →
  let a := GIC_DIST + 0x400 + 4 * (id / 4) in
  reads_back (env s) a →
  ∃ w s', gic_distributor_set_priority id p s = Ok tt s' ∧
    head (trace s') = Some (Mmio_write 4 a w) ∧ ram s' = ram s ∧
    ∀ j, 0 ≤ j < 4 → byte_of w j =
      if decide (j = id mod 4) then p else byte_of (u32 (env_mmio (env s) (trace s) a)) j.
Proof.
  intros Hid Hp a Hrb. destruct (gic_set_byte_spec (GIC_DIST + 0x400) id p s Hid Hp Hrb)
    as (v & w & s' & Hrun & -> & Hram & _ & Htr & Hw).
  exists w, s'. split; [exact Hrun|]. split; [by rewrite Htr|]. split; [exact Hram|exact Hw].
Qed.

(** ** Witnesses *)

Definition demo_gic : gic_table := mk_gic_table (replicate 1024 0) (replicate 1024 0).

Lemma gic_handlers_map_witness :
  ∃ t', gic_redistributor_set_handler 30 0x40001000 7 demo_gic = Ok tt t' ∧
    gic_redistributor_get_handler 30 t' = Ok 0x40001000 t'.
Proof.
  destruct (gic_handlers_map demo_gic 30 0x40001000 7 30) as (t' & H & _ & Hg & _).
  - split; reflexivity.
  - unfold MAX_INTS. lia.
  - unfold MAX_INTS. lia.
  - exists t'. split; [exact H|exact Hg].
Defined.

Lemma gic_handlers_off_by_one_witness :
  gic_redistributor_set_handler 1024 1 0 demo_gic = Fault (BadAddress 1024).
Proof. apply (gic_handlers_off_by_one demo_gic 1 0). split; reflexivity. Defined.

Definition demo_device : environment :=
  mk_environment (λ t a, match t with Mmio_write _ b v :: _ => if a =? b then v else 0 | _ => 0x11223344 end)
    (λ _ _, 0).

Lemma gic_priority_byte_witness :
  ∃ w s', gic_distributor_set_priority 79 0xa0 (mk_machine ∅ (λ _, 0) [] demo_device) = Ok tt s' ∧
    head (trace s') = Some (Mmio_write 4 0x0800044c w) ∧ w = 0xa0223344.
Proof.
  destruct (gic_priority_byte 79 0xa0 (mk_machine ∅ (λ _, 0) [] demo_device)) as (w & s' & H & Ht & _).
  - lia.
  - lia.
  - intros t v. cbn [env demo_device env_mmio]. by rewrite Z.eqb_refl.
  - exists w, s'. split; [exact H|]. split; [exact Ht|]. vm_compute in H. injection H as <-.
    vm_compute in Ht. by injection Ht as <-.
Defined.
