(* ===== verification/Kernel.v ===== *)
(** * Kernel services (kernel/sysutils.c, kernel/start.c: setup_heap)

    The state most of the kernel works on: the machine, the kernel heap ([main_heap], a static
    of sysutils.c) and the interrupt handlers (the arrays of gic.c).  [kalloc] and [kfree] are
    the heap operations on it. *)
From stdpp Require Import base list gmap.
From Stdlib Require Import ZArith Lia.
From S2P Require Import Prelude Memory CString Heap Machine Log Gic.

Record kernel : Type := mk_kernel {
  mach : machine;
  main_heap : heap;
  interrupts : gic_table;
}.

Definition set_mach (s : machine) (k : kernel) : kernel := mk_kernel s (main_heap k) (interrupts k).
Definition set_main_heap (h : heap) (k : kernel) : kernel := mk_kernel (mach k) h (interrupts k).
Definition set_interrupts (t : gic_table) (k : kernel) : kernel := mk_kernel (mach k) (main_heap k) t.

(** The memory of the kernel. *)
Definition kram (k : kernel) : mem := ram (mach k).
Definition set_kram (m : mem) (k : kernel) : kernel := set_mach (set_ram m (mach k)) k.

Definition on_machine {A} (m : M machine A) : M kernel A := zoom mach set_mach m.
Definition on_gic {A} (m : M gic_table A) : M kernel A := zoom interrupts set_interrupts m.
Definition in_ram {A} (m : M mem A) : M kernel A := on_machine (on_ram m).

(** [char buf[n];] in a function that also uses the heap. *)
Definition frame_array {A} (n : Z) (f : Z → M kernel A) : M kernel A := λ k,
  let p := fresh_address (kram k) in
  match f p (set_kram (put_cells p (replicate (Z.to_nat n) None) (kram k)) k) with
  | Ok a k' => Ok a (set_kram (drop_cells p (Z.to_nat n) (kram k')) k')
  | Hang k' => Hang k'
  | Fault e => Fault e
  end.

(** ** Interrupt masks *)

Definition DAIF_IRQ_MASK : Z := 7.
Definition DAIF_FRQ_MASK : Z := 6.

Definition sysutils_daif_set (bit : Z) : M machine unit :=
  let* bit_set := shl32 1 bit in
  let* x0 := mrs DAIF in
  msr DAIF (Z.lor x0 (u64 bit_set)).

Definition sysutils_daif_clear (bit : Z) : M machine unit :=
  let* b := shl32 1 bit in
  let bit_clear := u64 (Z.lnot b) in
  let* x0 := mrs DAIF in
  msr DAIF (Z.land x0 bit_clear).

Definition sysutils_mask_irq (mask : bool) : M machine unit :=
  if mask then sysutils_daif_set DAIF_IRQ_MASK else sysutils_daif_clear DAIF_IRQ_MASK.

Definition sysutils_mask_fiq (mask : bool) : M machine unit :=
  if mask then sysutils_daif_set DAIF_FRQ_MASK else sysutils_daif_clear DAIF_FRQ_MASK.

Definition sysutils_set_vbar (base_address : Z) : M machine unit := msr VBAR_EL1 base_address.

(** ** The heap *)

Definition sysutils_kernel_heap_create (table_address heap_address heap_blocks_size : Z) : M kernel unit :=
  let* h := in_ram (heap_createtable heap_address table_address heap_blocks_size) in
  modify (set_main_heap h).

Definition sysutils_kernel_heap_alloc (size : Z) : M kernel Z :=
  let* k := get in
  let* (ptr, h) := in_ram (heap_alloc (main_heap k) size) in
  modify (set_main_heap h) ;;
  ret ptr.

Definition sysutils_kernel_heap_free (ptr : Z) : M kernel unit :=
  let* k := get in
  let* h := in_ram (heap_free (main_heap k) ptr) in
  modify (set_main_heap h).

Definition kalloc (size : Z) : M kernel Z := sysutils_kernel_heap_alloc (u64 size).

Definition kzalloc (size : Z) : M kernel Z :=
  let* res := sysutils_kernel_heap_alloc (u64 size) in
  in_ram (memset res 0 (u64 size)) ;;
  ret res.

Definition kfree (ptr : Z) : M kernel unit := sysutils_kernel_heap_free ptr.

Definition sysutils_kernel_heap_get_free_count : M kernel Z :=
  gets (λ k, heap_get_free_blocks (main_heap k)).
Definition sysutils_kernel_heap_get_total_count : M kernel Z := gets (λ k, blocks (main_heap k)).

Definition sysutils_log_free_heap : M kernel unit :=
  let* free := sysutils_kernel_heap_get_free_count in
  let* total := sysutils_kernel_heap_get_total_count in
  on_machine (klogf_lit (chars "Free blocks: %q/%q") [free; total]).

(** [setup_heap] of start.c; [HEAP_START] is a symbol of the linker script. *)
Definition setup_heap (HEAP_START : Z) : M kernel unit :=
  let heap_size_blocks := 0x10000 in
  let table_address := HEAP_START in
  let heap_address := u64 (table_address + heap_table_size heap_size_blocks) in
  sysutils_kernel_heap_create table_address heap_address heap_size_blocks.

(** * Lemmas *)

Lemma in_ram_ok {A} (m : M mem A) k a t : m (kram k) = Ok a t → in_ram m k = Ok a (set_kram t k).
Proof. unfold kram. intros H. unfold in_ram, on_machine, on_ram, zoom. by rewrite H. Qed.

Lemma wp_in_ram {A} (m : M mem A) k (Q : A → kernel → Prop) :
  wp m (kram k) (λ a t, Q a (set_kram t k)) → wp (in_ram m) k Q.
Proof. intros H. apply wp_zoom, wp_zoom. exact H. Qed.

Lemma on_machine_ok {A} (m : M machine A) k a s :
  m (mach k) = Ok a s → on_machine m k = Ok a (set_mach s k).
Proof. intros H. unfold on_machine, zoom. by rewrite H. Qed.

Lemma set_kram_id k : set_kram (kram k) k = k.
Proof. by destruct k as [[] ? ?]. Qed.

(** An access that only reads. *)
Lemma wp_in_ram_read {A} (m : M mem A) k a (Q : A → kernel → Prop) :
  m (kram k) = Ok a (kram k) → Q a k → wp (in_ram m) k Q.
Proof. intros H HQ. apply wp_in_ram, (wp_intro _ _ _ _ _ H). by rewrite set_kram_id. Qed.

Lemma wp_in_ram_word n p v k (Q : Z → kernel → Prop) :
  word_at n (kram k) p v → 0 ≤ v < 256 ^ Z.of_nat n → Q v k → wp (in_ram (load_le n p)) k Q.
Proof. intros Hw Hv. by apply wp_in_ram_read, load_word_ok. Qed.

Lemma wp_in_ram_store n p v k (Q : unit → kernel → Prop) : mapped (kram k) p (Z.of_nat n) →
  Q tt (set_kram (put_bytes p (le_bytes n v) (kram k)) k) → wp (in_ram (store_le n p v)) k Q.
Proof. intros Hm HQ. apply wp_in_ram, (wp_intro _ _ _ _ _ (store_le_ok _ _ _ _ Hm)). exact HQ. Qed.

(** The function's array is fresh, and the caller gets its memory without it. *)
Lemma wp_frame_array {A} n (f : Z → M kernel A) k (Q : A → kernel → Prop) :
  (∀ p, p = fresh_address (kram k) → (∀ a, p - LOCAL_GAP < a → kram k !! a = None) →
    wp (f p) (set_kram (put_cells p (replicate (Z.to_nat n) None) (kram k)) k)
      (λ a k', Q a (set_kram (drop_cells p (Z.to_nat n) (kram k')) k'))) →
  wp (frame_array n f) k Q.
Proof.
  intros H. specialize (H (fresh_address (kram k)) eq_refl (fresh_address_spec (kram k))).
  unfold wp, frame_array in *. by destruct (f _ _).
Qed.

(** The heap of the kernel represents the segments [segs]. *)
Definition kheap (k : kernel) (segs : list seg) : Prop := heap_rep (main_heap k) (kram k) segs.

(** Everything but the heap's own state and table is as before. *)
Definition heap_frame (k k' : kernel) : Prop :=
  (∀ a, ¬ (heap_tbl (main_heap k) ≤ a < heap_tbl (main_heap k) + blocks (main_heap k)) →
    kram k' !! a = kram k !! a) ∧
  (∀ a, is_Some (kram k !! a) → is_Some (kram k' !! a)) ∧
  sysregs (mach k') = sysregs (mach k) ∧ trace (mach k') = trace (mach k) ∧
  env (mach k') = env (mach k) ∧ interrupts k' = interrupts k ∧
  heap_tbl (main_heap k') = heap_tbl (main_heap k) ∧ blocks (main_heap k') = blocks (main_heap k).

Lemma heap_frame_refl k : heap_frame k k.
Proof. unfold heap_frame. by split_and!. Qed.

Lemma heap_frame_trans k1 k2 k3 : heap_frame k1 k2 → heap_frame k2 k3 → heap_frame k1 k3.
Proof.
  intros (Ho1 & Hm1 & Hs1 & Ht1 & He1 & Hi1 & Htb1 & Hb1) (Ho2 & Hm2 & Hs2 & Ht2 & He2 & Hi2 & Htb2 & Hb2).
  unfold heap_frame. split_and!; try congruence.
  - intros a Ha. rewrite Ho2, Ho1; [done|done|by rewrite Htb1, Hb1].
  - auto.
Qed.

Lemma put_table_frame k h' i bs segs : kheap k segs →
  (i + length bs ≤ length (table segs))%nat →
  heap_tbl h' = heap_tbl (main_heap k) → blocks h' = blocks (main_heap k) →
  heap_frame k (set_main_heap h' (set_kram (put_bytes (heap_tbl (main_heap k) + Z.of_nat i) bs (kram k)) k)).
Proof.
  intros Hk Hin Ht Hb. unfold heap_frame, kram. cbn. split; [|split; [|done]].
  - intros a Ha. rewrite (rep_blocks _ _ _ Hk) in Ha. apply put_bytes_outside. lia.
  - intros a [c Hc]. rewrite put_bytes_lookup. case_decide; [|by eexists].
    rewrite fmap_is_Some. apply lookup_lt_is_Some. lia.
Qed.

Lemma kalloc_spec k segs size : kheap k segs → 0 < size < 2 ^ 64 →
  match alloc_segs (Z.to_nat (alloc_blocks_of size)) segs with
  | None => kalloc size k = Ok 0 k
  | Some (i, segs') => ∃ k', kalloc size k = Ok (heap_start_address (main_heap k) + 4096 * Z.of_nat i) k' ∧
      kheap k' segs' ∧ heap_frame k k' ∧ heap_start_address (main_heap k') = heap_start_address (main_heap k)
  end.
Proof.
  intros Hk Hs. pose proof (heap_alloc_rep (main_heap k) (kram k) segs size Hk ltac:(lia)) as H.
  unfold kalloc, sysutils_kernel_heap_alloc. rewrite u64_small by lia.
  destruct (alloc_segs _ segs) as [[i segs']|].
  - destruct H as (h' & bs & Ha & Hlen & Hin & Hrep & Ht & Hst & Hb). eexists. split; [|split; [|split]].
    + unfold get, bind at 1. rewrite (bind_ok _ _ _ _ _ (in_ram_ok _ _ _ _ Ha)). reflexivity.
    + exact Hrep.
    + by eapply put_table_frame.
    + done.
  - unfold get, bind at 1. rewrite (bind_ok _ _ _ _ _ (in_ram_ok _ _ _ _ H)).
    unfold modify, ret, bind. by destruct k as [[] ? ?].
Qed.

Lemma kfree_spec k pre n post : kheap k (pre ++ Used n :: post) →
  ∃ k', kfree (heap_start_address (main_heap k) + 4096 * Z.of_nat (length (table pre))) k = Ok tt k' ∧
    kheap k' (pre ++ replicate n Free ++ post) ∧ heap_frame k k' ∧
    heap_start_address (main_heap k') = heap_start_address (main_heap k).
Proof.
  intros Hk. destruct (heap_free_rep _ _ pre n post Hk) as (h' & Hf & Hrep & Ht & Hst & Hb).
  eexists. split; [|split; [|split]].
  - unfold kfree, sysutils_kernel_heap_free, get, bind at 1.
    rewrite (bind_ok _ _ _ _ _ (in_ram_ok _ _ _ _ Hf)). reflexivity.
  - exact Hrep.
  - eapply put_table_frame; [exact Hk| |done|done].
    rewrite length_replicate, table_app, table_cons, !length_app, length_render. simpl. lia.
  - done.
Qed.

(** The heap does not look outside its table. *)
Lemma kheap_stable k k' segs : kheap k segs → main_heap k' = main_heap k →
  (∀ a, heap_tbl (main_heap k) ≤ a < heap_tbl (main_heap k) + blocks (main_heap k) + 1 →
    kram k' !! a = kram k !! a) → kheap k' segs.
Proof.
  intros [[g Hb] Hok Hn Hf Hbd] Hh Hag. split; rewrite ?Hh; try done.
  exists g. eapply bytes_at_agree; [exact Hb|]. intros a Ha. apply Hag.
  rewrite length_app in Ha. simpl in Ha. lia.
Qed.

(** ** The heap as a service

    What the clients of [kalloc] and [kfree] rely on, stated on the set of pointers that were
    allocated and not freed.  [HeapService] is the interface; the heap implements it. *)

Class HeapService (live : kernel → gset Z → Prop) : Prop := {
  service_alloc k L size : live k L → 0 < size < 2 ^ 64 →
    ∃ p k', kalloc size k = Ok p k' ∧ heap_frame k k' ∧
      ((p = 0 ∧ live k' L) ∨ (0 < p ∧ (p ∉ L) ∧ live k' ({[p]} ∪ L)));
  service_free k L p : live k L → p ∈ L →
    ∃ k', kfree p k = Ok tt k' ∧ live k' (L ∖ {[p]}) ∧ heap_frame k k';
  service_null k L : live k L → 0 ∉ L;
  (* the service does not look outside its table *)
  service_stable k k' L : live k L → main_heap k' = main_heap k →
    (∀ a, heap_tbl (main_heap k) ≤ a < heap_tbl (main_heap k) + blocks (main_heap k) + 1 →
      kram k' !! a = kram k !! a) → live k' L;
}.

Lemma region_split i segs j l : (j, l) ∈ regions_from i segs →
  ∃ pre post, segs = pre ++ Used l :: post ∧ j = (i + length (table pre))%nat.
Proof.
  revert i. induction segs as [|[|n] segs IH]; intros i; cbn [regions_from].
  - by intros ?%not_elem_of_nil.
  - intros H%IH. destruct H as (pre & post & -> & ->). exists (Free :: pre), post.
    split; [done|]. rewrite table_cons. simpl. lia.
  - intros [[= -> ->]|H%IH]%elem_of_cons.
    + exists [], segs. split; [done|]. simpl. lia.
    + destruct H as (pre & post & -> & ->). exists (Used n :: pre), post. split; [done|].
      rewrite table_cons, length_app, length_render. simpl. lia.
Qed.

Lemma region_length i segs j l : Forall seg_ok segs → (j, l) ∈ regions_from i segs → (0 < l)%nat.
Proof.
  intros Hok H. apply region_split in H as (pre & post & -> & _).
  apply Forall_app in Hok as [_ Hok]. by apply Forall_cons in Hok as [Hok _].
Qed.

Lemma region_nonempty k segs j l : kheap k segs → (j, l) ∈ regions segs → (0 < l)%nat.
Proof. intros Hk. apply region_length, Hk. Qed.

Lemma region_freed pre n post j l : (j, l) ∈ regions (pre ++ Used n :: post) →
  j ≠ length (table pre) → (j, l) ∈ regions (pre ++ replicate n Free ++ post).
Proof.
  unfold regions. rewrite !regions_from_app. cbn [regions_from].
  rewrite regions_from_free, table_replicate_free, length_replicate, app_nil_l.
  rewrite !elem_of_app, elem_of_cons. intros [H|[[= -> _]|H]] Hne; [by left|lia|by right].
Qed.

(** Freeing a region leaves the others, and not that one. *)
Lemma region_kept pre n post j l : (j, l) ∈ regions (pre ++ replicate n Free ++ post) → Forall seg_ok (pre ++ Used n :: post) →
  (j, l) ∈ regions (pre ++ Used n :: post) ∧ j ≠ length (table pre).
Proof.
  unfold regions. rewrite !regions_from_app. cbn [regions_from].
  rewrite regions_from_free, table_replicate_free, length_replicate, app_nil_l, !elem_of_app, elem_of_cons.
  intros H Hok. apply Forall_app in Hok as [Hpre [Hn _]%Forall_cons]. split; [tauto|].
  destruct H as [H|H]; apply regions_from_bounds in H as Hb.
  - apply region_length in H; [lia|done].
  - unfold seg_ok in Hn. simpl in Hn. lia.
Qed.

(** The first blocks of the used regions, as addresses; block 0 is not at address 0. *)
Definition heap_live (k : kernel) (L : gset Z) : Prop :=
  0 < heap_start_address (main_heap k) ∧
  ∃ segs, kheap k segs ∧ ∀ p, p ∈ L ↔ ∃ i l, (i, l) ∈ regions segs ∧
    p = heap_start_address (main_heap k) + 4096 * Z.of_nat i.

#[export] Instance heap_live_service : HeapService heap_live.
Proof.
  split.
  - intros k L size [Hst (segs & Hk & HL)] Hs. pose proof (kalloc_spec k segs size Hk Hs) as H.
    destruct (alloc_segs _ segs) as [[i segs']|] eqn:Hal.
    + destruct H as (k' & Ha & Hk' & Hfr & Hst'). exists (heap_start_address (main_heap k) + 4096 * Z.of_nat i), k'.
      split; [exact Ha|]. split; [exact Hfr|]. right. apply alloc_segs_regions in Hal as [Hperm Hdis].
      split; [lia|]. split.
      * intros Hp. apply HL in Hp as (j & l & Hj & E). assert (j = i) as -> by lia.
        assert (0 < l)%nat by exact (region_nonempty k segs _ l Hk Hj).
        destruct (Hdis _ _ Hj); [|lia]. pose proof (alloc_blocks_of_pos _ (proj1 Hs)). lia.
      * split; [by rewrite Hst'|]. exists segs'. split; [exact Hk'|]. rewrite Hst'.
        intros p. rewrite elem_of_union, elem_of_singleton, HL. split.
        -- intros [->|(j & l & Hj & ->)]; do 2 eexists; (split; [|done]); rewrite Hperm; [by left|by right].
        -- intros (j & l & Hj & ->). rewrite Hperm in Hj. apply elem_of_cons in Hj as [[= -> ->]|Hj]; [by left|].
           right. by exists j, l.
    + exists 0, k. split; [exact H|]. split; [apply heap_frame_refl|]. left. split; [done|]. split; [done|]. by exists segs.
  - intros k L p [Hst (segs & Hk & HL)] Hp. pose proof Hp as (i & l & Hi & ->)%HL.
    destruct (region_split 0 segs i l Hi) as (pre & post & -> & Hpre). simpl in Hpre. subst i.
    destruct (kfree_spec k pre l post Hk) as (k' & Hf & Hk' & Hfr & Hst').
    exists k'. split; [exact Hf|]. split; [|exact Hfr]. split; [by rewrite Hst'|].
    exists (pre ++ replicate l Free ++ post). split; [exact Hk'|]. rewrite Hst'.
    intros q. rewrite elem_of_difference, elem_of_singleton, HL. split.
    + intros [(j & k0 & Hj & ->) Hne]. exists j, k0. split; [|done]. apply (region_freed pre l); [done|]. by intros ->.
    + intros (j & k0 & Hj & ->). apply (region_kept _ l) in Hj as [Hj Hne]; [|apply Hk]. split; [by exists j, k0|lia].
  - intros k L [Hst (segs & Hk & HL)] (i & l & _ & E)%HL. lia.
  - intros k k' L [Hst (segs & Hk & HL)] Hh Hag. split; [by rewrite Hh|]. exists segs.
    rewrite Hh. split; [|done]. by apply (kheap_stable k).
Qed.

(** ** The heap after boot *)

Lemma alloc_segs_fresh k n : (k ≤ n)%nat →
  alloc_segs k (replicate n Free) = Some (0%nat, Used k :: replicate (n - k) Free).
Proof.
  intros H. assert (take k (replicate n Free) = replicate k Free) as E by (rewrite take_replicate; f_equal; lia).
  assert (∀ l, take k l = replicate k Free → alloc_segs k l = Some (0%nat, Used k :: drop k l)) as Hl.
  { intros [|s l] Hl; cbn [alloc_segs]; by rewrite bool_decide_eq_true_2. }
  by rewrite Hl, drop_replicate.
Qed.

Lemma alloc_segs_behind k j n : (0 < k ≤ n)%nat →
  alloc_segs k (Used j :: replicate n Free) = Some (j, Used j :: Used k :: replicate (n - k) Free).
Proof.
  intros H. cbn [alloc_segs]. rewrite bool_decide_eq_false_2.
  - rewrite alloc_segs_fresh by lia. cbn. by rewrite Nat.add_0_r.
  - destruct k as [|k]; [lia|]. done.
Qed.

(** [setup_heap] on a zeroed table: every block is free. *)
Lemma setup_heap_spec HEAP_START k : 0 ≤ HEAP_START < 2 ^ 63 →
  bytes_at (kram k) HEAP_START (replicate (S (Z.to_nat 0x10000)) 0) →
  ∃ k', setup_heap HEAP_START k = Ok tt k' ∧ kheap k' (replicate (Z.to_nat 0x10000) Free) ∧
    main_heap k' = mk_heap (HEAP_START + 0x80000) HEAP_START 0x10000 0x10000.
Proof.
  intros HH Hb. unfold setup_heap, sysutils_kernel_heap_create.
  assert (kram k !! HEAP_START = Some (Some 0)) as H0.
  { rewrite <-(Z.add_0_r HEAP_START). by apply (bytes_at_lookup _ _ _ 0%nat _ Hb). }
  change (heap_table_size 0x10000) with 0x80000.
  rewrite u64_small by lia.
  assert (heap_createtable (HEAP_START + 0x80000) HEAP_START 0x10000 (kram k) =
    Ok (mk_heap (HEAP_START + 0x80000) HEAP_START 0x10000 0x10000) (kram k)) as Hc.
  { rewrite heap_createtable_spec; [|unfold INT_MAX; lia|by eexists]. by rewrite insert_id. }
  rewrite (bind_ok _ _ _ _ _ (in_ram_ok _ _ _ _ Hc)). rewrite set_kram_id. eexists. split; [reflexivity|].
  split; [|done]. split; cbn.
  - exists 0. rewrite table_replicate_free. change [0] with (replicate 1 0).
    rewrite <-replicate_add, Nat.add_1_r. exact Hb.
  - apply Forall_replicate. unfold seg_ok. cbn. lia.
  - rewrite table_replicate_free, length_replicate, Z2Nat.id; lia.
  - rewrite count_segs_free_replicate, Z2Nat.id; lia.
  - lia.
Qed.

Lemma alloc_blocks_of_whole a : alloc_blocks_of (4096 * a) = a.
Proof.
  unfold alloc_blocks_of, HEAP_BLOCK_SIZE_BYTES. rewrite Z.mul_comm, Z.div_mul, Z.mod_mul by lia. simpl. lia.
Qed.

(** C27: The heap that [setup_heap] creates reaches 256 MB behind its table: of two requests right
    after boot, of [a] and [b] blocks, the second gets the blocks behind the first, wherever that
    is.  With the [HEAP_START] of linker.ld and 0xfe80 blocks in use, a request for one block gets
    0x50000000, where linker.ld puts the code of the kernel (the witness). *)
Theorem setup_heap_second_request HEAP_START a b k :
  0 ≤ HEAP_START < 2 ^ 63 → bytes_at (kram k) HEAP_START (replicate (S (Z.to_nat 0x10000)) 0) →
  0 < a → 0 < b → a + b ≤ 0x10000 →
  ∃ k', (setup_heap HEAP_START ;; kalloc (4096 * a) ;; kalloc (4096 * b)) k =
    Ok (HEAP_START + 0x80000 + 4096 * a) k'.
Proof.
  intros HH Hb Ha Hbp Hab. destruct (setup_heap_spec HEAP_START k HH Hb) as (k1 & E1 & Hk1 & Hh1).
  rewrite (bind_ok _ _ _ _ _ E1). pose proof (kalloc_spec k1 _ (4096 * a) Hk1 ltac:(lia)) as H1.
  rewrite alloc_blocks_of_whole, alloc_segs_fresh in H1 by lia. destruct H1 as (k2 & E2 & Hk2 & _ & Hst).
  rewrite (bind_ok _ _ _ _ _ E2). pose proof (kalloc_spec k2 _ (4096 * b) Hk2 ltac:(lia)) as H2.
  rewrite alloc_blocks_of_whole, alloc_segs_behind in H2 by lia. destruct H2 as (k3 & E3 & _).
  exists k3. rewrite E3, Hst, Hh1, Z2Nat.id by lia. done.
Qed.

Definition boot_kernel : kernel :=
  mk_kernel (mk_machine (put_bytes 0x40100000 (replicate (S (Z.to_nat 0x10000)) 0) ∅) (λ _, 0) []
    (mk_environment (λ _ _, 0) (λ _ _, 0))) (mk_heap 0 0 0 0) (mk_gic_table [] []).

Lemma setup_heap_second_request_witness : ∃ k',
  (setup_heap 0x40100000 ;; kalloc (4096 * 0xfe80) ;; kalloc (4096 * 1)) boot_kernel = Ok 0x50000000 k'.
Proof.
  apply (setup_heap_second_request 0x40100000 0xfe80 1 boot_kernel); try lia. apply bytes_at_put.
Defined.
