(* ===== verification/HeapRegions.v ===== *)
(** * The regions of the kernel heap (kernel/sysutils.c)

    What [kalloc] and [kfree] promise about memory: every pointer that was handed out and not freed
    has a region of the size that was asked for, inside the heap, apart from the others and from
    the table.  [HeapRegions] is the interface; the heap implements it. *)
From stdpp Require Import base list gmap.
From Stdlib Require Import ZArith Lia.
From S2P Require Import Prelude Memory CString Heap Machine Log Gic Kernel.

(** The blocks of the heap and its table. *)
Definition heap_area (k : kernel) (a : Z) : Prop :=
  heap_start_address (main_heap k) ≤ a < heap_start_address (main_heap k) + 4096 * blocks (main_heap k).
Definition heap_table_area (k : kernel) (a : Z) : Prop :=
  heap_tbl (main_heap k) ≤ a < heap_tbl (main_heap k) + blocks (main_heap k) + 1.

Class HeapRegions (service : kernel → gset Z → Prop) (live : kernel → gmap Z Z → Prop) : Prop := {
  regions_alloc k R n : live k R → 0 < n < 2 ^ 64 →
    ∃ p k', kalloc n k = Ok p k' ∧ heap_frame k k' ∧
      heap_start_address (main_heap k') = heap_start_address (main_heap k) ∧
      ((p = 0 ∧ live k' R) ∨ (0 < p ∧ R !! p = None ∧ live k' (<[p := n]> R)));
  regions_stable k k' R : live k R → main_heap k' = main_heap k →
    (∀ a, heap_table_area k a → kram k' !! a = kram k !! a) → (∀ a, is_Some (kram k !! a) → is_Some (kram k' !! a)) → live k' R;
  regions_inside k R p n a : live k R → R !! p = Some n → p ≤ a < p + n →
    heap_area k a ∧ ¬ heap_table_area k a ∧ is_Some (kram k !! a);
  regions_area k R a : live k R → heap_area k a → is_Some (kram k !! a) ∧ ¬ heap_table_area k a;
  regions_table k R a : live k R → heap_table_area k a → is_Some (kram k !! a);
  regions_apart k R p n q l a : live k R → R !! p = Some n → R !! q = Some l → p ≠ q →
    p ≤ a < p + n → ¬ (q ≤ a < q + l);
  regions_service k R : live k R → service k (dom R);
  regions_heap :: HeapService service;
}.

(** ** The heap implements it *)

Definition heap_regions (k : kernel) (R : gmap Z Z) : Prop :=
  0 < heap_start_address (main_heap k) ∧
  (∀ a, heap_area k a → is_Some (kram k !! a) ∧ ¬ heap_table_area k a) ∧
  ∃ segs, kheap k segs ∧
    (∀ p n, R !! p = Some n → ∃ i l, (i, l) ∈ regions segs ∧
      p = heap_start_address (main_heap k) + 4096 * Z.of_nat i ∧ n ≤ 4096 * Z.of_nat l) ∧
    ∀ i l, (i, l) ∈ regions segs → is_Some (R !! (heap_start_address (main_heap k) + 4096 * Z.of_nat i)).

Lemma regions_from_apart i segs j l j' l' : (j, l) ∈ regions_from i segs → (j', l') ∈ regions_from i segs →
  j ≠ j' → (j + l ≤ j' ∨ j' + l' ≤ j)%nat.
Proof.
  revert i. induction segs as [|[|n] segs IH]; intros i; cbn [regions_from].
  - by intros ?%not_elem_of_nil.
  - intros H1 H2. exact (IH _ H1 H2).
  - intros [[= -> ->]|H1]%elem_of_cons [[= -> ->]|H2]%elem_of_cons Hne.
    + lia.
    + apply regions_from_bounds in H2. lia.
    + apply regions_from_bounds in H1. lia.
    + exact (IH _ H1 H2 Hne).
Qed.

Lemma alloc_blocks_cover n : 0 < n → n ≤ 4096 * alloc_blocks_of n.
Proof.
  intros Hn. unfold alloc_blocks_of, HEAP_BLOCK_SIZE_BYTES.
  pose proof (Z.div_mod n 4096 ltac:(lia)). pose proof (Z.mod_pos_bound n 4096 ltac:(lia)).
  destruct (Z.eqb_spec (n mod 4096) 0); lia.
Qed.

Lemma region_extent k segs i l : kheap k segs → (i, l) ∈ regions segs → Z.of_nat (i + l) ≤ blocks (main_heap k).
Proof. intros Hk Hi. apply regions_from_bounds in Hi. rewrite (rep_blocks _ _ _ Hk). lia. Qed.

Lemma kheap_table_mapped k segs a : kheap k segs → heap_table_area k a → is_Some (kram k !! a).
Proof.
  intros Hk Ha. destruct (rep_bytes _ _ _ Hk) as [v Hb]. pose proof (rep_blocks _ _ _ Hk) as E.
  apply (bytes_at_mapped _ _ _ Hb). rewrite length_app. unfold heap_table_area in Ha. cbn. lia.
Qed.

#[export] Instance heap_regions_service : HeapRegions heap_live heap_regions.
Proof.
  split; [..|exact heap_live_service].
  - intros k R n (Hst & Harea & segs & Hk & HR & HA) Hn. pose proof (kalloc_spec k segs n Hk Hn) as Hsp.
    destruct (alloc_segs _ segs) as [[i segs']|] eqn:Hal.
    2: { exists 0, k. split; [exact Hsp|]. split; [apply heap_frame_refl|]. split; [done|]. left. split; [done|].
      split; [done|]. split; [done|]. by exists segs. }
    destruct Hsp as (k' & Ha & Hk' & Hfr & Hst').
    exists (heap_start_address (main_heap k) + 4096 * Z.of_nat i), k'. split; [exact Ha|]. split; [exact Hfr|]. split; [exact Hst'|].
    pose proof (alloc_segs_regions _ _ _ _ Hal) as [Hperm Hdis]. pose proof (alloc_blocks_of_pos _ (proj1 Hn)) as Hpos.
    right. split; [lia|]. split.
    + destruct (R !! _) as [n'|] eqn:E; [|done]. destruct (HR _ _ E) as (j & l & Hj & E2 & _).
      assert (j = i) as -> by lia. pose proof (region_nonempty k segs _ l Hk Hj). destruct (Hdis _ _ Hj); lia.
    + split; [by rewrite Hst'|]. split.
      * pose proof Hfr as (Hout & Hdom & _ & _ & _ & _ & Ht & Hb). unfold heap_area, heap_table_area in *. rewrite Hst', Ht, Hb.
        intros a Hin. destruct (Harea a Hin) as [Hs Hnt]. split; [by apply Hdom|exact Hnt].
      * exists segs'. split; [exact Hk'|]. rewrite Hst'. split.
        2: { intros j l Hj. rewrite Hperm in Hj. apply elem_of_cons in Hj as [[= -> ->]|Hj]; apply lookup_insert_is_Some'; [by left|right].
          exact (HA j l Hj). }
        intros p m. rewrite lookup_insert_Some. intros [[<- <-]|[_ Hp]].
        -- exists i, (Z.to_nat (alloc_blocks_of n)). split; [rewrite Hperm; by left|]. split; [done|].
           pose proof (alloc_blocks_cover n). lia.
        -- destruct (HR _ _ Hp) as (j & l & Hj & -> & Hm). exists j, l. split; [rewrite Hperm; by right|done].
  - intros k k' R (Hst & Harea & segs & Hk & HR & HA) Hh Hag Hdom. split; [by rewrite Hh|]. split.
    + unfold heap_area, heap_table_area in *. rewrite Hh. intros a Hin. destruct (Harea a Hin) as [Hs Hnt]. split; [by apply Hdom|exact Hnt].
    + exists segs. rewrite Hh. split; [|done]. by apply (kheap_stable k).
  - intros k R p n a (Hst & Harea & segs & Hk & HR & HA) Hp Ha. destruct (HR _ _ Hp) as (i & l & Hi & -> & Hn).
    pose proof (region_extent k segs i l Hk Hi). assert (heap_area k a) as Hin by (unfold heap_area; lia).
    destruct (Harea a Hin). done.
  - intros k R a (_ & Harea & _). by apply Harea.
  - intros k R a (_ & _ & segs & Hk & _) Ha. apply (kheap_table_mapped k segs a Hk Ha).
  - intros k R p n q m a (Hst & Harea & segs & Hk & HR & HA) Hp Hq Hne Ha.
    destruct (HR _ _ Hp) as (i & l & Hi & -> & Hn). destruct (HR _ _ Hq) as (j & l' & Hj & -> & Hm).
    destruct (regions_from_apart 0 segs i l j l' Hi Hj); [intros ->; done|lia|lia].
  - intros k R (Hst & _ & segs & Hk & HR & HA). split; [done|]. exists segs. split; [done|].
    intros p. split.
    + intros [n Hp]%elem_of_dom. destruct (HR _ _ Hp) as (i & l & Hi & E & _). by exists i, l.
    + intros (i & l & Hi & ->). apply elem_of_dom, (HA i l Hi).
Qed.
