(* ===== verification/Paging.v ===== *)
(** * Page tables (kernel/mm/paging.c, include/paging.h)

    Tables are in memory, 512 descriptors of eight bytes each, allocated in slots of a slab.
    The specification side is the translation table walk of the architecture (VMSAv8-64,
    stage 1, 4 KB granule, 39-bit input addresses): what the MMU computes from the bytes the
    program writes. *)
From stdpp Require Import base list gmap.
From Stdlib Require Import ZArith Lia.
From S2P Require Import Prelude Memory CString Slab Machine.

Definition PAGING_MAX_TABLES : Z := 0x1000.
Definition PAGING_L012_VALID : Z := Z.shiftl 1 0.
Definition PAGING_L012_TABLE : Z := Z.shiftl 1 1.
Definition PAGING_L1_BLOCK_ADDRESS_MASK : Z := u64 (Z.shiftl 0x3ffff 30).
Definition PAGING_L2_BLOCK_ADDRESS_MASK : Z := u64 (Z.shiftl 0x7ffffff 21).
Definition PAGING_L012_TABLE_ADDRESS_MASK : Z := u64 (Z.shiftl 0xfffffffff 12).
Definition PAGING_L3_VALID : Z := Z.shiftl 3 0.
Definition PAGING_L3_ADDRESS_MASK : Z := u64 (Z.shiftl 0xfffffffff 12).
Definition PAGING_AP2 : Z := Z.shiftl 1 7.
Definition PAGING_AP1 : Z := Z.shiftl 1 6.
Definition PAGING_AF : Z := Z.shiftl 1 10.
Definition PAGING_ENTRIES_PER_TABLE : Z := 512.
(** [sizeof(union page_table_store)] *)
Definition sizeof_page_table_store : Z := 4096.

Record paging_manager : Type := mk_paging_manager {
  l1 : Z;
  pages_allocator : slab;
}.

(** ** Descriptors *)

Definition paging_l012_create_entry_block (block_address level : Z)
    (unprivileged_access read_only : bool) : Z :=
  if (level <=? 0) || (2 <? level) then 0 else
  let entry := PAGING_L012_VALID in
  let entry := if unprivileged_access then Z.lor entry PAGING_AP1 else entry in
  let entry := if read_only then Z.lor entry PAGING_AP2 else entry in
  let entry :=
    if level =? 1 then Z.lor entry (Z.land block_address PAGING_L1_BLOCK_ADDRESS_MASK)
    else if level =? 2 then Z.lor entry (Z.land block_address PAGING_L2_BLOCK_ADDRESS_MASK)
    else entry in
  Z.lor entry PAGING_AF.

Definition paging_l012_create_entry_table (table_address : Z) : Z :=
  let entry := Z.lor PAGING_L012_VALID PAGING_L012_TABLE in
  Z.lor entry (Z.land table_address PAGING_L012_TABLE_ADDRESS_MASK).

Definition paging_l3_create_entry_block (block_address : Z)
    (unprivileged_access read_only : bool) : Z :=
  let entry := PAGING_L3_VALID in
  let entry := Z.lor entry (Z.land block_address PAGING_L3_ADDRESS_MASK) in
  let entry := if unprivileged_access then Z.lor entry PAGING_AP1 else entry in
  let entry := if read_only then Z.lor entry PAGING_AP2 else entry in
  Z.lor entry PAGING_AF.

Definition paging_create_entry_invalid : Z := 0.

(** ** Registers *)

Definition paging_set_ttbr0 (table_address : Z) : M machine unit := msr TTBR0_EL1 table_address.
Definition paging_get_ttbr0 : M machine Z := mrs TTBR0_EL1.

Definition paging_set_tcr : M machine unit :=
  let tcr_ips := 2 in
  let tcr_ips := u64 (Z.shiftl tcr_ips 32) in
  let tcr_ips := Z.lor tcr_ips 25 in
  let* x0 := mrs TCR_EL1 in
  msr TCR_EL1 (Z.lor x0 tcr_ips).

Definition paging_enable : M machine unit :=
  let* x0 := mrs SCTLR_EL1 in
  msr SCTLR_EL1 (Z.lor x0 1).

(** The hardware half of [paging_manager_apply]; [current_paging_manager] is kept by the
    callers' state. *)
Definition paging_apply_registers (pm : paging_manager) : M machine unit :=
  paging_set_ttbr0 (l1 pm) ;;
  paging_set_tcr ;;
  paging_enable ;;
  emit Tlbi_vmalle1.

(** ** Tables *)

Definition block_get (table offset : Z) : M mem Z := load64 (table + 8 * offset).
Definition block_set (table offset v : Z) : M mem unit := store64 (table + 8 * offset) v.

Definition paging_allocate_table (pm : paging_manager) : M mem Z :=
  let* allocated := slab_allocate (pages_allocator pm) in
  for_int PAGING_ENTRIES_PER_TABLE (λ i, block_set allocated i 0) ;;
  ret allocated.

Definition paging_manager_init (pages_allocator : slab) : M mem paging_manager :=
  let* l1 := slab_allocate pages_allocator in
  for_int PAGING_ENTRIES_PER_TABLE (λ i, block_set l1 i paging_create_entry_invalid) ;;
  ret (mk_paging_manager l1 pages_allocator).

Definition paging_manager_map_1gb (pm : paging_manager) (va pa : Z)
    (unprivileged_access read_only : bool) : M mem unit :=
  let gb_offset := i32 (va / 0x40000000) in
  block_set (l1 pm) gb_offset (paging_l012_create_entry_block pa 1 unprivileged_access read_only).

Definition paging_manager_map_kernel (pm : paging_manager) : M mem unit :=
  paging_manager_map_1gb pm 0x0 0x0 false false ;;
  paging_manager_map_1gb pm 0x40000000 0x40000000 false false.

(** The offsets into the three tables and into the page. *)
Definition paging_split_address (address : Z) : Z * Z * Z * Z :=
  let l1 := address / 0x40000000 in
  let address := address mod 0x40000000 in
  let l2 := address / 0x200000 in
  let address := address mod 0x200000 in
  let l3 := address / 0x1000 in
  let address := address mod 0x1000 in
  (l1, l2, l3, address).

Definition paging_try_map (page_table_store offset value : Z) : M mem Z :=
  let* old_value := block_get page_table_store offset in
  if old_value =? value then ret 0 else
  if negb (Z.land old_value 1 =? 0) then ret 1 else
  block_set page_table_store offset value ;;
  ret 0.

(** [levels] is the number of levels below this one: the recursion stops at level 3. *)
Fixpoint paging_insert_or_alloc (levels : nat) (pm : paging_manager)
    (page_table_store level va pa : Z) (unprivileged_access read_only : bool) : M mem Z :=
  if level <? 1 then ret (-1) else
  let '(l1_offset, l2_offset, l3_offset, _) := paging_split_address va in
  if level <? 3 then
    let offset := if level =? 1 then l1_offset else l2_offset in
    let* old_value := block_get page_table_store offset in
    if Z.land old_value 3 =? 1 then ret (-1) else
    let* pts :=
      if Z.land old_value 1 =? 0 then
        let* pts := paging_allocate_table pm in
        let new_value := paging_l012_create_entry_table pts in
        block_set page_table_store offset new_value ;;
        ret pts
      else ret (Z.land old_value PAGING_L012_TABLE_ADDRESS_MASK) in
    match levels with
    | O => fail OutOfFuel
    | S levels =>
        paging_insert_or_alloc levels pm pts (level + 1) va pa unprivileged_access read_only
    end
  else
    let* old_value := block_get page_table_store l3_offset in
    let new_value := paging_l3_create_entry_block pa unprivileged_access read_only in
    if old_value =? new_value then ret 0 else
    if Z.land old_value 1 =? 1 then ret (-1) else
    block_set page_table_store l3_offset new_value ;;
    ret 0.

Definition paging_manager_map_page (pm : paging_manager) (va pa : Z)
    (unprivileged_access read_only : bool) : M machine Z :=
  let* res := on_ram (paging_insert_or_alloc 2 pm (l1 pm) 1 va pa unprivileged_access read_only) in
  if negb (res =? 0) then ret res else
  emit Tlbi_vmalle1 ;;
  emit Dsb ;;
  ret 0.

(** ** Specification: the translation table walk of the architecture *)

Definition desc_at (m : mem) (table i : Z) : option Z := peek 8 m (table + 8 * i).

(** The bits of the input address that a level with [n] levels below it does not resolve. *)
Definition page_shift (n : nat) : Z := 12 + 9 * Z.of_nat n.
Definition va_index (n : nat) (va : Z) : Z := va / 2 ^ page_shift n mod 512.
Definition table_address_of (d : Z) : Z := Z.land d (Z.shiftl (Z.ones 36) 12).
(** Bits [47:page_shift n] of a block or page descriptor. *)
Definition output_address_of (n : nat) (d : Z) : Z :=
  Z.land d (Z.shiftl (Z.ones (48 - page_shift n)) (page_shift n)).

(** The leaf descriptor that a walk ends at and the number of levels it skips; [None] is a
    translation fault.  Bits [1:0]: x0 invalid, 11 table (page at the last level), 01 block. *)
Fixpoint walk (n : nat) (m : mem) (table va : Z) : option (nat * Z) :=
  match desc_at m table (va_index n va) with
  | None => None
  | Some d =>
      if Z.testbit d 0 then
        match n with
        | O => if Z.testbit d 1 then Some (O, d) else None
        | S n' => if Z.testbit d 1 then walk n' m (table_address_of d) va else Some (n, d)
        end
      else None
  end.

(** Output address, access from EL0 (AP[1]) and write protection (AP[2]) of an address; the
    access flag must be set. *)
Definition translate (m : mem) (root va : Z) : option (Z * bool * bool) :=
  if (0 <=? va) && (va <? 2 ^ 39) then
    match walk 2 m root va with
    | Some (n, d) =>
        if Z.testbit d 10
        then Some (output_address_of n d + va mod 2 ^ page_shift n, Z.testbit d 6, Z.testbit d 7)
        else None
    | None => None
    end
  else None.

(** The number of tables on the way to [va] that do not exist yet; [None] when a block is met. *)
Fixpoint missing (n : nat) (m : mem) (table va : Z) : option nat :=
  match n with
  | O => Some O
  | S n' =>
      match desc_at m table (va_index n va) with
      | None => None
      | Some d =>
          if Z.testbit d 0 then
            if Z.testbit d 1 then missing n' m (table_address_of d) va else None
          else Some n
      end
  end.

(** *** The tree of tables

    [T] maps the path of a table (the indices that lead to it from the root) to its address.
    The slab gives every table a slot of its own. *)

Record page_slab (s : slab) (m : mem) (used : gset Z) : Prop := {
  ps_ok : slab_ok s;
  ps_rep : slab_rep s m used;
  ps_used : ∀ n, n ∈ used → 0 ≤ n < max_store s;
  ps_obj : object_size s = sizeof_page_table_store;
  ps_align : (starting_address s + header_size s) mod 4096 = 0;
  ps_top : starting_address s + header_size s + 4096 * max_store s ≤ 2 ^ 48;
  ps_mapped : mapped m (slot_address s 0) (4096 * max_store s);
}.

Definition entry_ok (T : gmap (list Z) Z) (p : list Z) (i d : Z) : Prop :=
  if decide (length p = 2%nat) then Z.testbit d 0 = true → Z.testbit d 1 = true
  else T !! (p ++ [i]) =
    if Z.testbit d 0 && Z.testbit d 1 then Some (table_address_of d) else None.

Record tree (s : slab) (m : mem) (used : gset Z) (root : Z) (T : gmap (list Z) Z) : Prop := {
  tr_root : T !! [] = Some root;
  tr_node : ∀ p t, T !! p = Some t →
    (length p ≤ 2)%nat ∧ ∃ n, n ∈ used ∧ t = slot_address s n;
  tr_inj : ∀ p q t, T !! p = Some t → T !! q = Some t → p = q;
  tr_entry : ∀ p t i, T !! p = Some t → 0 ≤ i < 512 →
    ∃ d, desc_at m t i = Some d ∧ entry_ok T p i d;
  tr_child : ∀ p i c, T !! (p ++ [i]) = Some c → is_Some (T !! p) ∧ 0 ≤ i < 512;
}.

(** * Lemmas *)

(** ** Descriptors *)

Lemma land_1_testbit d : (Z.land d 1 =? 0) = negb (Z.testbit d 0).
Proof. exact (land_pow2 d 0 ltac:(lia)). Qed.

Lemma land_bits d : Z.land d 1 = Z.b2z (Z.testbit d 0) ∧
  Z.land d 3 = Z.b2z (Z.testbit d 0) + 2 * Z.b2z (Z.testbit d 1).
Proof.
  change 1 with (Z.ones 1) at 1. change 3 with (Z.ones 2). rewrite !Z.land_ones by lia.
  rewrite Z.bit0_mod. split; [done|].
  rewrite (Z.testbit_spec' d 1) by lia. change (2 ^ 2) with (2 * 2). change (2 ^ 1) with 2.
  by rewrite Z.rem_mul_r by lia.
Qed.

Lemma land_3_block d : (Z.land d 3 =? 1) = Z.testbit d 0 && negb (Z.testbit d 1).
Proof. destruct (land_bits d) as [_ ->]. by destruct (Z.testbit d 0), (Z.testbit d 1). Qed.
Lemma land_1_valid d : (Z.land d 1 =? 1) = Z.testbit d 0.
Proof. destruct (land_bits d) as [-> _]. by destruct (Z.testbit d 0). Qed.

Lemma mask_bit lo n i : 0 ≤ lo → 0 ≤ n → 0 ≤ i →
  Z.testbit (Z.shiftl (Z.ones n) lo) i = (lo <=? i) && (i <? lo + n).
Proof.
  intros Hlo Hn Hi. rewrite Z.shiftl_spec by done. destruct (Z.leb_spec lo i); simpl.
  - rewrite Z.testbit_ones by lia. destruct (Z.leb_spec 0 (i - lo)); [|lia]. simpl.
    apply Bool.eq_iff_eq_true. rewrite !Z.ltb_lt. lia.
  - apply Z.testbit_neg_r. lia.
Qed.

(** An aligned address below [2^48] is unchanged by the mask of its level. *)
Lemma mask_aligned a lo : 0 ≤ lo ≤ 48 → a mod 2 ^ lo = 0 → 0 ≤ a < 2 ^ 48 →
  Z.land a (Z.shiftl (Z.ones (48 - lo)) lo) = a.
Proof.
  intros Hlo Ha Hr. apply Z.bits_inj'. intros i Hi.
  rewrite Z.land_spec, mask_bit by lia. replace (lo + (48 - lo)) with 48 by lia.
  destruct (Z.leb_spec lo i); simpl.
  - destruct (Z.ltb_spec i 48); [by rewrite andb_true_r|].
    rewrite andb_false_r. symmetry. rewrite <-(Z.mod_small a (2 ^ 48)) by lia.
    apply Z.mod_pow2_bits_high. lia.
  - rewrite andb_false_r. symmetry. rewrite <-(Z.mod_pow2_bits_low a lo) by lia.
    rewrite Ha. apply Z.bits_0.
Qed.

(** Test bit [k] of a descriptor built by the constructors: address bits are masked off. *)
Ltac desc_bit :=
  rewrite ?Z.lor_spec, ?Z.land_spec;
  repeat match goal with
  | |- context [Z.testbit ?a ?k] =>
      first [is_var a; generalize (Z.testbit a k); intro
            |let v := eval vm_compute in (Z.testbit a k) in
             lazymatch v with true => idtac | false => idtac end;
             change (Z.testbit a k) with v]
  end;
  repeat match goal with b : bool |- _ => destruct b end; try reflexivity.

Lemma table_desc_bits a :
  Z.testbit (paging_l012_create_entry_table a) 0 = true ∧
  Z.testbit (paging_l012_create_entry_table a) 1 = true.
Proof. unfold paging_l012_create_entry_table. split; desc_bit. Qed.

Lemma page_desc_bits a u r :
  Z.testbit (paging_l3_create_entry_block a u r) 0 = true ∧
  Z.testbit (paging_l3_create_entry_block a u r) 1 = true ∧
  Z.testbit (paging_l3_create_entry_block a u r) 10 = true ∧
  Z.testbit (paging_l3_create_entry_block a u r) 6 = u ∧
  Z.testbit (paging_l3_create_entry_block a u r) 7 = r.
Proof. unfold paging_l3_create_entry_block. destruct u, r; repeat split; desc_bit. Qed.

Lemma block_desc_bits a u r :
  Z.testbit (paging_l012_create_entry_block a 1 u r) 0 = true ∧
  Z.testbit (paging_l012_create_entry_block a 1 u r) 1 = false ∧
  Z.testbit (paging_l012_create_entry_block a 1 u r) 10 = true ∧
  Z.testbit (paging_l012_create_entry_block a 1 u r) 6 = u ∧
  Z.testbit (paging_l012_create_entry_block a 1 u r) 7 = r.
Proof.
  unfold paging_l012_create_entry_block. change ((1 <=? 0) || (2 <? 1)) with false.
  change (1 =? 1) with true. cbv iota zeta. destruct u, r; repeat split; desc_bit.
Qed.

(** The constants as literals. *)
Ltac desc_const :=
  change PAGING_L012_VALID with 1; change PAGING_L012_TABLE with 2;
  change PAGING_L3_VALID with 3; change PAGING_AP1 with 64; change PAGING_AP2 with 128;
  change PAGING_AF with 1024;
  change PAGING_L012_TABLE_ADDRESS_MASK with 0xfffffffff000;
  change PAGING_L3_ADDRESS_MASK with 0xfffffffff000;
  change PAGING_L1_BLOCK_ADDRESS_MASK with 0xffffc0000000.

(** Strip the flag bits of a masked descriptor. *)
Ltac desc_mask :=
  desc_const; rewrite ?Z.land_lor_distr_l, <-?Z.land_assoc;
  repeat match goal with
  | |- context [Z.land (Zpos ?a) (Zpos ?b)] =>
      let v := eval vm_compute in (Z.land (Zpos a) (Zpos b)) in
      change (Z.land (Zpos a) (Zpos b)) with v
  end; rewrite ?Z.lor_0_l, ?Z.lor_0_r.

Lemma table_desc_address a : a mod 4096 = 0 → 0 ≤ a < 2 ^ 48 →
  table_address_of (paging_l012_create_entry_table a) = a.
Proof.
  intros Ha Hr. unfold paging_l012_create_entry_table, table_address_of.
  change (Z.shiftl (Z.ones 36) 12) with 0xfffffffff000. cbv zeta. desc_mask.
  by apply (mask_aligned a 12).
Qed.

(** Masking the low bits of an address rounds it down. *)
Lemma mask_rounds a lo : 0 ≤ lo ≤ 48 → 0 ≤ a < 2 ^ 48 →
  Z.land a (Z.shiftl (Z.ones (48 - lo)) lo) = a - a mod 2 ^ lo.
Proof.
  intros Hlo Hr. pose proof (Z.pow_pos_nonneg 2 lo).
  pose proof (Z.mod_pos_bound a (2 ^ lo)). pose proof (Z.div_mod a (2 ^ lo)).
  assert (0 ≤ a / 2 ^ lo) by (apply Z.div_pos; lia).
  assert (a - a mod 2 ^ lo = a / 2 ^ lo * 2 ^ lo) as -> by lia.
  rewrite <-(mask_aligned (a / 2 ^ lo * 2 ^ lo) lo); [|lia|apply Z.mod_mul; lia|split; lia].
  apply Z.bits_inj'. intros i Hi. rewrite !Z.land_spec, mask_bit by lia.
  destruct (Z.leb_spec lo i); [|by rewrite !andb_false_r]. f_equal.
  rewrite Z.mul_pow2_bits, Z.div_pow2_bits by lia. f_equal. lia.
Qed.

Lemma page_desc_address a u r : 0 ≤ a < 2 ^ 48 →
  output_address_of 0 (paging_l3_create_entry_block a u r) = a - a mod 4096.
Proof.
  intros Hr. change 4096 with (2 ^ 12). rewrite <-(mask_rounds a 12) by lia.
  unfold paging_l3_create_entry_block, output_address_of.
  change (Z.shiftl (Z.ones (48 - page_shift 0)) (page_shift 0)) with 0xfffffffff000.
  change (Z.shiftl (Z.ones (48 - 12)) 12) with 0xfffffffff000.
  destruct u, r; cbv iota zeta; by desc_mask.
Qed.

Lemma block_desc_address a u r : 0 ≤ a < 2 ^ 48 →
  output_address_of 2 (paging_l012_create_entry_block a 1 u r) = a - a mod 2 ^ 30.
Proof.
  intros Hr. rewrite <-(mask_rounds a 30) by lia.
  unfold paging_l012_create_entry_block, output_address_of.
  change (Z.shiftl (Z.ones (48 - page_shift 2)) (page_shift 2)) with 0xffffc0000000.
  change (Z.shiftl (Z.ones (48 - 30)) 30) with 0xffffc0000000.
  change ((1 <=? 0) || (2 <? 1)) with false. change (1 =? 1) with true.
  destruct u, r; cbv iota zeta; by desc_mask.
Qed.

(** Descriptors are 64-bit values. *)
Lemma range_bits a n : 0 ≤ n → 0 ≤ a → (∀ i, n ≤ i → Z.testbit a i = false) → 0 ≤ a < 2 ^ n.
Proof.
  intros Hn Ha Hb. split; [done|]. rewrite <-(Z.mod_small a (2 ^ n)) at 1; [apply Z.mod_pos_bound; lia|].
  split; [done|]. destruct (Z.eq_dec a 0) as [->|]; [lia|].
  apply Z.log2_lt_pow2; [lia|]. destruct (Z.lt_ge_cases (Z.log2 a) n) as [|Hge]; [done|].
  apply Hb in Hge. rewrite Z.bit_log2 in Hge by lia. done.
Qed.

Lemma bits_range a n i : 0 ≤ a < 2 ^ n → 0 ≤ n ≤ i → Z.testbit a i = false.
Proof.
  intros Ha Hi. rewrite <-(Z.mod_small a (2 ^ n)) by lia. apply Z.mod_pow2_bits_high. lia.
Qed.

Lemma lor_range a b n : 0 ≤ n → 0 ≤ a < 2 ^ n → 0 ≤ b < 2 ^ n → 0 ≤ Z.lor a b < 2 ^ n.
Proof.
  intros Hn Ha Hb. apply range_bits; [done|apply Z.lor_nonneg; lia|].
  intros i Hi. by rewrite Z.lor_spec, (bits_range a n), (bits_range b n) by lia.
Qed.

Lemma land_range a b n : 0 ≤ n → 0 ≤ b < 2 ^ n → 0 ≤ Z.land a b < 2 ^ n.
Proof.
  intros Hn Hb. apply range_bits; [done|apply Z.land_nonneg; lia|].
  intros i Hi. by rewrite Z.land_spec, (bits_range b n), andb_false_r by lia.
Qed.

Ltac desc_range := repeat first [apply lor_range; [lia|..]|apply land_range; [lia|lia]|lia].

Lemma table_desc_range a : 0 ≤ paging_l012_create_entry_table a < 2 ^ 64.
Proof. unfold paging_l012_create_entry_table. cbv zeta. desc_const. desc_range. Qed.
Lemma page_desc_range a u r : 0 ≤ paging_l3_create_entry_block a u r < 2 ^ 64.
Proof. unfold paging_l3_create_entry_block. desc_const. destruct u, r; desc_range. Qed.
Lemma block_desc_range a u r : 0 ≤ paging_l012_create_entry_block a 1 u r < 2 ^ 64.
Proof.
  unfold paging_l012_create_entry_block. desc_const.
  change ((1 <=? 0) || (2 <? 1)) with false. change (1 =? 1) with true.
  destruct u, r; cbv iota zeta; desc_range.
Qed.

(** ** Indices *)

Lemma va_index_range n va : 0 ≤ va_index n va < 512.
Proof. apply Z.mod_pos_bound. lia. Qed.

Lemma mod_div a b c : 0 < b → 0 < c → a mod (b * c) / b = a / b mod c.
Proof.
  intros Hb Hc. rewrite Z.rem_mul_r, Z.add_comm, Z.mul_comm, Z.div_add_l by lia.
  rewrite (Z.div_small (a mod b)) by (apply Z.mod_pos_bound; lia). lia.
Qed.

Lemma split_address_indices va : 0 ≤ va < 2 ^ 39 →
  paging_split_address va = (va_index 2 va, va_index 1 va, va_index 0 va, va mod 4096).
Proof.
  intros Hva. unfold paging_split_address, va_index.
  change (2 ^ page_shift 2) with 0x40000000. change (2 ^ page_shift 1) with 0x200000.
  change (2 ^ page_shift 0) with 0x1000.
  rewrite <-(mod_div va 0x200000 512), <-(mod_div va 0x1000 512) by lia.
  change (0x200000 * 512) with 0x40000000. change (0x1000 * 512) with 0x200000.
  rewrite (Z.mod_mod_divide _ 0x40000000 0x200000) by (by exists 512).
  rewrite (Z.mod_mod_divide _ 0x200000 0x1000) by (by exists 512).
  rewrite (Z.mod_small (va / 0x40000000)); [done|].
  split; [apply Z.div_pos; lia|]. apply Z.div_lt_upper_bound; lia.
Qed.

(** An input address is its three indices and the offset in the page. *)
Lemma address_indices va : 0 ≤ va < 2 ^ 39 →
  va / 4096 = va_index 2 va * 2 ^ 18 + va_index 1 va * 2 ^ 9 + va_index 0 va.
Proof.
  intros Hva. unfold va_index.
  change (2 ^ page_shift 2) with (4096 * 512 * 512). change (2 ^ page_shift 1) with (4096 * 512).
  change (2 ^ page_shift 0) with 4096. rewrite <-!Z.div_div by lia.
  assert (0 ≤ va / 4096 < 2 ^ 27) as Hr.
  { split; [apply Z.div_pos; lia|apply Z.div_lt_upper_bound; lia]. }
  revert Hr. generalize (va / 4096). intros x Hx.
  rewrite (Z.mod_small (x / 512 / 512)).
  - pose proof (Z.div_mod x 512). pose proof (Z.div_mod (x / 512) 512). lia.
  - split; [repeat apply Z.div_pos; lia|]. repeat apply Z.div_lt_upper_bound; lia.
Qed.

Lemma same_indices va va' : 0 ≤ va < 2 ^ 39 → 0 ≤ va' < 2 ^ 39 →
  va_index 2 va = va_index 2 va' → va_index 1 va = va_index 1 va' →
  va_index 0 va = va_index 0 va' → va / 4096 = va' / 4096.
Proof. intros ?? H2 H1 H0. rewrite !address_indices by done. congruence. Qed.

Lemma page_index n va va' : va / 4096 = va' / 4096 → va_index n va = va_index n va'.
Proof.
  intros H. unfold va_index, page_shift. rewrite Z.pow_add_r by lia.
  change (2 ^ 12) with 4096. by rewrite <-!Z.div_div, H by lia.
Qed.

(** ** Descriptors in memory *)

Definition put_desc (table i d : Z) (m : mem) : mem := put_bytes (table + 8 * i) (le_bytes 8 d) m.

Lemma block_get_ok m t i d : desc_at m t i = Some d → block_get t i m = Ok d m.
Proof. apply peek_load. Qed.

Lemma block_set_ok m t i v : mapped m (t + 8 * i) 8 → block_set t i v m = Ok tt (put_desc t i v m).
Proof. apply (store_le_ok m 8). Qed.

Lemma desc_at_mapped m t i d : desc_at m t i = Some d → mapped m (t + 8 * i) 8.
Proof. apply peek_mapped. Qed.

Lemma desc_at_agree m m' t i d : 0 ≤ i < 512 →
  (∀ a, t ≤ a < t + 4096 → m' !! a = m !! a) → desc_at m t i = Some d → desc_at m' t i = Some d.
Proof. intros Hi Hag. apply peek_agree. intros a Ha. apply Hag. lia. Qed.

Lemma desc_at_put_same m t i d : 0 ≤ d < 2 ^ 64 → desc_at (put_desc t i d m) t i = Some d.
Proof. apply (peek_put 8). Qed.

Lemma put_desc_outside m t i d a : ¬ (t + 8 * i ≤ a < t + 8 * i + 8) → put_desc t i d m !! a = m !! a.
Proof. intros Ha. apply put_bytes_outside. rewrite length_le_bytes. lia. Qed.

Lemma desc_at_put_other m t i d t' i' d' : t + 8 * i + 8 ≤ t' + 8 * i' ∨ t' + 8 * i' + 8 ≤ t + 8 * i →
  desc_at m t' i' = Some d' → desc_at (put_desc t i d m) t' i' = Some d'.
Proof. intros H. apply peek_agree. intros a Ha. apply put_desc_outside. lia. Qed.

(** Clearing a table. *)
Lemma clear_table_ok m t : mapped m t 4096 →
  for_int PAGING_ENTRIES_PER_TABLE (λ i, block_set t i 0) m =
    Ok tt (put_bytes t (replicate 4096 0) m).
Proof.
  intros Hm. apply wp_eq. unfold PAGING_ENTRIES_PER_TABLE.
  apply (wp_for_int (λ i mm, mm = put_bytes t (replicate (Z.to_nat (8 * i)) 0) m)).
  - unfold INT_MAX. lia.
  - intros i mm Hi ->. eapply wp_intro.
    { apply block_set_ok, mapped_put_bytes. eapply mapped_weaken; [done|lia|lia]. }
    unfold put_desc. change (le_bytes 8 0) with (replicate 8 0).
    replace (Z.to_nat (8 * (i + 1))) with (Z.to_nat (8 * i) + 8)%nat by lia.
    rewrite replicate_add, put_bytes_app, length_replicate, Z2Nat.id by lia.
    apply put_bytes_comm. rewrite !length_replicate. lia.
  - done.
  - by intros mm ->.
Qed.

Lemma cleared_desc m t i : 0 ≤ i < 512 → desc_at (put_bytes t (replicate 4096 0) m) t i = Some 0.
Proof.
  intros Hi. apply peek_word; [|lia]. intros k b Hk.
  change (le_bytes 8 0) with (replicate 8 0) in Hk. apply lookup_replicate in Hk as [-> Hk].
  rewrite put_bytes_lookup, length_replicate, decide_True by lia.
  by rewrite lookup_replicate_2 by lia.
Qed.

(** ** The slab of tables *)

Section page_slab.
Context (s : slab).

Lemma slot_distinct k n : object_size s = 4096 → k ≠ n →
  slot_address s k + 4096 ≤ slot_address s n ∨ slot_address s n + 4096 ≤ slot_address s k.
Proof. intros Ho Hne. unfold slot_address. rewrite Ho. lia. Qed.

Lemma slot_facts m used n : page_slab s m used → 0 ≤ n < max_store s →
  slot_address s n mod 4096 = 0 ∧ 0 ≤ slot_address s n < 2 ^ 48 ∧
  starting_address s + header_size s ≤ slot_address s n ∧
  mapped m (slot_address s n) 4096.
Proof.
  intros [Hok _ _ Ho Ha Ht Hm] Hn. unfold sizeof_page_table_store in Ho.
  destruct Hok as [? ? ? ? ?]. unfold slot_address in *. rewrite Ho in *.
  split; [|split; [|split]].
  - rewrite Z.mul_comm, Z.mod_add; lia.
  - lia.
  - lia.
  - eapply mapped_weaken; [done|lia|lia].
Qed.

(** The slab does not see changes outside its header. *)
Lemma page_slab_frame m m' used : page_slab s m used →
  (∀ a, starting_address s ≤ a < starting_address s + header_size s → m' !! a = m !! a) →
  (∀ a, is_Some (m !! a) → is_Some (m' !! a)) → page_slab s m' used.
Proof.
  intros [Hok (hb & Hb & Hr & Hl & Hle & Hbit) Hu Ho Ha Ht Hm] Hag Hdom.
  split; try done.
  - exists hb. split; [|done]. eapply bytes_at_agree; [done|]. intros a Hx. apply Hag. lia.
  - intros a Hx. by apply Hdom, Hm.
Qed.

Lemma page_slab_agree m m' used : page_slab s m used →
  (∀ a, starting_address s ≤ a < starting_address s + header_size s + 4096 * max_store s → m' !! a = m !! a) →
  page_slab s m' used.
Proof.
  intros [Hok (hb & Hb & Hr & Hl & Hle & Hbit) Hu Ho Ha Ht Hm] Hag. pose proof Hok as [? ? ? ? ?].
  unfold sizeof_page_table_store in Ho. split; try done.
  - exists hb. split; [|done]. eapply bytes_at_agree; [done|]. intros a Hx. apply Hag. lia.
  - intros a Hx. rewrite Hag; [by apply Hm|]. unfold slot_address in Hx. lia.
Qed.

Lemma page_slab_put m used n i d : page_slab s m used → 0 ≤ n < max_store s → 0 ≤ i < 512 →
  page_slab s (put_desc (slot_address s n) i d m) used.
Proof.
  intros Hps Hn Hi. destruct (slot_facts m used n Hps Hn) as (_ & _ & Hhdr & _).
  eapply page_slab_frame; [done|..].
  - intros a Ha. apply put_desc_outside. lia.
  - intros a Hs. unfold put_desc. rewrite put_bytes_lookup. case_decide; [|done].
    rewrite fmap_is_Some. apply lookup_lt_is_Some. lia.
Qed.

(** There is a free slot as long as fewer slots are in use than exist. *)
Lemma free_slot_exists used : 0 ≤ max_store s → Z.of_nat (size used) < max_store s →
  ∃ n, free_slot s used = Some n.
Proof.
  intros Hmax Hsize. destruct (free_slot s used) as [n|] eqn:E; [by exists n|].
  unfold free_slot in E. rewrite top_free_none in E.
  assert (list_to_set (seqZ 0 (max_store s)) ⊆ used) as Hsub.
  { intros x Hx. apply elem_of_list_to_set, elem_of_seqZ in Hx. apply E. lia. }
  apply subseteq_size in Hsub. rewrite size_list_to_set in Hsub by apply NoDup_seqZ.
  rewrite length_seqZ in Hsub. lia.
Qed.

Lemma allocate_table_spec pm m used n :
  pages_allocator pm = s → page_slab s m used → free_slot s used = Some n →
  ∃ m', paging_allocate_table pm m = Ok (slot_address s n) m' ∧
    0 ≤ n < max_store s ∧ (n ∉ used) ∧
    page_slab s m' ({[n]} ∪ used) ∧
    (∀ i, 0 ≤ i < 512 → desc_at m' (slot_address s n) i = Some 0) ∧
    (∀ a, ¬ (starting_address s ≤ a < starting_address s + header_size s) →
      ¬ (slot_address s n ≤ a < slot_address s n + 4096) → m' !! a = m !! a).
Proof.
  intros Hpm Hps Hfree. pose proof Hps as [Hok Hrep Hu Ho Ha Ht Hm].
  destruct (slab_allocate_rep s m used n Hok Hrep Hfree) as (m1 & Hal & Hrep1 & Hout).
  apply top_free_spec in Hfree as (Hn & Hnot & _). pose proof (ok_max s Hok).
  rewrite Z2Nat.id in Hn by lia.
  destruct (slot_facts m used n Hps Hn) as (_ & _ & Hhdr & Hmap).
  assert (∀ a, starting_address s + header_size s ≤ a → m1 !! a = m !! a) as Hout1.
  { intros a Hx. apply Hout. lia. }
  assert (page_slab s m1 ({[n]} ∪ used)) as Hps1.
  { split; try done.
    - intros k [->%elem_of_singleton|Hk]%elem_of_union; [done|by apply Hu].
    - intros a Hx. rewrite Hout1; [by apply Hm|].
      destruct Hok. unfold slot_address in Hx. lia. }
  exists (put_bytes (slot_address s n) (replicate 4096 0) m1).
  split; [|split; [done|split; [done|split; [|split]]]].
  - unfold paging_allocate_table. rewrite Hpm, (bind_ok _ _ _ _ _ Hal).
    erewrite bind_ok; [reflexivity|]. apply clear_table_ok.
    intros a Hx. rewrite Hout1 by lia. by apply Hmap.
  - eapply page_slab_frame; [done|..].
    + intros a Hx. apply put_bytes_outside. rewrite length_replicate. lia.
    + intros a Hx. rewrite put_bytes_lookup. case_decide; [|done].
      rewrite fmap_is_Some. apply lookup_lt_is_Some. lia.
  - intros i Hi. by apply cleared_desc.
  - intros a Hx Hy. rewrite put_bytes_outside by (rewrite length_replicate; lia). by apply Hout.
Qed.
End page_slab.

(** ** The tree and the walk *)

Definition indices (va : Z) : list Z := [va_index 2 va; va_index 1 va; va_index 0 va].

Lemma indices_take n va : (n ≤ 2)%nat →
  take (3 - n) (indices va) = take (2 - n) (indices va) ++ [va_index n va].
Proof. intros Hn. by destruct n as [|[|[|]]]; [..|lia]. Qed.

Lemma walk_eq n m t va : walk n m t va =
  match desc_at m t (va_index n va) with
  | None => None
  | Some d =>
      if Z.testbit d 0 then
        if Z.testbit d 1 then match n with O => Some (O, d) | S n' => walk n' m (table_address_of d) va end
        else match n with O => None | S _ => Some (n, d) end
      else None
  end.
Proof.
  destruct n; simpl; destruct (desc_at _ _ _) as [d|]; try done;
    by destruct (Z.testbit d 0), (Z.testbit d 1).
Qed.

Section tree.
Context (s : slab) (root : Z).

Lemma tree_prefix m used T p q : tree s m used root T → p `prefix_of` q →
  is_Some (T !! q) → is_Some (T !! p).
Proof.
  intros Htr [k ->]. induction k as [|i k IH] using rev_ind; [by rewrite app_nil_r|].
  rewrite app_assoc. intros [c Hc]. by apply IH, (tr_child _ _ _ _ _ Htr _ _ _ Hc).
Qed.

Lemma tree_frame m m' used used' T : tree s m used root T → used ⊆ used' →
  (∀ p t i d, T !! p = Some t → 0 ≤ i < 512 → desc_at m t i = Some d → desc_at m' t i = Some d) →
  tree s m' used' root T.
Proof.
  intros [Hr Hn Hi He Hc] Hsub Hag. split; try done.
  - intros p t Hp. destruct (Hn p t Hp) as (Hl & n & Hu & ->). split; [done|]. exists n. set_solver.
  - intros p t i Hp Hx. destruct (He p t i Hp Hx) as (d & Hd & Hok). exists d. eauto.
Qed.

(** A table of the tree that a table descriptor points to. *)
Lemma tree_step m used T p t i d : tree s m used root T → T !! p = Some t → 0 ≤ i < 512 →
  desc_at m t i = Some d → (length p < 2)%nat → Z.testbit d 0 = true → Z.testbit d 1 = true →
  T !! (p ++ [i]) = Some (table_address_of d).
Proof.
  intros Htr Hp Hi Hd Hlen H0 H1. destruct (tr_entry _ _ _ _ _ Htr p t i Hp Hi) as (d' & Hd' & Hok).
  rewrite Hd in Hd'. simplify_eq. unfold entry_ok in Hok. rewrite decide_False in Hok by lia.
  by rewrite H0, H1 in Hok.
Qed.

(** A walk depends on the descriptor it reads first and on the deeper tables. *)
Lemma walk_below m m' used T n p t va :
  tree s m used root T → T !! p = Some t → (length p + n = 2)%nat →
  desc_at m' t (va_index n va) = desc_at m t (va_index n va) →
  (∀ q t' i, T !! q = Some t' → (length p < length q)%nat → 0 ≤ i < 512 →
    desc_at m' t' i = desc_at m t' i) →
  walk n m' t va = walk n m t va.
Proof.
  intros Htr. revert p t. induction n as [|n IH]; intros p t Hp Hlen Hd0 Hag.
  - simpl. by rewrite Hd0.
  - rewrite !(walk_eq (S n)), Hd0.
    destruct (desc_at m t _) as [d|] eqn:Hd; [|done].
    destruct (Z.testbit d 0) eqn:H0, (Z.testbit d 1) eqn:H1; try done.
    assert (T !! (p ++ [va_index (S n) va]) = Some (table_address_of d)) as Hc.
    { eapply tree_step; try done; [apply va_index_range|lia]. }
    apply IH with (p := p ++ [va_index (S n) va]); [done|rewrite length_app; simpl; lia|..].
    + apply (Hag _ _ _ Hc); [rewrite length_app; simpl; lia|apply va_index_range].
    + intros q t' i Hq Hle. rewrite length_app in Hle. simpl in Hle. apply (Hag q); [done|lia].
Qed.

(** How a walk sees the change of the descriptor [i] of the table at [p]. *)
Lemma walk_update m m' used T p tp i n p0 t0 va :
  tree s m used root T → T !! p = Some tp →
  (∀ q t j, T !! q = Some t → 0 ≤ j < 512 → (q, j) ≠ (p, i) → desc_at m' t j = desc_at m t j) →
  T !! p0 = Some t0 → (length p0 ≤ length p)%nat → (length p0 + n = 2)%nat →
  p0 = take (length p0) (indices va) →
  walk n m' t0 va =
    if decide (p ++ [i] = take (S (length p)) (indices va))
    then walk (2 - length p) m' tp va else walk n m t0 va.
Proof.
  intros Htr Hp Hag. revert p0 t0. induction n as [n IH] using lt_wf_ind.
  intros p0 t0 Hp0 Hle Hlen Hpre.
  assert (p0 ++ [va_index n va] = take (S (length p0)) (indices va)) as Hidx.
  { rewrite Hpre at 1. replace (S (length p0)) with (3 - n)%nat by lia.
    rewrite indices_take by lia. f_equal. f_equal. lia. }
  destruct (decide (length p0 = length p)) as [Hl|Hl].
  - case_decide as Hd.
    + rewrite <-Hl, <-Hidx in Hd. apply app_inj_tail in Hd as [-> ->].
      rewrite Hp in Hp0. simplify_eq. by replace (2 - length p0)%nat with n by lia.
    + apply (walk_below m m' used T n p0); try done.
      * apply (Hag p0); [done|apply va_index_range|].
        intros [= -> Hi]. apply Hd. by rewrite <-Hi.
      * intros q t' j Hq Hlt Hj. apply (Hag q); [done|done|]. intros [= -> _]. lia.
  - destruct n as [|n]; [destruct (tr_node _ _ _ _ _ Htr _ _ Hp); lia|].
    rewrite !(walk_eq (S n)), (Hag p0) by (done || apply va_index_range || congruence).
    destruct (tr_entry _ _ _ _ _ Htr p0 t0 (va_index (S n) va) Hp0 (va_index_range _ _))
      as (d & Hd & Hok). rewrite Hd. unfold entry_ok in Hok. rewrite decide_False in Hok by lia.
    destruct (Z.testbit d 0 && Z.testbit d 1) eqn:Hbits.
    + apply andb_true_iff in Hbits as [-> ->].
      apply (IH n ltac:(lia) (p0 ++ [va_index (S n) va])); [done|..];
        rewrite ?length_app; simpl; [lia|lia|].
      by rewrite Hidx, Nat.add_1_r.
    + case_decide as Hdec.
      * exfalso. destruct (tree_prefix m used T (p0 ++ [va_index (S n) va]) p Htr) as [c Hc];
          [|by eexists|congruence].
        rewrite Hidx. replace p with (take (length p) (indices va)).
        -- replace (S (length p0)) with (S (length p0) `min` length p)%nat by lia.
           rewrite <-take_take. apply prefix_take.
        -- rewrite <-(take_app_length p [i]) at 2. rewrite Hdec, take_take. f_equal. lia.
      * by destruct (Z.testbit d 0), (Z.testbit d 1).
Qed.

Lemma table_slot m used T p t : page_slab s m used → tree s m used root T → T !! p = Some t →
  t mod 4096 = 0 ∧ 0 ≤ t < 2 ^ 48 ∧ starting_address s + header_size s ≤ t.
Proof.
  intros Hps Htr Hp. destruct (tr_node _ _ _ _ _ Htr p t Hp) as (_ & n & Hn & ->).
  destruct (slot_facts s m used n Hps (ps_used _ _ _ Hps n Hn)) as (? & ? & ? & _). done.
Qed.

(** Two descriptors of the tree do not overlap. *)
Lemma desc_disjoint m used T p t i q t' j : page_slab s m used → tree s m used root T →
  T !! p = Some t → T !! q = Some t' → 0 ≤ i < 512 → 0 ≤ j < 512 → (q, j) ≠ (p, i) →
  t + 8 * i + 8 ≤ t' + 8 * j ∨ t' + 8 * j + 8 ≤ t + 8 * i.
Proof.
  intros Hps Htr Hp Hq Hi Hj Hne. destruct (decide (p = q)) as [->|Hpq].
  - rewrite Hp in Hq. simplify_eq. assert (i ≠ j) by congruence. lia.
  - destruct (tr_node _ _ _ _ _ Htr p t Hp) as (_ & n & _ & ->).
    destruct (tr_node _ _ _ _ _ Htr q t' Hq) as (_ & k & _ & ->).
    destruct (decide (n = k)) as [->|Hnk]; [by destruct Hpq; eapply tr_inj|].
    destruct (slot_distinct s n k (ps_obj _ _ _ Hps) Hnk); lia.
Qed.

(** Rewriting a descriptor with one that leads to the same tables. *)
Lemma tree_put m used T p t i d : page_slab s m used → tree s m used root T →
  T !! p = Some t → 0 ≤ i < 512 → 0 ≤ d < 2 ^ 64 → entry_ok T p i d →
  tree s (put_desc t i d m) used root T.
Proof.
  intros Hps Htr Hp Hi Hd Hok. pose proof Htr as [Hr Hn Hinj He Hc]. split; try done.
  intros q t' j Hq Hj. destruct (decide ((q, j) = (p, i))) as [[= -> ->]|Hne].
  - rewrite Hp in Hq. simplify_eq. exists d. split; [by apply desc_at_put_same|done].
  - destruct (He q t' j Hq Hj) as (d' & Hd' & Hok'). exists d'. split; [|done].
    apply desc_at_put_other; [|done]. by eapply desc_disjoint.
Qed.

Lemma put_other m used T p t i d q t' j : page_slab s m used → tree s m used root T →
  T !! p = Some t → 0 ≤ i < 512 →
  T !! q = Some t' → 0 ≤ j < 512 → (q, j) ≠ (p, i) →
  desc_at (put_desc t i d m) t' j = desc_at m t' j.
Proof.
  intros Hps Htr Hp Hi Hq Hj Hne.
  destruct (tr_entry _ _ _ _ _ Htr q t' j Hq Hj) as (d' & Hd' & _). rewrite Hd'.
  apply desc_at_put_other; [|done]. by eapply desc_disjoint.
Qed.

(** Writing a leaf descriptor over an entry that is not a table: exactly the walks that reach
    the entry change. *)
Lemma walk_put_leaf m used T p t i d old va : page_slab s m used → tree s m used root T →
  T !! p = Some t → 0 ≤ i < 512 → 0 ≤ d < 2 ^ 64 →
  desc_at m t i = Some old → Z.testbit old 0 && Z.testbit old 1 && (length p <? 2)%nat = false →
  Z.testbit d 0 = true → Z.testbit d 1 = (length p =? 2)%nat →
  tree s (put_desc t i d m) used root T ∧
  walk 2 (put_desc t i d m) root va =
    if decide (p ++ [i] = take (S (length p)) (indices va))
    then Some ((2 - length p)%nat, d) else walk 2 m root va.
Proof.
  intros Hps Htr Hp Hi Hd Hold Hnt H0 H1. pose proof Htr as [Hr Hn Hinj He Hc].
  destruct (Hn p t Hp) as [Hlen _]. destruct (He p t i Hp Hi) as (old' & Hold' & Hok).
  rewrite Hold in Hold'. simplify_eq. split.
  - apply (tree_put m used T p t i d); try done. unfold entry_ok in *.
    case_decide as Hl; [rewrite Hl in H1; done|]. rewrite Hok, H0, H1.
    destruct (Nat.ltb_spec (length p) 2); [|lia]. rewrite andb_true_r in Hnt. rewrite Hnt.
    by destruct (Nat.eqb_spec (length p) 2).
  - rewrite (walk_update m (put_desc t i d m) used T p t i 2 [] root va); try done; [| |simpl; lia].
    2:{ intros q t' j ???. by eapply put_other. }
    case_decide as Hdec; [|done].
    assert (i = va_index (2 - length p) va) as Hidx.
    { replace (S (length p)) with (3 - (2 - length p))%nat in Hdec by lia.
      rewrite indices_take in Hdec by lia. by apply app_inj_tail in Hdec as [_ ->]. }
    rewrite walk_eq, <-Hidx, desc_at_put_same, H0, H1 by done.
    destruct (Nat.eqb_spec (length p) 2) as [Hl|Hl]; [by rewrite Hl|].
    by destruct (2 - length p)%nat eqn:E; [lia|].
Qed.

(** *** A new table *)

Section extend.
Context (m m1 : mem) (used : gset Z) (T : gmap (list Z) Z) (p : list Z) (t i n old : Z).
Hypothesis Hps : page_slab s m used.
Hypothesis Htr : tree s m used root T.
Hypothesis Hp : T !! p = Some t.
Hypothesis Hlen : (length p < 2)%nat.
Hypothesis Hi : 0 ≤ i < 512.
Hypothesis Hold : desc_at m t i = Some old.
Hypothesis Hinvalid : Z.testbit old 0 = false.
Hypothesis Hn : 0 ≤ n < max_store s.
Hypothesis Hnew : n ∉ used.
Hypothesis Hps1 : page_slab s m1 ({[n]} ∪ used).
Hypothesis Hzero : ∀ j, 0 ≤ j < 512 → desc_at m1 (slot_address s n) j = Some 0.
Hypothesis Hframe : ∀ a, ¬ (starting_address s ≤ a < starting_address s + header_size s) →
  ¬ (slot_address s n ≤ a < slot_address s n + 4096) → m1 !! a = m !! a.

Local Abbreviation c := (slot_address s n).
Local Abbreviation m2 := (put_desc t i (paging_l012_create_entry_table c) m1).
Local Abbreviation T2 := (<[p ++ [i] := c]> T).

Lemma extend_agree q t' j d : T !! q = Some t' → 0 ≤ j < 512 →
  desc_at m t' j = Some d → desc_at m1 t' j = Some d.
Proof.
  intros Hq Hj. apply desc_at_agree; [done|]. intros a Ha.
  destruct (table_slot m used T q t' Hps Htr Hq) as (_ & _ & Hhdr).
  destruct (tr_node _ _ _ _ _ Htr q t' Hq) as (_ & k & Hk & ->).
  assert (k ≠ n) as Hne by congruence.
  destruct (slot_distinct s k n (ps_obj _ _ _ Hps) Hne); apply Hframe; lia.
Qed.

Lemma extend_tree1 : tree s m1 ({[n]} ∪ used) root T.
Proof. eapply tree_frame; [done|set_solver|]. intros q t' j d. apply extend_agree. Qed.

Lemma extend_fresh q : T !! q ≠ Some c.
Proof.
  intros Hq. destruct (tr_node _ _ _ _ _ Htr q c Hq) as (_ & k & Hk & He).
  destruct (decide (n = k)) as [->|Hne]; [done|].
  destruct (slot_distinct s n k (ps_obj _ _ _ Hps) Hne); lia.
Qed.

Lemma extend_none : T !! (p ++ [i]) = None.
Proof.
  destruct (tr_entry _ _ _ _ _ Htr p t i Hp Hi) as (d & Hd & Hok).
  rewrite Hold in Hd. simplify_eq. unfold entry_ok in Hok. rewrite decide_False in Hok by lia.
  by rewrite Hinvalid in Hok.
Qed.

(** The new table does not overlap the descriptor that is written. *)
Lemma extend_zero j : 0 ≤ j < 512 → desc_at m2 c j = Some 0.
Proof.
  intros Hj. apply desc_at_put_other; [|by apply Hzero].
  destruct (tr_node _ _ _ _ _ Htr p t Hp) as (_ & k & Hk & ->).
  assert (k ≠ n) as Hne by congruence.
  destruct (slot_distinct s k n (ps_obj _ _ _ Hps) Hne); lia.
Qed.

Lemma extend_tree : tree s m2 ({[n]} ∪ used) root T2.
Proof.
  pose proof extend_tree1 as Htr1. pose proof Htr as [Hr Hnode Hinj He Hc].
  assert (length (p ++ [i]) = S (length p)) as Hlen2 by (rewrite length_app; simpl; lia).
  split.
  - rewrite lookup_insert_ne; [done|]. intros E%(f_equal length). simpl in E. lia.
  - intros q t'. rewrite lookup_insert_Some. intros [[<- <-]|[_ Hq]].
    + split; [lia|]. exists n. set_solver.
    + destruct (Hnode q t' Hq) as (? & k & ? & ?). split; [done|]. exists k. set_solver.
  - intros q q' t'. rewrite !lookup_insert_Some. intros [[<- <-]|[_ Hq]] [[<- Hq']|[_ Hq']];
      subst;
      first [done|by destruct (extend_fresh q)|by destruct (extend_fresh q')|by eapply Hinj].
  - intros q t' j. rewrite lookup_insert_Some. intros [[<- <-]|[Hne Hq]] Hj.
    + exists 0. split; [by apply extend_zero|]. unfold entry_ok. rewrite Z.bits_0.
      case_decide; [done|]. simpl. rewrite lookup_insert_ne.
      * destruct (T !! ((p ++ [i]) ++ [j])) as [c'|] eqn:E; [|done]. apply Hc in E as [[x Hx] _].
        by rewrite extend_none in Hx.
      * intros E%(f_equal length). rewrite !length_app in E. simpl in E. lia.
    + destruct (decide ((q, j) = (p, i))) as [[= -> ->]|Hqj].
      * exists (paging_l012_create_entry_table c). rewrite Hp in Hq. simplify_eq.
        split; [apply desc_at_put_same, table_desc_range|]. unfold entry_ok.
        rewrite decide_False by lia. destruct (table_desc_bits c) as [-> ->].
        destruct (slot_facts s m used n Hps Hn) as (? & ? & _).
        by rewrite lookup_insert_eq, table_desc_address.
      * destruct (He q t' j Hq Hj) as (d & Hd & Hok). exists d. split.
        -- apply desc_at_put_other; [|by eapply extend_agree].
           by eapply (desc_disjoint m used T).
        -- unfold entry_ok in *. case_decide; [done|]. rewrite lookup_insert_ne; [done|].
           intros [-> ->]%app_inj_tail. by destruct Hqj.
  - intros q j t'. rewrite lookup_insert_Some. intros [[E _]|[_ Hq]].
    + apply app_inj_tail in E as [<- <-]. split; [|done].
      rewrite lookup_insert_ne; [by eexists|]. intros E%(f_equal length). lia.
    + apply Hc in Hq as [[x Hx] Hj]. split; [|done].
      destruct (decide (p ++ [i] = q)) as [<-|]; [by rewrite extend_none in Hx|].
      rewrite lookup_insert_ne by done. by eexists.
Qed.

Lemma extend_walk va : walk 2 m2 root va = walk 2 m root va.
Proof.
  pose proof extend_tree1 as Htr1.
  assert (∀ q t' j, T !! q = Some t' → 0 ≤ j < 512 → desc_at m1 t' j = desc_at m t' j) as Hag.
  { intros q t' j Hq Hj. destruct (tr_entry _ _ _ _ _ Htr q t' j Hq Hj) as (d & Hd & _).
    rewrite Hd. by eapply extend_agree. }
  assert (walk 2 m1 root va = walk 2 m root va) as Hw1.
  { apply (walk_below m m1 used T 2 [] root); [done|apply Htr|done|..].
    - eapply Hag; [apply Htr|apply va_index_range].
    - intros q t' j Hq _ Hj. by eapply Hag. }
  assert (∀ q t' j, T !! q = Some t' → 0 ≤ j < 512 → (q, j) ≠ (p, i) →
    desc_at m2 t' j = desc_at m1 t' j) as Hag2.
  { intros q t' j Hq Hj Hne. by eapply (put_other m1 ({[n]} ∪ used) T p). }
  rewrite (walk_update m1 m2 ({[n]} ∪ used) T p t i 2 [] root va Htr1 Hp Hag2);
    [|apply Htr|simpl; lia|done|done].
  case_decide as Hdec; [|done].
  rewrite (walk_update m m used T p t i 2 [] root va Htr Hp); [|done|apply Htr|simpl; lia|done|done].
  rewrite decide_True by done.
  assert (i = va_index (2 - length p) va) as Hidx.
  { replace (S (length p)) with (3 - (2 - length p))%nat in Hdec by lia.
    rewrite indices_take in Hdec by lia. by apply app_inj_tail in Hdec as [_ ->]. }
  rewrite !walk_eq, <-Hidx, Hold, Hinvalid, desc_at_put_same by apply table_desc_range.
  destruct (table_desc_bits c) as [-> ->]. destruct (2 - length p)%nat as [|k] eqn:E; [lia|].
  destruct (slot_facts s m used n Hps Hn) as (? & ? & _).
  rewrite table_desc_address by done. rewrite walk_eq, extend_zero by apply va_index_range.
  by rewrite Z.bits_0.
Qed.
End extend.

(** *** Insertion *)

(** What an insertion may write: the header of the slab, the tables of the tree and the tables
    it allocates. *)
Definition insert_frame (T : gmap (list Z) Z) (used used' : gset Z) (m m' : mem) : Prop :=
  ∀ a, ¬ (starting_address s ≤ a < starting_address s + header_size s) →
    (∀ q t, T !! q = Some t → ¬ (t ≤ a < t + 4096)) →
    (∀ k, k ∈ used' → k ∉ used → ¬ (slot_address s k ≤ a < slot_address s k + 4096)) →
    m' !! a = m !! a.

(** The state after [d] was inserted for the page with the indices of [va]. *)
Definition inserted (m : mem) (used : gset Z) (T : gmap (list Z) Z) (va d : Z) (k : nat)
    (m' : mem) : Prop :=
  ∃ used' T', page_slab s m' used' ∧ tree s m' used' root T' ∧
    used ⊆ used' ∧ size used' = (size used + k)%nat ∧
    (∀ va', walk 2 m' root va' =
      if decide (indices va' = indices va) then Some (O, d) else walk 2 m root va') ∧
    insert_frame T used used' m m' ∧
    (∀ q t, T' !! q = Some t → T !! q = Some t ∨ ∃ n, (n ∉ used) ∧ t = slot_address s n).

Lemma insert_leaf m used T p t va d old :
  page_slab s m used → tree s m used root T → T !! p = Some t → length p = 2%nat →
  p ++ [va_index 0 va] = indices va → 0 ≤ d < 2 ^ 64 →
  Z.testbit d 0 = true → Z.testbit d 1 = true →
  desc_at m t (va_index 0 va) = Some old → Z.testbit old 0 = false →
  block_set t (va_index 0 va) d m = Ok tt (put_desc t (va_index 0 va) d m) ∧
  inserted m used T va d 0 (put_desc t (va_index 0 va) d m).
Proof.
  intros Hps Htr Hp Hlen Hpre Hd H0 H1 Hold Hbit. pose proof (va_index_range 0 va) as Hi.
  split; [by eapply block_set_ok, desc_at_mapped|]. exists used, T.
  destruct (tr_node _ _ _ _ _ Htr p t Hp) as (_ & n & Hn & Ht).
  assert (Z.testbit old 0 && Z.testbit old 1 && (length p <? 2)%nat = false) as Hnt
    by by rewrite Hbit.
  assert (Z.testbit d 1 = (length p =? 2)%nat) as Hd1 by by rewrite Hlen.
  pose proof (λ va', walk_put_leaf m used T p t _ d old va' Hps Htr Hp Hi Hd Hold Hnt H0 Hd1) as Hw.
  split; [subst t; apply page_slab_put; try done; by apply (ps_used _ _ _ Hps)|].
  split; [apply (Hw va)|]. split; [done|]. split; [lia|]. split.
  - intros va'. rewrite (proj2 (Hw va')), Hpre, Hlen. change (take 3 (indices va')) with (indices va').
    destruct (decide (indices va = indices va')), (decide (indices va' = indices va));
      first [done|congruence].
  - split; [|by left]. intros a _ Ha _. apply put_desc_outside. specialize (Ha p t Hp). lia.
Qed.

(** A table allocated and linked: the new state, of which no walk sees anything. *)
Definition extended (m : mem) (used : gset Z) (T : gmap (list Z) Z) (k : Z) (m2 : mem)
    (T2 : gmap (list Z) Z) : Prop :=
  size ({[k]} ∪ used) = S (size used) ∧
  (∀ va, walk 2 m2 root va = walk 2 m root va) ∧
  (∀ q t, T2 !! q = Some t → T !! q = Some t ∨ (t = slot_address s k ∧ k ∉ used)) ∧
  insert_frame T used ({[k]} ∪ used) m m2.

Lemma extend_step pm m used T p t i old k :
  pages_allocator pm = s → page_slab s m used → tree s m used root T → T !! p = Some t →
  (length p < 2)%nat → 0 ≤ i < 512 → desc_at m t i = Some old → Z.testbit old 0 = false →
  free_slot s used = Some k →
  ∃ m2 T2 c, (let* pts := paging_allocate_table pm in
      block_set t i (paging_l012_create_entry_table pts) ;; ret pts) m = Ok c m2 ∧
    page_slab s m2 ({[k]} ∪ used) ∧ tree s m2 ({[k]} ∪ used) root T2 ∧
    T2 !! (p ++ [i]) = Some c ∧ (∀ j, 0 ≤ j < 512 → desc_at m2 c j = Some 0) ∧
    extended m used T k m2 T2.
Proof.
  intros Hpm Hps Htr Hp Hlen Hi Hold Hbit Hk.
  destruct (allocate_table_spec s pm m used k Hpm Hps Hk)
    as (m1 & Hal & Hkr & Hnew & Hps1 & Hz & Hfr).
  set (c := slot_address s k). set (d := paging_l012_create_entry_table c).
  assert (desc_at m1 t i = Some old) as Hold1.
  { by eapply (extend_agree m m1 used T p k). }
  destruct (tr_node _ _ _ _ _ Htr p t Hp) as (_ & n & Hn & Ht).
  exists (put_desc t i d m1), (<[p ++ [i] := c]> T), c. split; [|split; [|split; [|split; [|split]]]].
  - rewrite (bind_ok _ _ _ _ _ Hal).
    by rewrite (bind_ok _ _ _ _ _ (block_set_ok _ _ _ _ (desc_at_mapped _ _ _ _ Hold1))).
  - subst t. apply page_slab_put; [done|by apply (ps_used _ _ _ Hps)|done].
  - by eapply (extend_tree m m1 used T p t i k old).
  - apply lookup_insert_eq.
  - by eapply (extend_zero m m1 used T p t i k old).
  - split; [rewrite size_union, size_singleton by set_solver; lia|]. split; [|split].
    + by eapply (extend_walk m m1 used T p t i k old).
    + intros q t'. rewrite lookup_insert_Some. intros [[_ <-]|[_ ?]]; [by right|by left].
    + intros a Ha HT Hs. unfold d. rewrite put_desc_outside by (specialize (HT p t Hp); lia).
      apply Hfr; [done|]. apply Hs; [set_solver|done].
Qed.

Lemma inserted_extend m m2 m' used k T T2 va d n :
  extended m used T k m2 T2 → inserted m2 ({[k]} ∪ used) T2 va d n m' →
  inserted m used T va d (S n) m'.
Proof.
  intros (Hsize & Hwk & HT & Hfr) (used' & T' & Hps & Htr & Hsub & Hsize' & Hwalk & Hfr' & HT').
  exists used', T'. split; [done|]. split; [done|]. split; [set_solver|].
  split; [rewrite Hsize', Hsize; lia|]. split.
  - intros va'. rewrite Hwalk. case_decide; [done|apply Hwk].
  - split; [|intros q t' [[Hq|[-> Hk]]%HT|(j & Hj & ->)]%HT'; [by left|right; by exists k|right; exists j; set_solver]].
    intros a Ha Ht Hn. rewrite Hfr'; [apply Hfr|..]; try done.
    + intros j [->%elem_of_singleton|Hj]%elem_of_union Hnot; [apply Hn; set_solver|done].
    + intros q t' [Hq|[-> Hk]]%HT; [by eapply Ht|]. apply Hn; set_solver.
    + intros j Hj Hnot. apply Hn; set_solver.
Qed.

Lemma insert_spec pm va pa u r n m used T p t :
  pages_allocator pm = s → 0 ≤ va < 2 ^ 39 →
  page_slab s m used → tree s m used root T → T !! p = Some t → (length p + n = 2)%nat →
  p = take (length p) (indices va) →
  let d := paging_l3_create_entry_block pa u r in
  let run := paging_insert_or_alloc n pm t (3 - Z.of_nat n) va pa u r in
  match walk n m t va, missing n m t va with
  | Some (O, old), _ => run m = Ok (if old =? d then 0 else -1) m
  | Some (S _, _), _ | None, None => run m = Ok (-1) m
  | None, Some k => Z.of_nat (size used + k) ≤ max_store s →
      ∃ m', run m = Ok 0 m' ∧ inserted m used T va d k m'
  end.
Proof.
  intros Hpm Hva. revert m used T p t.
  induction n as [|n IH]; intros m used T p t Hps Htr Hp Hlen Hpre d run.
  - pose proof (va_index_range 0 va) as Hi.
    destruct (tr_entry _ _ _ _ _ Htr p t _ Hp Hi) as (old & Hold & Hok).
    assert (run m = (if old =? d then ret 0 else if Z.land old 1 =? 1 then ret (-1) else
      block_set t (va_index 0 va) d ;; ret 0) m) as ->.
    { unfold run. cbn [paging_insert_or_alloc]. rewrite split_address_indices by done.
      change (3 - Z.of_nat 0) with 3. change (3 <? 1) with false. change (3 <? 3) with false.
      cbv beta iota. by rewrite (bind_ok _ _ _ _ _ (block_get_ok _ _ _ _ Hold)). }
    rewrite walk_eq, Hold, land_1_valid. unfold entry_ok in Hok. rewrite decide_True in Hok by lia.
    cbn [missing]. destruct (Z.testbit old 0) eqn:H0.
    + rewrite Hok by done. by destruct (old =? d).
    + intros _. destruct (page_desc_bits pa u r) as (Hd0 & Hd1 & _).
      destruct (Z.eqb_spec old d) as [->|_]; [unfold d in H0; congruence|].
      destruct (insert_leaf m used T p t va d old) as [Hset Hins]; try done; [lia| |apply page_desc_range|].
      { rewrite Hpre. by replace (length p) with 2%nat by lia. }
      eexists. split; [|done]. by rewrite (bind_ok _ _ _ _ _ Hset).
  - pose proof (va_index_range (S n) va) as Hi.
    destruct (tr_entry _ _ _ _ _ Htr p t _ Hp Hi) as (old & Hold & Hok).
    assert (S (length p) = (2 - n))%nat as Hlen1 by lia.
    assert (p ++ [va_index (S n) va] = take (2 - n) (indices va)) as Hpre1.
    { replace (2 - n)%nat with (3 - S n)%nat by lia. rewrite indices_take by lia.
      rewrite Hpre at 1. f_equal. f_equal. lia. }
    assert (run m = (if Z.land old 3 =? 1 then ret (-1) else
      let* pts := if Z.land old 1 =? 0 then
          let* pts := paging_allocate_table pm in
          block_set t (va_index (S n) va) (paging_l012_create_entry_table pts) ;; ret pts
        else ret (table_address_of old) in
      paging_insert_or_alloc n pm pts (3 - Z.of_nat n) va pa u r) m) as ->.
    { unfold run. cbn [paging_insert_or_alloc]. rewrite split_address_indices by done.
      replace (3 - Z.of_nat (S n) + 1) with (3 - Z.of_nat n) by lia.
      destruct (Z.ltb_spec (3 - Z.of_nat (S n)) 1); [lia|].
      destruct (Z.ltb_spec (3 - Z.of_nat (S n)) 3); [|lia]. cbv beta iota.
      assert ((if 3 - Z.of_nat (S n) =? 1 then va_index 2 va else va_index 1 va) =
        va_index (S n) va) as -> by (assert (n = 0 ∨ n = 1)%nat as [-> | ->] by lia; done).
      by rewrite !(bind_ok _ _ _ _ _ (block_get_ok _ _ _ _ Hold)). }
    rewrite walk_eq. cbn [missing]. rewrite Hold, land_3_block, land_1_testbit.
    destruct (Z.testbit old 0) eqn:H0; cbn [andb negb];
      [destruct (Z.testbit old 1) eqn:H1; cbn [andb negb]; [|reflexivity]|].
    + (* the table exists *)
      apply (IH m used T (p ++ [va_index (S n) va])); try done.
      * eapply tree_step; try done. lia.
      * rewrite length_app. simpl. lia.
      * rewrite length_app, Nat.add_1_r, Hlen1. done.
    + (* a new table *)
      intros Hcap. destruct (free_slot_exists s used) as [k Hk]; [lia|lia|].
      destruct (extend_step pm m used T p t (va_index (S n) va) old k)
        as (m2 & T2 & c & Hrun & Hps2 & Htr2 & Hc & Hz & Hext); try done; [lia|].
      rewrite (bind_ok _ _ _ _ _ Hrun).
      assert (missing n m2 c va = Some n ∧ walk n m2 c va = None) as [Hmiss Hwalk].
      { rewrite walk_eq, Hz by apply va_index_range. rewrite Z.bits_0. split; [|done].
        destruct n; [done|]. cbn [missing]. by rewrite Hz, Z.bits_0 by apply va_index_range. }
      destruct Hext as (Hsize & Hwk & HT & Hfr).
      specialize (IH m2 ({[k]} ∪ used) T2 (p ++ [va_index (S n) va]) c Hps2 Htr2 Hc).
      rewrite Hwalk, Hmiss in IH. destruct IH as (m' & Hm' & Hins).
      * rewrite length_app. simpl. lia.
      * by rewrite length_app, Nat.add_1_r, Hlen1.
      * rewrite Hsize. lia.
      * exists m'. split; [done|]. by eapply (inserted_extend m m2 m' used k T T2 va).
Qed.
End tree.

(** *** A new address space *)

Lemma clear_root_tree s m used n : page_slab s m ({[n]} ∪ used) → 0 ≤ n < max_store s →
  (∀ j, 0 ≤ j < 512 → desc_at m (slot_address s n) j = Some 0) →
  tree s m ({[n]} ∪ used) (slot_address s n) {[ [] := slot_address s n ]} ∧
  ∀ va, walk 2 m (slot_address s n) va = None.
Proof.
  intros Hps Hn Hz. split.
  - split.
    + apply lookup_insert_eq.
    + intros p t. rewrite lookup_singleton_Some. intros [<- <-]. split; [simpl; lia|].
      exists n. set_solver.
    + intros p q t [<- _]%lookup_singleton_Some [<- _]%lookup_singleton_Some. done.
    + intros p t i. rewrite lookup_singleton_Some. intros [<- <-] Hi. exists 0.
      split; [by apply Hz|]. unfold entry_ok. simpl.
      by rewrite lookup_singleton_ne.
    + intros p i c. rewrite lookup_singleton_Some. intros [E%(f_equal length) _].
      rewrite length_app in E. simpl in E. lia.
  - intros va. by rewrite walk_eq, Hz, Z.bits_0 by apply va_index_range.
Qed.

Lemma manager_init_spec s m used n : page_slab s m used → free_slot s used = Some n →
  let pm := mk_paging_manager (slot_address s n) s in
  ∃ m', paging_manager_init s m = Ok pm m' ∧ (n ∉ used) ∧
    page_slab s m' ({[n]} ∪ used) ∧
    tree s m' ({[n]} ∪ used) (l1 pm) {[ [] := l1 pm ]} ∧
    (∀ j, 0 ≤ j < 512 → desc_at m' (l1 pm) j = Some 0) ∧
    (∀ va, walk 2 m' (l1 pm) va = None) ∧
    insert_frame s ∅ used ({[n]} ∪ used) m m'.
Proof.
  intros Hps Hn pm. destruct (allocate_table_spec s pm m used n eq_refl Hps Hn)
    as (m' & Hal & Hr & Hnew & Hps' & Hz & Hfr).
  destruct (clear_root_tree s m' used n Hps' Hr Hz) as [Htr Hw]. exists m'. split.
  - unfold paging_allocate_table in Hal. unfold paging_manager_init. change s with (pages_allocator pm).
    unfold bind in *. destruct (slab_allocate _ m) as [c m1| |]; [|done..].
    change paging_create_entry_invalid with 0.
    destruct (for_int _ _ m1) as [? m2| |]; [|done..]. unfold ret in *. by simplify_eq.
  - do 5 (split; [done|]). intros a Ha _ Hs. apply Hfr; [done|]. apply Hs; [set_solver|done].
Qed.

Lemma map_1gb_spec pm m used T va pa u r old :
  let s := pages_allocator pm in
  page_slab s m used → tree s m used (l1 pm) T → 0 ≤ va < 2 ^ 39 →
  desc_at m (l1 pm) (va / 2 ^ 30) = Some old → Z.testbit old 0 && Z.testbit old 1 = false →
  let d := paging_l012_create_entry_block pa 1 u r in
  ∃ m', paging_manager_map_1gb pm va pa u r m = Ok tt m' ∧
    page_slab s m' used ∧ tree s m' used (l1 pm) T ∧
    (∀ j, 0 ≤ j < 512 → desc_at m' (l1 pm) j = if decide (j = va / 2 ^ 30) then Some d else desc_at m (l1 pm) j) ∧
    (∀ va', 0 ≤ va' < 2 ^ 39 → walk 2 m' (l1 pm) va' =
      if decide (va' / 2 ^ 30 = va / 2 ^ 30) then Some (2%nat, d) else walk 2 m (l1 pm) va') ∧
    insert_frame s T used used m m'.
Proof.
  intros s Hps Htr Hva Hold Hnt d. pose proof (tr_root _ _ _ _ _ Htr) as Hr.
  destruct (tr_node _ _ _ _ _ Htr _ _ Hr) as (_ & n & Hn & Ht).
  assert (∀ v, 0 ≤ v < 2 ^ 39 → va_index 2 v = v / 2 ^ 30 ∧ 0 ≤ v / 2 ^ 30 < 512) as Hidx.
  { intros v Hv. unfold va_index. change (page_shift 2) with 30.
    assert (0 ≤ v / 2 ^ 30 < 512); [|by rewrite Z.mod_small].
    split; [apply Z.div_pos; lia|apply Z.div_lt_upper_bound; lia]. }
  destruct (Hidx va Hva) as [_ Hi]. destruct (block_desc_bits pa u r) as (H0 & H1 & _).
  assert (Z.testbit old 0 && Z.testbit old 1 && (length ([] : list Z) <? 2)%nat = false) as Hnt'.
  { by rewrite Hnt. }
  pose proof (λ va', walk_put_leaf s (l1 pm) m used T [] (l1 pm) _ d old va' Hps Htr Hr Hi
    (block_desc_range pa u r) Hold Hnt' H0 H1) as Hw.
  exists (put_desc (l1 pm) (va / 2 ^ 30) d m). split; [|split; [|split; [|split; [|split]]]].
  - unfold paging_manager_map_1gb. change 0x40000000 with (2 ^ 30).
    rewrite i32_small by (unfold INT_MIN, INT_MAX; lia).
    by eapply block_set_ok, desc_at_mapped.
  - rewrite Ht. apply page_slab_put; [done|by apply (ps_used _ _ _ Hps)|done].
  - apply (Hw va).
  - intros j Hj. case_decide as E; [subst j; apply desc_at_put_same, block_desc_range|].
    eapply (put_other s (l1 pm) m used T []); try done. congruence.
  - intros va' Hva'. destruct (Hidx va' Hva') as [E Hi']. rewrite (proj2 (Hw va')).
    change (take (S (length ([] : list Z))) (indices va')) with [va_index 2 va']. rewrite E.
    destruct (decide ([] ++ [va / 2 ^ 30] = [va' / 2 ^ 30])) as [[= ->]|Hne];
      [by rewrite decide_True|]. rewrite decide_False; [done|]. intros Heq. by rewrite Heq in Hne.
  - intros a _ Ha _. apply put_desc_outside. specialize (Ha [] _ Hr). lia.
Qed.

(** ** From walks to translations *)

Definition in_space (va : Z) : Prop := 0 ≤ va < 2 ^ 39.

Lemma translate_ext m m' root root' va :
  (in_space va → walk 2 m' root' va = walk 2 m root va) →
  translate m' root' va = translate m root va.
Proof.
  intros Hw. unfold translate. destruct (Z.leb_spec 0 va), (Z.ltb_spec va (2 ^ 39)); cbn [andb]; try done.
  by rewrite Hw by (unfold in_space; lia).
Qed.

Lemma translate_page m root va pa u r : in_space va → 0 ≤ pa < 2 ^ 48 →
  walk 2 m root va = Some (O, paging_l3_create_entry_block pa u r) →
  translate m root va = Some (pa - pa mod 4096 + va mod 4096, u, r).
Proof.
  intros Hva Hpa Hw. unfold translate, in_space in *.
  destruct (Z.leb_spec 0 va), (Z.ltb_spec va (2 ^ 39)); cbn [andb]; try lia.
  rewrite Hw.
  destruct (page_desc_bits pa u r) as (_ & _ & -> & -> & ->). by rewrite page_desc_address.
Qed.

Lemma translate_block m root va pa u r : in_space va → 0 ≤ pa < 2 ^ 48 →
  walk 2 m root va = Some (2%nat, paging_l012_create_entry_block pa 1 u r) →
  translate m root va = Some (pa - pa mod 2 ^ 30 + va mod 2 ^ 30, u, r).
Proof.
  intros Hva Hpa Hw. unfold translate, in_space in *.
  destruct (Z.leb_spec 0 va), (Z.ltb_spec va (2 ^ 39)); cbn [andb]; try lia.
  rewrite Hw.
  destruct (block_desc_bits pa u r) as (_ & _ & -> & -> & ->). by rewrite block_desc_address.
Qed.

Lemma translate_unmapped m root va : walk 2 m root va = None → translate m root va = None.
Proof. intros Hw. unfold translate. rewrite Hw. by destruct (_ && _). Qed.

Lemma indices_page va va' : in_space va → in_space va' →
  indices va' = indices va ↔ va' / 4096 = va / 4096.
Proof.
  intros Hva Hva'. split.
  - intros [= H2 H1 H0]. by apply same_indices.
  - intros H. unfold indices. by rewrite !(page_index _ _ _ H).
Qed.

(** A paging manager with its tables [T]; [used] are the slots of the allocator in use, which
    several managers share. *)
Definition manager_rep (pm : paging_manager) (m : mem) (used : gset Z) (T : gmap (list Z) Z) : Prop :=
  page_slab (pages_allocator pm) m used ∧ tree (pages_allocator pm) m used (l1 pm) T.

Lemma inserted_translate s root m used T va pa u r k m' va' :
  in_space va → 0 ≤ pa < 2 ^ 48 →
  inserted s root m used T va (paging_l3_create_entry_block pa u r) k m' →
  translate m' root va' =
    if decide (in_space va' ∧ va' / 4096 = va / 4096)
    then Some (pa - pa mod 4096 + va' mod 4096, u, r) else translate m root va'.
Proof.
  intros Hva Hpa (used' & T' & _ & _ & _ & _ & Hw & _). case_decide as Hd.
  - destruct Hd as [Hva' Hd]. apply translate_page; [done|done|].
    by rewrite Hw, decide_True by (by apply indices_page).
  - apply translate_ext. intros Hva'. rewrite Hw, decide_False; [done|].
    intros Hi. apply Hd. split; [done|]. by apply indices_page.
Qed.

(** A tree none of whose tables are written keeps its translations. *)
Lemma tables_walk s m m' used used' root0 T0 : tree s m used root0 T0 → used ⊆ used' →
  (∀ q t a, T0 !! q = Some t → t ≤ a < t + 4096 → m' !! a = m !! a) →
  tree s m' used' root0 T0 ∧ ∀ va, walk 2 m' root0 va = walk 2 m root0 va.
Proof.
  intros Htr0 Hsub Hfr.
  assert (∀ q t j d, T0 !! q = Some t → 0 ≤ j < 512 → desc_at m t j = Some d →
    desc_at m' t j = Some d) as Hag.
  { intros q t j d Hq Hj. apply desc_at_agree; [done|]. intros a Ha. by eapply Hfr. }
  split; [by eapply tree_frame|]. intros va.
  apply (walk_below s root0 m m' used T0 2 [] root0); [done|apply Htr0|done|..].
  - destruct (tr_entry _ _ _ _ _ Htr0 [] root0 (va_index 2 va)) as (d & Hd & _);
      [apply Htr0|apply va_index_range|]. rewrite Hd. eapply Hag; [apply Htr0|apply va_index_range|done].
  - intros q t j Hq _ Hj. destruct (tr_entry _ _ _ _ _ Htr0 q t j Hq Hj) as (d & Hd & _).
    rewrite Hd. by eapply Hag.
Qed.

Lemma tables_kept s m m' used used' root0 T0 : tree s m used root0 T0 → used ⊆ used' →
  (∀ q t a, T0 !! q = Some t → t ≤ a < t + 4096 → m' !! a = m !! a) →
  tree s m' used' root0 T0 ∧ ∀ va, translate m' root0 va = translate m root0 va.
Proof.
  intros Htr Hsub Hfr. destruct (tables_walk _ _ _ _ _ _ _ Htr Hsub Hfr) as [Htr' Hw]. split; [done|].
  intros va. by apply translate_ext.
Qed.

Lemma frame_translate s m m' used used' root T root0 T0 :
  page_slab s m used → tree s m used root T → tree s m used root0 T0 →
  (∀ p q t, T !! p = Some t → T0 !! q ≠ Some t) → used ⊆ used' →
  insert_frame s T used used' m m' →
  tree s m' used' root0 T0 ∧ ∀ va, translate m' root0 va = translate m root0 va.
Proof.
  intros Hps Htr Htr0 Hdis Hsub Hfr. eapply tables_kept; [done|done|]. intros q t a Hq Ha.
  destruct (table_slot s root0 m used T0 q t Hps Htr0 Hq) as (_ & _ & Hhdr).
  destruct (tr_node _ _ _ _ _ Htr0 q t Hq) as (_ & k & Hk & ->). apply Hfr; [lia|..].
  - intros p t Hp Hin. destruct (tr_node _ _ _ _ _ Htr p t Hp) as (_ & n & Hn & ->).
    destruct (decide (k = n)) as [->|Hne]; [by eapply Hdis|].
    destruct (slot_distinct s k n (ps_obj _ _ _ Hps) Hne); lia.
  - intros n Hn Hnot Hin. assert (k ≠ n) as Hne by congruence.
    destruct (slot_distinct s k n (ps_obj _ _ _ Hps) Hne); lia.
Qed.

(** An unmapped address has a number of missing tables. *)
Lemma missing_some s root m used T n p t va : tree s m used root T → T !! p = Some t →
  (length p + n = 2)%nat → walk n m t va = None → ∃ k, missing n m t va = Some k ∧ (k ≤ n)%nat.
Proof.
  intros Htr. revert p t. induction n as [|n IH]; intros p t Hp Hlen; [by exists O|].
  rewrite walk_eq. cbn [missing]. pose proof (va_index_range (S n) va) as Hi.
  destruct (tr_entry _ _ _ _ _ Htr p t _ Hp Hi) as (d & -> & Hok). unfold entry_ok in Hok.
  rewrite decide_False in Hok by lia. destruct (Z.testbit d 0); [|exists (S n); auto].
  destruct (Z.testbit d 1); [|done]. intros Hw.
  destruct (IH _ _ Hok) as (k & Hk & Hle); [rewrite length_app; simpl; lia|done|]. exists k. split; [done|lia].
Qed.

(** *** Building one address space

    [used] are the slots of the tables that exist before the space: it never writes them. *)

Definition fresh_tables (s : slab) (used : gset Z) (T : gmap (list Z) Z) : Prop :=
  ∀ q t, T !! q = Some t → ∃ n, (n ∉ used) ∧ t = slot_address s n.

Definition space_frame (s : slab) (used : gset Z) (m m' : mem) : Prop :=
  ∀ a, ¬ (starting_address s ≤ a < starting_address s + header_size s) →
    (∀ n, n ∉ used → 0 ≤ n < max_store s → ¬ (slot_address s n ≤ a < slot_address s n + 4096)) →
    m' !! a = m !! a.

Lemma space_frame_trans s used m1 m2 m3 :
  space_frame s used m1 m2 → space_frame s used m2 m3 → space_frame s used m1 m3.
Proof. intros H1 H2 a Ha Hn. by rewrite H2, H1. Qed.

(** The other address spaces of the slab keep their tables and their translations. *)
Lemma space_frame_other s used m m' used' root0 T0 :
  page_slab s m used → tree s m used root0 T0 → used ⊆ used' → space_frame s used m m' →
  tree s m' used' root0 T0 ∧ ∀ va, translate m' root0 va = translate m root0 va.
Proof.
  intros Hps Htr0 Hsub Hfr. eapply tables_kept; [done|done|]. intros q t a Hq Ha.
  destruct (table_slot s root0 m used T0 q t Hps Htr0 Hq) as (_ & _ & Hhdr).
  destruct (tr_node _ _ _ _ _ Htr0 q t Hq) as (_ & k & Hk & ->). apply Hfr; [lia|].
  intros n Hn _ Hin. assert (k ≠ n) as Hne by congruence.
  destruct (slot_distinct s k n (ps_obj _ _ _ Hps) Hne); lia.
Qed.

Lemma insert_space_frame s m m' used0 used used' root T :
  tree s m used root T → fresh_tables s used0 T → used0 ⊆ used → page_slab s m used → page_slab s m' used' →
  insert_frame s T used used' m m' → space_frame s used0 m m'.
Proof.
  intros Htr HT Hsub Hps Hps' Hfr a Ha Hn. apply Hfr; [done|..].
  - intros q t Hq. destruct (tr_node _ _ _ _ _ Htr q t Hq) as (_ & k & Hk & ->).
    destruct (HT q _ Hq) as (j & Hj & E). assert (k = j) as ->; [|apply Hn; [done|by apply (ps_used _ _ _ Hps)]].
    destruct (decide (k = j)); [done|]. destruct (slot_distinct s k j (ps_obj _ _ _ Hps)); [done|lia..].
  - intros k Hk Hnot. apply Hn; [set_solver|by apply (ps_used _ _ _ Hps')].
Qed.

(** A page of the space that is not mapped yet. *)
Lemma map_fresh_page pm mc used0 used T va pa u r :
  let s := pages_allocator pm in
  manager_rep pm (ram mc) used T → fresh_tables s used0 T → used0 ⊆ used → in_space va → 0 ≤ pa < 2 ^ 48 →
  walk 2 (ram mc) (l1 pm) va = None → Z.of_nat (size used + 2) ≤ max_store s →
  ∃ m' used' T', paging_manager_map_page pm va pa u r mc =
      Ok 0 (mk_machine m' (sysregs mc) (Dsb :: Tlbi_vmalle1 :: trace mc) (env mc)) ∧
    manager_rep pm m' used' T' ∧ fresh_tables s used0 T' ∧ used ⊆ used' ∧ (size used' ≤ size used + 2)%nat ∧
    (∀ va', translate m' (l1 pm) va' =
      if decide (in_space va' ∧ va' / 4096 = va / 4096)
      then Some (pa - pa mod 4096 + va' mod 4096, u, r) else translate (ram mc) (l1 pm) va') ∧
    (∀ va', in_space va' → va' / 4096 ≠ va / 4096 → walk 2 m' (l1 pm) va' = walk 2 (ram mc) (l1 pm) va') ∧
    space_frame s used0 (ram mc) m'.
Proof.
  intros s [Hps Htr] HT Hsub Hva Hpa Hw Hcap.
  destruct (missing_some _ _ _ _ _ 2 [] (l1 pm) va Htr (tr_root _ _ _ _ _ Htr) eq_refl Hw) as (k & Hk & Hk2).
  pose proof (insert_spec _ _ pm va pa u r 2 (ram mc) used T [] (l1 pm) eq_refl Hva Hps Htr
    (tr_root _ _ _ _ _ Htr) eq_refl eq_refl) as H. cbv zeta in H. rewrite Hw, Hk in H.
  destruct H as (m' & Hrun & Hins); [fold s; lia|].
  pose proof Hins as (used' & T' & Hps' & Htr' & Hsub' & Hsize & Hwalk & Hfr & HT').
  exists m', used', T'. split; [|split; [done|split; [|split; [done|split; [lia|split; [|split]]]]]].
  - unfold paging_manager_map_page. by rewrite (bind_ok _ _ _ _ _ (on_ram_ok _ mc _ _ Hrun)).
  - intros q t [Hq|(n & Hn & ->)]%HT'; [by eapply HT|]. exists n. set_solver.
  - intros va'. by eapply inserted_translate.
  - intros va' Hva' Hne. rewrite Hwalk, decide_False; [done|]. by intros ?%indices_page.
  - by eapply insert_space_frame.
Qed.


(** * Properties *)

(** C13: mapping a page that is not mapped, with enough free slots for the missing tables:
    [paging_manager_map_page] returns 0 and invalidates the TLB, and afterwards the MMU
    translates every address of the page of [va] to the page of [pa] with the requested access
    and every other address as before; the tables stay well formed. *)
Theorem paging_map_page_maps pm mc used T va pa u r k :
  manager_rep pm (ram mc) used T → in_space va → 0 ≤ pa < 2 ^ 48 →
  walk 2 (ram mc) (l1 pm) va = None → missing 2 (ram mc) (l1 pm) va = Some k →
  Z.of_nat (size used + k) ≤ max_store (pages_allocator pm) →
  ∃ m' used' T', paging_manager_map_page pm va pa u r mc =
      Ok 0 (mk_machine m' (sysregs mc) (Dsb :: Tlbi_vmalle1 :: trace mc) (env mc)) ∧
    manager_rep pm m' used' T' ∧ used ⊆ used' ∧ size used' = (size used + k)%nat ∧
    ∀ va', translate m' (l1 pm) va' =
      if decide (in_space va' ∧ va' / 4096 = va / 4096)
      then Some (pa - pa mod 4096 + va' mod 4096, u, r) else translate (ram mc) (l1 pm) va'.
Proof.
  intros [Hps Htr] Hva Hpa Hw Hk Hcap.
  pose proof (insert_spec _ _ pm va pa u r 2 (ram mc) used T [] (l1 pm) eq_refl Hva Hps Htr
    (tr_root _ _ _ _ _ Htr) eq_refl eq_refl) as H. cbv zeta in H. rewrite Hw, Hk in H.
  destruct (H Hcap) as (m' & Hrun & Hins). pose proof Hins as (used' & T' & ? & ? & ? & ? & _).
  exists m', used', T'. split; [|do 3 (split; [done|])].
  - unfold paging_manager_map_page. by rewrite (bind_ok _ _ _ _ _ (on_ram_ok _ mc _ _ Hrun)).
  - intros va'. by eapply inserted_translate.
Qed.

(** C36: mapping an address that is already mapped changes no memory: mapping the same page
    again succeeds, mapping another page or an address inside a block returns -1 and leaves the
    whole machine as it was. *)
Theorem paging_map_page_rejects pm mc used T va pa u r n old :
  manager_rep pm (ram mc) used T → in_space va →
  walk 2 (ram mc) (l1 pm) va = Some (n, old) →
  paging_manager_map_page pm va pa u r mc =
    if decide (n = O ∧ old = paging_l3_create_entry_block pa u r)
    then Ok 0 (mk_machine (ram mc) (sysregs mc) (Dsb :: Tlbi_vmalle1 :: trace mc) (env mc))
    else Ok (-1) mc.
Proof.
  intros [Hps Htr] Hva Hw.
  pose proof (insert_spec _ _ pm va pa u r 2 (ram mc) used T [] (l1 pm) eq_refl Hva Hps Htr
    (tr_root _ _ _ _ _ Htr) eq_refl eq_refl) as H. cbv zeta in H. rewrite Hw in H.
  change (3 - Z.of_nat 2) with 1 in H. unfold paging_manager_map_page.
  destruct n as [|n]; rewrite (bind_ok _ _ _ _ _ (on_ram_ok _ mc _ _ H)), set_ram_id.
  - destruct (Z.eqb_spec old (paging_l3_create_entry_block pa u r)) as [->|Hne].
    + by rewrite decide_True.
    + rewrite decide_False by tauto. done.
  - by rewrite decide_False by (intros [? _]; lia).
Qed.

Lemma missing_bound n m t va k : missing n m t va = Some k → (k ≤ n)%nat.
Proof.
  revert t k. induction n as [|n IH]; intros t k; cbn [missing]; [intros [= <-]; lia|].
  destruct (desc_at m t _) as [d|]; [|done].
  destruct (Z.testbit d 0), (Z.testbit d 1); try (intros [= <-]; lia); try done.
  intros H%IH. lia.
Qed.

(** C24: address spaces are isolated: whatever [paging_manager_map_page] answers for one paging
    manager, every translation of another one with tables of its own in the same slab stays
    the same. *)
Theorem paging_map_page_isolated pm mc used T root0 T0 va pa u r res mc' :
  manager_rep pm (ram mc) used T → tree (pages_allocator pm) (ram mc) used root0 T0 →
  (∀ p q t, T !! p = Some t → T0 !! q ≠ Some t) →
  in_space va → Z.of_nat (size used + 2) ≤ max_store (pages_allocator pm) →
  paging_manager_map_page pm va pa u r mc = Ok res mc' →
  ∀ va', translate (ram mc') root0 va' = translate (ram mc) root0 va'.
Proof.
  intros [Hps Htr] Htr0 Hdis Hva Hcap Hrun va'.
  pose proof (insert_spec _ _ pm va pa u r 2 (ram mc) used T [] (l1 pm) eq_refl Hva Hps Htr
    (tr_root _ _ _ _ _ Htr) eq_refl eq_refl) as H. cbv zeta in H.
  change (3 - Z.of_nat 2) with 1 in H.
  assert (∀ res0 m0, paging_insert_or_alloc 2 pm (l1 pm) 1 va pa u r (ram mc) = Ok res0 m0 →
    ram mc' = m0) as Hram.
  { intros res0 m0 H0. unfold paging_manager_map_page in Hrun.
    rewrite (bind_ok _ _ _ _ _ (on_ram_ok _ mc _ _ H0)) in Hrun.
    destruct (negb (res0 =? 0)); unfold ret, emit, modify, bind in Hrun; by simplify_eq. }
  destruct (walk 2 (ram mc) (l1 pm) va) as [[[|n] old]|]; try (by rewrite (Hram _ _ H)).
  destruct (missing 2 (ram mc) (l1 pm) va) as [k|] eqn:Hk; [|by rewrite (Hram _ _ H)].
  apply missing_bound in Hk. destruct H as (m' & Hm' & Hins); [lia|]. rewrite (Hram _ _ Hm').
  destruct Hins as (used' & T' & Hps' & _ & Hsub & _ & _ & Hfr & _).
  destruct (frame_translate (pages_allocator pm) (ram mc) m' used used' (l1 pm) T root0 T0)
    as [_ Ht]; done.
Qed.

Lemma kernel_map_spec pm m used T :
  let s := pages_allocator pm in
  page_slab s m used → tree s m used (l1 pm) T →
  (∀ j, 0 ≤ j < 512 → desc_at m (l1 pm) j = Some 0) → (∀ va, walk 2 m (l1 pm) va = None) →
  ∃ m', paging_manager_map_kernel pm m = Ok tt m' ∧ page_slab s m' used ∧
    tree s m' used (l1 pm) T ∧
    (∀ va, in_space va → walk 2 m' (l1 pm) va =
      if decide (va / 2 ^ 30 = 0) then Some (2%nat, paging_l012_create_entry_block 0 1 false false)
      else if decide (va / 2 ^ 30 = 1)
      then Some (2%nat, paging_l012_create_entry_block 0x40000000 1 false false) else None) ∧
    insert_frame s T used used m m'.
Proof.
  intros s Hps Htr Hz Hw.
  destruct (map_1gb_spec pm m used T 0 0 false false 0 Hps Htr ltac:(lia) (Hz 0 ltac:(lia)) eq_refl)
    as (m1 & Hrun1 & Hps1 & Htr1 & Hent1 & Hw1 & Hfr1).
  assert (desc_at m1 (l1 pm) (0x40000000 / 2 ^ 30) = Some 0) as Hz1.
  { change (0x40000000 / 2 ^ 30) with 1. rewrite Hent1 by lia. by apply Hz. }
  destruct (map_1gb_spec pm m1 used T 0x40000000 0x40000000 false false 0 Hps1 Htr1 ltac:(lia) Hz1 eq_refl)
    as (m2 & Hrun2 & Hps2 & Htr2 & _ & Hw2 & Hfr2).
  exists m2. split; [|split; [done|split; [done|split]]].
  - unfold paging_manager_map_kernel. by rewrite (bind_ok _ _ _ _ _ Hrun1).
  - intros va Hva. rewrite Hw2, Hw1, Hw by done.
    change (0 / 2 ^ 30) with 0. change (0x40000000 / 2 ^ 30) with 1.
    destruct (decide (va / 2 ^ 30 = 1)), (decide (va / 2 ^ 30 = 0)); first [lia|done].
  - intros a Ha HT Hn. by rewrite Hfr2, Hfr1.
Qed.

(** A new space with the kernel in it. *)
Lemma kernel_identity_spec s m used n : page_slab s m used → free_slot s used = Some n →
  let pm := mk_paging_manager (slot_address s n) s in
  ∃ m1 m2, paging_manager_init s m = Ok pm m1 ∧ paging_manager_map_kernel pm m1 = Ok tt m2 ∧
    (n ∉ used) ∧ manager_rep pm m2 ({[n]} ∪ used) {[ [] := l1 pm ]} ∧
    (∀ va, translate m2 (l1 pm) va = if decide (0 ≤ va < 0x80000000) then Some (va, false, false) else None) ∧
    (∀ va, in_space va → 0x80000000 ≤ va → walk 2 m2 (l1 pm) va = None) ∧
    space_frame s used m m2.
Proof.
  intros Hps Hn pm.
  destruct (manager_init_spec s m used n Hps Hn) as (m1 & Hrun1 & Hnew & Hps1 & Htr1 & Hz1 & Hw1 & Hfr1).
  fold pm in Hrun1, Htr1, Hz1, Hw1.
  destruct (kernel_map_spec pm m1 _ _ Hps1 Htr1 Hz1 Hw1) as (m2 & Hrun2 & Hps2 & Htr2 & Hw2 & Hfr2).
  assert (∀ va, in_space va → 0x80000000 ≤ va → walk 2 m2 (l1 pm) va = None) as Habove.
  { intros va Hva Hge. rewrite Hw2 by done. pose proof (Z.div_le_mono 0x80000000 va (2 ^ 30)).
    change (0x80000000 / 2 ^ 30) with 2 in *. rewrite !decide_False by lia. done. }
  exists m1, m2. do 4 (split; [done|]). split; [|split; [done|]].
  - intros va. case_decide as Hva.
    + destruct (decide (va / 2 ^ 30 = 0)) as [E0|E0].
      * rewrite (translate_block _ _ _ 0 false false); [|unfold in_space; lia|lia|].
        -- replace (0 - 0 mod 2 ^ 30 + va mod 2 ^ 30) with va; [done|].
           rewrite (Z.mod_eq va), E0 by lia. change (0 mod 2 ^ 30) with 0. lia.
        -- rewrite Hw2 by (unfold in_space; lia). by rewrite decide_True.
      * assert (va / 2 ^ 30 = 1) as E1.
        { pose proof (Z.div_pos va (2 ^ 30)). pose proof (Z.div_lt_upper_bound va (2 ^ 30) 2). lia. }
        rewrite (translate_block _ _ _ 0x40000000 false false); [|unfold in_space; lia|lia|].
        -- replace (0x40000000 - 0x40000000 mod 2 ^ 30 + va mod 2 ^ 30) with va; [done|].
           rewrite (Z.mod_eq va), E1 by lia. change (0x40000000 mod 2 ^ 30) with 0. lia.
        -- rewrite Hw2 by (unfold in_space; lia). by rewrite decide_False, decide_True.
    + destruct (decide (in_space va)) as [Hin|Hout].
      * apply translate_unmapped, Habove; [done|]. unfold in_space in Hin. lia.
      * unfold translate, in_space in *.
        by destruct (Z.leb_spec 0 va), (Z.ltb_spec va (2 ^ 39)); [lia|..].
  - apply (space_frame_trans _ _ _ m1).
    + intros a Ha Hout. apply Hfr1; [done|done|]. intros k Hk Hnot. apply Hout; [done|].
      by apply (ps_used _ _ _ Hps1).
    + eapply (insert_space_frame s m1 m2 used); [exact Htr1| |set_solver|done..].
      intros q t. rewrite lookup_singleton_Some. intros [_ <-]. by exists n.
Qed.

(** A new paging manager with the kernel mapped in translates exactly the first two
    gigabytes, to themselves, and gives EL0 no access to them. *)
Theorem paging_kernel_identity s m used n :
  page_slab s m used → free_slot s used = Some n →
  ∃ pm m' T, (let* pm := paging_manager_init s in paging_manager_map_kernel pm ;; ret pm) m = Ok pm m' ∧
    l1 pm = slot_address s n ∧ manager_rep pm m' ({[n]} ∪ used) T ∧
    ∀ va, translate m' (l1 pm) va =
      if decide (0 ≤ va < 0x80000000) then Some (va, false, false) else None.
Proof.
  intros Hps Hn. destruct (kernel_identity_spec s m used n Hps Hn) as (m1 & m2 & Hrun1 & Hrun2 & _ & Hrep & Ht & _).
  eexists _, m2, _. split; [by rewrite (bind_ok _ _ _ _ _ Hrun1), (bind_ok _ _ _ _ _ Hrun2)|].
  split; [done|]. split; [exact Hrep|exact Ht].
Qed.

(** [paging_split_address] loses nothing: the offsets recombine to the address and all but
    the first are in range for every 64-bit address; the first is an index of a table exactly
    for the addresses below [2^39]. *)
Theorem paging_split_address_recombines address l1 l2 l3 off :
  0 ≤ address < 2 ^ 64 → paging_split_address address = (l1, l2, l3, off) →
  address = l1 * 2 ^ 30 + l2 * 2 ^ 21 + l3 * 2 ^ 12 + off ∧
  0 ≤ l1 ∧ 0 ≤ l2 < PAGING_ENTRIES_PER_TABLE ∧ 0 ≤ l3 < PAGING_ENTRIES_PER_TABLE ∧
  0 ≤ off < 4096 ∧ (l1 < PAGING_ENTRIES_PER_TABLE ↔ address < 2 ^ 39).
Proof.
  intros Ha E. unfold paging_split_address in E. cbv zeta in E. injection E as <- <- <- <-.
  unfold PAGING_ENTRIES_PER_TABLE.
  set (x := address mod 0x40000000). set (y := x mod 0x200000).
  pose proof (Z.div_mod address 0x40000000). pose proof (Z.mod_pos_bound address 0x40000000).
  pose proof (Z.div_mod x 0x200000). pose proof (Z.mod_pos_bound x 0x200000).
  pose proof (Z.div_mod y 0x1000). pose proof (Z.mod_pos_bound y 0x1000). lia.
Qed.

(** The translation regime the registers select: a 39-bit input address and the 4 KB granule
    (T0SZ, EPD0 and TG0 of TCR_EL1); with the MMU off addresses are physical. *)
Definition mmu_translate (mc : machine) (va : Z) : option (Z * bool * bool) :=
  if Z.testbit (sysregs mc SCTLR_EL1) 0 then
    if Z.land (sysregs mc TCR_EL1) 0xc0bf =? 25
    then translate (ram mc) (table_address_of (sysregs mc TTBR0_EL1)) va
    else None
  else Some (va, true, false).

(** TCR_EL1 at reset or as [paging_set_tcr] leaves it. *)
Definition tcr_ok (mc : machine) : Prop :=
  Z.land (sysregs mc TCR_EL1) 0xc0bf = 0 ∨ Z.land (sysregs mc TCR_EL1) 0xc0bf = 25.

(** The MMU translates with the tables at [root], whatever the memory holds. *)
Definition mmu_uses (mc : machine) (root : Z) : Prop := ∀ m va, mmu_translate (set_ram m mc) va = translate m root va.

Lemma apply_registers_spec pm mc m used T : manager_rep pm m used T → tcr_ok mc →
  ∃ mc' tcr sctlr, paging_apply_registers pm mc = Ok tt mc' ∧ ram mc' = ram mc ∧
    trace mc' = Tlbi_vmalle1 :: Msr SCTLR_EL1 sctlr :: Msr TCR_EL1 tcr ::
      Msr TTBR0_EL1 (l1 pm) :: trace mc ∧
    tcr_ok mc' ∧ mmu_uses mc' (l1 pm).
Proof.
  intros [Hps Htr] Htcr. assert (∀ z, z = 0 ∨ z = 25 → Z.lor z 25 = 25) as Hor by (by intros z [-> | ->]).
  do 3 eexists. split; [reflexivity|]. split; [done|]. split; [reflexivity|]. split.
  - right. cbn [sysregs ram set_ram emit_event]. rewrite (set_reg_other SCTLR_EL1 TCR_EL1), set_reg_same by done.
    rewrite !(set_reg_other TTBR0_EL1 TCR_EL1), Z.land_lor_distr_l by done.
    change (Z.land (Z.lor (u64 (Z.shiftl 2 32)) 25) 0xc0bf) with 25. by apply Hor.
  - intros m' va. unfold mmu_translate. cbn [sysregs ram set_ram emit_event].
    rewrite set_reg_same, (set_reg_other SCTLR_EL1 TCR_EL1), set_reg_same by done.
    rewrite !(set_reg_other _ TTBR0_EL1), set_reg_same by done.
    rewrite Z.lor_spec, orb_true_r, Z.land_lor_distr_l.
    rewrite !(set_reg_other TTBR0_EL1 TCR_EL1) by done.
    change (Z.land (Z.lor (u64 (Z.shiftl 2 32)) 25) 0xc0bf) with 25.
    destruct (table_slot _ _ _ _ _ _ _ Hps Htr (tr_root _ _ _ _ _ Htr)) as (Ha & Hr & _).
    unfold table_address_of. rewrite (mask_aligned _ 12) by (done || lia). by rewrite Hor.
Qed.

(** applying a paging manager on a machine whose TCR_EL1 is at reset (or was set before)
    makes the MMU translate with the tables of that manager; the TLB is invalidated after the
    registers are written and memory is unchanged. *)
Theorem paging_apply_enables pm mc used T :
  manager_rep pm (ram mc) used T →
  (Z.land (sysregs mc TCR_EL1) 0xc0bf = 0 ∨ Z.land (sysregs mc TCR_EL1) 0xc0bf = 25) →
  ∃ mc' tcr sctlr, paging_apply_registers pm mc = Ok tt mc' ∧ ram mc' = ram mc ∧
    trace mc' = Tlbi_vmalle1 :: Msr SCTLR_EL1 sctlr :: Msr TCR_EL1 tcr ::
      Msr TTBR0_EL1 (l1 pm) :: trace mc ∧
    ∀ va, mmu_translate mc' va = translate (ram mc) (l1 pm) va.
Proof.
  intros Hrep Htcr. destruct (apply_registers_spec pm mc _ _ _ Hrep Htcr) as (mc' & tcr & sctlr & Hrun & Hram & Htr & _ & Hmmu).
  exists mc', tcr, sctlr. do 3 (split; [done|]). intros va. rewrite <-Hmmu, <-Hram. by rewrite set_ram_id.
Qed.

(** An address at or above [2^39] is not rejected: [paging_manager_map_1gb] stores the
    descriptor past the end of the table (below [2^61], where the index still fits an [int]),
    here over whatever is mapped there. *)
Theorem paging_map_1gb_past_table pm m va pa u r :
  2 ^ 39 ≤ va < 2 ^ 61 → mapped m (l1 pm + 8 * (va / 2 ^ 30)) 8 →
  ∃ m', paging_manager_map_1gb pm va pa u r m = Ok tt m' ∧
    desc_at m' (l1 pm) (va / 2 ^ 30) = Some (paging_l012_create_entry_block pa 1 u r) ∧
    8 * PAGING_ENTRIES_PER_TABLE ≤ 8 * (va / 2 ^ 30) ∧
    ∀ a, l1 pm ≤ a < l1 pm + sizeof_page_table_store → m' !! a = m !! a.
Proof.
  intros Hva Hm. assert (512 ≤ va / 2 ^ 30 < 2 ^ 31) as Hi.
  { split; [apply Z.div_le_lower_bound; lia|apply Z.div_lt_upper_bound; lia]. }
  eexists. split; [|split; [|split]].
  - unfold paging_manager_map_1gb. change 0x40000000 with (2 ^ 30).
    rewrite i32_small by (unfold INT_MIN, INT_MAX; lia). by apply block_set_ok.
  - apply desc_at_put_same, block_desc_range.
  - unfold PAGING_ENTRIES_PER_TABLE. lia.
  - intros a Ha. apply put_desc_outside. unfold sizeof_page_table_store in Ha. lia.
Qed.

(** ** Witnesses: a slab of eight tables at 0x10000, two of them roots *)

Definition demo_tables : slab := mk_slab 0x10000 8 4096 4096.
Definition demo_root1 : Z := 0x18000.
Definition demo_root2 : Z := 0x17000.
Definition demo_pm : paging_manager := mk_paging_manager demo_root1 demo_tables.
Definition demo_pt_mem : mem := put_bytes 0x10000 (0xc0 :: replicate (Z.to_nat 0x8fff) 0) ∅.
Definition demo_machine : machine :=
  mk_machine demo_pt_mem (λ _, 0) [] (mk_environment (λ _ _, 0) (λ _ _, 0)).

Lemma demo_pt_zero a : 0x10001 ≤ a < 0x19000 → demo_pt_mem !! a = Some (Some 0).
Proof.
  intros Ha. unfold demo_pt_mem. rewrite put_bytes_lookup. cbn [length].
  rewrite length_replicate, decide_True by lia.
  rewrite lookup_cons_ne_0 by lia. rewrite lookup_replicate_2 by lia. done.
Qed.

Lemma demo_desc t j : 0x10001 ≤ t → t + 4096 ≤ 0x19000 → 0 ≤ j < 512 →
  desc_at demo_pt_mem t j = Some 0.
Proof.
  intros Ht Ht' Hj. apply (peek_word 8); [|lia]. intros k b Hk.
  change (le_bytes 8 0) with (replicate 8 0) in Hk. apply lookup_replicate in Hk as [-> Hk].
  apply demo_pt_zero. lia.
Qed.

Lemma demo_pt_header : demo_pt_mem !! 0x10000 = Some (Some 0xc0).
Proof. unfold demo_pt_mem. rewrite put_bytes_cons. apply lookup_insert_eq. Qed.

#[local] Opaque demo_pt_mem.

Lemma demo_page_slab : page_slab demo_tables demo_pt_mem {[7; 6]}.
Proof.
  split.
  - split; simpl; unfold INT_MAX; lia.
  - exists [0xc0]. split; [|split; [by repeat constructor|split; [simpl; lia|split; [simpl; lia|]]]].
    + apply bytes_at_cons. split; [|apply bytes_at_nil].
      exact demo_pt_header.
    + intros n Hn. simpl in Hn.
      assert (n = 0 ∨ n = 1 ∨ n = 2 ∨ n = 3 ∨ n = 4 ∨ n = 5 ∨ n = 6 ∨ n = 7)
        as [-> | [-> | [-> | [-> | [-> | [-> | [-> | ->]]]]]]] by lia; vm_compute; reflexivity.
  - intros n. rewrite elem_of_union, !elem_of_singleton. simpl. lia.
  - done.
  - done.
  - simpl. lia.
  - intros a Ha. exists (Some 0). apply demo_pt_zero. unfold slot_address in Ha. simpl in Ha. lia.
Defined.

Lemma demo_roots :
  (tree demo_tables demo_pt_mem {[7; 6]} demo_root1 {[ [] := demo_root1 ]} ∧
    ∀ va, walk 2 demo_pt_mem demo_root1 va = None) ∧
  tree demo_tables demo_pt_mem {[7; 6]} demo_root2 {[ [] := demo_root2 ]}.
Proof.
  assert (∀ j, 0 ≤ j < 512 → desc_at demo_pt_mem demo_root1 j = Some 0) as Hz1.
  { intros j. by apply demo_desc. }
  assert (∀ j, 0 ≤ j < 512 → desc_at demo_pt_mem demo_root2 j = Some 0) as Hz2.
  { intros j. by apply demo_desc. }
  pose proof demo_page_slab as Hps. split.
  - apply (clear_root_tree demo_tables demo_pt_mem {[6]} 7 Hps); [simpl; lia|exact Hz1].
  - rewrite union_comm_L in Hps |- *.
    apply (clear_root_tree demo_tables demo_pt_mem {[7]} 6 Hps); [simpl; lia|exact Hz2].
Defined.

Lemma demo_manager_rep : manager_rep demo_pm (ram demo_machine) {[7; 6]} {[ [] := demo_root1 ]}.
Proof. split; [exact demo_page_slab|apply demo_roots]. Defined.

Lemma demo_missing : missing 2 demo_pt_mem demo_root1 0x80000000 = Some 2%nat.
Proof. cbn [missing]. by rewrite demo_desc by (done || apply va_index_range). Defined.

Lemma paging_map_page_maps_witness :
  ∃ mc', paging_manager_map_page demo_pm 0x80000000 0x45000 true false demo_machine = Ok 0 mc' ∧
    translate (ram mc') demo_root1 0x80000123 = Some (0x45123, true, false).
Proof.
  destruct (paging_map_page_maps demo_pm demo_machine {[7; 6]} {[ [] := demo_root1 ]}
    0x80000000 0x45000 true false 2 demo_manager_rep ltac:(done) ltac:(done)
    (proj2 (proj1 demo_roots) _) demo_missing ltac:(done)) as (m' & used' & T' & H & _ & _ & _ & Ht).
  eexists. split; [exact H|]. cbn [ram]. change (l1 demo_pm) with demo_root1 in Ht.
  specialize (Ht 0x80000123).
  rewrite decide_True in Ht by (split; [unfold in_space; lia|reflexivity]). exact Ht.
Defined.

(** The first gigabyte mapped as a block. *)
Definition demo_block : Z := paging_l012_create_entry_block 0 1 false false.
Definition demo_block_machine : machine := set_ram (put_desc demo_root1 0 demo_block demo_pt_mem) demo_machine.

Lemma demo_block_rep :
  manager_rep demo_pm (ram demo_block_machine) {[7; 6]} {[ [] := demo_root1 ]} ∧
  walk 2 (ram demo_block_machine) demo_root1 0x1000 = Some (2%nat, demo_block).
Proof.
  pose proof demo_manager_rep as [Hps Htr].
  assert (desc_at demo_pt_mem demo_root1 0 = Some 0) as Hz by (apply demo_desc; unfold demo_root1; lia).
  destruct (block_desc_bits 0 false false) as (H0 & H1 & _).
  destruct (walk_put_leaf demo_tables demo_root1 demo_pt_mem {[7; 6]} {[ [] := demo_root1 ]} []
    demo_root1 0 demo_block 0 0x1000 Hps Htr (tr_root _ _ _ _ _ Htr) ltac:(lia)
    (block_desc_range 0 false false) Hz eq_refl H0 H1) as [Htr' Hw].
  split; [split; [|exact Htr']|exact Hw].
  apply (page_slab_put demo_tables demo_pt_mem {[7; 6]} 7 0); [exact Hps|simpl; lia|lia].
Defined.

Lemma paging_map_page_rejects_witness :
  paging_manager_map_page demo_pm 0x1000 0x45000 true false demo_block_machine =
    Ok (-1) demo_block_machine.
Proof.
  apply (paging_map_page_rejects demo_pm demo_block_machine {[7; 6]} {[ [] := demo_root1 ]}
    0x1000 0x45000 true false 2 demo_block (proj1 demo_block_rep) ltac:(done) (proj2 demo_block_rep)).
Defined.

Lemma paging_map_page_isolated_witness :
  ∃ mc', paging_manager_map_page demo_pm 0x80000000 0x45000 true false demo_machine = Ok 0 mc' ∧
    translate (ram mc') demo_root2 0x80000000 = translate demo_pt_mem demo_root2 0x80000000.
Proof.
  pose proof demo_manager_rep as [Hps Htr].
  pose proof (insert_spec _ _ demo_pm 0x80000000 0x45000 true false 2 demo_pt_mem _ _ [] demo_root1
    eq_refl ltac:(split; done) Hps Htr (tr_root _ _ _ _ _ Htr) eq_refl eq_refl) as H. cbv zeta in H.
  rewrite (proj2 (proj1 demo_roots)), demo_missing in H.
  destruct H as (m' & Hrun & _); [done|].
  assert (∃ mc', paging_manager_map_page demo_pm 0x80000000 0x45000 true false demo_machine = Ok 0 mc')
    as [mc' Hmc].
  { eexists. unfold paging_manager_map_page.
    rewrite (bind_ok _ _ _ _ _ (on_ram_ok _ demo_machine _ _ Hrun)). reflexivity. }
  exists mc'. split; [exact Hmc|].
  apply (paging_map_page_isolated demo_pm demo_machine {[7; 6]} {[ [] := demo_root1 ]} demo_root2
    {[ [] := demo_root2 ]} 0x80000000 0x45000 true false 0 mc' demo_manager_rep (proj2 demo_roots));
    [|split; lia|done|exact Hmc].
  intros p q t [_ <-]%lookup_singleton_Some [_ E]%lookup_singleton_Some. discriminate.
Defined.

Lemma paging_kernel_identity_witness :
  ∃ pm m', (let* pm := paging_manager_init demo_tables in paging_manager_map_kernel pm ;; ret pm)
      demo_pt_mem = Ok pm m' ∧
    translate m' (l1 pm) 0x40001234 = Some (0x40001234, false, false).
Proof.
  destruct (paging_kernel_identity demo_tables demo_pt_mem {[7; 6]} 5 demo_page_slab)
    as (pm & m' & T & H & _ & _ & Ht); [vm_compute; reflexivity|].
  exists pm, m'. split; [exact H|]. specialize (Ht 0x40001234).
  rewrite decide_True in Ht by lia. exact Ht.
Defined.

Lemma paging_split_address_recombines_witness :
  paging_split_address 0x8040201003 = (0x201, 1, 1, 3) ∧
  0x8040201003 = 0x201 * 2 ^ 30 + 1 * 2 ^ 21 + 1 * 2 ^ 12 + 3.
Proof.
  split; [reflexivity|].
  apply (paging_split_address_recombines 0x8040201003 0x201 1 1 3); [lia|reflexivity].
Defined.

Lemma paging_apply_enables_witness :
  ∃ mc', paging_apply_registers demo_pm demo_machine = Ok tt mc' ∧
    mmu_translate mc' 0x1000 = translate demo_pt_mem demo_root1 0x1000.
Proof.
  destruct (paging_apply_enables demo_pm demo_machine {[7; 6]} {[ [] := demo_root1 ]}
    demo_manager_rep (or_introl eq_refl)) as (mc' & tcr & sctlr & H & _ & _ & Ht).
  exists mc'. split; [exact H|apply Ht].
Defined.

Lemma paging_map_1gb_past_table_witness :
  ∃ m', paging_manager_map_1gb (mk_paging_manager 0x17000 demo_tables) (2 ^ 39) 0 false false
      demo_pt_mem = Ok tt m' ∧
    desc_at m' 0x17000 512 = Some demo_block.
Proof.
  destruct (paging_map_1gb_past_table (mk_paging_manager 0x17000 demo_tables) demo_pt_mem (2 ^ 39) 0
    false false ltac:(lia)) as (m' & H & Hd & _).
  - intros a Ha. exists (Some 0). apply demo_pt_zero. change (2 ^ 39 / 2 ^ 30) with 512 in Ha.
    cbn [l1] in Ha. lia.
  - exists m'. split; [exact H|exact Hd].
Defined.
