(* ===== verification/Job.v ===== *)
(** * Jobs (kernel/mp/job.c, include/mp/job.h)

    The jobs form a ring through their [next] pointers; [current_job] is the one that runs.
    Structs that are only reached by pointers ([struct job], [struct paging_manager]) are in
    typed stores keyed by their address, so aliasing is by address as in the code; the slabs
    and the heap that hand out the addresses work on memory.  [job_create_from_file] is in
    Exceptions.v, because it needs the file systems. *)
From stdpp Require Import base list gmap.
From Stdlib Require Import ZArith Lia.
From stdpp Require Import strings.
From S2P Require Import Prelude Layout Memory CString Heap Slab Machine Log Gic Kernel Paging.

Definition MAX_NAME_CHAR : Z := 30.
Definition JOB_MAX_FILES : Z := 8.
Definition JOB_BASE_USER : Z := 0x80000000.

Inductive job_status : Type := RUNNING | SLEEPING | TERMINATED.

#[global] Instance job_status_eq_dec : EqDecision job_status.
Proof. solve_decision. Defined.

Record job : Type := mk_job {
  name : list Z;            (* the characters of [name], without the NUL *)
  status : job_status;
  x : list Z;               (* x[31] *)
  pc : Z;
  sp : Z;
  paging : Z;               (* struct paging_manager * *)
  open_files : list Z;      (* struct inode * [JOB_MAX_FILES] *)
  open_files_count : Z;
  next : Z;                 (* struct job * *)
}.

(** [sizeof(struct job)], [sizeof(struct paging_manager)] *)
Definition sizeof_job : Z := 392.
Definition sizeof_paging_manager : Z := 16.

Definition job_struct : cstruct := mk_cstruct false
  [("name", Array Char 30); ("status", Int); ("x", Array U64 31); ("pc", U64); ("sp", U64);
   ("paging", Ptr); ("open_files", Array Ptr 8); ("open_files_count", Int); ("next", Ptr)]%string.

Lemma job_layout : layout_is job_struct [("name", 0); ("status", 32)]%string sizeof_job.
Proof. check_layout. Qed.

(** The kernel with the statics of job.c and paging.c. *)
Record system : Type := mk_system {
  kern : kernel;
  table_slab : slab;                    (* [slab] of paging.c *)
  current_paging_manager : Z;
  managers : gmap Z paging_manager;
  job_slab : slab;
  user_space : slab;
  current_job : Z;
  jobs : gmap Z job;
}.

Definition set_kern (k : kernel) (s : system) : system :=
  mk_system k (table_slab s) (current_paging_manager s) (managers s) (job_slab s) (user_space s)
    (current_job s) (jobs s).
Definition set_managers (ms : gmap Z paging_manager) (s : system) : system :=
  mk_system (kern s) (table_slab s) (current_paging_manager s) ms (job_slab s) (user_space s)
    (current_job s) (jobs s).
Definition set_current_paging (p : Z) (s : system) : system :=
  mk_system (kern s) (table_slab s) p (managers s) (job_slab s) (user_space s) (current_job s) (jobs s).
Definition set_current (c : Z) (s : system) : system :=
  mk_system (kern s) (table_slab s) (current_paging_manager s) (managers s) (job_slab s)
    (user_space s) c (jobs s).
Definition set_jobs (js : gmap Z job) (s : system) : system :=
  mk_system (kern s) (table_slab s) (current_paging_manager s) (managers s) (job_slab s)
    (user_space s) (current_job s) js.

Definition set_job_slab (sl : slab) (s : system) : system :=
  mk_system (kern s) (table_slab s) (current_paging_manager s) (managers s) sl (user_space s)
    (current_job s) (jobs s).
Definition set_user_space (sl : slab) (s : system) : system :=
  mk_system (kern s) (table_slab s) (current_paging_manager s) (managers s) (job_slab s) sl
    (current_job s) (jobs s).
Definition set_table_slab (sl : slab) (s : system) : system :=
  mk_system (kern s) sl (current_paging_manager s) (managers s) (job_slab s) (user_space s)
    (current_job s) (jobs s).

Definition set_next (n : Z) (j : job) : job :=
  mk_job (name j) (status j) (x j) (pc j) (sp j) (paging j) (open_files j) (open_files_count j) n.
Definition set_status (st : job_status) (j : job) : job :=
  mk_job (name j) st (x j) (pc j) (sp j) (paging j) (open_files j) (open_files_count j) (next j).
Definition set_files (fs : list Z) (n : Z) (j : job) : job :=
  mk_job (name j) (status j) (x j) (pc j) (sp j) (paging j) fs n (next j).
Definition set_context (xs : list Z) (pc' sp' : Z) (j : job) : job :=
  mk_job (name j) (status j) xs pc' sp' (paging j) (open_files j) (open_files_count j) (next j).

Definition in_kernel {A} (m : M kernel A) : M system A := zoom kern set_kern m.
Definition in_memory {A} (m : M mem A) : M system A := in_kernel (in_ram m).
Definition in_machine {A} (m : M machine A) : M system A := in_kernel (on_machine m).

(** Dereferencing a [struct job *] and assigning through one. *)
Definition get_job (p : Z) : M system job := λ s,
  match jobs s !! p with Some j => Ok j s | None => Fault (BadAddress p) end.
Definition put_job (p : Z) (j : job) : M system unit := modify (λ s, set_jobs (<[p := j]> (jobs s)) s).

(** Dereferencing a [struct paging_manager *]: NULL points to none. *)
Definition at_manager (p : Z) : M system unit := if p =? 0 then fail (BadAddress p) else ret tt.
Definition get_manager (p : Z) : M system paging_manager :=
  at_manager p ;;
  λ s, match managers s !! p with Some pm => Ok pm s | None => Fault (BadAddress p) end.
Definition put_manager (p : Z) (pm : paging_manager) : M system unit :=
  at_manager p ;;
  modify (λ s, set_managers (<[p := pm]> (managers s)) s).

(** [paging_manager_init] through the pointer: its first statement writes [pages_allocator]. *)
Definition init_manager (p : Z) : M system paging_manager :=
  let* table := gets table_slab in
  at_manager p ;;
  let* manager := in_memory (paging_manager_init table) in
  put_manager p manager ;;
  ret manager.

(** ** The slabs *)

(** [paging_init_slab] and [paging_get_slab] of paging.c. *)
Definition paging_init_slab : M system unit :=
  let* size := slab_get_needed_size sizeof_page_table_store PAGING_MAX_TABLES in
  let* slab_memory := in_kernel (kalloc size) in
  let* sl := in_memory (slab_create sizeof_page_table_store PAGING_MAX_TABLES slab_memory) in
  modify (set_table_slab sl).
Definition paging_get_slab : M system slab := gets table_slab.

Definition job_init_slab (max_jobs : Z) : M system unit :=
  let* size := slab_get_needed_size sizeof_job max_jobs in
  let* slab_zone := in_kernel (kalloc size) in
  let* sl := in_memory (slab_create sizeof_job max_jobs slab_zone) in
  modify (set_job_slab sl).

(** The header of the slab of user pages lies below 0x80000000, the pages from there on. *)
Definition job_init_user_space (blocks : Z) : M system unit :=
  let* size := slab_get_needed_size 0x1000 (u64 blocks) in
  let slab_zone := 0x80000000 in
  let* header := slab_get_header_size 0x1000 (u64 blocks) in
  let slab_zone := slab_zone - header in
  let* sl := in_memory (slab_create 0x1000 (u64 blocks) slab_zone) in
  modify (set_user_space sl).

(** ** Address spaces *)

(** [paging_manager_apply] of paging.c. *)
Definition paging_manager_apply (paging_manager : Z) : M system Z :=
  let* old := gets current_paging_manager in
  modify (set_current_paging paging_manager) ;;
  let* pm := get_manager paging_manager in
  in_machine (paging_apply_registers pm) ;;
  ret old.

(** One page of the loop; [virtual_base_address] grows by a page each time. *)
Definition map_round (pm : paging_manager) (i : Z) : M system unit :=
  let virtual_base_address := u64 (JOB_BASE_USER + 0x1000 * i) in
  let* s := get in
  let* slot_phi := in_memory (slab_allocate (user_space s)) in
  in_machine (klogf_lit (chars "0x%x -> 0x%x") [virtual_base_address; u64 slot_phi]) ;;
  in_machine (paging_manager_map_page pm virtual_base_address (u64 slot_phi) true false) ;;
  ret tt.

(** The manager and [*allocated_size]. *)
Definition job_create_paging (size : Z) : M system (Z * Z) :=
  let* pm := in_kernel (kalloc sizeof_paging_manager) in
  let* manager := init_manager pm in
  in_memory (paging_manager_map_kernel manager) ;;
  let* size := int_of (size + 4096) in
  let blocksize := 0x1000 in
  let* need_slots := int_of (Z.quot size blocksize + (if Z.rem size blocksize =? 0 then 0 else 1)) in
  let* allocated_size := int_of (blocksize * need_slots) in
  for_int need_slots (map_round manager) ;;
  ret (pm, allocated_size).

(** ** job_create *)

(** The characters that [strncpy] copies. *)
Fixpoint read_string (n : nat) (p : Z) : M mem (list Z) :=
  let* c := loadb p in
  match n with
  | O => ret []
  | S n' =>
      if c =? 0 then ret [] else
      let* s := read_string n' (p + 1) in ret (c :: s)
  end.

Definition job_create (entry sp name paging : Z) : M system Z :=
  let* s := get in
  let* job := in_memory (slab_allocate (job_slab s)) in
  let* name := in_memory (read_string (Z.to_nat MAX_NAME_CHAR) name) in
  let fresh next := mk_job name RUNNING (replicate 31 0) entry sp paging
    (replicate (Z.to_nat JOB_MAX_FILES) 0) 0 next in
  let* s := get in
  if current_job s =? 0 then
    modify (set_current job) ;;
    put_job job (fresh job) ;;
    ret job
  else
    let* current := get_job (current_job s) in
    let save := next current in
    put_job (current_job s) (set_next job current) ;;
    put_job job (fresh save) ;;
    ret job.

(** ** job_delete *)

Definition job_delete (job : Z) : M system unit :=
  let* s := get in
  let last_ptr := current_job s in
  let* current := get_job (current_job s) in
  let curr_ptr := next current in
  let restore := job =? current_job s in
  let restore_job := next current in
  if last_ptr =? curr_ptr then
    in_machine (klog_lit (chars "Trying to delete init job")) ;;
    hang
  else
  let* (last_ptr, curr_ptr) := follow (S (size (jobs s))) (λ '(last_ptr, curr_ptr),
    if curr_ptr =? job then ret (inr (last_ptr, curr_ptr)) else
    let* curr := get_job curr_ptr in
    ret (inl (curr_ptr, next curr))) (last_ptr, curr_ptr) in
  let* curr := get_job curr_ptr in
  let* last := get_job last_ptr in
  put_job last_ptr (set_next (next curr) last) ;;
  let* j := get_job job in
  in_kernel (kfree (paging j)) ;;
  modify (λ s, set_managers (delete (paging j) (managers s)) s) ;;
  in_memory (slab_free (job_slab s) job) ;;
  modify (λ s, set_jobs (delete job (jobs s)) s) ;;
  if restore then modify (set_current restore_job) else ret tt.

Definition job_get_current : M system Z := gets current_job.

(** ** job_forward *)

(** One round of the search for the next running job. *)
Definition forward_round (_ : unit) : M system (unit + unit) :=
  let* s := get in
  let* current := get_job (current_job s) in
  if decide (status current = RUNNING) then ret (inr tt)
  else if decide (status current = TERMINATED) then
    job_delete (current_job s) ;;
    ret (inl tt)
  else
    modify (set_current (next current)) ;;
    ret (inl tt).

(** Every round moves on or deletes a job; after [(n + 1)^2] rounds without a running job the
    states repeat. *)
Definition job_forward : M system unit :=
  let* s := get in
  let* current := get_job (current_job s) in
  modify (set_current (next current)) ;;
  follow (S (size (jobs s)) * S (size (jobs s))) forward_round tt.

(** ** Files and status *)

(** [while (job->open_files[fd] != NULL) fd++;]: reading past the array is a fault. *)
Definition free_fd (files : list Z) : M system Z :=
  loop (S (length files)) (λ fd,
    match files !! Z.to_nat fd with
    | Some f => if f =? 0 then ret (inr fd) else ret (inl (fd + 1))
    | None => fail (BadAddress fd)
    end) 0.

Definition job_add_file (job inode : Z) : M system Z :=
  let* j := get_job job in
  if JOB_MAX_FILES <=? open_files_count j then ret (-1) else
  let* fd := free_fd (open_files j) in
  let* count := int_of (open_files_count j + 1) in
  put_job job (set_files (<[Z.to_nat fd := inode]> (open_files j)) count j) ;;
  ret fd.

Definition job_get_file (job fd : Z) : M system Z :=
  let* j := get_job job in
  if (fd <? 0) || (open_files_count j <=? fd) then ret 0 else
  match open_files j !! Z.to_nat fd with Some f => ret f | None => fail (BadAddress fd) end.

Definition job_terminate : M system unit :=
  let* s := get in
  let* j := get_job (current_job s) in
  put_job (current_job s) (set_status TERMINATED j).

Definition job_set_programcounter (job program_counter : Z) : M system unit :=
  let* j := get_job job in
  put_job job (set_context (x j) program_counter (sp j) j).

(** * Specification *)

(** The jobs of [l], reached one after the other from [a], the last one pointing to [z]. *)
Fixpoint chain (js : gmap Z job) (a : Z) (l : list Z) (z : Z) : Prop :=
  match l with
  | [] => a = z
  | b :: l' => a = b ∧ ∃ j, js !! a = Some j ∧ chain js (next j) l' z
  end.

(** The jobs in the order they run, beginning with the current one. *)
Definition ring (s : system) (l : list Z) : Prop :=
  match l with
  | [] => current_job s = 0 ∧ jobs s = ∅
  | c :: _ => current_job s = c ∧ chain (jobs s) c l c ∧ NoDup l ∧ (0 ∉ l) ∧
      dom (jobs s) = list_to_set l
  end.

(** * Lemmas *)

Lemma chain_app js a l1 l2 z : chain js a (l1 ++ l2) z ↔ ∃ b, chain js a l1 b ∧ chain js b l2 z.
Proof.
  revert a. induction l1 as [|c l1 IH]; intros a; simpl.
  - split; [by exists a|]. by intros (b & -> & H).
  - split.
    + intros (-> & j & Hj & H). apply IH in H as (b & H1 & H2). eauto 8.
    + intros (b & (-> & j & Hj & H1) & H2). split; [done|]. exists j. split; [done|].
      apply IH. eauto.
Qed.

Lemma chain_ext js js' a l z : (∀ q, q ∈ l → js' !! q = js !! q) → chain js a l z → chain js' a l z.
Proof.
  revert a. induction l as [|c l IH]; intros a Hag; simpl; [done|].
  intros (-> & j & Hj & H). split; [done|]. exists j. rewrite Hag by by left. split; [done|].
  apply IH; [|done]. intros q Hq. apply Hag. by right.
Qed.

Lemma chain_lookup js a l z q : chain js a l z → q ∈ l → ∃ j, js !! q = Some j.
Proof.
  revert a. induction l as [|c l IH]; intros a; simpl; [by intros _ ?%not_elem_of_nil|].
  intros (-> & j & Hj & H) [->|Hq]%elem_of_cons; [by exists j|]. by eapply IH.
Qed.

Lemma chain_set_next js a l x z j z' : chain js a (l ++ [x]) z → js !! x = Some j → x ∉ l →
  chain (<[x := set_next z' j]> js) a (l ++ [x]) z'.
Proof.
  intros (b & H1 & -> & j' & Hj' & Hz)%chain_app Hj Hx. apply chain_app. exists x. split.
  - eapply chain_ext; [|exact H1]. intros q Hq. apply lookup_insert_ne. by intros ->.
  - simpl. split; [done|]. exists (set_next z' j). by rewrite lookup_insert_eq.
Qed.

Lemma last_default_irrelevant (d x y : Z) l : List.last (d :: l) x = List.last (d :: l) y.
Proof. revert d. induction l as [|e l IH]; intros d; [done|]. apply (IH e). Qed.

Lemma last_snoc_split (c : Z) l : ∃ l0, c :: l = l0 ++ [List.last l c].
Proof.
  revert c. induction l as [|d l IH]; intros c; [by exists []|].
  destruct (IH d) as [l0 E]. exists (c :: l0). rewrite E at 1. simpl. f_equal. f_equal. f_equal.
  destruct l; [done|]. apply last_default_irrelevant.
Qed.

(** The search of [job_delete]: from [a], [p] is found behind [pre]. *)
Lemma follow_search s p pre post lastp a z fuel :
  chain (jobs s) a (pre ++ p :: post) z → p ∉ pre → (length pre < fuel)%nat →
  follow fuel (λ '(last_ptr, curr_ptr),
    if curr_ptr =? p then ret (inr (last_ptr, curr_ptr)) else
    let* curr := get_job curr_ptr in
    ret (inl (curr_ptr, next curr))) (lastp, a) s = Ok (List.last pre lastp, p) s.
Proof.
  revert lastp a fuel. induction pre as [|c pre IH]; intros lastp a fuel; simpl.
  - intros (-> & _) _ Hf. destruct fuel; [lia|]. simpl. unfold bind. by rewrite Z.eqb_refl.
  - intros (-> & j & Hj & H) Hp Hf. destruct fuel; [simpl in Hf; lia|]. simpl.
    destruct (Z.eqb_spec c p) as [->|Hne]; [destruct Hp; by left|].
    unfold bind, get_job. rewrite Hj. unfold ret.
    rewrite not_elem_of_cons in Hp. rewrite (IH c (next j)); [|done|tauto|simpl in Hf; lia].
    destruct pre; [done|]. f_equal. f_equal. apply last_default_irrelevant.
Qed.

Lemma chain_head js a l z b l' : chain js a l z → l = b :: l' → a = b.
Proof. intros H ->. by destruct H. Qed.

Lemma filter_neq_id (p : Z) (l : list Z) : p ∉ l → filter (λ q, q ≠ p) l = l.
Proof.
  induction l as [|q l IH]; [done|]. rewrite not_elem_of_cons. intros [Hq Hl].
  rewrite filter_cons_True by auto. by rewrite IH.
Qed.

Lemma filter_neq_split (p : Z) (pre post : list Z) : p ∉ pre → p ∉ post →
  filter (λ q, q ≠ p) (pre ++ p :: post) = pre ++ post.
Proof.
  intros H1 H2. rewrite filter_app, filter_cons_False by auto. by rewrite !filter_neq_id.
Qed.

Lemma chain_update_last js a l x z z' jx : chain js a (l ++ [x]) z → NoDup (l ++ [x]) →
  js !! x = Some jx → chain (<[x := set_next z' jx]> js) a (l ++ [x]) z'.
Proof.
  intros Hch Hnd Hx. apply (chain_set_next _ _ _ _ z); [done|done|].
  apply NoDup_app in Hnd as (_ & Hd & _). intros Hin. apply (Hd _ Hin). by left.
Qed.

(** Taking [p] out of the ring: its predecessor gets its successor. *)
Lemma unlink_head js c l jc jl : l ≠ [] → NoDup (c :: l) → chain js c (c :: l) c →
  js !! c = Some jc → js !! List.last l c = Some jl →
  List.last l c ≠ c ∧ ∃ d r, l = d :: r ∧ next jc = d ∧
    chain (delete c (<[List.last l c := set_next (next jc) jl]> js)) d l d.
Proof.
  intros Hl [Hcl Hnd]%NoDup_cons (_ & jc' & Hjc' & Hch) Hjc Hjl. rewrite Hjc in Hjc'. simplify_eq.
  pose proof (app_removelast_last c Hl) as Hsplit. set (lp := List.last l c) in *.
  assert (lp ∈ l) as Hlp by (rewrite Hsplit; apply elem_of_app; right; by left).
  assert (lp ≠ c) as Hne by congruence. split; [done|].
  destruct l as [|d r] eqn:El; [done|]. exists d, r. rewrite <-El in *.
  pose proof (chain_head _ _ _ _ d r Hch El) as Hd. split; [done|]. split; [done|].
  rewrite <-Hd in *. rewrite Hsplit in Hch, Hnd.
  pose proof (chain_update_last _ _ _ _ _ (next jc') jl Hch Hnd Hjl) as H. rewrite <-Hsplit in H.
  eapply chain_ext; [|exact H]. intros q Hq. apply lookup_delete_ne. congruence.
Qed.

Lemma unlink_inner js c pre p post jp jl : NoDup (c :: pre ++ p :: post) →
  chain js c (c :: pre ++ p :: post) c → js !! p = Some jp → js !! List.last pre c = Some jl →
  List.last pre c ≠ p ∧
  chain (delete p (<[List.last pre c := set_next (next jp) jl]> js)) c (c :: pre ++ post) c.
Proof.
  intros Hnd Hch Hjp Hjl. destruct (last_snoc_split c pre) as [l0 Hl0].
  set (lp := List.last pre c) in *. rewrite app_comm_cons in Hnd, Hch |- *. rewrite Hl0 in *.
  apply chain_app in Hch as (b & H1 & -> & jp' & Hjp' & H2). rewrite Hjp in Hjp'. simplify_eq.
  apply NoDup_app in Hnd as (Hnd1 & Hdis & Hnd2). apply NoDup_cons in Hnd2 as [Hp2 Hnd2].
  assert (p ∉ l0 ++ [lp]) as Hp1 by (intros Hin; apply (Hdis _ Hin); by left).
  assert (lp ∉ post) as Hlp.
  { intros Hin. apply (Hdis lp); [apply elem_of_app; right; by left|by right]. }
  split; [intros E; apply Hp1; rewrite E; apply elem_of_app; right; by left|].
  apply chain_app. exists (next jp'). split.
  - eapply chain_ext; [|by apply (chain_update_last _ _ _ _ _ _ jl H1 Hnd1 Hjl)].
    intros q Hq. apply lookup_delete_ne. by intros ->.
  - eapply chain_ext; [|exact H2]. intros q Hq.
    rewrite lookup_delete_ne, lookup_insert_ne by congruence. done.
Qed.

(** ** Stepping through the larger state *)

Lemma in_kernel_ok {A} (m : M kernel A) s a k : m (kern s) = Ok a k → in_kernel m s = Ok a (set_kern k s).
Proof. intros H. unfold in_kernel, zoom. by rewrite H. Qed.

Lemma in_memory_ok {A} (m : M mem A) s a t : m (kram (kern s)) = Ok a t →
  in_memory m s = Ok a (set_kern (set_kram t (kern s)) s).
Proof. intros H. by apply in_kernel_ok, in_ram_ok. Qed.

Lemma get_job_ok s p j : jobs s !! p = Some j → get_job p s = Ok j s.
Proof. intros H. unfold get_job. by rewrite H. Qed.

Lemma set_kern_id s : set_kern (kern s) s = s.
Proof. by destruct s. Qed.

Lemma get_manager_ok s p pm : p ≠ 0 → managers s !! p = Some pm → get_manager p s = Ok pm s.
Proof. intros Hp H. unfold get_manager, at_manager, bind. rewrite (proj2 (Z.eqb_neq p 0) Hp). cbn. by rewrite H. Qed.

Lemma init_manager_ok s p pm m : p ≠ 0 → paging_manager_init (table_slab s) (kram (kern s)) = Ok pm m →
  init_manager p s = Ok pm (set_managers (<[p := pm]> (managers s)) (set_kern (set_kram m (kern s)) s)).
Proof.
  intros Hp H. unfold init_manager, put_manager, at_manager. rewrite (proj2 (Z.eqb_neq p 0) Hp).
  by erewrite bind_ok; [|reflexivity]; erewrite bind_ok; [|reflexivity]; rewrite (bind_ok _ _ _ _ _ (in_memory_ok _ _ _ _ H)).
Qed.

Lemma init_manager_null s : init_manager 0 s = Fault (BadAddress 0).
Proof. done. Qed.
(** ** The invariant *)

Record job_inv (live : kernel → gset Z → Prop) (s : system) (l : list Z) (used L : gset Z) : Prop := {
  inv_ring : ring s l;
  inv_live : live (kern s) L;
  inv_paging p j : jobs s !! p = Some j → paging j ∈ L;
  inv_own p q j k : jobs s !! p = Some j → jobs s !! q = Some k → paging j = paging k → p = q;
  inv_ok : slab_ok (job_slab s);
  inv_rep : slab_rep (job_slab s) (kram (kern s)) used;
  inv_slots p : p ∈ l → ∃ n, n ∈ used ∧ 0 ≤ n < max_store (job_slab s) ∧ p = slot_address (job_slab s) n;
  inv_apart : disjoint (starting_address (job_slab s)) (header_size (job_slab s))
    (heap_tbl (main_heap (kern s))) (blocks (main_heap (kern s)) + 1);
}.

(** Every job of [js'] is the one of [js], but for its link. *)
Definition same_jobs (js js' : gmap Z job) : Prop :=
  ∀ q j', js' !! q = Some j' → ∃ j, js !! q = Some j ∧ j' = set_next (next j') j.

Definition status_of (s : system) (p : Z) : option job_status := status <$> jobs s !! p.

(** Who owns what: every slot in use holds a job, and what is allocated is [rest] and the paging
    managers of the jobs. *)
Definition owned (s : system) (used L rest : gset Z) : Prop :=
  (∀ n, n ∈ used → is_Some (jobs s !! slot_address (job_slab s) n)) ∧
  (∀ a, a ∈ L ↔ a ∈ rest ∨ ∃ q j, jobs s !! q = Some j ∧ paging j = a) ∧
  (∀ q j, jobs s !! q = Some j → paging j ∉ rest).

(** Nothing is lost between two states. *)
Definition accounts (s : system) (used L : gset Z) (s' : system) (used' L' : gset Z) : Prop :=
  ∀ rest, owned s used L rest → owned s' used' L' rest.

Lemma owned_same s s' used L rest : job_slab s' = job_slab s →
  (∀ q, paging <$> jobs s' !! q = paging <$> jobs s !! q) → owned s used L rest → owned s' used L rest.
Proof.
  intros Es Ej (Hu & HL & Hr).
  assert (∀ q j, jobs s' !! q = Some j → ∃ j', jobs s !! q = Some j' ∧ paging j' = paging j) as Hback.
  { intros q j Hj. specialize (Ej q). rewrite Hj in Ej. destruct (jobs s !! q) as [j'|]; [|done]. injection Ej as Ej. by exists j'. }
  assert (∀ q j, jobs s !! q = Some j → ∃ j', jobs s' !! q = Some j' ∧ paging j' = paging j) as Hforth.
  { intros q j Hj. specialize (Ej q). rewrite Hj in Ej. destruct (jobs s' !! q) as [j'|]; [|done]. injection Ej as Ej. by exists j'. }
  split; [|split].
  - intros n Hn. rewrite Es. destruct (Hu n Hn) as [j Hj]. destruct (Hforth _ _ Hj) as (j' & -> & _). by eexists.
  - intros a. rewrite HL. split; (intros [H|(q & j & Hj & <-)]; [by left|right]).
    + destruct (Hforth q j Hj) as (j' & Hj' & E). by exists q, j'.
    + destruct (Hback q j Hj) as (j' & Hj' & E). by exists q, j'.
  - intros q j Hj. destruct (Hback q j Hj) as (j' & Hj' & <-). by eapply Hr.
Qed.

Lemma same_jobs_refl js : same_jobs js js.
Proof. intros q j H. exists j. split; [done|]. by destruct j. Qed.

Lemma same_jobs_trans js1 js2 js3 : same_jobs js1 js2 → same_jobs js2 js3 → same_jobs js1 js3.
Proof.
  intros H1 H2 q j3 Hq. destruct (H2 q j3 Hq) as (j2 & Hq2 & E).
  destruct (H1 q j2 Hq2) as (j1 & Hq1 & E'). exists j1. split; [done|]. rewrite E, E'. done.
Qed.

Lemma ring_lookup s l p : ring s l → p ∈ l → ∃ j, jobs s !! p = Some j.
Proof.
  destruct l as [|c l]; [by intros _ ?%not_elem_of_nil|]. intros (_ & Hch & _) Hp.
  by eapply chain_lookup.
Qed.

Lemma ring_mem s c l p j : ring s (c :: l) → jobs s !! p = Some j → p ∈ c :: l.
Proof.
  intros (_ & _ & _ & _ & Hdom) Hp. apply elem_of_dom_2 in Hp. rewrite Hdom in Hp.
  by apply elem_of_list_to_set in Hp.
Qed.

(** The next job becomes the current one. *)
Lemma ring_rotate s c l j : ring s (c :: l) → jobs s !! c = Some j →
  ring (set_current (next j) s) (l ++ [c]).
Proof.
  intros (_ & (_ & j' & Hj' & Hch) & Hnd & H0 & Hdom) Hj. rewrite Hj in Hj'. simplify_eq.
  assert (chain (jobs s) (next j') (l ++ [c]) (next j')) as Hch'.
  { apply chain_app. exists c. split; [done|]. split; [done|]. by exists j'. }
  assert (NoDup (l ++ [c])) as Hnd' by (rewrite (Permutation_app_comm l [c]); done).
  assert (0 ∉ l ++ [c]) as H0' by (rewrite (Permutation_app_comm l [c]); done).
  assert (dom (jobs s) = list_to_set (l ++ [c])) as Hdom'
    by (rewrite Hdom; apply set_eq; intros q; set_solver).
  destruct (l ++ [c]) as [|d r] eqn:E; [by destruct l|]. simpl. split; [|split_and!; try done].
  - by destruct Hch' as [-> _].
  - destruct Hch' as [Ed Hch']. by rewrite Ed in Hch'.
Qed.

Lemma inv_rotate live s c l used L j : job_inv live s (c :: l) used L → jobs s !! c = Some j →
  job_inv live (set_current (next j) s) (l ++ [c]) used L.
Proof.
  intros [] Hj. split; try done; [by apply ring_rotate|]. intros p Hp. apply inv_slots0.
  rewrite (Permutation_app_comm l [c]) in Hp. done.
Qed.

(** ** What an operation on the ring leaves alone *)

(** Only the table of the heap and the header of the slab [sl] change. *)
Definition kern_frame (sl : slab) (k k' : kernel) : Prop :=
  (∀ a, ¬ (heap_tbl (main_heap k) ≤ a < heap_tbl (main_heap k) + blocks (main_heap k)) →
    ¬ (starting_address sl ≤ a < starting_address sl + header_size sl) → kram k' !! a = kram k !! a) ∧
  sysregs (mach k') = sysregs (mach k) ∧ trace (mach k') = trace (mach k) ∧ env (mach k') = env (mach k) ∧
  interrupts k' = interrupts k ∧ heap_tbl (main_heap k') = heap_tbl (main_heap k) ∧ blocks (main_heap k') = blocks (main_heap k).

Record sys_frame (s s' : system) : Prop := {
  frame_kern : kern_frame (job_slab s) (kern s) (kern s');
  frame_job_slab : job_slab s' = job_slab s;
  frame_table_slab : table_slab s' = table_slab s;
  frame_user_space : user_space s' = user_space s;
  frame_current_paging : current_paging_manager s' = current_paging_manager s;
  frame_jobs : same_jobs (jobs s) (jobs s');
  frame_managers q j : jobs s' !! q = Some j → managers s' !! paging j = managers s !! paging j;
}.

Lemma kern_frame_trans sl k1 k2 k3 : kern_frame sl k1 k2 → kern_frame sl k2 k3 → kern_frame sl k1 k3.
Proof.
  intros (H1 & H2 & H3 & H4 & H0 & H5 & H6) (G1 & G2 & G3 & G4 & G0 & G5 & G6).
  split; [|by rewrite G2, G3, G4, G0, G5, G6].
  intros a Ha Hb. rewrite G1; [by apply H1| |done]. by rewrite H5, H6.
Qed.

Lemma sys_frame_trans s1 s2 s3 : sys_frame s1 s2 → sys_frame s2 s3 → sys_frame s1 s3.
Proof.
  intros [] []. split; try congruence.
  - apply kern_frame_trans with (kern s2); [done|]. by rewrite <-frame_job_slab0.
  - by eapply same_jobs_trans.
  - intros q j Hq. destruct (frame_jobs1 q j Hq) as (j' & Hq' & E).
    rewrite (frame_managers1 q j Hq). replace (paging j) with (paging j') by (by rewrite E).
    by apply frame_managers0 with q.
Qed.

Lemma sys_frame_refl s : sys_frame s s.
Proof. split; try done. apply same_jobs_refl. Qed.

Lemma sys_frame_current s c : sys_frame s (set_current c s).
Proof. split; try done. apply same_jobs_refl. Qed.

(** ** Deleting a job *)

Section job_delete.
Context {live : kernel → gset Z → Prop} `{HeapService live}.

(** Releasing the paging manager and the slot of a job that is no longer linked. *)
Lemma release_job {B} (K : M system B) s p j n used L :
  slab_ok (job_slab s) → slab_rep (job_slab s) (kram (kern s)) used → n ∈ used →
  0 ≤ n < max_store (job_slab s) → p = slot_address (job_slab s) n →
  disjoint (starting_address (job_slab s)) (header_size (job_slab s))
    (heap_tbl (main_heap (kern s))) (blocks (main_heap (kern s)) + 1) →
  live (kern s) L → paging j ∈ L →
  ∃ k', (in_kernel (kfree (paging j)) ;;
      modify (λ s, set_managers (delete (paging j) (managers s)) s) ;;
      in_memory (slab_free (job_slab s) p) ;; K) s =
      K (set_managers (delete (paging j) (managers s)) (set_kern k' s)) ∧
    live k' (L ∖ {[paging j]}) ∧ slab_rep (job_slab s) (kram k') (used ∖ {[n]}) ∧
    kern_frame (job_slab s) (kern s) k'.
Proof.
  intros Hok Hrep Hn Hr -> Hap HL Hp.
  destruct (service_free (kern s) L (paging j) HL Hp)
    as (k1 & Hf & HL1 & Hfr & _ & Hreg & Htr & Henv & Hint & Ht & Hb).
  assert (slab_rep (job_slab s) (kram k1) used) as Hrep1.
  { destruct Hrep as (hb & Hhb & ? & ? & Hle & ?). exists hb. split; [|done].
    eapply bytes_at_agree; [exact Hhb|]. intros a Ha. apply Hfr. unfold disjoint in Hap. lia. }
  pose proof (slab_free_rep (job_slab s) (kram k1) used n Hok Hrep1 Hr) as Hs.
  rewrite bool_decide_eq_true_2 in Hs by done. destruct Hs as (m' & Hs & Hrep2 & Honly).
  exists (set_kram m' k1). split; [|split; [|split; [done|]]].
  - rewrite (bind_ok _ _ _ _ _ (in_kernel_ok _ _ _ _ Hf)). unfold modify, bind.
    rewrite (in_memory_ok _ (set_managers (delete (paging j) (managers s)) (set_kern k1 s)) _ _ Hs).
    done.
  - eapply service_stable; [exact HL1|done|]. intros a Ha. apply Honly. rewrite Ht, Hb in Ha.
    unfold disjoint in Hap. lia.
  - split; [|done]. intros a Ha Hh. rewrite <-Hfr by done. by apply Honly.
Qed.

(** The system after a deletion, up to the memory. *)
Definition unlinked (s : system) (k' : kernel) (js : gmap Z job) (c : Z) (j : job) : system :=
  mk_system k' (table_slab s) (current_paging_manager s) (delete (paging j) (managers s))
    (job_slab s) (user_space s) c js.

Lemma inv_unlinked s l l' used L k' c p n j js : job_inv live s l used L →
  p ∈ l → jobs s !! p = Some j → p = slot_address (job_slab s) n →
  l' = filter (λ q, q ≠ p) l → same_jobs (jobs s) js → js !! p = None →
  ring (unlinked s k' js c j) l' →
  live k' (L ∖ {[paging j]}) → slab_rep (job_slab s) (kram k') (used ∖ {[n]}) →
  kern_frame (job_slab s) (kern s) k' →
  job_inv live (unlinked s k' js c j) l' (used ∖ {[n]}) (L ∖ {[paging j]}).
Proof.
  intros [] Hp Hj Hn -> Hsame Hnone Hring HL Hrep (_ & _ & _ & _ & _ & Ht & Hb). split; try done.
  - intros q jq Hq. cbn in Hq. destruct (Hsame q jq Hq) as (jq' & Hq' & E).
    assert (paging jq = paging jq') as Ep by by rewrite E.
    apply elem_of_difference. rewrite Ep. split; [by eapply inv_paging0|].
    intros Heq%elem_of_singleton. assert (q = p) as -> by by eapply inv_own0. cbn in Hnone. congruence.
  - intros q r jq jr Hq Hr E. cbn in Hq, Hr.
    destruct (Hsame q jq Hq) as (jq' & Hq' & Eq), (Hsame r jr Hr) as (jr' & Hr' & Er).
    eapply inv_own0; [done|done|]. rewrite Eq, Er in E. done.
  - intros q [Hne Hq]%list_elem_of_filter. destruct (inv_slots0 q Hq) as (m & Hm & Hr & ->).
    exists m. split; [|done]. apply elem_of_difference. split; [done|].
    intros ->%elem_of_singleton. by rewrite Hn in Hne.
  - cbn. by rewrite Ht, Hb.
Qed.

Lemma frame_unlinked s l used L k' js c p j : job_inv live s l used L → jobs s !! p = Some j →
  same_jobs (jobs s) js → js !! p = None → kern_frame (job_slab s) (kern s) k' →
  sys_frame s (unlinked s k' js c j).
Proof.
  intros [] Hj Hsame Hnone Hk. split; try done. intros q jq Hq. cbn in Hq |- *.
  destruct (Hsame q jq Hq) as (jq' & Hq' & E). apply lookup_delete_ne. intros Heq.
  assert (p = q) as <-; [|by rewrite Hnone in Hq]. eapply inv_own0; [done|exact Hq'|].
  rewrite Heq. by rewrite E.
Qed.

(** [job_delete] once the search has found [p] behind [lp]. *)
Lemma job_delete_found s c l p used L jc jp jl lp n : job_inv live s (c :: l) used L →
  jobs s !! c = Some jc → next jc ≠ c → p ∈ c :: l →
  follow (S (size (jobs s))) (λ '(last_ptr, curr_ptr),
    if curr_ptr =? p then ret (inr (last_ptr, curr_ptr)) else
    let* curr := get_job curr_ptr in
    ret (inl (curr_ptr, next curr))) (c, next jc) s = Ok (lp, p) s →
  jobs s !! p = Some jp → jobs s !! lp = Some jl → lp ≠ p →
  n ∈ used → 0 ≤ n < max_store (job_slab s) → p = slot_address (job_slab s) n →
  ∃ k', job_delete p s = Ok tt (unlinked s k'
      (delete p (<[lp := set_next (next jp) jl]> (jobs s))) (if p =? c then next jc else c) jp) ∧
    live k' (L ∖ {[paging jp]}) ∧ slab_rep (job_slab s) (kram k') (used ∖ {[n]}) ∧
    kern_frame (job_slab s) (kern s) k'.
Proof.
  intros Hinv Hc Hnext Hp Hsearch Hjp Hjl Hne Hn Hr Hpn. pose proof Hinv as [].
  assert (current_job s = c) as Hcur by apply inv_ring0.
  set (s1 := set_jobs (<[lp := set_next (next jp) jl]> (jobs s)) s).
  destruct (release_job (modify (λ s, set_jobs (delete p (jobs s)) s) ;;
    if p =? c then modify (set_current (next jc)) else ret tt) s1 p jp n used L) as (k' & Hrel & Hlive & Hrep & Hkf); try done.
  { by eapply inv_paging0. }
  exists k'. split; [|done]. unfold job_delete. unfold get, bind at 1. rewrite Hcur.
  rewrite (bind_ok _ _ _ _ _ (get_job_ok _ _ _ Hc)).
  rewrite (proj2 (Z.eqb_neq c (next jc))) by congruence.
  rewrite (bind_ok _ _ _ _ _ Hsearch). cbv beta iota.
  rewrite (bind_ok _ _ _ _ _ (get_job_ok _ _ _ Hjp)), (bind_ok _ _ _ _ _ (get_job_ok _ _ _ Hjl)).
  unfold put_job at 1, modify at 1, bind at 1. fold s1.
  assert (jobs s1 !! p = Some jp) as Hjp1 by (cbn; by rewrite lookup_insert_ne).
  rewrite (bind_ok _ _ _ _ _ (get_job_ok _ _ _ Hjp1)).
  etransitivity; [exact Hrel|]. unfold modify, bind.
  destruct (p =? c); [done|]. unfold ret, set_jobs, set_managers, set_kern, unlinked. cbn.
  by rewrite <-Hcur.
Qed.

Lemma same_jobs_unlink js p lp nx jl : js !! lp = Some jl →
  same_jobs js (delete p (<[lp := set_next nx jl]> js)).
Proof.
  intros Hl q j. destruct (decide (q = p)) as [->|Hp]; [by rewrite lookup_delete_eq|].
  rewrite lookup_delete_ne by done. destruct (decide (q = lp)) as [->|Hq].
  - rewrite lookup_insert_eq. intros [= <-]. by exists jl.
  - rewrite lookup_insert_ne by done. intros Hj. exists j. split; [done|]. by destruct j.
Qed.

Lemma dom_unlink (js : gmap Z job) p lp j l l' jl : dom js = list_to_set l → l' = filter (λ q, q ≠ p) l →
  js !! lp = Some jl → dom (delete p (<[lp := j]> js)) = (list_to_set l' : gset Z).
Proof.
  intros Hd -> Hl. rewrite dom_delete_L, dom_insert_lookup_L by by eexists. rewrite Hd.
  apply set_eq. intros q. rewrite elem_of_difference, !elem_of_list_to_set, list_elem_of_filter.
  set_solver.
Qed.

(** [p] is gone from the ring [l'] that is left, with its slot and its paging manager. *)
Definition deleted (s : system) (p : Z) (l' : list Z) (used L : gset Z) (s' : system) : Prop := ∃ n j,
  jobs s !! p = Some j ∧ n ∈ used ∧ p = slot_address (job_slab s) n ∧
  job_inv live s' l' (used ∖ {[n]}) (L ∖ {[paging j]}) ∧ managers s' = delete (paging j) (managers s) ∧
  jobs s' !! p = None ∧ sys_frame s s'.

Lemma unlinked_deleted s l used L k' js c p n j l' : job_inv live s l used L → p ∈ l → jobs s !! p = Some j →
  n ∈ used → p = slot_address (job_slab s) n → l' = filter (λ q, q ≠ p) l → same_jobs (jobs s) js → js !! p = None →
  ring (unlinked s k' js c j) l' → live k' (L ∖ {[paging j]}) → slab_rep (job_slab s) (kram k') (used ∖ {[n]}) →
  kern_frame (job_slab s) (kern s) k' → deleted s p l' used L (unlinked s k' js c j).
Proof.
  intros Hinv Hp Hj Hn Ep El Hsame Hnone Hring Hlive Hrep Hkf. exists n, j. split; [done|]. split; [done|]. split; [done|].
  split; [by apply (inv_unlinked s l l' used L k' c p n j js)|]. split; [done|]. split; [done|].
  by apply (frame_unlinked s l used L k' js c p j).
Qed.

(** Deleting the current job: the next one becomes current. *)
Lemma delete_head s c d r used L : job_inv live s (c :: d :: r) used L →
  ∃ s', job_delete c s = Ok tt s' ∧ deleted s c (d :: r) used L s'.
Proof.
  intros Hinv. pose proof Hinv as []. pose proof inv_ring0 as (Hcur & Hch & Hnd & H0 & Hdom).
  pose proof Hch as (_ & jc & Hc & Hch').
  assert (List.last (d :: r) c ∈ d :: r) as Hlp.
  { rewrite (app_removelast_last c (l := d :: r)) at 2 by done. apply elem_of_app. right. by left. }
  destruct (ring_lookup s (c :: d :: r) (List.last (d :: r) c)) as [jl Hl];
    [apply inv_ring0|by right|].
  destruct (unlink_head (jobs s) c (d :: r) jc jl) as (Hne & d' & r' & [= <- <-] & Hd & Hch2); try done.
  destruct (inv_slots0 c) as (n & Hn & Hr & Ecn); [by left|].
  assert (c ∉ d :: r) as Hcr by by apply NoDup_cons in Hnd as [].
  assert (filter (λ q, q ≠ c) (c :: d :: r) = d :: r) as Hfil.
  { rewrite filter_cons_False by auto. by apply filter_neq_id. }
  destruct (job_delete_found s c (d :: r) c used L jc jc jl (List.last (d :: r) c) n Hinv)
    as (k' & Hdel & Hlive & Hrep & Hkf); try done.
  { rewrite Hd. intros ->. apply Hcr. by left. }
  { by left. }
  { apply (follow_search s c (d :: r) [] c (next jc) (next jc)).
    - apply chain_app. exists c. split; [|split; [done|by exists jc]]. done.
    - done.
    - assert (size (jobs s) = length (c :: d :: r)) as ->.
      { rewrite <-size_dom, Hdom. by apply size_list_to_set. } simpl. lia. }
  eexists. split; [exact Hdel|]. rewrite Z.eqb_refl.
  eapply unlinked_deleted; [exact Hinv|by left|done|done|done|by rewrite Hfil|by apply same_jobs_unlink|
    by rewrite lookup_delete_eq| |done|done|done].
  split; [done|]. split; [done|]. apply NoDup_cons in Hnd as [_ Hnd]. split; [done|].
  rewrite not_elem_of_cons in H0. split; [tauto|]. by eapply dom_unlink.
Qed.

(** Deleting another job: its predecessor is linked to its successor. *)
Lemma delete_inner s c pre p post used L : job_inv live s (c :: pre ++ p :: post) used L →
  ∃ s', job_delete p s = Ok tt s' ∧ deleted s p (c :: pre ++ post) used L s'.
Proof.
  intros Hinv. pose proof Hinv as []. pose proof inv_ring0 as (Hcur & Hch & Hnd & H0 & Hdom).
  assert (p ∈ c :: pre ++ p :: post) as Hp by set_solver.
  destruct (ring_lookup s _ p inv_ring0 Hp) as [jp Hjp].
  assert (List.last pre c ∈ c :: pre ++ p :: post) as Hlp.
  { destruct (last_snoc_split c pre) as [l0 E]. rewrite app_comm_cons, E. set_solver. }
  destruct (ring_lookup s _ _ inv_ring0 Hlp) as [jl Hl].
  destruct (unlink_inner (jobs s) c pre p post jp jl) as (Hne & Hch2); try done.
  destruct (inv_slots0 p Hp) as (n & Hn & Hr & Epn).
  pose proof Hch as (_ & jc & Hc & Hch').
  apply NoDup_cons in Hnd as [Hc1 Hnd]. rewrite elem_of_app, elem_of_cons in Hc1.
  pose proof Hnd as (Hnd1 & Hdis & [Hpost Hnd2]%NoDup_cons)%NoDup_app.
  assert (p ∉ pre) as Hpre by (intros Hin; apply (Hdis _ Hin); by left).
  assert (c ≠ p) as Hcp by tauto.
  assert (filter (λ q, q ≠ p) (c :: pre ++ p :: post) = c :: pre ++ post) as Hfil.
  { rewrite filter_cons_True by done. by rewrite filter_neq_split. }
  destruct (job_delete_found s c (pre ++ p :: post) p used L jc jp jl (List.last pre c) n Hinv)
    as (k' & Hdel & Hlive & Hrep & Hkf); try done.
  { intros E. destruct (pre ++ p :: post) as [|d r] eqn:El; [by destruct pre|].
    pose proof (chain_head _ _ _ _ _ _ Hch' eq_refl) as Hd.
    assert (c ∈ pre ++ p :: post) as Hin by (rewrite El, <-E, Hd; by left).
    rewrite elem_of_app, elem_of_cons in Hin. tauto. }
  { apply (follow_search s p pre post c (next jc) c); [done|done|].
    assert (size (jobs s) = length (c :: pre ++ p :: post)) as ->.
    { rewrite <-size_dom, Hdom. apply size_list_to_set. apply NoDup_cons.
      rewrite elem_of_app, elem_of_cons. tauto. }
    simpl. rewrite length_app. lia. }
  eexists. split; [exact Hdel|]. rewrite (proj2 (Z.eqb_neq p c)) by done.
  eapply unlinked_deleted; [exact Hinv|exact Hp|done|done|done|by rewrite Hfil|by apply same_jobs_unlink|
    by rewrite lookup_delete_eq| |done|done|done].
  split; [done|]. split; [exact Hch2|]. rewrite <-Hfil.
  split; [by apply NoDup_filter; apply inv_ring0|].
  split; [intros [_ ?]%list_elem_of_filter; tauto|]. by eapply dom_unlink.
Qed.

Lemma job_delete_inv s l p used L : job_inv live s l used L → p ∈ l → (2 ≤ length l)%nat →
  ∃ s', job_delete p s = Ok tt s' ∧ deleted s p (filter (λ q, q ≠ p) l) used L s'.
Proof.
  intros Hinv Hp Hlen. destruct l as [|c r]; [by apply not_elem_of_nil in Hp|].
  pose proof (inv_ring _ _ _ _ _ Hinv) as (_ & _ & Hnd & _).
  destruct (decide (p = c)) as [->|Hne].
  - destruct r as [|d r]; [simpl in Hlen; lia|].
    apply NoDup_cons in Hnd as [Hc _]. rewrite filter_cons_False by auto.
    rewrite filter_neq_id by done. by eapply delete_head.
  - apply elem_of_cons in Hp as [->|Hp]; [done|].
    apply list_elem_of_split in Hp as (pre & post & ->).
    apply NoDup_cons in Hnd as [_ (_ & Hdis & [Hpost _]%NoDup_cons)%NoDup_app].
    rewrite filter_cons_True by congruence. rewrite filter_neq_split; [|by intros ?%Hdis; set_solver|done].
    by apply delete_inner.
Qed.

Lemma deleted_accounts s l p used L s' : job_inv live s l used L → deleted s p (filter (λ q, q ≠ p) l) used L s' →
  ∃ used' L', job_inv live s' (filter (λ q, q ≠ p) l) used' L' ∧ sys_frame s s' ∧ accounts s used L s' used' L'.
Proof.
  intros Hinv (n & j & Hj & Hn & Ep & Hinv' & _ & Hnone & Hfr). do 2 eexists. split; [exact Hinv'|]. split; [exact Hfr|].
  assert (∀ q k, jobs s !! q = Some k → q ≠ p → ∃ k', jobs s' !! q = Some k' ∧ paging k' = paging k) as Hforth.
  { intros q k Hk Hq. assert (q ∈ filter (λ q, q ≠ p) l) as Hin.
    { apply list_elem_of_filter. split; [done|]. destruct l as [|c r]; [|by eapply ring_mem; [apply Hinv|]].
      destruct (inv_ring _ _ _ _ _ Hinv) as [_ E]. by rewrite E, lookup_empty in Hk. }
    destruct (ring_lookup _ _ q (inv_ring _ _ _ _ _ Hinv') Hin) as [k' Hk']. exists k'. split; [done|].
    destruct (frame_jobs _ _ Hfr q k' Hk') as (k0 & Hk0 & ->). cbn. congruence. }
  assert (∀ q k', jobs s' !! q = Some k' → q ≠ p ∧ ∃ k, jobs s !! q = Some k ∧ paging k' = paging k) as Hback.
  { intros q k' Hk'. split; [by intros ->; rewrite Hnone in Hk'|]. destruct (frame_jobs _ _ Hfr q k' Hk') as (k & Hk & ->). by exists k. }
  intros rest (Hu & HL & Hr). split; [|split].
  - intros m [Hm Hne]%elem_of_difference. rewrite (frame_job_slab _ _ Hfr). destruct (Hu m Hm) as [k Hk].
    destruct (Hforth _ _ Hk) as (k' & -> & _); [|by eexists]. intros E. apply Hne, elem_of_singleton.
    pose proof (ok_obj _ (inv_ok _ _ _ _ _ Hinv)). rewrite Ep in E. unfold slot_address in E. nia.
  - intros a. rewrite elem_of_difference, elem_of_singleton, HL. split.
    + intros [[Ha|(q & k & Hk & <-)] Hne]; [by left|right]. destruct (Hforth q k Hk) as (k' & Hk' & E); [congruence|].
      by exists q, k'.
    + intros [Ha|(q & k' & Hk' & <-)]; [split; [by left|intros ->; by apply (Hr p j)]|].
      destruct (Hback q k' Hk') as (Hq & k & Hk & ->). split; [right; by exists q, k|].
      intros E. apply Hq. by eapply (inv_own _ _ _ _ _ Hinv).
  - intros q k' Hk'. destruct (Hback q k' Hk') as (_ & k & Hk & ->). by eapply Hr.
Qed.
End job_delete.

(** ** Creating a job *)

Lemma read_string_cstr m s p n : cstr m p s → read_string n p m = Ok (take n s) m.
Proof.
  revert p n. induction s as [|c s IH]; intros p n [Hb Hok].
  - apply bytes_at_cons in Hb as [H0 _]. destruct n; simpl; unfold bind; by rewrite (loadb_ok _ _ _ H0).
  - apply bytes_at_cons in Hb as [Hc Hb]. apply Forall_cons in Hok as [Hcok Hok].
    destruct n as [|n]; simpl; unfold bind; rewrite (loadb_ok _ _ _ Hc); [done|].
    destruct (Z.eqb_spec c 0); [unfold char_ok in Hcok; lia|]. by rewrite (IH (p + 1) n).
Qed.

(** Where a new job goes: behind the current one. *)
Definition insert_ring (p : Z) (l : list Z) : list Z :=
  match l with [] => [p] | c :: r => c :: p :: r end.

Lemma ring_insert s c r p cur j : ring s (c :: r) → jobs s !! c = Some cur → p ∉ c :: r → p ≠ 0 →
  next j = next cur →
  ring (set_jobs (<[p := j]> (<[c := set_next p cur]> (jobs s))) s) (c :: p :: r).
Proof.
  intros (Hcur & (_ & cur' & Hc & Hch) & Hnd & H0 & Hdom) Hc' Hp Hp0 Hj. simplify_eq.
  rewrite not_elem_of_cons in Hp. destruct Hp as [Hpc Hpr]. pose proof Hnd as [Hcr Hndr]%NoDup_cons.
  split; [done|]. split; [|split; [|split]].
  - split; [done|]. exists (set_next p cur). split.
    { cbn. rewrite lookup_insert_ne by congruence. apply lookup_insert_eq. }
    split; [done|]. exists j. split; [cbn; apply lookup_insert_eq|]. rewrite Hj. cbn.
    eapply chain_ext; [|exact Hch]. intros q Hq.
    rewrite !lookup_insert_ne by congruence. done.
  - apply NoDup_cons. rewrite elem_of_cons. split; [intros [?|?]; congruence|].
    by apply NoDup_cons.
  - apply not_elem_of_cons in H0 as [H0c H0r]. rewrite !elem_of_cons.
    intros [?|[?|?]]; congruence || done.
  - cbn. rewrite dom_insert_L, dom_insert_lookup_L, Hdom by by eexists. simpl. set_solver.
Qed.

Section job_create.
Context {live : kernel → gset Z → Prop} `{HeapService live}.

Lemma inv_insert s l p n used L m' j js l' c : job_inv live s l used L →
  free_slot (job_slab s) used = Some n → p = slot_address (job_slab s) n →
  (∀ q, q ∈ l' → q = p ∨ q ∈ l) →
  (∀ q k, js !! q = Some k → q = p ∧ k = j ∨ q ≠ p ∧ ∃ k0, jobs s !! q = Some k0 ∧ k = set_next (next k) k0) →
  (paging j ∈ L) → (∀ q k, jobs s !! q = Some k → paging k ≠ paging j) →
  slab_rep (job_slab s) m' ({[n]} ∪ used) → only_header (job_slab s) (kram (kern s)) m' →
  ring (set_jobs js (set_current c (set_kern (set_kram m' (kern s)) s))) l' →
  job_inv live (set_jobs js (set_current c (set_kern (set_kram m' (kern s)) s))) l' ({[n]} ∪ used) L.
Proof.
  intros [] Hfree Ep Hl' Hjs HpL Hfresh Hrep Honly Hring. split; try done.
  - eapply service_stable; [exact inv_live0|done|]. intros a Ha. apply Honly.
    unfold disjoint in inv_apart0. lia.
  - intros q k Hq. destruct (Hjs q k Hq) as [[-> ->]|(Hne & k0 & Hk0 & ->)]; [done|].
    exact (inv_paging0 q k0 Hk0).
  - intros q r k k' Hq Hr E. destruct (Hjs q k Hq) as [[-> ->]|(Hq' & k0 & Hk0 & Ek)],
      (Hjs r k' Hr) as [[-> ->]|(Hr' & k1 & Hk1 & Ek')]; [done| | |].
    + destruct (Hfresh r k1 Hk1). rewrite Ek' in E. symmetry. exact E.
    + destruct (Hfresh q k0 Hk0). rewrite Ek in E. exact E.
    + eapply inv_own0; [exact Hk0|exact Hk1|]. rewrite Ek, Ek' in E. exact E.
  - intros q Hq. destruct (Hl' q Hq) as [->|Hq'].
    + exists n. split; [set_solver|]. split; [|done]. unfold free_slot in Hfree.
      apply top_free_spec in Hfree as [Hr _]. pose proof (ok_max _ inv_ok0). cbn.
      rewrite Z2Nat.id in Hr by lia. lia.
    + destruct (inv_slots0 q Hq') as (m & Hm & ?). exists m. split; [set_solver|done].
Qed.

Lemma job_create_spec s l used L n entry sp nm str pg :
  job_inv live s l used L → free_slot (job_slab s) used = Some n →
  cstr (kram (kern s)) nm str →
  disjoint nm (Z.of_nat (length str) + 1) (starting_address (job_slab s)) (header_size (job_slab s)) →
  pg ∈ L → (∀ q k, jobs s !! q = Some k → paging k ≠ pg) →
  let p := slot_address (job_slab s) n in
  ∃ m' js c nx (s' := set_jobs js (set_current c (set_kern (set_kram m' (kern s)) s))),
    job_create entry sp nm pg s = Ok p s' ∧ only_header (job_slab s) (kram (kern s)) m' ∧
    job_inv live s' (insert_ring p l) ({[n]} ∪ used) L ∧
    js !! p = Some (mk_job (take 30 str) RUNNING (replicate 31 0) entry sp pg (replicate 8 0) 0 nx) ∧
    same_jobs (jobs s) (delete p js).
Proof.
  intros Hinv Hfree Hnm Hdis Hpg Hfresh p. pose proof Hinv as [].
  destruct (slab_allocate_rep _ _ _ _ inv_ok0 inv_rep0 Hfree) as (m' & Hal & Hrep & Honly).
  pose proof (ok_max _ inv_ok0). pose proof (ok_hdr _ inv_ok0). pose proof (ok_obj _ inv_ok0).
  pose proof (ok_addr _ inv_ok0).
  assert (0 ≤ n < max_store (job_slab s) ∧ n ∉ used) as [Hn Hnu].
  { apply top_free_spec in Hfree as (Hr & ? & _). rewrite Z2Nat.id in Hr by lia. split; [lia|done]. }
  assert (p ≠ 0) as Hp0 by (unfold p, slot_address; nia).
  assert (p ∉ l) as Hpl.
  { intros Hp. destruct (inv_slots0 p Hp) as (k & Hk & _ & E). unfold p, slot_address in E.
    assert (k = n) as -> by nia. done. }
  assert (read_string (Z.to_nat MAX_NAME_CHAR) nm m' = Ok (take 30 str) m') as Hread.
  { apply read_string_cstr. eapply cstr_agree; [exact Hnm|]. intros a Ha. apply Honly.
    unfold disjoint in Hdis. lia. }
  set (j nx := mk_job (take 30 str) RUNNING (replicate 31 0) entry sp pg (replicate 8 0) 0 nx).
  set (s1 := set_kern (set_kram m' (kern s)) s).
  assert (in_memory (read_string (Z.to_nat MAX_NAME_CHAR) nm) s1 = Ok (take 30 str) s1) as Hname
    by exact (in_memory_ok _ s1 _ _ Hread).
  unfold job_create. unfold get, bind at 1. rewrite (bind_ok _ _ _ _ _ (in_memory_ok _ _ _ _ Hal)).
  fold p s1. rewrite (bind_ok _ _ _ _ _ Hname). unfold bind at 1. destruct l as [|c r].
  - destruct inv_ring0 as [Hc Hempty]. rewrite (proj2 (Z.eqb_eq (current_job s1) 0)) by exact Hc.
    exists m', (<[p := j p]> (jobs s)), p, p.
    split; [reflexivity|]. split; [exact Honly|]. rewrite lookup_insert_eq, delete_insert_eq, Hempty.
    split; [|split; [done|intros q k; by rewrite delete_empty, lookup_empty]].
    apply (inv_insert s [] p n used L m' (j p)); try done.
    + intros q ->%list_elem_of_singleton. by left.
    + intros q k [[-> <-]|[_ Hk]]%lookup_insert_Some; [by left|done].
    + split; [done|]. split; [|split; [apply NoDup_singleton|split]].
      * split; [done|]. eexists. split; [apply lookup_insert_eq|]. done.
      * intros ?%list_elem_of_singleton. congruence.
      * cbn. rewrite dom_insert_L, dom_empty_L. set_solver.
  - pose proof inv_ring0 as (Hcur & _ & _ & Hzero & _).
    destruct (ring_lookup s _ c inv_ring0) as [cur Hc]; [by left|].
    change (current_job s1) with (current_job s). rewrite Hcur.
    rewrite (proj2 (Z.eqb_neq c 0)) by (intros ->; apply Hzero; by left).
    rewrite (bind_ok _ _ _ _ _ (get_job_ok s1 _ _ Hc)).
    exists m', (<[p := j (next cur)]> (<[c := set_next p cur]> (jobs s))), (current_job s), (next cur).
    assert (p ≠ c) as Hpc by (intros ->; apply Hpl; by left).
    split; [reflexivity|]. split; [exact Honly|]. split; [|split; [apply lookup_insert_eq|]].
    + apply (inv_insert s (c :: r) p n used L m' (j (next cur)) _ _ (current_job s)); try done.
      * intros q. simpl. rewrite !elem_of_cons. tauto.
      * intros q k [[-> <-]|[Hq Hk]]%lookup_insert_Some; [by left|]. right. split; [congruence|].
        apply lookup_insert_Some in Hk as [[<- <-]|[_ Hk]]; [by exists cur|].
        exists k. split; [done|]. by destruct k.
      * by apply (ring_insert s1).
    + intros q k. rewrite lookup_delete_Some. intros [Hq Hk].
      rewrite lookup_insert_ne in Hk by done.
      apply lookup_insert_Some in Hk as [[<- <-]|[_ Hk]]; [by exists cur|].
      exists k. split; [done|]. by destruct k.
Qed.

(** C23: [job_create] takes a free slot and puts the new running job right behind the current one
    (alone in the ring when there is none); it starts at [entry] with stack [sp], cleared
    registers, no open files and the first 30 characters of the name, and the other jobs only
    change their links. *)
Theorem job_create_inserts s l used L n entry sp nm str pg :
  job_inv live s l used L → free_slot (job_slab s) used = Some n →
  cstr (kram (kern s)) nm str →
  disjoint nm (Z.of_nat (length str) + 1) (starting_address (job_slab s)) (header_size (job_slab s)) →
  pg ∈ L → (∀ q k, jobs s !! q = Some k → paging k ≠ pg) →
  let p := slot_address (job_slab s) n in
  ∃ s' nx, job_create entry sp nm pg s = Ok p s' ∧
    job_inv live s' (insert_ring p l) ({[n]} ∪ used) L ∧
    jobs s' !! p = Some (mk_job (take 30 str) RUNNING (replicate 31 0) entry sp pg (replicate 8 0) 0 nx) ∧
    same_jobs (jobs s) (delete p (jobs s')).
Proof.
  intros Hinv Hfree Hnm Hdis Hpg Hfresh p.
  destruct (job_create_spec s l used L n entry sp nm str pg Hinv Hfree Hnm Hdis Hpg Hfresh)
    as (m' & js & c & nx & Hrun & _ & Hinv' & Hp & Hsame).
  by eexists _, nx.
Qed.
End job_create.

Section job_scheduling.
Context {live : kernel → gset Z → Prop} `{HeapService live}.

Lemma status_same s s' q : same_jobs (jobs s) (jobs s') → is_Some (jobs s' !! q) →
  status_of s' q = status_of s q.
Proof.
  intros Hs [j' Hj']. destruct (Hs q j' Hj') as (j & Hj & E). unfold status_of. rewrite Hj, Hj'.
  rewrite E. done.
Qed.

Lemma ring_size s l : ring s l → size (jobs s) = length l.
Proof.
  destruct l as [|c r]; [by intros [_ ->]|]. intros (_ & _ & Hnd & _ & Hdom).
  rewrite <-size_dom, Hdom. by apply size_list_to_set.
Qed.

(** The only job of a ring cannot be deleted. *)
Lemma job_delete_last s c s' : ring s [c] → job_delete c s ≠ Ok tt s'.
Proof.
  intros (Hcur & (_ & j & Hj & Hn) & _). unfold job_delete. unfold get, bind at 1. rewrite Hcur.
  rewrite (bind_ok _ _ _ _ _ (get_job_ok _ _ _ Hj)), Hn, Z.eqb_refl. unfold bind, hang.
  by destruct (in_machine _ s).
Qed.

(** C17: [job_delete] unlinks a job of a ring of two or more, clears the bit of its slot, frees its
    paging manager and makes the next job current when it deletes the current one; every other slot
    and allocation stays, the order of the other jobs stays and they only change their links.
    Deleting the only job never returns. *)
Theorem job_delete_unlinks s l p used L : job_inv live s l used L → p ∈ l →
  if decide (length l = 1%nat) then ∀ s', job_delete p s ≠ Ok tt s'
  else ∃ s' n j, job_delete p s = Ok tt s' ∧ jobs s !! p = Some j ∧ n ∈ used ∧ p = slot_address (job_slab s) n ∧
    job_inv live s' (filter (λ q, q ≠ p) l) (used ∖ {[n]}) (L ∖ {[paging j]}) ∧
    managers s' = delete (paging j) (managers s) ∧ jobs s' !! p = None ∧ sys_frame s s'.
Proof.
  intros Hinv Hp. case_decide as Hl.
  - destruct l as [|c [|]]; [done| |done]. apply list_elem_of_singleton in Hp as ->. intros s'.
    apply job_delete_last, Hinv.
  - destruct (job_delete_inv s l p used L Hinv Hp) as (s' & Hrun & n & j & Hdel).
    { destruct l as [|? [|]]; [|done|simpl; lia]. by apply not_elem_of_nil in Hp. }
    by exists s', n, j.
Qed.

Lemma same_status s s' l l' : ring s' l' → (∀ q, q ∈ l → q ∈ l') →
  same_jobs (jobs s) (jobs s') → Forall (λ q, status_of s' q = status_of s q) l.
Proof.
  intros Hr Hl Hs. apply Forall_forall. intros q Hq. apply status_same; [done|].
  destruct (ring_lookup s' l' q Hr (Hl q Hq)) as [j ->]. done.
Qed.

Definition sleeping (s : system) (l : list Z) : list Z :=
  filter (λ q, status_of s q = Some SLEEPING) l.

Lemma sleeping_same s s' l : Forall (λ q, status_of s' q = status_of s q) l →
  sleeping s' l = sleeping s l.
Proof.
  induction 1 as [|q l Hq Hl IH]; [done|]. unfold sleeping in *.
  rewrite !filter_cons, Hq, IH. done.
Qed.

(** From the ring [pre ++ q :: post] with [q] the first running job, the rounds stop at [q]. *)
Lemma forward_rounds fuel s pre q post used L :
  job_inv live s (pre ++ q :: post) used L → (length pre < fuel)%nat →
  Forall (λ p, status_of s p ≠ Some RUNNING) pre → status_of s q = Some RUNNING →
  ∃ s' used' L', follow fuel forward_round tt s = Ok tt s' ∧
    job_inv live s' (q :: post ++ sleeping s pre) used' L' ∧ sys_frame s s' ∧ accounts s used L s' used' L'.
Proof.
  revert s pre post used L. induction fuel as [|fuel IH]; intros s pre post used L Hinv Hlen Hpre Hq;
    [lia|]. pose proof (inv_ring _ _ _ _ _ Hinv) as Hring. destruct pre as [|c pre].
  { destruct (ring_lookup s _ q Hring) as [j Hj]; [by left|].
    unfold status_of in Hq. rewrite Hj in Hq. injection Hq as Hq.
    exists s, used, L. unfold sleeping. rewrite filter_nil, app_nil_r.
    split; [|split; [done|split; [apply sys_frame_refl|by intros rest]]]. cbn [follow]. unfold forward_round, get, bind.
    rewrite (proj1 Hring). unfold get_job. rewrite Hj, decide_True by done. done. }
  destruct (ring_lookup s _ c Hring) as [j Hj]; [by left|].
  apply Forall_cons in Hpre as [Hc Hpre]. assert (status j ≠ RUNNING) as Hjr.
  { intros E. apply Hc. unfold status_of. by rewrite Hj, <-E. }
  cbn [follow]. unfold forward_round at 1, get, bind. rewrite (proj1 Hring).
  unfold get_job. rewrite Hj, decide_False by done.
  destruct (decide (status j = TERMINATED)) as [Ht|Ht].
  - assert (sleeping s (c :: pre) = sleeping s pre) as ->.
    { unfold sleeping. rewrite filter_cons_False; [done|]. unfold status_of. rewrite Hj. simpl. congruence. }
    destruct (job_delete_inv s ((c :: pre) ++ q :: post) c used L Hinv) as (s1 & Hdel & Hd1);
      [by left|rewrite length_app; simpl; lia|].
    destruct (deleted_accounts _ _ _ _ _ _ Hinv Hd1) as (used1 & L1 & Hinv1 & Hs1 & Hacc1).
    pose proof Hring as (_ & _ & [Hcn _]%NoDup_cons & _). simpl in Hinv1.
    rewrite filter_cons_False, filter_neq_id in Hinv1 by auto.
    pose proof (inv_ring _ _ _ _ _ Hinv1) as Hring1.
    pose proof (same_status s s1 _ _ Hring1 (λ q H, H) (frame_jobs _ _ Hs1)) as Hst.
    apply Forall_app in Hst as [Hst1 [Hst2 _]%Forall_cons].
    rewrite Hdel. cbn. destruct (IH s1 pre post used1 L1) as (s2 & used2 & L2 & Hf & Hinv2 & Hs2 & Hacc2);
      [done|simpl in Hlen; lia| |by rewrite Hst2|].
    { apply Forall_forall. intros p Hp. rewrite (proj1 (Forall_forall _ _) Hst1 p Hp).
      by apply (proj1 (Forall_forall _ _) Hpre). }
    exists s2, used2, L2. split; [done|]. split; [|split; [by eapply sys_frame_trans|intros rest Ho; by apply Hacc2, Hacc1]].
    by rewrite (sleeping_same s s1 pre Hst1) in Hinv2.
  - assert (sleeping s (c :: pre) = c :: sleeping s pre) as ->.
    { unfold sleeping. rewrite filter_cons_True; [done|]. unfold status_of. rewrite Hj. simpl.
      by destruct (status j). }
    pose proof (inv_rotate live s c (pre ++ q :: post) used L j Hinv Hj) as Hinv1.
    rewrite <-app_assoc in Hinv1. simpl in Hinv1. cbn.
    destruct (IH (set_current (next j) s) pre (post ++ [c]) used L) as (s2 & used2 & L2 & Hf & Hinv2 & Hs2 & Hacc2);
      [done|simpl in Hlen; lia|done|done|].
    exists s2, used2, L2. split; [done|].
    split; [|split; [eapply sys_frame_trans; [apply sys_frame_current|exact Hs2]|exact Hacc2]].
    rewrite <-app_assoc in Hinv2. exact Hinv2.
Qed.

Lemma job_forward_unfold s c r j : ring s (c :: r) → jobs s !! c = Some j →
  job_forward s = follow (S (length (c :: r)) * S (length (c :: r))) forward_round tt (set_current (next j) s).
Proof.
  intros Hr Hj. rewrite <-(ring_size s (c :: r)) by done. unfold job_forward, get, bind at 1.
  destruct Hr as [-> _]. by rewrite (bind_ok _ _ _ _ _ (get_job_ok _ _ _ Hj)).
Qed.

Lemma job_forward_spec s c r pre q post used L :
  job_inv live s (c :: r) used L → r ++ [c] = pre ++ q :: post →
  Forall (λ p, status_of s p ≠ Some RUNNING) pre → status_of s q = Some RUNNING →
  ∃ s' used' L', job_forward s = Ok tt s' ∧ current_job s' = q ∧
    job_inv live s' (q :: post ++ sleeping s pre) used' L' ∧ sys_frame s s' ∧ accounts s used L s' used' L'.
Proof.
  intros Hinv E Hpre Hq. pose proof (inv_ring _ _ _ _ _ Hinv) as Hring.
  destruct (ring_lookup s _ c Hring) as [j Hj]; [by left|].
  pose proof (inv_rotate live s c r used L j Hinv Hj) as Hrot. rewrite E in Hrot.
  assert (length pre < length (c :: r))%nat as Hlen.
  { apply (f_equal length) in E. rewrite !length_app in E. simpl in *. lia. }
  destruct (forward_rounds (S (length (c :: r)) * S (length (c :: r))) (set_current (next j) s) pre q post
    used L Hrot) as (s' & used' & L' & Hf & Hinv' & Hs & Hacc); [nia|done|done|].
  exists s', used', L'. rewrite (job_forward_unfold s c r j Hring Hj). split; [exact Hf|].
  pose proof (inv_ring _ _ _ _ _ Hinv') as [Hcur _].
  split; [done|]. split; [done|]. split; [|exact Hacc]. eapply sys_frame_trans; [apply sys_frame_current|exact Hs].
Qed.


Lemma idle_rounds fuel s l used L s' : job_inv live s l used L → l ≠ [] →
  Forall (λ p, status_of s p ≠ Some RUNNING) l → follow fuel forward_round tt s ≠ Ok tt s'.
Proof.
  revert s l used L. induction fuel as [|fuel IH]; intros s l used L Hinv Hne Hl; [done|].
  destruct l as [|c r]; [done|]. pose proof (inv_ring _ _ _ _ _ Hinv) as Hring.
  destruct (ring_lookup s _ c Hring) as [j Hj]; [by left|].
  pose proof (Forall_cons_1 _ _ _ Hl) as [Hc Hr]. assert (status j ≠ RUNNING) as Hjr.
  { intros E. apply Hc. unfold status_of. by rewrite Hj, <-E. }
  cbn [follow]. unfold forward_round at 1, get, bind. rewrite (proj1 Hring).
  unfold get_job. rewrite Hj, decide_False by done. destruct (decide (status j = TERMINATED)) as [Ht|Ht].
  - destruct r as [|d r].
    + destruct (job_delete c s) as [[] s1|s1|f] eqn:Hd; [|done|done].
      by apply job_delete_last in Hd.
    + destruct (job_delete_inv s (c :: d :: r) c used L Hinv) as (s1 & Hdel & Hd1); [by left|simpl; lia|].
      destruct (deleted_accounts _ _ _ _ _ _ Hinv Hd1) as (used1 & L1 & Hinv1 & Hs1 & _).
      pose proof Hring as (_ & _ & [Hcn _]%NoDup_cons & _).
      rewrite filter_cons_False, filter_neq_id in Hinv1 by auto.
      pose proof (inv_ring _ _ _ _ _ Hinv1) as Hring1. rewrite Hdel. cbn.
      apply (IH s1 (d :: r) used1 L1); [done|done|].
      pose proof (same_status s s1 _ _ Hring1 (λ q H, H) (frame_jobs _ _ Hs1)) as Hst.
      apply Forall_forall. intros p Hp. rewrite (proj1 (Forall_forall _ _) Hst p Hp).
      by apply (proj1 (Forall_forall _ _) Hr).
  - cbn. apply (IH _ (r ++ [c]) used L); [by apply inv_rotate|by destruct r|].
    apply Forall_app. split; [exact Hr|]. by apply Forall_singleton.
Qed.

(** When no job of the ring is running, [job_forward] never returns: it deletes the terminated
    jobs and spins over the sleeping ones. *)
Theorem job_forward_idle s l used L : job_inv live s l used L → l ≠ [] →
  Forall (λ p, status_of s p ≠ Some RUNNING) l → ¬ ∃ s', job_forward s = Ok tt s'.
Proof.
  intros Hinv Hne Hl [s' Hf]. revert Hf. destruct l as [|c r]; [done|]. pose proof (inv_ring _ _ _ _ _ Hinv) as Hring.
  destruct (ring_lookup s _ c Hring) as [j Hj]; [by left|].
  rewrite (job_forward_unfold s c r j Hring Hj).
  apply idle_rounds with (r ++ [c]) used L; [by apply inv_rotate|by destruct r|].
  apply Forall_cons in Hl as [Hc Hr]. apply Forall_app. split; [exact Hr|]. by apply Forall_singleton.
Qed.

End job_scheduling.

(** ** Changing a job *)

Lemma chain_insert js a l z p j k : chain js a l z → js !! p = Some j → next k = next j →
  chain (<[p := k]> js) a l z.
Proof.
  revert a. induction l as [|c l IH]; intros a; simpl; [done|]. intros (-> & jc & Hc & H) Hp E.
  split; [done|]. destruct (decide (c = p)) as [->|Hne].
  - exists k. rewrite lookup_insert_eq. split; [done|]. rewrite E. simplify_eq. by apply IH.
  - exists jc. rewrite lookup_insert_ne by done. split; [done|]. by apply IH.
Qed.

(** Fields other than the link and the address space are free to change. *)
Lemma inv_update live s l used L p j k : job_inv live s l used L → jobs s !! p = Some j →
  next k = next j → paging k = paging j →
  job_inv live (set_jobs (<[p := k]> (jobs s)) s) l used L.
Proof.
  intros [] Hp En Ep. split; try done.
  - destruct l as [|c r]; unfold ring in *.
    + destruct inv_ring0 as [_ E]. rewrite E, lookup_empty in Hp. done.
    + destruct inv_ring0 as (? & Hch & ? & ? & Hdom). split; [done|].
      split; [by apply (chain_insert (jobs s) c (c :: r) c p j k)|]. split; [done|]. split; [done|].
      cbn [jobs set_jobs]. rewrite dom_insert_lookup_L by by eexists. exact Hdom.
  - intros q jq. cbn [jobs set_jobs].
    intros [[<- <-]|[_ Hq]]%lookup_insert_Some; [rewrite Ep|]; by eapply inv_paging0.
  - intros q r jq jr. cbn [jobs set_jobs]. intros [[<- <-]|[_ Hq]]%lookup_insert_Some [[<- <-]|[_ Hr]]%lookup_insert_Some E;
      rewrite ?Ep in E; by eapply inv_own0.
Qed.

Lemma job_terminate_run s c r j : ring s (c :: r) → jobs s !! c = Some j →
  job_terminate s = Ok tt (set_jobs (<[c := set_status TERMINATED j]> (jobs s)) s).
Proof.
  intros Hring Hj. unfold job_terminate, get, bind at 1. rewrite (proj1 Hring).
  by rewrite (bind_ok _ _ _ _ _ (get_job_ok _ _ _ Hj)).
Qed.

(** [job_terminate] marks the current job, which stays in the ring until [job_forward] reaches
    it again: it keeps every invariant of the ring. *)
Theorem job_terminate_keeps live s c r used L : job_inv live s (c :: r) used L →
  ∃ s', job_terminate s = Ok tt s' ∧ job_inv live s' (c :: r) used L ∧
    status_of s' c = Some TERMINATED ∧ ∀ q, q ≠ c → status_of s' q = status_of s q.
Proof.
  intros Hinv. pose proof (inv_ring _ _ _ _ _ Hinv) as Hring.
  destruct (ring_lookup s _ c Hring) as [j Hj]; [by left|]. eexists. split; [by eapply job_terminate_run|].
  split; [by apply inv_update with j|]. unfold status_of. cbn. split; [by rewrite lookup_insert_eq|].
  intros q Hq. by rewrite lookup_insert_ne.
Qed.

(** ** Open files *)

(** The file table of a job: the open files at the bottom, the free entries above. *)
Definition files_ok (j : job) (fs : list Z) : Prop :=
  open_files j = fs ++ replicate (8 - length fs) 0 ∧ open_files_count j = Z.of_nat (length fs) ∧
  (length fs ≤ 8)%nat ∧ Forall (λ f, f ≠ 0) fs.

Lemma free_fd_spec s fs tail : Forall (λ f, f ≠ 0) fs →
  free_fd (fs ++ 0 :: tail) s = Ok (Z.of_nat (length fs)) s.
Proof.
  intros Hfs. apply wp_eq. unfold free_fd.
  apply (wp_loop (λ fd s', s' = s ∧ 0 ≤ fd ≤ Z.of_nat (length fs)) (λ fd, Z.to_nat (Z.of_nat (length fs) - fd)));
    [|split; [done|lia]|rewrite length_app; simpl; lia].
  intros fd s' [-> Hfd]. destruct (decide (fd = Z.of_nat (length fs))) as [->|Hne].
  - rewrite Nat2Z.id, list_lookup_middle by done. done.
  - rewrite lookup_app_l by lia.
    destruct (lookup_lt_is_Some_2 fs (Z.to_nat fd)) as [f Hf]; [lia|]. rewrite Hf.
    rewrite (proj2 (Z.eqb_neq f 0)) by exact (Forall_lookup_1 _ _ _ _ Hfs Hf).
    apply wp_ret. split; [split; [done|lia]|lia].
Qed.

(** C39: The file descriptors of a job: [job_add_file] gives the lowest free descriptor and
    [job_get_file] returns the file of every descriptor handed out and NULL for any other number;
    the ninth open fails with -1 and changes nothing. *)
Theorem job_files_roundtrip s p j fs inode : jobs s !! p = Some j → files_ok j fs → inode ≠ 0 →
  if decide (length fs = 8%nat) then job_add_file p inode s = Ok (-1) s
  else ∃ j', job_add_file p inode s = Ok (Z.of_nat (length fs)) (set_jobs (<[p := j']> (jobs s)) s) ∧
    files_ok j' (fs ++ [inode]) ∧
    (∀ fd, job_get_file p fd (set_jobs (<[p := j']> (jobs s)) s) =
      Ok (if (0 <=? fd) && (fd <=? Z.of_nat (length fs)) then default 0 ((fs ++ [inode]) !! Z.to_nat fd) else 0)
        (set_jobs (<[p := j']> (jobs s)) s)).
Proof.
  intros Hj (Hof & Hcnt & Hlen & Hnz) Hi. unfold job_add_file.
  rewrite (bind_ok _ _ _ _ _ (get_job_ok _ _ _ Hj)), Hcnt. unfold JOB_MAX_FILES. case_decide as H8.
  { rewrite H8. done. }
  rewrite (proj2 (Z.leb_gt _ _)) by lia. rewrite Hof.
  assert (replicate (8 - length fs) 0 = 0 :: replicate (8 - length (fs ++ [inode])) 0) as ->.
  { rewrite length_app. replace (8 - length fs)%nat with (S (8 - (length fs + length [inode])))%nat by (simpl; lia).
    done. }
  rewrite (bind_ok _ _ _ _ _ (free_fd_spec s fs _ Hnz)).
  assert (∀ x : Z, -8 ≤ x ≤ 8 → int_of x s = Ok x s) as Hint.
  { intros x Hx. apply wp_eq, wp_int_of; [unfold INT_MIN, INT_MAX; lia|done]. }
  rewrite (bind_ok _ _ _ _ _ (Hint (Z.of_nat (length fs) + 1) ltac:(lia))), Nat2Z.id.
  rewrite insert_app_r_alt, Nat.sub_diag by lia.
  set (j' := set_files _ _ j).
  assert (files_ok j' (fs ++ [inode])) as Hok'.
  { unfold files_ok, j'. cbn. rewrite <-app_assoc, length_app. simpl. split; [done|].
    split; [lia|]. split; [lia|]. apply Forall_app. split; [done|]. by apply Forall_singleton. }
  clearbody j'. exists j'. split; [done|]. split; [done|]. intros fd.
  destruct Hok' as (Hof' & Hcnt' & Hlen' & _). unfold job_get_file.
  rewrite (bind_ok _ _ _ _ _ (get_job_ok (set_jobs _ s) p j' (lookup_insert_eq _ _ _))), Hcnt', Hof'.
  rewrite length_app in *. simpl in *.
  destruct (Z.ltb_spec fd 0) as [Hfd|Hfd]; [by rewrite (proj2 (Z.leb_gt 0 fd)) by lia|].
  rewrite (proj2 (Z.leb_le 0 fd)) by lia. simpl.
  destruct (Z.leb_spec (Z.of_nat (length fs + 1)) fd).
  { by rewrite (proj2 (Z.leb_gt fd _)) by lia. }
  rewrite (proj2 (Z.leb_le fd _)) by lia. rewrite lookup_app_l by (rewrite length_app; simpl; lia).
  destruct (lookup_lt_is_Some_2 (fs ++ [inode]) (Z.to_nat fd)) as [f ->]; [|done].
  rewrite length_app. simpl. lia.
Qed.

(** * Witnesses *)

(** Two jobs of a ring: the current one sleeps. *)
Definition demo_ram : mem :=
  put_bytes 0x1000 [0xe0; 0xe0; 0xe0; 0; 7] (put_bytes 4352 [3] (put_bytes 0x2000 (chars "init" ++ [0]) ∅)).
Definition demo_kernel : kernel :=
  mk_kernel (mk_machine demo_ram (λ _, 0) [] (mk_environment (λ _ _, 0) (λ _ _, 0)))
    (mk_heap 0x2000 0x1000 4 1) (mk_gic_table [] []).
Definition demo_job (st : job_status) (pm nx : Z) : job :=
  mk_job (chars "demo") st (replicate 31 0) 0x80000000 0x80002000 pm (replicate 8 0) 0 nx.
Definition demo_job_slab : slab := mk_slab 4352 3 392 392.
Definition demo_system : system :=
  mk_system demo_kernel demo_job_slab 0x2000 ∅ demo_job_slab demo_job_slab 4744
    {[4744 := demo_job SLEEPING 0x2000 5136; 5136 := demo_job RUNNING 0x3000 4744]}.

Lemma demo_live : heap_live demo_kernel {[0x2000; 0x3000; 0x4000]}.
Proof.
  split; [done|]. exists [Used 1; Used 1; Used 1; Free]. split.
  - split; [|by repeat constructor|done|done|done]. exists 7. apply bytes_at_put.
  - intros p. rewrite !elem_of_union, !elem_of_singleton. split.
    + intros [[->| ->]| ->]; [exists 0%nat, 1%nat|exists 1%nat, 1%nat|exists 2%nat, 1%nat]; (split; [|done]); set_solver.
    + intros (i & l & Hi & ->). repeat apply elem_of_cons in Hi as [[= -> ->]|Hi]; [auto..|]. by apply not_elem_of_nil in Hi.
Qed.

Lemma demo_inv : job_inv heap_live demo_system [4744; 5136] {[0; 1]} {[0x2000; 0x3000; 0x4000]}.
Proof.
  split.
  - split; [done|]. split; [|split; [|split; [|done]]].
    + split; [done|]. eexists. split; [done|]. split; [done|]. by eexists.
    + by apply (bool_decide_unpack _).
    + by apply (bool_decide_unpack _).
  - exact demo_live.
  - intros p j. cbn. rewrite lookup_insert_Some. intros [[_ <-]|[_ [_ <-]%lookup_singleton_Some]]; set_solver.
  - intros p q j k. cbn. rewrite !lookup_insert_Some, !lookup_singleton_Some.
    intros [[<- <-]|[? [<- <-]]] [[<- <-]|[? [<- <-]]]; done.
  - split; simpl; unfold INT_MAX; lia.
  - exists [3]. split; [|split; [by repeat constructor|split; [done|split; [done|]]]].
    + cbn [kern demo_system kram mach demo_kernel ram demo_ram starting_address demo_job_slab job_slab].
      apply bytes_at_put_ne; [apply bytes_at_put|simpl; lia].
    + intros n Hn. cbn in Hn. assert (n = 0 ∨ n = 1 ∨ n = 2) as [->|[->| ->]] by lia; done.
  - intros p. rewrite !elem_of_cons. intros [->|[->|[]%not_elem_of_nil]].
    + exists 0. split; [set_solver|done].
    + exists 1. split; [set_solver|done].
  - right. simpl. lia.
Qed.

Lemma demo_name : cstr (kram (kern demo_system)) 0x2000 (chars "init").
Proof.
  eapply cstr_agree; [apply (cstr_put 0x2000 (chars "init") ∅); by repeat constructor|].
  intros a Ha. assert (8192 ≤ a) as H8 by lia. clear Ha.
  cbn [kern demo_system kram mach demo_kernel ram]. unfold demo_ram.
  rewrite !put_bytes_outside by (cbn [length]; lia). done.
Qed.

Lemma job_create_inserts_witness :
  ∃ s' nx, job_create 0x80000000 0x80001000 0x2000 0x4000 demo_system = Ok 5528 s' ∧
    job_inv heap_live s' [4744; 5528; 5136] {[2; 0; 1]} {[0x2000; 0x3000; 0x4000]} ∧
    jobs s' !! 5528 = Some (mk_job (chars "init") RUNNING (replicate 31 0) 0x80000000 0x80001000
      0x4000 (replicate 8 0) 0 nx).
Proof.
  destruct (job_create_inserts demo_system [4744; 5136] {[0; 1]} {[0x2000; 0x3000; 0x4000]} 2
    0x80000000 0x80001000 0x2000 (chars "init") 0x4000 demo_inv) as (s' & nx & H & Hinv & Hj & _).
  - reflexivity.
  - exact demo_name.
  - right. simpl. lia.
  - set_solver.
  - intros q k. cbn. rewrite lookup_insert_Some, lookup_singleton_Some.
    intros [[_ <-]|[_ [_ <-]]]; done.
  - exists s', nx. replace ({[2; 0; 1]} : gset Z) with ({[2]} ∪ {[0; 1]} : gset Z) by set_solver. done.
Defined.

Lemma job_delete_unlinks_witness :
  ∃ s' n, job_delete 5136 demo_system = Ok tt s' ∧ 5136 = slot_address demo_job_slab n ∧
    job_inv heap_live s' [4744] ({[0; 1]} ∖ {[n]}) ({[0x2000; 0x3000; 0x4000]} ∖ {[0x3000]}).
Proof.
  destruct (job_delete_unlinks demo_system [4744; 5136] 5136 {[0; 1]} {[0x2000; 0x3000; 0x4000]} demo_inv)
    as (s' & n & j & H & Hj & _ & En & Hinv & _); [set_solver|]. injection Hj as <-. by exists s', n.
Defined.


Lemma job_files_roundtrip_witness :
  ∃ j', job_add_file 4744 77 demo_system = Ok 0 (set_jobs (<[4744 := j']> (jobs demo_system)) demo_system) ∧
    job_get_file 4744 0 (set_jobs (<[4744 := j']> (jobs demo_system)) demo_system) =
      Ok 77 (set_jobs (<[4744 := j']> (jobs demo_system)) demo_system).
Proof.
  destruct (job_files_roundtrip demo_system 4744 (demo_job SLEEPING 0x2000 5136) [] 77) as (j' & H & _ & Hget);
    [reflexivity|by repeat constructor|done|].
  exists j'. split; [exact H|]. exact (Hget 0).
Defined.

(** The sleeping current job and a terminated one: nothing can run. *)
Definition demo_idle : system :=
  set_jobs (<[5136 := demo_job TERMINATED 0x3000 4744]> (jobs demo_system)) demo_system.

Lemma job_forward_idle_witness : ¬ ∃ s', job_forward demo_idle = Ok tt s'.
Proof.
  apply (job_forward_idle demo_idle [4744; 5136] {[0; 1]} {[0x2000; 0x3000; 0x4000]}); [|done|].
  - apply inv_update with (demo_job RUNNING 0x3000 4744); [exact demo_inv|reflexivity|done|done].
  - by repeat constructor.
Defined.

Lemma job_terminate_keeps_witness :
  ∃ s', job_terminate demo_system = Ok tt s' ∧ status_of s' 4744 = Some TERMINATED.
Proof.
  destruct (job_terminate_keeps heap_live demo_system 4744 [5136] _ _ demo_inv) as (s' & H & _ & Hs & _).
  by exists s'.
Defined.
