(* ===== verification/AddressSpace.v ===== *)
(** * The address space of a job (job_create_paging of kernel/mp/job.c)

    [job_create_paging] puts together the heap, the slab of tables, the slab of user pages, the
    page tables and the log.  The specification is a function from addresses: the kernel below
    0x80000000, without access from EL0, and from there on one user page after the other. *)
From stdpp Require Import base list gmap.
From Stdlib Require Import ZArith Lia.
From S2P Require Import Prelude Memory CString Heap Slab Machine Log Gic Kernel Paging Job.

(** ** Specification *)

Definition slab_header (s : slab) (a : Z) : Prop := starting_address s ≤ a < starting_address s + header_size s.
Definition slab_area (s : slab) (a : Z) : Prop :=
  starting_address s ≤ a < starting_address s + header_size s + object_size s * max_store s.

#[local] Instance slab_header_dec s a : Decision (slab_header s a).
Proof. unfold slab_header. apply _. Defined.
#[local] Instance slab_area_dec s a : Decision (slab_area s a).
Proof. unfold slab_area. apply _. Defined.

(** The slab of user pages: the kernel writes its header only; the slots of [taken] are in use. *)
Record user_slab (s : slab) (m : mem) (taken : gset Z) : Prop := {
  us_ok : slab_ok s;
  us_rep : slab_rep s m taken;
  us_obj : object_size s = 4096;
  us_align : (starting_address s + header_size s) mod 4096 = 0;
  us_top : starting_address s + header_size s + 4096 * max_store s ≤ 2 ^ 48;
}.

(** What a job sees: output address, access from EL0, write protection. *)
Definition space_map (us : slab) (slots : list Z) (va : Z) : option (Z * bool * bool) :=
  if decide (va < JOB_BASE_USER) then
    if decide (0 ≤ va) then Some (va, false, false) else None
  else n ← slots !! Z.to_nat ((va - JOB_BASE_USER) / 4096); Some (slot_address us n + va mod 4096, true, false).

(** The number of pages for [size] bytes and one page more. *)
Definition pages_of (size : Z) : Z := (size + 8191) / 4096.

(** While a space is built there are fewer events: at most 64 for a page, of fewer than 2^19 pages. *)
Definition SPACE_EVENTS : Z := 2 ^ 25.

(** The parts of the system that [job_create_paging] works with. *)
Record space_ready (live : kernel → gset Z → Prop) (s : system) (L used busy : gset Z) : Prop := {
  sr_live : live (kern s) L;
  sr_tables : page_slab (table_slab s) (kram (kern s)) used;
  sr_pages : user_slab (user_space s) (kram (kern s)) busy;
  sr_low : below (2 ^ 63) (kram (kern s));
  (* the log shows less than 10^11 microseconds until the space is built *)
  sr_freq : 1000000 ≤ u32 (sysregs (mach (kern s)) CNTFRQ_EL0);
  sr_clock : clock_below (10 ^ 11) SPACE_EVENTS (mach (kern s));
  sr_apart a : slab_area (table_slab s) a → ¬ slab_header (user_space s) a;
  sr_heap a : heap_tbl (main_heap (kern s)) ≤ a < heap_tbl (main_heap (kern s)) + blocks (main_heap (kern s)) + 1 →
    0 ≤ a < 2 ^ 63 ∧ ¬ slab_area (table_slab s) a ∧ ¬ slab_header (user_space s) a;
}.

(** The state of the memory while the space of [pm] is built: [used] are the tables that were
    there before, [slots] the pages mapped so far, [taken] the user pages in use. *)
Record address_space (us : slab) (pm : paging_manager) (used taken : gset Z) (slots : list Z) (m0 m : mem) : Prop := {
  as_tables : ∃ now T, manager_rep pm m now T ∧ fresh_tables (pages_allocator pm) used T ∧ used ⊆ now ∧
    (size now ≤ size used + 1 + 2 * length slots)%nat;
  as_user : user_slab us m taken;
  as_translate va : translate m (l1 pm) va = space_map us slots va;
  as_free va : in_space va → JOB_BASE_USER + 4096 * Z.of_nat (length slots) ≤ va → walk 2 m (l1 pm) va = None;
  as_frame a : ¬ slab_header us a → ¬ slab_header (pages_allocator pm) a →
    (∀ n, n ∉ used → 0 ≤ n < max_store (pages_allocator pm) →
      ¬ (slot_address (pages_allocator pm) n ≤ a < slot_address (pages_allocator pm) n + 4096)) →
    m !! a = m0 !! a;
}.

(** * Lemmas *)

Lemma slab_rep_agree s m m' used : slab_rep s m used → (∀ a, slab_header s a → m' !! a = m !! a) → slab_rep s m' used.
Proof.
  intros (hb & Hb & Hr & Hl & Hle & Hbit) Hag. exists hb. split; [|done].
  eapply bytes_at_agree; [done|]. intros a Ha. apply Hag. unfold slab_header. lia.
Qed.

Lemma user_slab_agree s m m' taken : user_slab s m taken → (∀ a, slab_header s a → m' !! a = m !! a) → user_slab s m' taken.
Proof. intros [] Hag. split; try done. by eapply slab_rep_agree. Qed.

Lemma slot_in_area s m used n a : page_slab s m used → 0 ≤ n < max_store s →
  slot_address s n ≤ a < slot_address s n + 4096 → slab_area s a ∧ ¬ slab_header s a.
Proof.
  intros Hps Hn Ha. pose proof (ps_obj _ _ _ Hps) as Ho. unfold sizeof_page_table_store in Ho.
  unfold slot_address, slab_area, slab_header in *. rewrite Ho in *. pose proof (ok_hdr _ (ps_ok _ _ _ Hps)). lia.
Qed.

(** An address outside the table slab is kept by what is done to one space. *)
Lemma space_frame_area s used m m' m1 used1 a : page_slab s m1 used1 → space_frame s used m m' →
  ¬ slab_area s a → m' !! a = m !! a.
Proof.
  intros Hps Hfr Ha. pose proof (ps_ok _ _ _ Hps) as [Hmax Hobj _ _ _]. apply Hfr.
  - intros Hin. apply Ha. unfold slab_area. nia.
  - intros n _ Hn Hin. by destruct (slot_in_area s m1 used1 n a).
Qed.

Lemma user_slot us m taken n : user_slab us m taken → 0 ≤ n < max_store us →
  0 ≤ slot_address us n < 2 ^ 48 ∧ slot_address us n mod 4096 = 0.
Proof.
  intros [Hok _ Ho Ha Ht] Hn. destruct Hok as [? ? ? ? ?]. unfold slot_address. rewrite Ho.
  split; [lia|]. rewrite Z.mul_comm, Z.mod_add; lia.
Qed.

(** One more page of the space. *)
Lemma space_map_snoc us slots n va : Z.of_nat (length slots) < 2 ^ 20 → slot_address us n mod 4096 = 0 →
  space_map us (slots ++ [n]) va =
    if decide (in_space va ∧ va / 4096 = (JOB_BASE_USER + 4096 * Z.of_nat (length slots)) / 4096)
    then Some (slot_address us n - slot_address us n mod 4096 + va mod 4096, true, false)
    else space_map us slots va.
Proof.
  intros Hlen Hal. unfold space_map, in_space, JOB_BASE_USER.
  assert ((0x80000000 + 4096 * Z.of_nat (length slots)) / 4096 = 0x80000 + Z.of_nat (length slots)) as ->.
  { replace (0x80000000 + 4096 * Z.of_nat (length slots)) with ((0x80000 + Z.of_nat (length slots)) * 4096) by lia.
    apply Z.div_mul. lia. }
  pose proof (Z.div_mod va 4096 ltac:(lia)) as Hva. pose proof (Z.mod_pos_bound va 4096 ltac:(lia)) as Hr.
  destruct (decide (va < 0x80000000)) as [Hlow|Hhigh].
  { rewrite (decide_False (P := _ ∧ _)); [done|]. lia. }
  assert ((va - 0x80000000) / 4096 = va / 4096 - 0x80000) as ->.
  { replace (va - 0x80000000) with (va + (-0x80000) * 4096) by lia. rewrite Z.div_add by lia. lia. }
  destruct (decide (va / 4096 = 0x80000 + Z.of_nat (length slots))) as [E|Hne].
  - rewrite E, decide_True by lia. replace (Z.to_nat _) with (length slots) by lia.
    rewrite list_lookup_middle by done. cbn. by rewrite Hal, Z.sub_0_r.
  - rewrite (decide_False (P := _ ∧ _)) by tauto.
    destruct (decide (va / 4096 < 0x80000 + Z.of_nat (length slots))) as [Hl|Hg].
    + by rewrite lookup_app_l by lia.
    + rewrite !lookup_ge_None_2; [done|lia|rewrite length_app; simpl; lia].
Qed.

Section building.
Context (us : slab) (pm : paging_manager) (used : gset Z) (m0 : mem).
#[local] Abbreviation ts := (pages_allocator pm).
Hypothesis Hapart : ∀ a, slab_area ts a → ¬ slab_header us a.

(** [slab_allocate] for the next user page. *)
Lemma allocate_user_page m slots taken :
  address_space us pm used taken slots m0 m → Z.of_nat (size taken) < max_store us →
  ∃ n m', slab_allocate us m = Ok (slot_address us n) m' ∧ 0 ≤ n < max_store us ∧ (n ∉ taken) ∧
    address_space us pm used ({[n]} ∪ taken) slots m0 m'.
Proof.
  intros [(now & T & [Hps Htr] & HT & Hsub & Hsize) Hus Htrans Hfree Hfr] Hroom.
  pose proof Hus as [Hok Hrep Ho Hal Htop]. pose proof (ok_max _ Hok) as Hmax.
  destruct (free_slot_exists us taken) as [n Hn]; [lia..|].
  destruct (slab_allocate_rep us m taken n Hok Hrep Hn) as (m' & Hrun & Hrep' & Hout).
  apply top_free_spec in Hn as (Hn & Hnew & _). rewrite Z2Nat.id in Hn by lia.
  assert (∀ a, slab_area ts a → m' !! a = m !! a) as Hag by (intros a Ha; by apply Hout, Hapart).
  destruct (tables_walk ts m m' now now (l1 pm) T Htr) as [Htr' Hw]; [done| |].
  { intros q t a Hq Ha. destruct (tr_node _ _ _ _ _ Htr q t Hq) as (_ & k & Hk & ->).
    apply Hag. by eapply slot_in_area; [|apply (ps_used _ _ _ Hps)|]. }
  exists n, m'. split; [done|]. split; [done|]. split; [done|]. split.
  - exists now, T. split; [split; [|done]|done]. eapply page_slab_agree; [done|]. intros a Ha. apply Hag.
    unfold slab_area. pose proof (ps_obj _ _ _ Hps) as ->. exact Ha.
  - by split.
  - intros va. rewrite <-Htrans. by apply translate_ext.
  - intros va Hva Hge. rewrite Hw. by apply Hfree.
  - intros a Ha Hh Hs. rewrite Hout by done. by apply Hfr.
Qed.

(** [paging_manager_map_page] for that page. *)
Lemma map_user_page mc slots taken n :
  address_space us pm used taken slots m0 (ram mc) → 0 ≤ n < max_store us → Z.of_nat (length slots) < 2 ^ 19 →
  Z.of_nat (size used + 1 + 2 * S (length slots)) ≤ max_store ts →
  ∃ m', paging_manager_map_page pm (JOB_BASE_USER + 4096 * Z.of_nat (length slots)) (slot_address us n) true false mc =
      Ok 0 (mk_machine m' (sysregs mc) (Dsb :: Tlbi_vmalle1 :: trace mc) (env mc)) ∧
    address_space us pm used taken (slots ++ [n]) m0 m'.
Proof.
  intros [(now & T & Hrep & HT & Hsub & Hsize) Hus Htrans Hfree Hfr] Hn Hlen Hroom.
  set (va := JOB_BASE_USER + 4096 * Z.of_nat (length slots)).
  assert (in_space va) as Hva by (unfold in_space, va, JOB_BASE_USER; lia).
  destruct (user_slot us _ _ n Hus Hn) as [Hpa Hal].
  destruct (map_fresh_page pm mc used now T va (slot_address us n) true false)
    as (m' & now' & T' & Hrun & Hrep' & HT' & Hsub' & Hsize' & Htrans' & Hwalk & Hframe); try done.
  { by apply Hfree. }
  { lia. }
  pose proof (proj1 Hrep) as Hps. exists m'. split; [done|]. split.
  - exists now', T'. split; [done|]. split; [done|]. split; [set_solver|]. rewrite length_app. simpl. lia.
  - eapply user_slab_agree; [done|]. intros a Ha. eapply space_frame_area; [done..|].
    intros Hin. by eapply Hapart.
  - intros w. rewrite Htrans', space_map_snoc, Htrans by (done || lia). done.
  - intros w Hw Hge. rewrite length_app in Hge. simpl in Hge. rewrite Hwalk; [apply Hfree; [done|lia]|done|].
    unfold va, JOB_BASE_USER in *. intros E. pose proof (Z.div_mod w 4096). pose proof (Z.mod_pos_bound w 4096).
    assert ((0x80000000 + 4096 * Z.of_nat (length slots)) / 4096 = 0x80000 + Z.of_nat (length slots)) as E2; [|lia].
    replace (0x80000000 + 4096 * Z.of_nat (length slots)) with ((0x80000 + Z.of_nat (length slots)) * 4096) by lia.
    apply Z.div_mul. lia.
  - intros a Hh Ht Hs. rewrite <-Hfr by done. by apply Hframe.
Qed.

(** The memory stays below 2^63: nothing is written outside the two slabs. *)
Lemma space_below m slots taken : address_space us pm used taken slots m0 m → below (2 ^ 63) m0 → below (2 ^ 63) m.
Proof.
  intros [(now & T & [Hps _] & _) Hus _ _ Hfr] Hlow a Ha.
  destruct (decide (slab_header us a)) as [Hh|Hh].
  { pose proof (us_ok _ _ _ Hus) as [? ? ? ? ?]. pose proof (us_top _ _ _ Hus). unfold slab_header in Hh. lia. }
  destruct (decide (slab_area ts a)) as [Hin|Hin].
  { pose proof (ps_ok _ _ _ Hps) as [? ? ? ? ?]. pose proof (ps_top _ _ _ Hps) as Ht.
    pose proof (ps_obj _ _ _ Hps) as Ho. unfold sizeof_page_table_store in Ho. unfold slab_area in Hin. rewrite Ho in Hin. lia. }
  apply Hlow. rewrite <-(Hfr a Hh); [done|..].
  - intros Hx. apply Hin. pose proof (ps_ok _ _ _ Hps) as [? ? _ _ _]. unfold slab_area, slab_header in *. nia.
  - intros n _ Hn Hx. by destruct (slot_in_area ts m now n a).
Qed.
End building.

(** A state with the same slabs, heap and clock is as ready. *)
Lemma space_ready_kept live `{HeapService live} s s' L used busy : space_ready live s L used busy →
  table_slab s' = table_slab s → user_space s' = user_space s → main_heap (kern s') = main_heap (kern s) →
  sysregs (mach (kern s')) = sysregs (mach (kern s)) → trace (mach (kern s')) = trace (mach (kern s)) →
  env (mach (kern s')) = env (mach (kern s)) → below (2 ^ 63) (kram (kern s')) →
  (∀ a, slab_area (table_slab s) a ∨ slab_header (user_space s) a ∨
    heap_tbl (main_heap (kern s)) ≤ a < heap_tbl (main_heap (kern s)) + blocks (main_heap (kern s)) + 1 →
    kram (kern s') !! a = kram (kern s) !! a) →
  space_ready live s' L used busy.
Proof.
  intros [] Et Eu Eh Er Etr Ee Hlow Hag. split; rewrite ?Et, ?Eu, ?Eh, ?Er; try done.
  - eapply service_stable; [exact sr_live0|done|]. intros a Ha. apply Hag. auto.
  - eapply page_slab_agree; [done|]. intros a Ha. apply Hag. left. unfold slab_area. by rewrite (ps_obj _ _ _ sr_tables0).
  - eapply user_slab_agree; [done|]. intros a Ha. apply Hag. auto.
  - eapply clock_below_same; [done|by rewrite Er|done..].
Qed.

(** ** The loop *)

(** The system with another memory and more output. *)
Definition moved (m : mem) (tr : list event) (s : system) : system :=
  set_kern (set_mach (mk_machine m (sysregs (mach (kern s))) tr (env (mach (kern s)))) (kern s)) s.

Lemma moved_id s : moved (kram (kern s)) (trace (mach (kern s))) s = s.
Proof. by destruct s as [[[] ? ?] ? ? ? ? ? ? ?]. Qed.

Lemma moved_memory {A} (f : M mem A) m tr s a m' : f m = Ok a m' → in_memory f (moved m tr s) = Ok a (moved m' tr s).
Proof. intros H. exact (in_memory_ok f (moved m tr s) a m' H). Qed.

Lemma moved_machine {A} (f : M machine A) m tr s a m' tr' :
  f (mk_machine m (sysregs (mach (kern s))) tr (env (mach (kern s)))) =
    Ok a (mk_machine m' (sysregs (mach (kern s))) tr' (env (mach (kern s)))) →
  in_machine f (moved m tr s) = Ok a (moved m' tr' s).
Proof. intros H. unfold in_machine, in_kernel, on_machine, zoom. cbn [moved kern set_kern mach set_mach]. by rewrite H. Qed.

(** The line of the log for a page. *)
Definition page_line (va pa : Z) : list Z := chars "0x" ++ numeral 16 va ++ chars " -> 0x" ++ numeral 16 pa.

Lemma page_line_fits va pa : 0 ≤ va < 2 ^ 40 → 0 ≤ pa < 2 ^ 48 →
  Forall char_ok (page_line va pa) ∧ (length (page_line va pa) ≤ 30)%nat.
Proof.
  intros Hva Hpa. destruct (numeral_facts 16 va) as [Hv _]; [lia..|]. destruct (numeral_facts 16 pa) as [Hp _]; [lia..|].
  pose proof (numeral_length 16 va 10 ltac:(lia) ltac:(lia) ltac:(change (16 ^ Z.of_nat 10) with (2 ^ 40); lia)).
  pose proof (numeral_length 16 pa 12 ltac:(lia) ltac:(lia) ltac:(change (16 ^ Z.of_nat 12) with (2 ^ 48); lia)).
  unfold page_line. split.
  - repeat (apply Forall_app; split); try done; by repeat constructor.
  - rewrite !length_app. change (length (chars "0x")) with 2%nat. change (length (chars " -> 0x")) with 6%nat. lia.
Qed.

Lemma page_format va pa : format (λ _, []) (chars "0x%x -> 0x%x") [va; pa] = Some (page_line va pa, 8).
Proof.
  unfold page_line. set (f := numeral 16). change (chars "0x%x -> 0x%x") with [48; 120; 37; 120; 32; 45; 62; 32; 48; 120; 37; 120].
  cbn -[numeral]. fold f. by rewrite app_nil_r.
Qed.

Lemma log_page mc va pa : 0 ≤ va < 2 ^ 40 → 0 ≤ pa < 2 ^ 48 → below (2 ^ 63) (ram mc) →
  1000000 ≤ u32 (sysregs mc CNTFRQ_EL0) → usec_now mc < 10 ^ 11 →
  klogf_lit (chars "0x%x -> 0x%x") [va; pa] mc = Ok tt (printed (page_line va pa) mc).
Proof.
  intros Hva Hpa Hlow Hf Hclock. destruct (page_line_fits va pa Hva Hpa) as [Hok Hlen].
  pose proof (prefix_fits mc Hf Hclock) as Hpre.
  apply (klogf_lit_spec mc _ _ (λ _, []) _ 8); try done.
  - by repeat constructor.
  - apply page_format.
  - repeat constructor; lia.
  - unfold log_fits. split; [done|]. split; [lia|]. split; [done|lia].
Qed.

Section loop.
Context (s : system) (pm : paging_manager) (used busy : gset Z) (m0 : mem).
Hypothesis Htables : pages_allocator pm = table_slab s.
Hypothesis Hlow : below (2 ^ 63) m0.
Hypothesis Hfreq : 1000000 ≤ u32 (sysregs (mach (kern s)) CNTFRQ_EL0).
Hypothesis Hclock : clock_below (10 ^ 11) SPACE_EVENTS (mach (kern s)).
Hypothesis Hapart : ∀ a, slab_area (table_slab s) a → ¬ slab_header (user_space s) a.

(** After [i] rounds. *)
Definition mapping (i : Z) (t : system) : Prop := ∃ m new slots, t = moved m (new ++ trace (mach (kern s))) s ∧
  Z.of_nat (length new) ≤ 64 * i ∧ Z.of_nat (length slots) = i ∧
  NoDup slots ∧ (∀ n, n ∈ slots → (n ∉ busy) ∧ 0 ≤ n < max_store (user_space s)) ∧
  address_space (user_space s) pm used (list_to_set slots ∪ busy) slots m0 m.

Lemma taken_size (slots : list Z) : (size (list_to_set slots ∪ busy : gset Z) ≤ size busy + length slots)%nat.
Proof.
  induction slots as [|n slots IH]; cbn [list_to_set length].
  - rewrite union_empty_l_L. lia.
  - rewrite <-union_assoc_L, size_union_alt, size_singleton.
    pose proof (subseteq_size ((list_to_set slots ∪ busy) ∖ {[n]}) (list_to_set slots ∪ busy : gset Z) ltac:(set_solver)). lia.
Qed.

Lemma map_round_spec i t pages : mapping i t → 0 ≤ i < pages → pages < 2 ^ 19 →
  Z.of_nat (size busy) + pages ≤ max_store (user_space s) →
  Z.of_nat (size used) + 1 + 2 * pages ≤ max_store (table_slab s) →
  ∃ t', map_round pm i t = Ok tt t' ∧ mapping (i + 1) t'.
Proof.
  intros (m & new & slots & -> & Hnew64 & Hi & Hnd & Hslots & Has) Hip Hp Hroom Hcap. set (tr := new ++ trace (mach (kern s))).
  pose proof (taken_size slots) as Hsz. rewrite <-Htables in Hapart.
  destruct (allocate_user_page (user_space s) pm used _ Hapart m slots _ Has) as (n & m1 & Hrun1 & Hn & Hnew & Has1); [lia|].
  destruct (user_slot _ _ _ n (as_user _ _ _ _ _ _ _ Has1) Hn) as [Hpa _].
  set (va := JOB_BASE_USER + 0x1000 * i). assert (0 ≤ va < 2 ^ 40) as Hva by (unfold va, JOB_BASE_USER; lia).
  set (mc1 := mk_machine m1 (sysregs (mach (kern s))) tr (env (mach (kern s)))).
  pose proof (log_page mc1 va (slot_address (user_space s) n) Hva Hpa
    (space_below _ _ _ _ m1 _ _ Has1 Hlow) Hfreq (Hclock new ltac:(unfold SPACE_EVENTS; lia))) as Hrun2.
  set (mc2 := printed (page_line va (slot_address (user_space s) n)) mc1) in Hrun2.
  destruct (map_user_page (user_space s) pm used _ Hapart mc2 slots _ n Has1 Hn) as (m3 & Hrun3 & Has3); [lia|rewrite Htables; lia|].
  replace (JOB_BASE_USER + 4096 * Z.of_nat (length slots)) with va in Hrun3 by (unfold va; lia).
  eexists. split.
  - unfold map_round. fold va. rewrite (u64_small va) by lia.
    unfold get at 1. unfold bind at 1. cbv beta iota.
    rewrite (bind_ok _ _ _ _ _ (moved_memory _ _ _ _ _ _ Hrun1)).
    rewrite (u64_small (slot_address _ n)) by lia.
    rewrite (bind_ok _ _ _ _ _ (moved_machine _ _ _ _ _ _ _ Hrun2)).
    rewrite (bind_ok _ _ _ _ _ (moved_machine _ _ _ _ _ _ _ Hrun3)). reflexivity.
  - exists m3, (Dsb :: Tlbi_vmalle1 :: log_events mc1 (page_line va (slot_address (user_space s) n)) ++ new), (slots ++ [n]).
    split; [unfold moved; cbn [trace mc2 printed]; by rewrite <-!app_comm_cons, <-app_assoc|]. split.
    { cbn [length]. rewrite length_app, length_log_events. destruct (page_line_fits va _ Hva Hpa) as [_ Hline].
      pose proof (prefix_fits mc1 Hfreq (Hclock new ltac:(unfold SPACE_EVENTS; lia))). lia. }
    split; [rewrite length_app; simpl; lia|].
    split; [|split].
    + apply NoDup_app. split; [done|]. split; [|apply NoDup_singleton].
      intros k Hk ->%list_elem_of_singleton. set_solver.
    + intros k [Hk| ->%list_elem_of_singleton]%elem_of_app; [by apply Hslots|]. set_solver.
    + replace (list_to_set (slots ++ [n]) ∪ busy) with ({[n]} ∪ (list_to_set slots ∪ busy)) by set_solver. exact Has3.
Qed.

End loop.

(** ** The parts around the loop *)

(** What the heap does to its table changes nothing for a space. *)
Lemma space_ready_alloc live s L used busy k : space_ready live s L used busy → heap_frame (kern s) k →
  page_slab (table_slab s) (kram k) used ∧ user_slab (user_space s) (kram k) busy ∧ below (2 ^ 63) (kram k) ∧
  (∀ a, slab_area (table_slab s) a → kram k !! a = kram (kern s) !! a).
Proof.
  intros [_ Hts Hus Hlow _ _ _ Hheap] (Hfr & Hdom & _).
  assert (∀ a, slab_area (table_slab s) a ∨ slab_header (user_space s) a → kram k !! a = kram (kern s) !! a) as Hag.
  { intros a Ha. apply Hfr. intros Hin. destruct (Hheap a) as (_ & H1 & H2); [lia|tauto]. }
  split; [|split; [|split]].
  - eapply page_slab_agree; [done|]. intros a Ha. apply Hag. left. unfold slab_area. by rewrite (ps_obj _ _ _ Hts).
  - eapply user_slab_agree; [done|]. intros a Ha. apply Hag. by right.
  - intros a Ha. destruct (decide (heap_tbl (main_heap (kern s)) ≤ a < heap_tbl (main_heap (kern s)) + blocks (main_heap (kern s)))) as [Hin|Hout].
    + apply Hheap. lia.
    + apply Hlow. by rewrite <-Hfr.
  - intros a Ha. apply Hag. by left.
Qed.

(** A new space with the kernel in it has no page yet. *)
Lemma empty_address_space us pm used busy n m m2 : user_slab us m busy → page_slab (pages_allocator pm) m used →
  (∀ a, slab_area (pages_allocator pm) a → ¬ slab_header us a) → (n ∉ used) → l1 pm = slot_address (pages_allocator pm) n →
  manager_rep pm m2 ({[n]} ∪ used) {[ [] := l1 pm ]} →
  (∀ va, translate m2 (l1 pm) va = if decide (0 ≤ va < 0x80000000) then Some (va, false, false) else None) →
  (∀ va, in_space va → 0x80000000 ≤ va → walk 2 m2 (l1 pm) va = None) →
  space_frame (pages_allocator pm) used m m2 →
  address_space us pm used busy [] m m2.
Proof.
  intros Hus Hps Hapart Hn Hl1 Hrep Htrans Hwalk Hfr. split.
  - exists ({[n]} ∪ used), {[ [] := l1 pm ]}. split; [done|]. split; [|split; [set_solver|]].
    + intros q t. rewrite lookup_singleton_Some. intros [_ <-]. by exists n.
    + rewrite size_union, size_singleton by set_solver. simpl. lia.
  - eapply user_slab_agree; [done|]. intros a Ha. eapply space_frame_area; [done..|]. intros Hin. by eapply Hapart.
  - intros va. rewrite Htrans. unfold space_map, JOB_BASE_USER. destruct (decide (va < 0x80000000)).
    + destruct (decide (0 ≤ va)); [by rewrite decide_True|by rewrite decide_False by lia].
    + by rewrite decide_False by lia.
  - intros va Hva Hge. apply Hwalk; [done|]. unfold JOB_BASE_USER in Hge. simpl in Hge. lia.
  - intros a _ Hh Hs. by apply Hfr.
Qed.

Lemma pages_of_quot size : 0 ≤ size → size + 8192 ≤ INT_MAX →
  Z.quot (size + 4096) 4096 + (if Z.rem (size + 4096) 4096 =? 0 then 0 else 1) = pages_of size ∧
  0 < pages_of size < 2 ^ 19 ∧ 4096 * pages_of size ≤ size + 8191.
Proof.
  intros H0 H1. unfold pages_of, INT_MAX in *. rewrite Z.quot_div_nonneg, Z.rem_mod_nonneg by lia.
  pose proof (Z.div_mod (size + 4096) 4096). pose proof (Z.mod_pos_bound (size + 4096) 4096).
  pose proof (Z.div_mod (size + 8191) 4096). pose proof (Z.mod_pos_bound (size + 8191) 4096).
  destruct (Z.eqb_spec ((size + 4096) mod 4096) 0); lia.
Qed.

(** The loop from a new space to the last page. *)
Lemma map_rounds_spec s pm used busy m0 pages : pages_allocator pm = table_slab s → below (2 ^ 63) m0 →
  1000000 ≤ u32 (sysregs (mach (kern s)) CNTFRQ_EL0) →
  clock_below (10 ^ 11) SPACE_EVENTS (mach (kern s)) →
  (∀ a, slab_area (table_slab s) a → ¬ slab_header (user_space s) a) →
  address_space (user_space s) pm used busy [] m0 (kram (kern s)) → 0 ≤ pages < 2 ^ 19 →
  Z.of_nat (size busy) + pages ≤ max_store (user_space s) →
  Z.of_nat (size used) + 1 + 2 * pages ≤ max_store (table_slab s) →
  ∃ t, for_int pages (map_round pm) s = Ok tt t ∧ mapping s pm used busy m0 pages t.
Proof.
  intros Hts Hlow Hf Hclock Hapart Has Hp Hroom Hcap.
  assert (wp (for_int pages (map_round pm)) s (λ _ t, mapping s pm used busy m0 pages t)) as Hwp.
  { apply (wp_for_int (mapping s pm used busy m0)); [unfold INT_MAX; lia|..]; [| |by auto].
    - intros i t Hi Ht.
      destruct (map_round_spec s pm used busy m0 Hts Hlow Hf Hclock Hapart i t pages Ht) as (t' & Hrun & Ht'); [lia..|].
      by apply (wp_intro _ _ _ _ _ Hrun).
    - exists (kram (kern s)), [], []. rewrite app_nil_l, moved_id. do 3 (split; [done|]).
      split; [constructor|]. split; [by intros n ?%not_elem_of_nil|]. cbn [list_to_set]. by rewrite union_empty_l_L. }
  apply wp_ok in Hwp as ([] & t & Hrun & Ht). by exists t.
Qed.

(** The heap is left as the allocation of the manager made it. *)
Lemma space_live live `{HeapService live} s us pm used taken slots k k' L busy Lp :
  space_ready live s L used busy → heap_frame (kern s) k → live k Lp → main_heap k' = main_heap k →
  us = user_space s → pages_allocator pm = table_slab s →
  address_space us pm used taken slots (kram k) (kram k') → live k' Lp.
Proof.
  intros Hready Hfr Hlive Hheap -> Hts Has. eapply service_stable; [done|done|]. intros a Ha.
  destruct Hfr as (_ & _ & _ & _ & _ & _ & Htbl & Hbl). rewrite Htbl, Hbl in Ha.
  destruct (sr_heap _ _ _ _ _ Hready a Ha) as (_ & Harea & Hhdr).
  pose proof (sr_tables _ _ _ _ _ Hready) as Hps.
  apply (as_frame _ _ _ _ _ _ _ Has); rewrite ?Hts; [done|..].
  - intros Hin. apply Harea. pose proof (ps_ok _ _ _ Hps) as [? ? _ _ _]. unfold slab_area, slab_header in *. nia.
  - intros n _ Hn Hin. by destruct (slot_in_area _ _ _ n a Hps Hn Hin).
Qed.

(** The steps of the function in a row. *)
Lemma job_create_paging_run s bytes p k1 pm m1 m2 t : p ≠ 0 → 0 ≤ bytes → bytes + 8192 ≤ INT_MAX →
  kalloc sizeof_paging_manager (kern s) = Ok p k1 →
  paging_manager_init (table_slab s) (kram k1) = Ok pm m1 → paging_manager_map_kernel pm m1 = Ok tt m2 →
  for_int (pages_of bytes) (map_round pm) (set_managers (<[p := pm]> (managers s)) (set_kern (set_kram m2 k1) s)) = Ok tt t →
  job_create_paging bytes s = Ok (p, 4096 * pages_of bytes) t.
Proof.
  intros Hp0 H0 Hmax Hrun1 Hrun2 Hrun3 Hrun4. destruct (pages_of_quot bytes H0 Hmax) as (Hquot & Hpages & Hle).
  unfold job_create_paging. rewrite (bind_ok _ _ _ _ _ (in_kernel_ok _ _ _ _ Hrun1)).
  rewrite (bind_ok _ _ _ _ _ (init_manager_ok (set_kern k1 s) p pm m1 Hp0 Hrun2)).
  set (s1 := set_managers _ _).
  rewrite (bind_ok _ _ _ _ _ (in_memory_ok _ s1 _ _ Hrun3)).
  rewrite (bind_ok _ _ _ _ _ (int_of_ok (bytes + 4096) _ ltac:(unfold INT_MIN, INT_MAX in *; lia))).
  cbv zeta. rewrite Hquot.
  rewrite (bind_ok _ _ _ _ _ (int_of_ok (pages_of bytes) _ ltac:(unfold INT_MIN, INT_MAX in *; lia))).
  rewrite (bind_ok _ _ _ _ _ (int_of_ok (0x1000 * pages_of bytes) _ ltac:(unfold INT_MIN, INT_MAX in *; lia))).
  rewrite (bind_ok _ _ _ _ _ (Hrun4 : for_int (pages_of bytes) (map_round pm) (set_kern (set_kram m2 (kern s1)) s1) = Ok tt t)).
  done.
Qed.

(** What was left alone by the three steps was left alone. *)
Lemma built_other s us pm used taken slots m0 m root0 T0 : page_slab s m0 used → tree s m0 used root0 T0 →
  pages_allocator pm = s → (∀ a, slab_area s a → ¬ slab_header us a) →
  address_space us pm used taken slots m0 m →
  tree s m used root0 T0 ∧ ∀ va, translate m root0 va = translate m0 root0 va.
Proof.
  intros Hps Htr <- Hapart Has. eapply (tables_kept (pages_allocator pm)); [done|done|]. intros q t a Hq Ha.
  destruct (tr_node _ _ _ _ _ Htr q t Hq) as (_ & k & Hk & ->).
  destruct (slot_in_area _ _ _ k a Hps (ps_used _ _ _ Hps _ Hk) Ha) as [Hin Hout].
  apply (as_frame _ _ _ _ _ _ _ Has); [by apply Hapart|done|]. intros n Hn _ Hx. assert (k ≠ n) as Hne by congruence.
  destruct (slot_distinct _ k n (ps_obj _ _ _ Hps) Hne); lia.
Qed.

(** What [job_create_paging] has built: the manager [p] with the tables at [root], and the pages. *)
Record space_built (live : kernel → gset Z → Prop) (s : system) (L used busy : gset Z) (pages : Z)
    (p root : Z) (slots : list Z) (k : kernel) : Prop := {
  sb_live : 0 < p ∧ (p ∉ L) ∧ live k ({[p]} ∪ L);
  sb_manager : ∃ now T, manager_rep (mk_paging_manager root (table_slab s)) (kram k) now T ∧ used ⊆ now;
  sb_pages : Z.of_nat (length slots) = pages;
  sb_distinct : NoDup slots;
  sb_slots n : n ∈ slots → (n ∉ busy) ∧ 0 ≤ n < max_store (user_space s);
  sb_user : user_slab (user_space s) (kram k) (list_to_set slots ∪ busy);
  sb_translate va : translate (kram k) root va = space_map (user_space s) slots va;
  sb_others root0 T0 : tree (table_slab s) (kram (kern s)) used root0 T0 →
    tree (table_slab s) (kram k) used root0 T0 ∧ ∀ va, translate (kram k) root0 va = translate (kram (kern s)) root0 va;
  sb_frame a : ¬ slab_area (table_slab s) a → ¬ slab_header (user_space s) a →
    ¬ (heap_tbl (main_heap (kern s)) ≤ a < heap_tbl (main_heap (kern s)) + blocks (main_heap (kern s))) →
    kram k !! a = kram (kern s) !! a;
  sb_machine : sysregs (mach k) = sysregs (mach (kern s)) ∧ env (mach k) = env (mach (kern s));
  sb_heap : heap_tbl (main_heap k) = heap_tbl (main_heap (kern s)) ∧ blocks (main_heap k) = blocks (main_heap (kern s));
}.

Lemma job_create_paging_spec live `{HeapService live} s L used busy bytes :
  space_ready live s L used busy → 0 ≤ bytes → bytes + 8192 ≤ INT_MAX →
  Z.of_nat (size busy) + pages_of bytes ≤ max_store (user_space s) →
  Z.of_nat (size used) + 1 + 2 * pages_of bytes ≤ max_store (table_slab s) →
  ∃ p k1, kalloc sizeof_paging_manager (kern s) = Ok p k1 ∧
    if decide (p = 0) then job_create_paging bytes s = Fault (BadAddress 0)
    else ∃ root slots k', job_create_paging bytes s = Ok (p, 4096 * pages_of bytes)
        (set_managers (<[p := mk_paging_manager root (table_slab s)]> (managers s)) (set_kern k' s)) ∧
      space_built live s L used busy (pages_of bytes) p root slots k'.
Proof.
  intros Hready H0 Hmax Hroom Hcap. destruct (pages_of_quot bytes H0 Hmax) as (Hquot & Hpages & Hle).
  destruct (service_alloc (kern s) L sizeof_paging_manager (sr_live _ _ _ _ _ Hready)) as (p & k1 & Hrun1 & Hfr & Hp);
    [by unfold sizeof_paging_manager|].
  exists p, k1. split; [exact Hrun1|]. case_decide as Hp0.
  { unfold job_create_paging. rewrite (bind_ok _ _ _ _ _ (in_kernel_ok _ _ _ _ Hrun1)), Hp0. by apply bind_fault, init_manager_null. }
  assert (0 < p ∧ (p ∉ L) ∧ live k1 ({[p]} ∪ L)) as Hpl by tauto. clear Hp.
  destruct (space_ready_alloc _ _ _ _ _ _ Hready Hfr) as (Hps1 & Hus1 & Hlow1 & Hkeep).
  destruct (free_slot_exists (table_slab s) used) as [n Hn]; [lia..|].
  destruct (kernel_identity_spec _ _ _ _ Hps1 Hn) as (m1 & m2 & Hrun2 & Hrun3 & Hnew & Hrep & Htrans & Hwalk & Hsf).
  set (root := slot_address (table_slab s) n) in *. set (pm := mk_paging_manager root (table_slab s)) in *.
  pose proof (empty_address_space (user_space s) pm used busy n (kram k1) m2 Hus1 Hps1
    (sr_apart _ _ _ _ _ Hready) Hnew eq_refl Hrep Htrans Hwalk Hsf) as Has.
  set (s2 := set_managers (<[p := pm]> (managers s)) (set_kern (set_kram m2 k1) s)).
  pose proof Hfr as (_ & _ & Hregs & Htrace & Henv & _).
  destruct (map_rounds_spec s2 pm used busy (kram k1) (pages_of bytes) eq_refl Hlow1) as (t & Hrun4 & m & new & slots & -> & _ & Hlen & Hnd & Hslots & Has');
    try done; [..|lia|].
  { cbn. rewrite Hregs. apply Hready. }
  { eapply clock_below_same; [apply Hready|by cbn; rewrite Hregs|exact Htrace|exact Henv]. }
  { apply Hready. }
  assert (∀ a, ¬ slab_area (table_slab s) a → ¬ slab_header (user_space s) a → m !! a = kram k1 !! a) as Hkeep2.
  { intros a Ha Hh. apply (as_frame _ _ _ _ _ _ _ Has'); [done|..].
    - intros Hin. apply Ha. pose proof (ps_ok _ _ _ Hps1) as [? ? _ _ _]. unfold slab_area, slab_header in *.
      change (pages_allocator pm) with (table_slab s) in Hin. nia.
    - intros j _ Hj Hin. by destruct (slot_in_area _ _ _ j a Hps1 Hj Hin). }
  set (s3 := moved m _ s2) in *.
  exists root, slots, (kern s3). split; [by apply (job_create_paging_run s bytes p k1 pm m1 m2)|].
  split; [|..|split; [exact Hregs|exact Henv]|]; try done.
  - destruct Hpl as (H1 & H2 & H3). split; [done|]. split; [done|]. by eapply (space_live live s (user_space s) pm used).
  - destruct (as_tables _ _ _ _ _ _ _ Has') as (now & T & ? & _ & ? & _). by exists now, T.
  - apply (as_user _ _ _ _ _ _ _ Has').
  - apply (as_translate _ _ _ _ _ _ _ Has').
  - intros root0 T0 Htr.
    destruct (tables_kept (table_slab s) (kram (kern s)) (kram k1) used used root0 T0 Htr) as [Htr1 Ht1]; [done| |].
    { intros q t a Hq Ha. destruct (tr_node _ _ _ _ _ Htr q t Hq) as (_ & k & Hk & ->). apply Hkeep.
      by apply (slot_in_area _ _ _ k a Hps1 (ps_used _ _ _ Hps1 _ Hk)). }
    destruct (built_other (table_slab s) (user_space s) pm used _ _ (kram k1) m root0 T0 Hps1 Htr1 eq_refl (sr_apart _ _ _ _ _ Hready) Has') as [Htr2 Ht2].
    split; [exact Htr2|]. intros va. rewrite <-Ht1. apply Ht2.
  - intros a H1 H2 H3. change (kram (kern s3)) with m. rewrite Hkeep2 by done. by apply Hfr.
  - apply Hfr.
Qed.

(** * Properties *)

(** C9: [job_create_paging] builds the address space of a new job: with room for the pages and for
    the tables, it maps the size and one page more, rounded up, from 0x80000000 on to different
    pages that were free before, with access from EL0; the kernel is there below 0x80000000
    without access, everything else faults; every other address space keeps its translations,
    and only the manager is allocated on the heap.  When [kalloc] has no block for the manager,
    nothing checks its answer and the initialisation writes through NULL. *)
Theorem job_create_paging_builds live `{HeapService live} s L used busy bytes :
  space_ready live s L used busy → 0 ≤ bytes → bytes + 8192 ≤ INT_MAX →
  Z.of_nat (size busy) + pages_of bytes ≤ max_store (user_space s) →
  Z.of_nat (size used) + 1 + 2 * pages_of bytes ≤ max_store (table_slab s) →
  ∃ p k1, kalloc sizeof_paging_manager (kern s) = Ok p k1 ∧
    if decide (p = 0) then job_create_paging bytes s = Fault (BadAddress 0)
    else ∃ root slots k', job_create_paging bytes s = Ok (p, 4096 * pages_of bytes)
        (set_managers (<[p := mk_paging_manager root (table_slab s)]> (managers s)) (set_kern k' s)) ∧
      (0 < p ∧ (p ∉ L) ∧ live k' ({[p]} ∪ L)) ∧
      Z.of_nat (length slots) = pages_of bytes ∧ NoDup slots ∧
      (∀ n, n ∈ slots → (n ∉ busy) ∧ 0 ≤ n < max_store (user_space s)) ∧
      user_slab (user_space s) (kram k') (list_to_set slots ∪ busy) ∧
      (∀ va, translate (kram k') root va = space_map (user_space s) slots va) ∧
      ∀ root0 T0, tree (table_slab s) (kram (kern s)) used root0 T0 →
        ∀ va, translate (kram k') root0 va = translate (kram (kern s)) root0 va.
Proof.
  intros Hready H0 Hmax Hroom Hcap.
  destruct (job_create_paging_spec live s L used busy bytes Hready H0 Hmax Hroom Hcap) as (p & k1 & Hk & Hrun).
  exists p, k1. split; [exact Hk|]. case_decide; [exact Hrun|]. destruct Hrun as (root & slots & k' & Hrun & []).
  exists root, slots, k'. do 7 (split; [done|]). intros root0 T0 Htr. apply (proj2 (sb_others0 root0 T0 Htr)).
Qed.

(** * Witness: two pages behind two address spaces. *)

Definition demo_user_slab : slab := mk_slab 0x7ffff000 2 4096 4096.
Definition demo_space_ram : mem :=
  put_bytes 0x1000 [0xe0; 0xe0; 0xe0; 0; 7] (put_bytes 0x7ffff000 [0] demo_pt_mem).
Definition demo_space : system :=
  mk_system (mk_kernel (mk_machine demo_space_ram (set_reg CNTFRQ_EL0 62500000 (λ _, 0)) [] (mk_environment (λ _ _, 0) (λ _ _, 6250000)))
    (mk_heap 0x2000 0x1000 4 1) (mk_gic_table [] [])) demo_tables 0 ∅ demo_job_slab demo_user_slab 0 ∅.

Lemma demo_space_other a : 0x10000 ≤ a < 0x7ffff000 → demo_space_ram !! a = demo_pt_mem !! a.
Proof. intros Ha. unfold demo_space_ram. rewrite !put_bytes_outside by (cbn [length]; lia). done. Qed.

Lemma demo_space_below : below (2 ^ 63) demo_space_ram.
Proof.
  unfold demo_space_ram. apply below_put_bytes; [apply below_put_bytes; [|lia|cbn [length]; lia]|lia|cbn [length]; lia].
  apply below_put_bytes; [apply below_empty|lia|]. cbn [length]. rewrite length_replicate. lia.
Qed.

Lemma demo_space_ready : space_ready heap_live demo_space {[0x2000; 0x3000; 0x4000]} {[7; 6]} ∅.
Proof.
  assert (∀ a, slab_area demo_tables a → 0x10000 ≤ a < 0x19000) as Harea.
  { intros a. unfold slab_area. simpl. lia. }
  split; cbn [table_slab user_space kern demo_space main_heap mach kram ram].
  - apply (service_stable demo_kernel); [exact demo_live|reflexivity|]. intros a Ha. cbn [main_heap demo_kernel heap_tbl blocks] in Ha.
    cbn [kram mach ram demo_kernel]. unfold demo_space_ram, demo_ram.
    rewrite !(put_bytes_lookup 0x1000), !decide_True by (cbn [length]; lia). reflexivity.
  - eapply page_slab_agree; [exact demo_page_slab|]. intros a Ha. apply demo_space_other. simpl in Ha. lia.
  - split; [split; simpl; unfold INT_MAX; lia| |done|done|simpl; lia]. exists [0]. split; [|split; [by repeat constructor|]].
    + unfold demo_space_ram. cbn [starting_address demo_user_slab]. peel_bytes.
    + split; [simpl; lia|]. split; [simpl; lia|]. intros n Hn. simpl in Hn.
      assert (n = 0 ∨ n = 1) as [-> | ->] by lia; vm_compute; reflexivity.
  - exact demo_space_below.
  - by apply (bool_decide_unpack _).
  - intros new _. change (u64 6250000 / (u32 62500000 / 1000000) < 10 ^ 11). reflexivity.
  - intros a Ha%Harea. unfold slab_header. simpl. lia.
  - intros a Ha. cbn in Ha. split; [lia|]. split; [intros Hin%Harea; lia|unfold slab_header; simpl; lia].
Qed.

Lemma demo_space_root : tree (table_slab demo_space) (kram (kern demo_space)) {[7; 6]} demo_root2 {[ [] := demo_root2 ]}.
Proof.
  change (kram (kern demo_space)) with demo_space_ram.
  apply (tables_kept demo_tables demo_pt_mem demo_space_ram {[7; 6]}); [apply demo_roots|done|].
  intros q t a [_ <-]%lookup_singleton_Some Ha. apply demo_space_other. unfold demo_root2 in Ha. lia.
Qed.

Lemma demo_space_kalloc : match kalloc sizeof_paging_manager (kern demo_space) with Ok p _ => p = 0x5000 | _ => False end.
Proof. vm_compute. reflexivity. Qed.

Lemma job_create_paging_builds_witness :
  ∃ root k' pa, job_create_paging 1000 demo_space = Ok (0x5000, 4096 * pages_of 1000)
      (set_managers (<[0x5000 := mk_paging_manager root (table_slab demo_space)]> (managers demo_space)) (set_kern k' demo_space)) ∧
    translate (kram k') root 0x40001234 = Some (0x40001234, false, false) ∧
    translate (kram k') root 0x80001234 = Some (pa, true, false) ∧ translate (kram k') root 0x80002000 = None ∧
    translate (kram k') demo_root2 0x80000000 = translate (kram (kern demo_space)) demo_root2 0x80000000.
Proof.
  destruct (job_create_paging_builds heap_live demo_space {[0x2000; 0x3000; 0x4000]} {[7; 6]} ∅ 1000 demo_space_ready)
    as (p & k1 & Hk & Hcase); [lia|unfold INT_MAX; lia|by apply (bool_decide_unpack _)|by apply (bool_decide_unpack _)|].
  pose proof demo_space_kalloc as Hp. rewrite Hk in Hp. subst p.
  rewrite decide_False in Hcase by lia. destruct Hcase as (root & slots & k' & Hrun & _ & Hlen & _ & _ & _ & Ht & Hother).
  destruct slots as [|n1 [|n2 [|n3 slots]]]; try (change (pages_of 1000) with 2 in Hlen; cbn in Hlen; lia).
  exists root, k', (slot_address demo_user_slab n2 + 0x1234 mod 4096).
  split; [exact Hrun|]. split; [by rewrite Ht|]. split; [by rewrite Ht|]. split; [by rewrite Ht|].
  exact (Hother demo_root2 {[ [] := demo_root2 ]} demo_space_root 0x80000000).
Defined.
