(* ===== verification/Sched.v ===== *)
(** * The scheduler (kernel/mp/sched.c) and the exception frame (kernel/exceptions.asm)

    The interrupt entries push the general registers in pairs and pass the stack pointer, so
    that the C code sees an array of 32 words; [scheduling_save_context] and
    [scheduling_restore_context] copy that array from and to the job. *)
From stdpp Require Import base list gmap.
From Stdlib Require Import ZArith Lia.
From S2P Require Import Prelude Memory CString Heap Slab Machine Log Gic Kernel Paging Job.

(** ** exceptions.asm *)

(** [stp x(2k), x(2k+1), [sp, #-16]!] for k = 0 .. 15; register 31 is xzr.  The result is the
    stack pointer, which becomes the argument [x30] of the handler. *)
Definition gpr (g : list Z) (r : nat) : Z := default 0 (g !! r).
Definition push_frame (g : list Z) (stack : Z) : M mem Z :=
  for_up 16 0 (λ k,
    store64 (stack - 16 * (k + 1)) (gpr g (Z.to_nat (2 * k))) ;;
    store64 (stack - 16 * (k + 1) + 8) (gpr g (Z.to_nat (2 * k + 1)))) ;;
  ret (stack - 256).

(** [ldp x(2k), x(2k+1), [sp], #16] for k = 15 .. 0; what is loaded to xzr is lost. *)
Fixpoint pop_pairs (k : nat) (stack : Z) (g : list Z) : M mem (list Z) :=
  match k with
  | O => ret g
  | S k' =>
      let* a := load64 stack in
      let* b := load64 (stack + 8) in
      pop_pairs k' (stack + 16) (<[(2 * k' + 1)%nat := b]> (<[(2 * k')%nat := a]> g))
  end.
Definition pop_frame (stack : Z) : M mem (list Z) := pop_pairs 16 stack (replicate 31 0).

(** ** sched.c *)

Definition debug_job (job : Z) : M system unit :=
  let* j := get_job job in
  in_machine (klogf_lit (chars "pc: 0x%x") [pc j]) ;;
  in_machine (klogf_lit (chars "sp: 0x%x") [sp j]) ;;
  for_int 31 (λ i,
    let* j := get_job job in
    match x j !! Z.to_nat i with
    | Some v => in_machine (klogf_lit (chars "x%q: %x") [u64 i; v])
    | None => fail (BadAddress i)
    end).

Definition scheduling_save_context (x30 job : Z) : M system unit :=
  let* program_counter := in_machine (mrs ELR_EL1) in
  let* stack_pointer := in_machine (mrs SP_EL0) in
  job_set_programcounter job program_counter ;;
  let* j := get_job job in
  put_job job (set_context (x j) (pc j) stack_pointer j) ;;
  for_int 31 (λ i,
    let* w := in_memory (load64 (x30 + 8 * (30 - i))) in
    let* j := get_job job in
    put_job job (set_context (<[Z.to_nat i := w]> (x j)) (pc j) (sp j) j)).

Definition scheduling_restore_context (x30 job : Z) : M system unit :=
  let* j := get_job job in
  let program_counter := pc j in
  let stack_pointer := sp j in
  for_int 31 (λ i,
    let* j := get_job job in
    match x j !! Z.to_nat i with
    | Some v => in_memory (store64 (x30 + 8 * (30 - i)) v)
    | None => fail (BadAddress i)
    end) ;;
  in_machine (msr ELR_EL1 program_counter) ;;
  in_machine (msr SP_EL0 stack_pointer).

(** [exceptions_context_switch_x30] is set by the interrupt handler; here it is an argument. *)
Definition internal_handler (exceptions_context_switch_x30 : Z) : M system unit :=
  in_machine (let* frequency := timer_getfrequency in timer_write_tval frequency) ;; (* reload the timer *)
  let* current := job_get_current in
  scheduling_save_context exceptions_context_switch_x30 current ;;
  job_forward ;;
  let* current := job_get_current in
  scheduling_restore_context exceptions_context_switch_x30 current ;;
  let* current := job_get_current in
  let* j := get_job current in
  paging_manager_apply (paging j) ;;
  ret tt.

(** [INTERNAL_HANDLER] is the address of the function above. *)
Definition scheduling_register_routine (INTERNAL_HANDLER : Z) : M system unit :=
  in_kernel (on_gic (gic_redistributor_set_handler 30 INTERNAL_HANDLER 0)).

(** [sysutils_jump_eret_usermode] of sysutils.c: the last step leaves for the user program. *)
Definition sysutils_jump_eret_usermode (job : Z) : M system unit :=
  let target_el_mask := u64 (Z.lnot 0xf) in
  let target_el := 0 in
  let* x0 := in_machine (mrs SPSR_EL1) in
  let x0 := Z.land x0 target_el_mask in
  let x0 := Z.lor x0 target_el in
  in_machine (msr SPSR_EL1 x0) ;;
  let* j := get_job job in
  paging_manager_apply (paging j) ;;
  let* j := get_job job in
  in_machine (msr ELR_EL1 (pc j)) ;;
  in_machine (msr SP_EL0 (sp j)) ;;
  in_machine (emit Eret).

(** * Specification *)

(** The frame: what the array [x30] holds when the registers are [g]. *)
Definition frame_words (g : list Z) : list Z :=
  [gpr g 30; 0; gpr g 28; gpr g 29; gpr g 26; gpr g 27; gpr g 24; gpr g 25; gpr g 22; gpr g 23;
   gpr g 20; gpr g 21; gpr g 18; gpr g 19; gpr g 16; gpr g 17; gpr g 14; gpr g 15; gpr g 12; gpr g 13;
   gpr g 10; gpr g 11; gpr g 8; gpr g 9; gpr g 6; gpr g 7; gpr g 4; gpr g 5; gpr g 2; gpr g 3;
   gpr g 0; gpr g 1].

Definition is_u64 (v : Z) : Prop := 0 ≤ v < 2 ^ 64.

(** What [scheduling_save_context] leaves in [job->x] of a frame. *)
Definition saved_words (ws : list Z) : list Z := reverse (take 31 ws).

(** * Lemmas *)

Lemma replace_prefix {A} (i : nat) (l xs : list A) v : l !! i = Some v → (i < length xs)%nat →
  <[i := v]> (take i l ++ drop i xs) = take (S i) l ++ drop (S i) xs.
Proof.
  intros Hl Hi. pose proof (lookup_lt_Some _ _ _ Hl).
  rewrite (take_S_r _ _ _ Hl), <-app_assoc.
  destruct (lookup_lt_is_Some_2 xs i Hi) as [w Hw]. rewrite (drop_S _ _ _ Hw).
  rewrite insert_app_r_alt by (rewrite length_take; lia).
  by rewrite length_take, Nat.min_l, Nat.sub_diag by lia.
Qed.

Lemma replace_suffix {A} (i : nat) (l xs : list A) v : l !! i = Some v → (i < length xs)%nat →
  <[i := v]> (take (S i) xs ++ drop (S i) l) = take i xs ++ drop i l.
Proof.
  intros Hl Hi. destruct (lookup_lt_is_Some_2 xs i Hi) as [w Hw].
  rewrite (take_S_r _ _ _ Hw), (drop_S _ _ _ Hl), <-app_assoc. simpl.
  rewrite insert_app_r_alt by (rewrite length_take; lia).
  by rewrite length_take, Nat.min_l, Nat.sub_diag by lia.
Qed.

Lemma saved_lookup ws i : (31 ≤ length ws)%nat → (i < 31)%nat →
  saved_words ws !! i = ws !! (30 - i)%nat.
Proof.
  intros Hl Hi. unfold saved_words. rewrite reverse_lookup by (rewrite length_take; lia).
  rewrite length_take, Nat.min_l by lia. by rewrite lookup_take_lt by lia.
Qed.

Lemma in_machine_ok {A} (m : M machine A) s a t : m (mach (kern s)) = Ok a t →
  in_machine m s = Ok a (set_kern (set_mach t (kern s)) s).
Proof. intros H. by apply in_kernel_ok, on_machine_ok. Qed.

Lemma set_mach_id s : set_kern (set_mach (mach (kern s)) (kern s)) s = s.
Proof. by destruct s as [[]]. Qed.

(** Operations that only read leave the state. *)
Lemma in_machine_read {A} (m : M machine A) s a : m (mach (kern s)) = Ok a (mach (kern s)) →
  in_machine m s = Ok a s.
Proof. intros H. by rewrite (in_machine_ok _ _ _ _ H), set_mach_id. Qed.

Lemma in_memory_read {A} (m : M mem A) s a : m (kram (kern s)) = Ok a (kram (kern s)) →
  in_memory m s = Ok a s.
Proof. intros H. by rewrite (in_memory_ok _ _ _ _ H), set_kram_id, set_kern_id. Qed.

Lemma in_machine_mrs r s : volatile_reg r = false →
  in_machine (mrs r) s = Ok (sysregs (mach (kern s)) r) s.
Proof. intros H. apply in_machine_read. unfold mrs. by rewrite H. Qed.

Lemma load_frame_word m p ws k w : bytes_at m p (words ws) → Forall is_u64 ws → ws !! k = Some w →
  load64 (p + 8 * Z.of_nat k) m = Ok w m.
Proof.
  intros Hb Hws Hk. apply load_word_ok; [by eapply word_in_words|].
  by apply (Forall_lookup_1 _ _ _ _ Hws Hk).
Qed.

Section context.
Variables (s : system) (p x30 : Z) (j : job) (ws : list Z).
Hypothesis Hj : jobs s !! p = Some j.
Hypothesis Hx : length (x j) = 31%nat.
Hypothesis Hws : length ws = 32%nat.
Hypothesis Hframe : bytes_at (kram (kern s)) x30 (words ws).

Lemma save_context_spec : Forall is_u64 ws →
  scheduling_save_context x30 p s = Ok tt (set_jobs (<[p := set_context (saved_words ws)
    (sysregs (mach (kern s)) ELR_EL1) (sysregs (mach (kern s)) SP_EL0) j]> (jobs s)) s).
Proof.
  intros Hu. unfold scheduling_save_context.
  rewrite (bind_ok _ _ _ _ _ (in_machine_mrs ELR_EL1 s eq_refl)).
  rewrite (bind_ok _ _ _ _ _ (in_machine_mrs SP_EL0 s eq_refl)).
  set (elr := sysregs _ ELR_EL1). set (spv := sysregs _ SP_EL0). clearbody elr spv.
  unfold job_set_programcounter. rewrite bind_assoc, (bind_ok _ _ _ _ _ (get_job_ok _ _ _ Hj)).
  unfold put_job at 1, modify at 1, bind at 1. rewrite (bind_ok _ _ _ _ _ (get_job_ok _ _ _ (lookup_insert_eq _ _ _))).
  unfold put_job at 1, modify at 1, bind at 1.
  pose (at_ i := set_jobs (<[p := set_context (take i (saved_words ws) ++ drop i (x j)) elr spv j]> (jobs s)) s).
  apply wp_eq. apply (wp_for_int (λ i t, t = at_ (Z.to_nat i))); [unfold INT_MAX; lia| | |].
  - intros i t Hi ->. set (k := Z.to_nat i). assert (k < 31)%nat as Hk by (unfold k; lia).
    replace (Z.to_nat (i + 1)) with (S k) by (unfold k; lia).
    destruct (lookup_lt_is_Some_2 ws (30 - k)) as [w Hw]; [lia|].
    pose proof (load_frame_word _ _ _ _ _ Hframe Hu Hw) as Hload.
    replace (x30 + 8 * Z.of_nat (30 - k)) with (x30 + 8 * (30 - i)) in Hload by (unfold k in *; lia).
    apply wp_bind, (wp_intro _ _ _ _ _ (in_memory_read _ (at_ k) _ Hload)).
    apply wp_bind, (wp_intro _ _ _ _ _ (get_job_ok (at_ k) _ _ (lookup_insert_eq _ _ _))).
    unfold put_job, modify, wp. cbn [x set_context]. rewrite (replace_prefix k (saved_words ws) (x j) w); [|..].
    + unfold at_, set_jobs. cbn [jobs kern table_slab current_paging_manager managers job_slab user_space current_job].
      by rewrite insert_insert_eq.
    + rewrite saved_lookup by lia. done.
    + lia.
  - unfold at_. cbn [Z.to_nat take drop app]. unfold set_jobs.
    cbn [jobs kern table_slab current_paging_manager managers job_slab user_space current_job].
    by rewrite insert_insert_eq.
  - intros t ->. split; [done|]. unfold at_. rewrite take_ge, drop_ge, app_nil_r; [done|rewrite Hx; done|].
    unfold saved_words. rewrite length_reverse, length_take. lia.
Qed.

Lemma restore_context_spec :
  let k := kern s in
  let m := put_bytes x30 (words (reverse (x j) ++ drop 31 ws)) (kram k) in
  let r1 := set_reg ELR_EL1 (pc j) (sysregs (mach k)) in
  scheduling_restore_context x30 p s = Ok tt (set_kern (set_mach (mk_machine m (set_reg SP_EL0 (sp j) r1)
    (Msr SP_EL0 (sp j) :: Msr ELR_EL1 (pc j) :: trace (mach k)) (env (mach k))) k) s).
Proof.
  intros k m r1. unfold scheduling_restore_context.
  rewrite (bind_ok _ _ _ _ _ (get_job_ok _ _ _ Hj)).
  set (target := reverse (x j) ++ drop 31 ws).
  assert (length target = 32%nat) as Ht.
  { unfold target. rewrite length_app, length_reverse, length_drop. lia. }
  pose (W i := take (31 - i) ws ++ drop (31 - i) target).
  assert (∀ i, (i ≤ 31)%nat → length (W i) = 32%nat) as HW.
  { intros i Hi. unfold W. rewrite length_app, length_take, length_drop. lia. }
  assert (W 0%nat = ws) as HW0.
  { unfold W, target. rewrite drop_app_ge by (rewrite length_reverse; lia).
    rewrite length_reverse, Hx, Nat.sub_0_r, Nat.sub_diag, drop_0. apply take_drop. }
  pose (at_ i := set_kern (set_kram (put_bytes x30 (words (W i)) (kram k)) k) s).
  erewrite (bind_ok _ _ _ tt (at_ 31%nat)); [reflexivity|]. apply wp_eq.
  apply (wp_for_int (λ i t, t = at_ (Z.to_nat i))); [unfold INT_MAX; lia| | |].
  - intros i t Hi ->. set (n := Z.to_nat i). assert (n < 31)%nat as Hn by (unfold n; lia).
    replace (Z.to_nat (i + 1)) with (S n) by (unfold n; lia).
    apply wp_bind, (wp_intro _ _ _ _ _ (get_job_ok (at_ n) p j Hj)).
    destruct (lookup_lt_is_Some_2 (x j) n) as [v Hv]; [lia|]. rewrite Hv.
    destruct (lookup_lt_is_Some_2 (W n) (30 - n)) as [w Hw]; [rewrite HW; lia|].
    apply (wp_intro _ _ tt (at_ (S n))); [|done].
    change (at_ (S n)) with (set_kern (set_kram (put_bytes x30 (words (W (S n))) (kram k)) (kern (at_ n))) (at_ n)).
    apply in_memory_ok.
    replace (x30 + 8 * (30 - i)) with (x30 + 8 * Z.of_nat (30 - n)) by (unfold n; lia).
    change (kram (kern (at_ n))) with (put_bytes x30 (words (W n)) (kram k)).
    unfold store64. rewrite store_le_ok.
    + rewrite (put_word_in_words _ _ _ w) by done. do 3 f_equal. unfold W.
      replace (31 - n)%nat with (S (30 - n)) in * by lia. replace (31 - S n)%nat with (30 - n)%nat by lia.
      assert (target !! (30 - n)%nat = Some v) as Htv.
      { unfold target. rewrite lookup_app_l by (rewrite length_reverse; lia).
        rewrite reverse_lookup by lia. rewrite Hx. by replace (31 - S (30 - n))%nat with n by lia. }
      apply replace_suffix; [done|lia].
    + eapply mapped_weaken; [apply bytes_at_mapped, bytes_at_put| |]; [lia|].
      rewrite length_words, HW by lia. lia.
  - change (Z.to_nat 0) with 0%nat. unfold at_. rewrite HW0, (put_bytes_id (kram k) x30 (words ws) Hframe). unfold k.
    by rewrite set_kram_id, set_kern_id.
  - intros t ->. done.
Qed.

End context.

(** ** The frame *)

Lemma frame_word_even g i : (i < 16)%nat → frame_words g !! (30 - 2 * i)%nat = Some (gpr g (2 * i)).
Proof. intros Hi. do 16 (destruct i as [|i]; [done|]). lia. Qed.

Lemma frame_word_odd g i : length g = 31%nat → (i < 16)%nat →
  frame_words g !! (31 - 2 * i)%nat = Some (gpr g (2 * i + 1)).
Proof.
  intros Hg Hi. destruct (decide (i = 15%nat)) as [->|Hne].
  - unfold gpr at 1. by rewrite (lookup_ge_None_2 g) by lia.
  - do 15 (destruct i as [|i]; [done|]). lia.
Qed.

Lemma gpr_u64 g r : Forall is_u64 g → is_u64 (gpr g r).
Proof.
  intros Hg. unfold gpr. destruct (g !! r) as [v|] eqn:E; [by apply (Forall_lookup_1 _ _ _ _ Hg E)|].
  simpl. unfold is_u64. lia.
Qed.

Lemma frame_words_u64 g : Forall is_u64 g → Forall is_u64 (frame_words g).
Proof.
  intros Hg. assert (is_u64 0) by (unfold is_u64; lia). unfold frame_words.
  repeat (apply Forall_cons; split; [by first [apply gpr_u64|idtac]|]). by apply Forall_nil.
Qed.

Lemma push_frame_spec g stack m : length g = 31%nat → mapped m (stack - 256) 256 →
  push_frame g stack m = Ok (stack - 256) (put_bytes (stack - 256) (words (frame_words g)) m).
Proof.
  intros Hg Hm. unfold push_frame. set (fw := frame_words g).
  pose (at_ i := put_bytes (stack - 16 * Z.of_nat i) (words (drop (32 - 2 * i) fw)) m).
  erewrite (bind_ok _ _ _ tt (at_ 16%nat)); [done|]. apply wp_eq.
  apply (wp_for_up (λ i t, t = at_ (Z.to_nat i))); [| |by intros t ->].
  2: { unfold at_. by rewrite drop_ge. }
  intros i t Hi ->. set (n := Z.to_nat i). assert (n < 16)%nat as Hn by (unfold n; lia).
  replace (Z.to_nat (i + 1)) with (S n) by (unfold n; lia).
  replace (Z.to_nat (2 * i)) with (2 * n)%nat by (unfold n; lia).
  replace (Z.to_nat (2 * i + 1)) with (2 * n + 1)%nat by (unfold n; lia).
  set (sp := stack - 16 * (i + 1)).
  assert (mapped (at_ n) sp 16) as Hsp.
  { apply mapped_put_bytes. eapply mapped_weaken; [exact Hm|unfold sp; lia|unfold sp; lia]. }
  apply wp_bind, wp_store_word; [eapply mapped_weaken; [exact Hsp|lia|lia]|].
  apply wp_store_word; [apply mapped_put_bytes; eapply mapped_weaken; [exact Hsp|lia|lia]|].
  unfold at_. replace (stack - 16 * Z.of_nat (S n)) with sp by (unfold sp, n; lia).
  replace (32 - 2 * S n)%nat with (30 - 2 * n)%nat by lia.
  rewrite (drop_S fw _ _ (frame_word_even g n Hn)).
  replace (S (30 - 2 * n)) with (31 - 2 * n)%nat by lia.
  rewrite (drop_S fw _ _ (frame_word_odd g n Hg Hn)).
  replace (S (31 - 2 * n)) with (32 - 2 * n)%nat by lia.
  unfold words at 2. cbn [mbind list_bind]. rewrite !put_bytes_app, !length_le_bytes.
  replace (sp + Z.of_nat 8 + Z.of_nat 8) with (stack - 16 * Z.of_nat n) by (unfold sp, n; lia).
  apply put_bytes_comm. rewrite !length_le_bytes. lia.
Qed.

(** Where register [r] is in the frame. *)
Definition frame_index (r : nat) : nat := if Nat.even r then (30 - r)%nat else (32 - r)%nat.
Definition frame_regs (ws : list Z) : list Z := (λ r, default 0 (ws !! frame_index r)) <$> seq 0 31.

Lemma pop_pairs_spec m k stack ws g : (k ≤ 16)%nat → length ws = 32%nat → Forall is_u64 ws →
  length g = 31%nat → bytes_at m stack (words (drop (32 - 2 * k) ws)) →
  ∃ g', pop_pairs k stack g m = Ok g' m ∧ length g' = 31%nat ∧
    ∀ r, (r < 31)%nat → g' !! r = if decide (r < 2 * k)%nat then ws !! frame_index r else g !! r.
Proof.
  intros Hk Hws Hu. revert stack g Hk. induction k as [|k IH]; intros stack g Hk Hg Hb.
  { exists g. split; [done|]. split; [done|]. intros r Hr. by rewrite decide_False by lia. }
  destruct (lookup_lt_is_Some_2 ws (30 - 2 * k)) as [a Ha]; [lia|].
  destruct (lookup_lt_is_Some_2 ws (31 - 2 * k)) as [b Hb']; [lia|].
  replace (32 - 2 * S k)%nat with (30 - 2 * k)%nat in Hb by lia.
  pose proof Hb as Hcopy. rewrite (drop_S _ _ _ Ha) in Hb.
  replace (S (30 - 2 * k)) with (31 - 2 * k)%nat in Hb by lia. rewrite (drop_S _ _ _ Hb') in Hb.
  replace (S (31 - 2 * k)) with (32 - 2 * k)%nat in Hb by lia.
  apply (bytes_at_app _ _ (le_bytes 8 a)) in Hb as [Hwa Hb].
  apply (bytes_at_app _ _ (le_bytes 8 b)) in Hb as [Hwb Hb]. rewrite !length_le_bytes in *.
  cbn [pop_pairs].
  rewrite (bind_ok _ _ _ _ _ (load_word_ok 8 m _ _ Hwa (Forall_lookup_1 _ _ _ _ Hu Ha))).
  rewrite (bind_ok _ _ _ _ _ (load_word_ok 8 m _ _ Hwb (Forall_lookup_1 _ _ _ _ Hu Hb'))).
  replace (stack + Z.of_nat 8 + Z.of_nat 8) with (stack + 16) in Hb by lia.
  destruct (IH (stack + 16) (<[(2 * k + 1)%nat := b]> (<[(2 * k)%nat := a]> g))) as (g' & Hp & Hl & Hr);
    [lia|by rewrite !length_insert|exact Hb|].
  exists g'. split; [exact Hp|]. split; [exact Hl|]. intros r Hr31. rewrite Hr by done.
  destruct (decide (r < 2 * k)%nat); [by rewrite decide_True by lia|].
  destruct (decide (r = 2 * k)%nat) as [->|]; [|destruct (decide (r = 2 * k + 1)%nat) as [->|]].
  - rewrite decide_True by lia. rewrite list_lookup_insert_ne by lia.
    rewrite list_lookup_insert_eq by lia.
    assert (frame_index (2 * k) = 30 - 2 * k)%nat as -> by (unfold frame_index; by rewrite Nat.even_mul).
    done.
  - rewrite decide_True by lia. rewrite list_lookup_insert_eq by (rewrite length_insert; lia).
    assert (frame_index (2 * k + 1) = 31 - 2 * k)%nat as ->; [|done].
    unfold frame_index. rewrite Nat.even_add, Nat.even_mul. cbn [Nat.even orb eqb]. lia.
  - rewrite decide_False by lia. by rewrite !list_lookup_insert_ne by lia.
Qed.

Lemma pop_frame_spec m stack ws : length ws = 32%nat → Forall is_u64 ws →
  bytes_at m stack (words ws) → pop_frame stack m = Ok (frame_regs ws) m.
Proof.
  intros Hws Hu Hb. destruct (pop_pairs_spec m 16 stack ws (replicate 31 0)) as (g & Hp & Hl & Hr);
    [lia|done|done|done|exact Hb|]. unfold pop_frame. rewrite Hp. f_equal. apply list_eq. intros r.
  destruct (decide (r < 31)%nat) as [Hr31|Hr31].
  - rewrite (Hr r Hr31), decide_True by lia. unfold frame_regs. rewrite list_lookup_fmap.
    rewrite lookup_seq_lt by done. simpl.
    destruct (lookup_lt_is_Some_2 ws (frame_index r)) as [w ->]; [|done].
    unfold frame_index. destruct (Nat.even r) eqn:E; [lia|]. destruct r; [done|lia].
  - rewrite !lookup_ge_None_2; [done|unfold frame_regs; rewrite length_fmap, length_seq; lia|lia].
Qed.

Ltac split_list g n :=
  lazymatch n with
  | O => destruct g; [|discriminate]
  | S ?n' => destruct g as [|? g]; [discriminate|]; split_list g n'
  end.

Lemma frame_regs_words g : length g = 31%nat → frame_regs (frame_words g) = g.
Proof. intros H. split_list g 31%nat. reflexivity. Qed.

(** The registers of a saved job, with [v] in the last word of the frame. *)
Lemma frame_regs_resumed g v : length g = 31%nat →
  frame_regs (reverse (saved_words (frame_words g)) ++ [v]) = <[1%nat := v]> g.
Proof.
  intros H. unfold saved_words. rewrite reverse_involutive. split_list g 31%nat. reflexivity.
Qed.

Lemma length_saved ws : length ws = 32%nat → length (saved_words ws) = 31%nat.
Proof. intros H. unfold saved_words. rewrite length_reverse, length_take. lia. Qed.

(** ** The invariant and the machine *)

Definition outside (s : system) (a n : Z) : Prop :=
  disjoint a n (heap_tbl (main_heap (kern s))) (blocks (main_heap (kern s)) + 1) ∧
  disjoint a n (starting_address (job_slab s)) (header_size (job_slab s)).

(** The tables of the two allocators. *)
Definition in_tables (s : system) (a : Z) : Prop :=
  heap_tbl (main_heap (kern s)) ≤ a < heap_tbl (main_heap (kern s)) + blocks (main_heap (kern s)) + 1 ∨
  starting_address (job_slab s) ≤ a < starting_address (job_slab s) + header_size (job_slab s).

Section inv_machine.
Context {live : kernel → gset Z → Prop} `{HeapService live}.

(** Registers, devices and the memory outside the allocators' tables are free to change. *)
Lemma inv_agree s l used L mc : job_inv live s l used L →
  (∀ a, in_tables s a → ram mc !! a = kram (kern s) !! a) →
  job_inv live (set_kern (set_mach mc (kern s)) s) l used L.
Proof.
  intros [] Hm. unfold in_tables in Hm. split; try done.
  - eapply service_stable; [exact inv_live|done|]. intros b Hb. apply Hm. by left.
  - destruct inv_rep as (hb & Hhb & ? & ? & Hle & ?). exists hb. split; [|done].
    eapply bytes_at_agree; [exact Hhb|]. intros b Hb. cbn in *. apply Hm. right. lia.
Qed.

Lemma inv_machine s l used L mc a bs : job_inv live s l used L →
  outside s a (Z.of_nat (length bs)) → ram mc = put_bytes a bs (kram (kern s)) →
  job_inv live (set_kern (set_mach mc (kern s)) s) l used L.
Proof.
  intros Hinv [Ht Hh] Hm. unfold disjoint in Ht, Hh. apply inv_agree; [done|]. intros b Hb.
  rewrite Hm. apply put_bytes_outside. destruct Hb; lia.
Qed.

Lemma inv_registers s l used L mc : job_inv live s l used L → ram mc = kram (kern s) →
  job_inv live (set_kern (set_mach mc (kern s)) s) l used L.
Proof. intros Hinv Hm. apply inv_agree; [done|]. by rewrite Hm. Qed.

Lemma inv_set_paging s l used L p : job_inv live s l used L → job_inv live (set_current_paging p s) l used L.
Proof. intros []. by split. Qed.
End inv_machine.

(** The state after the timer was reloaded and the context of the current job saved. *)
Definition after_save (s : system) (c : Z) (jc : job) (g : list Z) : system :=
  let mc := mach (kern s) in
  let freq := u32 (u32 (sysregs mc CNTFRQ_EL0)) in
  set_jobs (<[c := set_context (saved_words (frame_words g)) (sysregs mc ELR_EL1) (sysregs mc SP_EL0) jc]> (jobs s))
    (set_kern (set_mach (mk_machine (ram mc) (set_reg CNTP_TVAL_EL0 freq (sysregs mc))
      (Msr CNTP_TVAL_EL0 freq :: trace mc) (env mc)) (kern s)) s).

Lemma save_run s c jc g x30 : current_job s = c → jobs s !! c = Some jc → length (x jc) = 31%nat →
  length g = 31%nat → Forall is_u64 g → bytes_at (kram (kern s)) x30 (words (frame_words g)) →
  (in_machine (let* frequency := timer_getfrequency in timer_write_tval frequency) ;;
   let* current := job_get_current in
   scheduling_save_context x30 current) s = Ok tt (after_save s c jc g).
Proof.
  intros Hc Hjc Hx Hg Hu Hb. set (freq := u32 (u32 (sysregs (mach (kern s)) CNTFRQ_EL0))).
  set (s1 := set_kern (set_mach (mk_machine (ram (mach (kern s)))
    (set_reg CNTP_TVAL_EL0 freq (sysregs (mach (kern s))))
    (Msr CNTP_TVAL_EL0 freq :: trace (mach (kern s))) (env (mach (kern s)))) (kern s)) s).
  rewrite (bind_ok _ _ _ tt s1) by done. unfold job_get_current, gets, bind.
  change (current_job s1) with (current_job s). rewrite Hc.
  rewrite (save_context_spec s1 c x30 jc (frame_words g)); try done.
  by apply frame_words_u64.
Qed.

(** ** Switching *)

(** What a switch leaves alone besides the contexts. *)
Record switch_frame (s s' : system) : Prop := {
  kept_job_slab : job_slab s' = job_slab s;
  kept_interrupts : interrupts (kern s') = interrupts (kern s);
  kept_table : heap_tbl (main_heap (kern s')) = heap_tbl (main_heap (kern s));
  kept_blocks : blocks (main_heap (kern s')) = blocks (main_heap (kern s));
  kept_managers q j : jobs s' !! q = Some j → managers s' !! paging j = managers s !! paging j;
}.

Lemma outside_kept s s' a n : switch_frame s s' → outside s a n → outside s' a n.
Proof. intros [E _ Et Eb _] [Ht Hh]. unfold outside. by rewrite Et, Eb, E. Qed.

Lemma apply_run s p pm : p ≠ 0 → managers s !! p = Some pm →
  ∃ mc, paging_manager_apply p s =
      Ok (current_paging_manager s) (set_kern (set_mach mc (kern s)) (set_current_paging p s)) ∧
    ram mc = kram (kern s) ∧ sysregs mc TTBR0_EL1 = l1 pm ∧
    (∀ r, r ≠ TTBR0_EL1 → r ≠ TCR_EL1 → r ≠ SCTLR_EL1 → sysregs mc r = sysregs (mach (kern s)) r).
Proof.
  intros Hp0 Hp. eexists. split; [|split; [|split]].
  - unfold paging_manager_apply, gets, modify, bind at 1 2.
    rewrite (bind_ok _ _ _ _ _ (get_manager_ok (set_current_paging p s) p pm Hp0 Hp)). reflexivity.
  - done.
  - cbn. by rewrite (set_reg_other SCTLR_EL1), (set_reg_other TCR_EL1), set_reg_same.
  - intros r H1 H2 H3. cbn. by rewrite !set_reg_other.
Qed.

Section switch.
Context {live : kernel → gset Z → Prop} `{HeapService live}.

Lemma status_after_save s c jc g p : jobs s !! c = Some jc →
  status_of (after_save s c jc g) p = status_of s p.
Proof.
  intros Hc. unfold status_of. cbn. destruct (decide (c = p)) as [<-|Hne].
  - by rewrite lookup_insert_eq, Hc.
  - by rewrite lookup_insert_ne.
Qed.

Lemma inv_after_save s l used L c jc g : job_inv live s l used L → jobs s !! c = Some jc →
  job_inv live (after_save s c jc g) l used L.
Proof.
  intros Hinv Hc. unfold after_save.
  apply (inv_update live (set_kern _ s) l used L c jc); [|done|done|done]. by apply inv_registers.
Qed.

(** The job [q] that runs next gets its context and its address space back. *)
Lemma resume_run s l used L q jq pm x30 g : job_inv live s l used L → current_job s = q →
  jobs s !! q = Some jq → length (x jq) = 31%nat → managers s !! paging jq = Some pm →
  bytes_at (kram (kern s)) x30 (words (frame_words g)) → outside s x30 256 →
  ∃ s', (let* current := job_get_current in
     scheduling_restore_context x30 current ;;
     let* current := job_get_current in
     let* j := get_job current in
     paging_manager_apply (paging j) ;;
     ret tt) s = Ok tt s' ∧ job_inv live s' l used L ∧ current_job s' = q ∧ jobs s' = jobs s ∧
    kram (kern s') = put_bytes x30 (words (reverse (x jq) ++ [gpr g 1])) (kram (kern s)) ∧
    sysregs (mach (kern s')) ELR_EL1 = pc jq ∧ sysregs (mach (kern s')) SP_EL0 = sp jq ∧
    sysregs (mach (kern s')) TTBR0_EL1 = l1 pm ∧ current_paging_manager s' = paging jq ∧ switch_frame s s'.
Proof.
  intros Hinv Hcur Hjq Hx Hpm Hb Hout.
  pose proof (restore_context_spec s q x30 jq (frame_words g) Hjq Hx eq_refl Hb) as Hres.
  change (drop 31 (frame_words g)) with [gpr g 1] in Hres. cbv zeta in Hres.
  match type of Hres with _ = Ok tt ?t => set (s3 := t) in * end.
  assert (job_inv live s3 l used L) as Hinv3.
  { eapply (inv_machine s l used L _ x30 (words (reverse (x jq) ++ [gpr g 1]))); [exact Hinv| |reflexivity].
    rewrite length_words, length_app, length_reverse, Hx. exact Hout. }
  destruct (apply_run s3 (paging jq) pm) as (mc & Happ & Hram & Httbr & Hregs); [|exact Hpm|].
  { intros E. apply (service_null _ _ (inv_live _ _ _ _ _ Hinv)). rewrite <-E. by eapply inv_paging. }
  eexists. split; [|split; [|split; [|split; [|split; [|split; [|split; [|split; [|split]]]]]]]].
  - unfold job_get_current, gets at 1, bind at 1. rewrite Hcur. rewrite (bind_ok _ _ _ _ _ Hres).
    unfold gets, bind at 1. change (current_job s3) with (current_job s). rewrite Hcur.
    rewrite (bind_ok _ _ _ _ _ (get_job_ok s3 q jq Hjq)), (bind_ok _ _ _ _ _ Happ). reflexivity.
  - exact (inv_registers (set_current_paging (paging jq) s3) l used L mc (inv_set_paging s3 l used L _ Hinv3) Hram).
  - exact Hcur.
  - done.
  - unfold kram at 1. cbn [kern set_kern mach set_mach]. rewrite Hram. reflexivity.
  - cbn [kern set_kern mach set_mach]. rewrite Hregs by done. cbn.
    by rewrite set_reg_other, set_reg_same.
  - cbn [kern set_kern mach set_mach]. rewrite Hregs by done. cbn. by rewrite set_reg_same.
  - exact Httbr.
  - done.
  - by split.
Qed.

(** The handler with the first part done: the context is saved. *)
Lemma internal_handler_saved s c jc g x30 : current_job s = c → jobs s !! c = Some jc → length (x jc) = 31%nat →
  length g = 31%nat → Forall is_u64 g → bytes_at (kram (kern s)) x30 (words (frame_words g)) →
  internal_handler x30 s = (job_forward ;;
    let* current := job_get_current in
    scheduling_restore_context x30 current ;;
    let* current := job_get_current in
    let* j := get_job current in
    paging_manager_apply (paging j) ;;
    ret tt) (after_save s c jc g).
Proof.
  intros Hc Hjc Hx Hg Hu Hb. pose proof (save_run s c jc g x30 Hc Hjc Hx Hg Hu Hb) as Hsave.
  unfold internal_handler. unfold bind at 1 in Hsave. unfold bind at 1.
  destruct (in_machine _ s) as [[] sa|sa|f]; [|discriminate..].
  rewrite (bind_ok _ _ _ _ _ (eq_refl : job_get_current sa = Ok (current_job sa) sa)).
  rewrite (bind_ok _ _ _ _ _ (eq_refl : job_get_current sa = Ok (current_job sa) sa)) in Hsave.
  by rewrite (bind_ok _ _ _ _ _ Hsave).
Qed.

Lemma context_switch_spec s c r pre q post used L x30 g jc jq gq pm :
  job_inv live s (c :: r) used L → r ++ [c] = pre ++ q :: post →
  Forall (λ p, status_of s p ≠ Some RUNNING) pre → status_of s q = Some RUNNING →
  jobs s !! c = Some jc → length (x jc) = 31%nat →
  length g = 31%nat → Forall is_u64 g →
  bytes_at (kram (kern s)) x30 (words (frame_words g)) → outside s x30 256 →
  jobs (after_save s c jc g) !! q = Some jq → x jq = saved_words (frame_words gq) →
  length gq = 31%nat → Forall is_u64 gq → managers s !! paging jq = Some pm →
  ∃ s' used' L', internal_handler x30 s = Ok tt s' ∧ current_job s' = q ∧
    job_inv live s' (q :: post ++ sleeping s pre) used' L' ∧
    pop_frame x30 (kram (kern s')) = Ok (<[1%nat := gpr g 1]> gq) (kram (kern s')) ∧
    sysregs (mach (kern s')) ELR_EL1 = pc jq ∧ sysregs (mach (kern s')) SP_EL0 = sp jq ∧
    sysregs (mach (kern s')) TTBR0_EL1 = l1 pm ∧ current_paging_manager s' = paging jq ∧
    same_jobs (jobs (after_save s c jc g)) (jobs s') ∧ switch_frame s s' ∧ mapped (kram (kern s')) x30 256 ∧
    accounts s used L s' used' L'.
Proof.
  intros Hinv E Hpre Hq Hjc Hx Hg Hu Hb Hout Hjq Hxq Hgq Huq Hpm.
  set (s1 := after_save s c jc g).
  pose proof (inv_after_save s (c :: r) used L c jc g Hinv Hjc) as Hinv1. fold s1 in Hinv1.
  assert (∀ p, status_of s1 p = status_of s p) as Hst by (intros p; by apply status_after_save).
  destruct (job_forward_spec s1 c r pre q post used L Hinv1 E) as
    (s2 & used2 & L2 & Hfwd & Hcur2 & Hinv2 & Hfr & Hacc).
  { eapply Forall_impl; [exact Hpre|]. intros p. by rewrite Hst. }
  { by rewrite Hst. }
  assert (sleeping s1 pre = sleeping s pre) as Hsl.
  { apply sleeping_same, Forall_forall. intros p _. apply Hst. }
  rewrite Hsl in Hinv2.
  destruct (ring_lookup s2 _ q (inv_ring _ _ _ _ _ Hinv2)) as [jq2 Hjq2]; [by left|].
  destruct (frame_jobs _ _ Hfr q jq2 Hjq2) as (jq1 & Hjq1 & Eq2).
  assert (jq1 = jq) as -> by (fold s1 in Hjq; congruence).
  assert (managers s2 !! paging jq2 = Some pm) as Hpm2.
  { rewrite (frame_managers _ _ Hfr q jq2 Hjq2), Eq2. exact Hpm. }
  destruct (frame_kern _ _ Hfr) as (Hmem & _ & _ & _ & _ & Ht & Hbl). destruct Hout as [Hot Hoh].
  unfold disjoint in Hot, Hoh.
  assert (bytes_at (kram (kern s2)) x30 (words (frame_words g))) as Hb2.
  { eapply bytes_at_agree; [exact Hb|]. intros a Ha. change (Z.of_nat (length _)) with 256 in Ha.
    assert (kram (kern s1) = kram (kern s)) as <- by done. apply Hmem; cbn; lia. }
  destruct (resume_run s2 _ used2 L2 q jq2 pm x30 g Hinv2 Hcur2 Hjq2) as
    (s3 & Hres & Hinv3 & Hcur3 & Hjobs3 & Hram3 & Helr & Hsp & Httbr & Hcpm & Hkept).
  { rewrite Eq2. cbn. rewrite Hxq. by apply length_saved. }
  { exact Hpm2. }
  { exact Hb2. }
  { split; unfold disjoint; rewrite ?Ht, ?Hbl, ?(frame_job_slab _ _ Hfr); cbn; lia. }
  rewrite Eq2 in Helr, Hsp, Hcpm, Hram3. cbn in Helr, Hsp, Hcpm, Hram3. rewrite Hxq in Hram3.
  assert (length (reverse (saved_words (frame_words gq)) ++ [gpr g 1]) = 32%nat) as Hlen
    by (rewrite length_app, length_reverse, length_saved by done; done).
  exists s3, used2, L2. split_and!; try done.
  - rewrite (internal_handler_saved s c jc g x30 (proj1 (inv_ring _ _ _ _ _ Hinv)) Hjc Hx Hg Hu Hb).
    by rewrite (bind_ok _ _ _ _ _ Hfwd).
  - rewrite (pop_frame_spec _ x30 (reverse (saved_words (frame_words gq)) ++ [gpr g 1]) Hlen).
    + by rewrite frame_regs_resumed.
    + apply Forall_app. split; [|apply Forall_singleton; by apply gpr_u64].
      apply Forall_reverse. apply Forall_reverse. apply Forall_take. by apply frame_words_u64.
    + rewrite Hram3. apply bytes_at_put.
  - rewrite Hjobs3. by apply frame_jobs.
  - destruct Hkept as [K1 K2 K3 K4 K5]. destruct Hfr as [(_ & _ & _ & _ & F4 & F5 & F6) F7 _ _ _ _ F8].
    split; [by rewrite K1, F7|by rewrite K2, F4|by rewrite K3, F5|by rewrite K4, F6|].
    intros p jp Hp. rewrite (K5 p jp Hp). rewrite Hjobs3 in Hp. by apply (F8 p jp).
  - rewrite Hram3. apply (mapped_weaken _ x30 256); [|lia|lia].
    pose proof (bytes_at_mapped _ _ _ (bytes_at_put x30 (words (reverse (saved_words (frame_words gq)) ++ [gpr g 1]))
      (kram (kern s2)))) as Hmap. by rewrite length_words, Hlen in Hmap.
  - intros rest Ho. apply (owned_same s2); [by destruct Hkept|by intros p; rewrite Hjobs3|]. apply Hacc.
    apply (owned_same s); [done| |exact Ho]. intros p. cbn. destruct (decide (c = p)) as [<-|Hne].
    + by rewrite lookup_insert_eq, Hjc.
    + by rewrite lookup_insert_ne.
Qed.

(** The timer interrupt switches jobs.  With the registers [g] of the current job [c] in the
    frame, the handler saves them with the program counter and the stack pointer in [c], picks
    the next running job [q] round robin, and leaves in the frame and in the system registers
    the context and the address space saved for [q]: popping the frame gives back every register
    that was saved except x1, which keeps the value it has in the interrupted job. *)
Theorem context_switch s c r pre q post used L x30 g jc jq gq pm :
  job_inv live s (c :: r) used L → r ++ [c] = pre ++ q :: post →
  Forall (λ p, status_of s p ≠ Some RUNNING) pre → status_of s q = Some RUNNING →
  jobs s !! c = Some jc → length (x jc) = 31%nat →
  length g = 31%nat → Forall is_u64 g →
  bytes_at (kram (kern s)) x30 (words (frame_words g)) → outside s x30 256 →
  jobs (after_save s c jc g) !! q = Some jq → x jq = saved_words (frame_words gq) →
  length gq = 31%nat → Forall is_u64 gq → managers s !! paging jq = Some pm →
  ∃ s' used' L', internal_handler x30 s = Ok tt s' ∧ current_job s' = q ∧
    job_inv live s' (q :: post ++ sleeping s pre) used' L' ∧
    pop_frame x30 (kram (kern s')) = Ok (<[1%nat := gpr g 1]> gq) (kram (kern s')) ∧
    sysregs (mach (kern s')) ELR_EL1 = pc jq ∧ sysregs (mach (kern s')) SP_EL0 = sp jq ∧
    sysregs (mach (kern s')) TTBR0_EL1 = l1 pm ∧ current_paging_manager s' = paging jq ∧
    same_jobs (jobs (after_save s c jc g)) (jobs s').
Proof.
  intros Hinv E Hpre Hq Hjc Hx Hg Hu Hb Hout Hjq Hxq Hgq Huq Hpm.
  destruct (context_switch_spec s c r pre q post used L x30 g jc jq gq pm) as
    (s' & used' & L' & H1 & H2 & H3 & H4 & H5 & H6 & H7 & H8 & H9 & _); try done.
  by exists s', used', L'.
Qed.
End switch.

(** The entry and the exit of an interrupt are inverse: popping the frame that was pushed gives
    back the 31 registers and the stack pointer. *)
Theorem frame_roundtrip g stack m : length g = 31%nat → Forall is_u64 g → mapped m (stack - 256) 256 →
  (let* frame := push_frame g stack in
   let* g' := pop_frame frame in
   ret (g', frame + 256)) m = Ok (g, stack) (put_bytes (stack - 256) (words (frame_words g)) m).
Proof.
  intros Hg Hu Hm. rewrite (bind_ok _ _ _ _ _ (push_frame_spec g stack m Hg Hm)).
  rewrite (bind_ok _ _ _ _ _ (pop_frame_spec _ (stack - 256) (frame_words g) eq_refl
    (frame_words_u64 g Hu) (bytes_at_put _ _ _))).
  rewrite frame_regs_words by done. unfold ret. do 2 f_equal. lia.
Qed.

(** * Witnesses *)

Definition demo_regs : list Z := Z.of_nat <$> seq 100 31.
Definition demo_frame : list Z := words (frame_words demo_regs).
Definition demo_switch : system :=
  set_managers {[0x3000 := mk_paging_manager 0x6000 demo_job_slab]}
    (set_kern (set_mach (mk_machine (put_bytes 0x8000 demo_frame demo_ram) (λ _, 0) []
      (mk_environment (λ _ _, 0) (λ _ _, 0))) demo_kernel) demo_system).

Lemma demo_regs_u64 : Forall is_u64 demo_regs.
Proof. apply (bool_decide_unpack _). vm_compute. exact I. Qed.

Lemma demo_switch_inv : job_inv heap_live demo_switch [4744; 5136] {[0; 1]} {[0x2000; 0x3000; 0x4000]}.
Proof.
  pose proof (inv_machine demo_system [4744; 5136] {[0; 1]} {[0x2000; 0x3000; 0x4000]}
    (mk_machine (put_bytes 0x8000 demo_frame demo_ram) (λ _, 0) []
      (mk_environment (λ _ _, 0) (λ _ _, 0))) 0x8000 demo_frame demo_inv) as [].
  - split; right; simpl; lia.
  - reflexivity.
  - by split.
Qed.

Lemma frame_roundtrip_witness :
  (let* frame := push_frame demo_regs 0x8100 in
   let* g' := pop_frame frame in
   ret (g', frame + 256)) (put_bytes 0x8000 (replicate 256 0) ∅) =
  Ok (demo_regs, 0x8100) (put_bytes 0x8000 demo_frame (put_bytes 0x8000 (replicate 256 0) ∅)).
Proof.
  apply (frame_roundtrip demo_regs 0x8100).
  - reflexivity.
  - exact demo_regs_u64.
  - apply mapped_put_self. simpl. lia.
Defined.

Lemma context_switch_witness :
  ∃ s', internal_handler 0x8000 demo_switch = Ok tt s' ∧ current_job s' = 5136 ∧
    pop_frame 0x8000 (kram (kern s')) = Ok (<[1%nat := 101]> (replicate 31 0)) (kram (kern s')) ∧
    sysregs (mach (kern s')) TTBR0_EL1 = 0x6000.
Proof.
  destruct (context_switch demo_switch 4744 [5136] [] 5136 [4744] {[0; 1]} {[0x2000; 0x3000; 0x4000]}
    0x8000 demo_regs (demo_job SLEEPING 0x2000 5136) (demo_job RUNNING 0x3000 4744) (replicate 31 0)
    (mk_paging_manager 0x6000 demo_job_slab) demo_switch_inv)
    as (s' & used' & L' & H & Hc & _ & Hpop & _ & _ & Httbr & _).
  - reflexivity.
  - apply Forall_nil_2.
  - reflexivity.
  - reflexivity.
  - reflexivity.
  - reflexivity.
  - exact demo_regs_u64.
  - apply bytes_at_put.
  - split; right; simpl; lia.
  - reflexivity.
  - reflexivity.
  - reflexivity.
  - apply Forall_replicate. unfold is_u64. lia.
  - reflexivity.
  - exists s'. split; [exact H|]. split; [exact Hc|]. split; [exact Hpop|exact Httbr].
Defined.
