(* ===== verification/Elf.v ===== *)
(** * Program files (kernel/elf/filebuffer.c, kernel/elf/elf.c)

    The structs [ELF], [ElfN_Ehdr], [ElfN_Phdr] and [ElfN_Shdr] are in memory, with the layout of
    the AArch64 ABI; an accessor per field reads it through the pointer to the struct. *)
From stdpp Require Import base list gmap.
From Stdlib Require Import ZArith Lia.
From stdpp Require Import strings.
From S2P Require Import Prelude Layout Memory CString Heap Machine Log Kernel.

Definition ELF_MAGIC_NUMBER : Z := 0x7f.

(** ** filebuffer.c *)

(** [struct filebuffer] is its only field [buffer]. *)
Definition filebuffer_frombuffer (buffer : Z) : Z := buffer.

(** The state of the loop: [bytes], [char_ptr], [src]. *)
Definition filebuffer_copy (bytes char_ptr src : Z) : M mem unit :=
  mem_fuel (λ fuel, loop fuel (λ '(bytes, char_ptr, src),
    if 0 <? bytes then
      let* c := loadb src in
      storeb char_ptr c ;;
      ret (inl (bytes - 1, char_ptr + 1, src + 1))
    else ret (inr tt)) (bytes, char_ptr, src)).

Definition filebuffer_read_at_position (ptr offset_bytes size_bytes count filewrap : Z) : M mem unit :=
  filebuffer_copy (u64 (size_bytes * u64 count)) ptr (filewrap + offset_bytes).

(** ** The structs *)

Definition ElfN_Ehdr : cstruct := mk_cstruct true
  [("e_ident", Array U8 16); ("e_type", U16); ("e_machine", U16); ("e_version", U32);
   ("e_entry", U64); ("e_phoff", U64); ("e_shoff", U64); ("e_flags", U32); ("e_ehsize", U16);
   ("e_phentsize", U16); ("e_phnum", U16); ("e_shentsize", U16); ("e_shnum", U16);
   ("e_shstrndx", U16)]%string.

Definition ElfN_Phdr : cstruct := mk_cstruct true
  [("p_type", U32); ("p_flags", U32); ("p_offset", U64); ("p_vaddr", U64); ("p_paddr", U64);
   ("p_filesz", U64); ("p_memsz", U64); ("p_align", U64)]%string.

Definition ElfN_Shdr : cstruct := mk_cstruct true
  [("sh_name", U32); ("sh_type", U32); ("sh_flags", U64); ("sh_addr", U64); ("sh_offset", U64);
   ("sh_size", U64); ("sh_link", U32); ("sh_info", U32); ("sh_addralign", U64);
   ("sh_entsize", U64)]%string.

Definition ELF : cstruct := mk_cstruct false
  [("file", Ptr); ("header_loaded", Int); ("header", Nested (sizeof ElfN_Ehdr) 1);
   ("section_headers_loaded", Int); ("section_headers", Ptr); ("strings_section_loaded", Int);
   ("strings_section", Ptr); ("program_headers_loaded", Int); ("program_headers", Ptr)]%string.

Definition sizeof_Ehdr : Z := 64.
Definition sizeof_Phdr : Z := 56.
Definition sizeof_Shdr : Z := 64.

(** Offsets in [ElfN_Ehdr]. *)
Definition e_entry (header : Z) : M mem Z := load64 (header + 24).
Definition e_phoff (header : Z) : M mem Z := load64 (header + 32).
Definition e_shoff (header : Z) : M mem Z := load64 (header + 40).
Definition e_phentsize (header : Z) : M mem Z := load16 (header + 54).
Definition e_phnum (header : Z) : M mem Z := load16 (header + 56).
Definition e_shentsize (header : Z) : M mem Z := load16 (header + 58).
Definition e_shnum (header : Z) : M mem Z := load16 (header + 60).
Definition e_shstrndx (header : Z) : M mem Z := load16 (header + 62).

(** Offsets in [ElfN_Phdr] and [ElfN_Shdr]. *)
Definition p_offset (program : Z) : M mem Z := load64 (program + 8).
Definition p_memsz (program : Z) : M mem Z := load64 (program + 40).
Definition sh_name (section : Z) : M mem Z := load32 section.
Definition sh_offset (section : Z) : M mem Z := load64 (section + 24).
Definition sh_size (section : Z) : M mem Z := load64 (section + 32).

(** Offsets in [ELF]. *)
Definition sizeof_ELF : Z := 120.
Definition ELF_file : Z := 0.
Definition ELF_header_loaded : Z := 8.
Definition ELF_header : Z := 12.
Definition ELF_section_headers_loaded : Z := 76.
Definition ELF_section_headers : Z := 80.
Definition ELF_strings_section_loaded : Z := 88.
Definition ELF_strings_section : Z := 96.
Definition ELF_program_headers_loaded : Z := 104.
Definition ELF_program_headers : Z := 112.

(** ** elf.c *)

(** The struct is returned by value: it is stored at [elf]. *)
Definition elf_fromfilebuffer (elf file : Z) : M mem unit :=
  store64 (elf + ELF_file) file ;;
  store32 (elf + ELF_header_loaded) 0 ;;
  for_up (Z.to_nat sizeof_Ehdr) 0 (λ i, storeb (elf + ELF_header + i) 0) ;;
  store32 (elf + ELF_section_headers_loaded) 0 ;;
  store64 (elf + ELF_section_headers) 0 ;;
  store32 (elf + ELF_strings_section_loaded) 0 ;;
  store64 (elf + ELF_strings_section) 0 ;;
  store32 (elf + ELF_program_headers_loaded) 0 ;;
  store64 (elf + ELF_program_headers) 0.

Definition elf_parseheader (elf : Z) : M mem Z :=
  let hdr_len := sizeof_Ehdr in
  let* file := load64 (elf + ELF_file) in
  filebuffer_read_at_position (elf + ELF_header) 0 hdr_len 1 file ;;
  let* magic := loadb (elf + ELF_header) in
  if negb (magic =? ELF_MAGIC_NUMBER) then ret 0 else
  store32 (elf + ELF_header_loaded) 1 ;;
  ret 1.

Definition elf_get_sectionentries (elf : Z) : M mem Z :=
  let* loaded := load32 (elf + ELF_header_loaded) in
  if loaded =? 0 then ret (-1) else e_shnum (elf + ELF_header).

Definition elf_get_programentries (elf : Z) : M mem Z :=
  let* loaded := load32 (elf + ELF_header_loaded) in
  if loaded =? 0 then ret (-1) else e_phnum (elf + ELF_header).

Definition elf_get_sectionheaders_bytes (elf : Z) : M mem Z :=
  let* loaded := load32 (elf + ELF_header_loaded) in
  if loaded =? 0 then ret (u64 (-1)) else
  let* n := e_shnum (elf + ELF_header) in
  ret (u64 (sizeof_Shdr * n)).

Definition elf_get_programheaders_bytes (elf : Z) : M mem Z :=
  let* loaded := load32 (elf + ELF_header_loaded) in
  if loaded =? 0 then ret (u64 (-1)) else
  let* n := e_phnum (elf + ELF_header) in
  ret (u64 (sizeof_Phdr * n)).

Definition elf_load_sectionheaders (elf : Z) : M mem Z :=
  let* loaded := load32 (elf + ELF_header_loaded) in
  if loaded =? 0 then ret 0 else
  let* section_headers := load64 (elf + ELF_section_headers) in
  if section_headers =? 0 then ret 0 else
  let* offset := e_shoff (elf + ELF_header) in
  let* size := e_shentsize (elf + ELF_header) in
  let* count := e_shnum (elf + ELF_header) in
  let* file := load64 (elf + ELF_file) in
  filebuffer_read_at_position section_headers offset size count file ;;
  store32 (elf + ELF_section_headers_loaded) 1 ;;
  ret 1.

Definition elf_load_programheaders (elf : Z) : M mem Z :=
  let* loaded := load32 (elf + ELF_header_loaded) in
  if loaded =? 0 then ret 0 else
  let* program_headers := load64 (elf + ELF_program_headers) in
  if program_headers =? 0 then ret 0 else
  let* offset := e_phoff (elf + ELF_header) in
  let* size := e_phentsize (elf + ELF_header) in
  let* count := e_phnum (elf + ELF_header) in
  let* file := load64 (elf + ELF_file) in
  filebuffer_read_at_position program_headers offset size count file ;;
  store32 (elf + ELF_program_headers_loaded) 1 ;;
  ret 1.

Definition elf_get_sectionsize (elf index : Z) : M mem Z :=
  let* loaded := load32 (elf + ELF_section_headers_loaded) in
  if loaded =? 0 then ret (u64 (-1)) else
  let* n := e_shnum (elf + ELF_header) in
  if (index <? 0) || (n <=? index) then ret (u64 (-1)) else
  let* section_headers := load64 (elf + ELF_section_headers) in
  sh_size (section_headers + sizeof_Shdr * index).

Definition elf_get_stringsectionsize (elf : Z) : M mem Z :=
  let* index := e_shstrndx (elf + ELF_header) in
  elf_get_sectionsize elf index.

Definition elf_get_sectionheader_byid (elf index : Z) : M mem Z :=
  let* loaded := load32 (elf + ELF_section_headers_loaded) in
  if loaded =? 0 then ret 0 else
  let* n := e_shnum (elf + ELF_header) in
  if (index <? 0) || (n <=? index) then ret 0 else
  let* section_headers := load64 (elf + ELF_section_headers) in
  ret (section_headers + sizeof_Shdr * index).

Definition elf_load_strings_section (elf : Z) : M mem Z :=
  let* loaded := load32 (elf + ELF_section_headers_loaded) in
  if loaded =? 0 then ret 0 else
  let* strings := load64 (elf + ELF_strings_section) in
  if strings =? 0 then ret 0 else
  let* index := e_shstrndx (elf + ELF_header) in
  let* strings_section := elf_get_sectionheader_byid elf index in
  let* offset := sh_offset strings_section in
  let* size := sh_size strings_section in
  store32 (elf + ELF_strings_section_loaded) 1 ;;
  let* file := load64 (elf + ELF_file) in
  filebuffer_read_at_position strings offset size 1 file ;;
  ret 1.

(** [index] is an [int]; the comparison with [sh_name] is unsigned. *)
Definition elf_get_sectionheader_bynameoffset (elf index : Z) : M mem Z :=
  let* loaded := load32 (elf + ELF_section_headers_loaded) in
  if loaded =? 0 then ret 0 else
  let* ptr := load64 (elf + ELF_section_headers) in
  let* size := e_shnum (elf + ELF_header) in
  loop (S (Z.to_nat size)) (λ '(i, ptr),
    if i <? size then
      let* name := sh_name ptr in
      if name =? u32 index then ret (inr ptr) else ret (inl (i + 1, ptr + sizeof_Shdr))
    else ret (inr 0)) (0, ptr).

(** The loop variables: [current_string_first_index], [current_char_index]. *)
Definition elf_get_sectionheader_byname (elf name : Z) : M mem Z :=
  let* loaded := load32 (elf + ELF_strings_section_loaded) in
  if loaded =? 0 then ret 0 else
  let* section_len := elf_get_stringsectionsize elf in
  mem_fuel (λ fuel, loop fuel (λ '(first, current),
    if current <? section_len then
      let* strings := load64 (elf + ELF_strings_section) in
      let* c := loadb (strings + current) in
      if negb (c =? 0) then ret (inl (first, current + 1)) else
      let current := current + 1 in
      let* d := strcmp name (strings + first) in
      if d =? 0 then
        let* res := elf_get_sectionheader_bynameoffset elf first in
        ret (inr res)
      else ret (inl (i32 current, current))
    else ret (inr 0)) (0, 0)).

Definition elf_dump_section_content (elf section ptr : Z) : M mem unit :=
  let* size := sh_size section in
  let* offset := sh_offset section in
  let* file := load64 (elf + ELF_file) in
  filebuffer_read_at_position ptr offset size 1 file.

Definition elf_get_programheader_byid (elf index : Z) : M mem Z :=
  let* loaded := load32 (elf + ELF_program_headers_loaded) in
  if loaded =? 0 then ret 0 else
  let* program_headers := load64 (elf + ELF_program_headers) in
  ret (program_headers + sizeof_Phdr * index).

Definition elf_get_programheader_count (elf : Z) : M mem Z := e_phnum (elf + ELF_header).

Definition elf_dump_program_content (elf program ptr : Z) : M mem unit :=
  let* size := p_memsz program in
  let* offset := p_offset program in
  let* file := load64 (elf + ELF_file) in
  filebuffer_read_at_position ptr offset size 1 file.

Definition elf_get_entrypoint (elf : Z) : M mem Z := e_entry (elf + ELF_header).

Definition elf_alloc_and_parse (elf : Z) : M kernel unit :=
  in_ram (elf_parseheader elf) ;;
  let* size := in_ram (elf_get_sectionheaders_bytes elf) in
  let* section_headers := kalloc size in
  in_ram (store64 (elf + ELF_section_headers) section_headers) ;;
  in_ram (elf_load_sectionheaders elf) ;;
  let* size := in_ram (elf_get_programheaders_bytes elf) in
  let* program_headers := kalloc size in
  in_ram (store64 (elf + ELF_program_headers) program_headers) ;;
  in_ram (elf_load_programheaders elf) ;;
  let* size := in_ram (elf_get_stringsectionsize elf) in
  let* strings_section := kalloc size in
  in_ram (store64 (elf + ELF_strings_section) strings_section) ;;
  in_ram (elf_load_strings_section elf) ;;
  ret tt.

Definition elf_free (elf : Z) : M kernel unit :=
  let* p := in_ram (load64 (elf + ELF_section_headers)) in
  kfree p ;;
  let* p := in_ram (load64 (elf + ELF_program_headers)) in
  kfree p ;;
  let* p := in_ram (load64 (elf + ELF_strings_section)) in
  kfree p.

(** The offsets above are those of the structs. *)
Lemma elf_layouts :
  layout_is ElfN_Ehdr [("e_entry", 24); ("e_phoff", 32); ("e_shoff", 40); ("e_phentsize", 54);
    ("e_phnum", 56); ("e_shentsize", 58); ("e_shnum", 60); ("e_shstrndx", 62)]%string sizeof_Ehdr ∧
  layout_is ElfN_Phdr [("p_offset", 8); ("p_memsz", 40)]%string sizeof_Phdr ∧
  layout_is ElfN_Shdr [("sh_name", 0); ("sh_offset", 24); ("sh_size", 32)]%string sizeof_Shdr ∧
  layout_is ELF [("file", ELF_file); ("header_loaded", ELF_header_loaded); ("header", ELF_header);
    ("section_headers_loaded", ELF_section_headers_loaded); ("section_headers", ELF_section_headers);
    ("strings_section_loaded", ELF_strings_section_loaded); ("strings_section", ELF_strings_section);
    ("program_headers_loaded", ELF_program_headers_loaded);
    ("program_headers", ELF_program_headers)]%string sizeof_ELF.
Proof. split; [check_layout|]. split; [check_layout|]. split; check_layout. Qed.

(** * Specification *)

Definition byte_range (b : Z) : Prop := 0 ≤ b < 256.

(** A table of strings: every string with its terminating NUL. *)
Definition string_table (strs : list (list Z)) : list Z := strs ≫= (λ s, s ++ [0]).

(** Where the string [name] begins in the table. *)
Fixpoint string_offset (name : list Z) (strs : list (list Z)) : option Z :=
  match strs with
  | [] => None
  | s :: strs' =>
      if decide (name = s) then Some 0
      else (λ o, o + Z.of_nat (length s) + 1) <$> string_offset name strs'
  end.

(** The first of the section headers from [ptr] on whose name has the offset [o], or NULL. *)
Fixpoint section_with_name (o : Z) (names : list Z) (ptr : Z) : Z :=
  match names with
  | [] => 0
  | n :: names' => if n =? o then ptr else section_with_name o names' (ptr + sizeof_Shdr)
  end.

(** * Lemmas *)

Lemma filebuffer_copy_spec m dest src bs :
  bytes_at m src bs → Forall byte_range bs → mapped m dest (Z.of_nat (length bs)) →
  disjoint dest (Z.of_nat (length bs)) src (Z.of_nat (length bs)) →
  filebuffer_copy (Z.of_nat (length bs)) dest src m = Ok tt (put_bytes dest bs m).
Proof.
  intros Hs Hr Hd Hdis. unfold disjoint in Hdis. apply wp_eq. unfold filebuffer_copy, mem_fuel.
  pose proof (mapped_size _ _ _ Hd) as Hsize.
  apply (wp_loop (λ '(n, d, sr) mm, ∃ i, (i ≤ length bs)%nat ∧ n = Z.of_nat (length bs - i) ∧
      d = dest + Z.of_nat i ∧ sr = src + Z.of_nat i ∧ mm = put_bytes dest (take i bs) m)
    (λ '(n, _, _), Z.to_nat n)).
  - intros [[n d] sr] mm (i & Hi & -> & -> & -> & ->).
    destruct (decide (i = length bs)) as [->|Hne].
    + rewrite (proj2 (Z.ltb_ge _ _)) by lia. apply wp_ret. by rewrite take_ge by lia.
    + rewrite (proj2 (Z.ltb_lt _ _)) by lia.
      destruct (lookup_lt_is_Some_2 bs i) as [b Hb]; [lia|]. apply wp_bind. eapply wp_loadb.
      { rewrite put_bytes_outside; [by apply (bytes_at_lookup _ _ _ _ _ Hs Hb)|rewrite length_take; lia]. }
      apply wp_bind, wp_storeb. { eapply mapped_put_bytes; [exact Hd|lia]. }
      apply wp_ret. split; [|lia]. exists (S i). split; [lia|]. split; [lia|]. split; [lia|]. split; [lia|].
      rewrite (take_S_r _ _ _ Hb), put_bytes_snoc, length_take, Nat.min_l by lia.
      rewrite u8_small; [done|]. by apply (Forall_lookup_1 _ _ _ _ Hr Hb).
  - exists 0%nat. rewrite !Z.add_0_r, Nat.sub_0_r. split; [lia|done].
  - lia.
Qed.

Lemma filebuffer_read_spec m ptr offset size count file bs :
  bytes_at m (file + offset) bs → Forall byte_range bs →
  Z.of_nat (length bs) = size * count → 0 ≤ count < 2 ^ 31 → 0 ≤ size * count < 2 ^ 64 →
  mapped m ptr (Z.of_nat (length bs)) →
  disjoint ptr (Z.of_nat (length bs)) (file + offset) (Z.of_nat (length bs)) →
  filebuffer_read_at_position ptr offset size count file m = Ok tt (put_bytes ptr bs m).
Proof.
  intros Hb Hr Hlen Hc Hsz Hm Hd. unfold filebuffer_read_at_position.
  rewrite (u64_small count) by lia. rewrite u64_small by lia. rewrite <-Hlen. by apply filebuffer_copy_spec.
Qed.

Lemma load_flag n m p v k : word_at k m p v → 0 ≤ v < 256 ^ Z.of_nat k → k = n → load_le n p m = Ok v m.
Proof. intros H Hv <-. by apply load_word_ok. Qed.

(** The section headers and the table of section names are loaded. *)
Record elf_sections (m : mem) (elf sh strtab : Z) (names : list Z) (strs : list (list Z)) : Prop := {
  es_loaded : word_at 4 m (elf + ELF_section_headers_loaded) 1;
  es_strings_loaded : word_at 4 m (elf + ELF_strings_section_loaded) 1;
  es_headers : word_at 8 m (elf + ELF_section_headers) sh;
  es_headers_range : 0 ≤ sh < 2 ^ 64;
  es_strings : word_at 8 m (elf + ELF_strings_section) strtab;
  es_strings_range : 0 ≤ strtab < 2 ^ 64;
  es_count : word_at 2 m (elf + ELF_header + 60) (Z.of_nat (length names));
  es_count_range : Z.of_nat (length names) < 65536;
  es_names i n : names !! i = Some n → word_at 4 m (sh + sizeof_Shdr * Z.of_nat i) n ∧ 0 ≤ n < 2 ^ 32;
  es_index : ∃ k, word_at 2 m (elf + ELF_header + 62) k ∧ 0 ≤ k < Z.of_nat (length names) ∧
    word_at 8 m (sh + sizeof_Shdr * k + 32) (Z.of_nat (length (string_table strs)));
  es_table : bytes_at m strtab (string_table strs);
  es_table_size : Z.of_nat (length (string_table strs)) < 2 ^ 31;
  es_chars : Forall (Forall char_ok) strs;
}.

Lemma bynameoffset_spec m elf sh strtab names strs o : elf_sections m elf sh strtab names strs →
  0 ≤ o < 2 ^ 31 →
  elf_get_sectionheader_bynameoffset elf o m = Ok (section_with_name o names sh) m.
Proof.
  intros [] Ho. unfold elf_get_sectionheader_bynameoffset.
  rewrite (bind_ok _ _ _ _ _ (load_word_ok 4 m _ _ es_loaded0 ltac:(lia))). simpl (1 =? 0). cbv iota.
  rewrite (bind_ok _ _ _ _ _ (load_word_ok 8 m _ _ es_headers0 ltac:(lia))).
  assert (e_shnum (elf + ELF_header) m = Ok (Z.of_nat (length names)) m) as Hn.
  { apply (load_word_ok 2); [exact es_count0|lia]. }
  rewrite (bind_ok _ _ _ _ _ Hn), Nat2Z.id. apply wp_eq.
  apply (wp_loop (λ '(i, ptr) mm, mm = m ∧ ∃ k, (k ≤ length names)%nat ∧ i = Z.of_nat k ∧
      ptr = sh + sizeof_Shdr * i ∧ section_with_name o names sh = section_with_name o (drop k names) ptr)
    (λ '(i, _), Z.to_nat (Z.of_nat (length names) - i))).
  - intros [i ptr] mm (-> & k & Hk & -> & -> & Heq). destruct (decide (k = length names)) as [->|Hne].
    + rewrite (proj2 (Z.ltb_ge _ _)) by lia. apply wp_ret. split; [|done]. by rewrite Heq, drop_ge.
    + rewrite (proj2 (Z.ltb_lt _ _)) by lia.
      destruct (lookup_lt_is_Some_2 names k) as [n Hkn]; [lia|]. destruct (es_names0 k n Hkn) as [Hw Hr].
      apply wp_bind, (wp_load_word 4 m _ n); [exact Hw|exact Hr|].
      rewrite (drop_S _ _ _ Hkn) in Heq. cbn [section_with_name] in Heq. rewrite u32_small by lia.
      destruct (n =? o); apply wp_ret; [done|]. split; [|lia]. split; [done|]. exists (S k).
      split; [lia|]. split; [lia|]. split; [lia|]. exact Heq.
  - split; [done|]. exists 0%nat. split; [lia|]. split; [done|]. split; [lia|done].
  - lia.
Qed.

Lemma string_table_app l1 l2 : string_table (l1 ++ l2) = string_table l1 ++ string_table l2.
Proof. apply bind_app. Qed.

Lemma string_offset_app name l1 l2 : name ∉ l1 →
  string_offset name (l1 ++ l2) = (λ o, o + Z.of_nat (length (string_table l1))) <$> string_offset name l2.
Proof.
  induction l1 as [|s l1 IH]; simpl; intros Hn.
  - destruct (string_offset name l2); simpl; [|done]. f_equal. lia.
  - rewrite not_elem_of_cons in Hn. rewrite decide_False by tauto. rewrite IH by tauto.
    destruct (string_offset name l2); simpl; [|done]. f_equal.
    unfold string_table in *. cbn [mbind list_bind]. rewrite !length_app. simpl. lia.
Qed.

(** The string behind [pre] in the table. *)
Lemma table_cstr m strtab pre s post : bytes_at m strtab (string_table (pre ++ s :: post)) →
  Forall char_ok s → cstr m (strtab + Z.of_nat (length (string_table pre))) s.
Proof.
  intros Hb Hs. rewrite string_table_app in Hb. apply bytes_at_app in Hb as [_ Hb].
  split; [|done]. unfold string_table in Hb. cbn [mbind list_bind] in Hb.
  by apply bytes_at_app in Hb as [Hb _].
Qed.

Lemma stringsectionsize_spec m elf sh strtab names strs : elf_sections m elf sh strtab names strs →
  elf_get_stringsectionsize elf m = Ok (Z.of_nat (length (string_table strs))) m.
Proof.
  intros []. destruct es_index0 as (k & Hk & Hkr & Hsz). unfold elf_get_stringsectionsize.
  assert (e_shstrndx (elf + ELF_header) m = Ok k m) as Hi by (apply (load_word_ok 2); [exact Hk|lia]).
  rewrite (bind_ok _ _ _ _ _ Hi). unfold elf_get_sectionsize.
  rewrite (bind_ok _ _ _ _ _ (load_word_ok 4 m _ _ es_loaded0 ltac:(lia))). simpl (1 =? 0). cbv iota.
  assert (e_shnum (elf + ELF_header) m = Ok (Z.of_nat (length names)) m) as Hn
    by (apply (load_word_ok 2); [exact es_count0|lia]).
  rewrite (bind_ok _ _ _ _ _ Hn).
  rewrite (proj2 (Z.ltb_ge _ _)), (proj2 (Z.leb_gt _ _)) by lia. cbv beta iota delta [orb].
  rewrite (bind_ok _ _ _ _ _ (load_word_ok 8 m _ _ es_headers0 ltac:(lia))).
  apply (load_word_ok 8); [exact Hsz|lia].
Qed.

(** The table at the end of the string that begins behind [pre]. *)
Lemma table_length pre s post :
  length (string_table (pre ++ s :: post)) =
  (length (string_table pre) + length s + 1 + length (string_table post))%nat.
Proof.
  rewrite string_table_app, length_app. unfold string_table at 2. cbn [mbind list_bind].
  fold (string_table post). rewrite !length_app. simpl. unfold string_table. lia.
Qed.

(** The result of the search when the strings of [pre] are not [name]. *)
Definition found_section (name : list Z) (strs : list (list Z)) (names : list Z) (sh : Z) : Z :=
  match string_offset name strs with Some o => section_with_name o names sh | None => 0 end.

Lemma str_eq_diff name s : Forall char_ok name → Forall char_ok s → (str_diff name s =? 0) = bool_decide (name = s).
Proof.
  intros H1 H2. pose proof (str_diff_0 name s H1 H2). case_bool_decide; [apply Z.eqb_eq|apply Z.eqb_neq]; tauto.
Qed.

(** [elf_get_sectionheader_byname] walks the strings of the section name table from its start
    and, at the first one equal to [name], returns the first section header whose [sh_name] is
    the offset of that string, and NULL when no string of the table is [name]. *)
Theorem elf_byname_finds m elf sh strtab names strs np name :
  elf_sections m elf sh strtab names strs → cstr m np name →
  elf_get_sectionheader_byname elf np m = Ok (found_section name strs names sh) m.
Proof.
  intros Hes Hname. pose proof Hes as []. unfold elf_get_sectionheader_byname.
  rewrite (bind_ok _ _ _ _ _ (load_word_ok 4 m _ _ es_strings_loaded0 ltac:(lia))). simpl (1 =? 0). cbv iota.
  rewrite (bind_ok _ _ _ _ _ (stringsectionsize_spec _ _ _ _ _ _ Hes)). unfold mem_fuel.
  set (len := Z.of_nat (length (string_table strs))) in *. apply wp_eq.
  apply (wp_loop (λ '(first, current) mm, mm = m ∧ ∃ pre post i, strs = pre ++ post ∧ (name ∉ pre) ∧
      first = Z.of_nat (length (string_table pre)) ∧ current = first + Z.of_nat i ∧
      (i ≤ length (default [] (head post)))%nat)
    (λ '(_, current), Z.to_nat (len - current))).
  - intros [first current] mm (-> & pre & post & i & Hstrs & Hpre & -> & -> & Hi).
    destruct post as [|s post].
    { simpl in Hi. rewrite app_nil_r in Hstrs. subst pre. assert (i = 0)%nat as -> by lia.
      rewrite (proj2 (Z.ltb_ge _ _)) by (unfold len; lia). apply wp_ret. split; [|done].
      unfold found_section. rewrite <-(app_nil_r strs), string_offset_app by done. done. }
    simpl in Hi. pose proof (table_length pre s post) as Htl. rewrite <-Hstrs in Htl.
    rewrite (proj2 (Z.ltb_lt _ _)) by (unfold len; lia).
    apply wp_bind, (wp_load_word 8 m _ strtab); [exact es_strings0|lia|].
    assert (Forall char_ok s) as Hs.
    { rewrite Hstrs in es_chars0. by apply Forall_app in es_chars0 as [_ [? _]%Forall_cons]. }
    pose proof es_table0 as Htab. rewrite Hstrs in Htab.
    pose proof (table_cstr m strtab pre s post Htab Hs) as Hcs.
    replace (strtab + (Z.of_nat (length (string_table pre)) + Z.of_nat i)) with
      (strtab + Z.of_nat (length (string_table pre)) + Z.of_nat i) by lia.
    apply wp_bind. destruct (cstr_scan _ _ _ i Hcs Hi) as [(b & Hb & Hmb & Hrb)|[-> Hmb]].
    + eapply wp_loadb; [exact Hmb|]. rewrite (proj2 (Z.eqb_neq b 0)) by lia. simpl (negb _). cbv iota.
      apply lookup_lt_Some in Hb as ?. apply wp_ret. split; [|unfold len; lia].
      split; [done|]. exists pre, (s :: post), (S i). simpl. repeat (split; [done || lia|]). lia.
    + eapply wp_loadb; [exact Hmb|]. simpl (negb _). cbv iota. apply wp_bind.
      eapply wp_intro; [apply (strcmp_spec m np _ name s Hname Hcs)|].
      rewrite str_eq_diff by (done || apply Hname). case_bool_decide as Heq.
      * apply wp_bind. eapply wp_intro; [apply (bynameoffset_spec m elf sh strtab names strs _ Hes); lia|].
        apply wp_ret. split; [|done]. unfold found_section. rewrite Hstrs, string_offset_app by done.
        simpl. by rewrite decide_True by done.
      * apply wp_ret. split; [|unfold len; lia]. split; [done|].
        exists (pre ++ [s]), post, 0%nat. rewrite <-app_assoc. split; [done|].
        split; [rewrite elem_of_app, list_elem_of_singleton; tauto|].
        rewrite table_length. split.
        { rewrite i32_small by (unfold INT_MIN, INT_MAX; lia). change (length (string_table [])) with 0%nat. lia. }
        change (length (string_table [])) with 0%nat. split; [|lia]. unfold INT_MIN, INT_MAX in *.
        rewrite i32_small by (unfold INT_MIN, INT_MAX; lia). lia.
  - split; [done|]. exists [], strs, 0%nat. repeat (split; [done || set_solver|]). lia.
  - pose proof (bytes_at_size _ _ _ es_table0). unfold len. lia.
Qed.

(** [elf_parseheader] copies the 64 bytes of the header from the file and accepts it exactly when
    the first byte is 0x7f; only then is the header marked as loaded. *)
Theorem elf_parseheader_checks m elf file hdr :
  word_at 8 m (elf + ELF_file) file → 0 ≤ file < 2 ^ 64 →
  bytes_at m file hdr → length hdr = 64%nat → Forall byte_range hdr →
  mapped m elf sizeof_ELF → disjoint (elf + ELF_header) 64 file 64 →
  let m1 := put_bytes (elf + ELF_header) hdr m in
  elf_parseheader elf m =
    if decide (hdr !! 0%nat = Some ELF_MAGIC_NUMBER)
    then Ok 1 (put_bytes (elf + ELF_header_loaded) (le_bytes 4 1) m1) else Ok 0 m1.
Proof.
  intros Hfile Hfr Hb Hlen Hr Hm Hdis m1. unfold elf_parseheader.
  rewrite (bind_ok _ _ _ _ _ (load_word_ok 8 m _ _ Hfile Hfr)).
  assert (mapped m (elf + ELF_header) 64) as Hmh
    by (eapply mapped_weaken; [exact Hm|unfold ELF_header; lia|unfold ELF_header, sizeof_ELF; lia]).
  assert (filebuffer_read_at_position (elf + ELF_header) 0 sizeof_Ehdr 1 file m = Ok tt m1) as Hread.
  { apply filebuffer_read_spec; rewrite ?Hlen, ?Z.add_0_r; try done; unfold sizeof_Ehdr; lia. }
  rewrite (bind_ok _ _ _ _ _ Hread).
  destruct hdr as [|h hdr]; [discriminate|].
  assert (loadb (elf + ELF_header) m1 = Ok h m1) as Hmagic.
  { apply loadb_ok. unfold m1. rewrite put_bytes_cons. apply lookup_insert_eq. }
  rewrite (bind_ok _ _ _ _ _ Hmagic). simpl (_ !! 0%nat).
  case_decide as Hh; [injection Hh as ->|]; [|by rewrite (proj2 (Z.eqb_neq _ _)) by congruence].
  rewrite Z.eqb_refl. unfold negb, store32.
  assert (mapped m1 (elf + ELF_header_loaded) 4) as Hml.
  { apply mapped_put_bytes. eapply mapped_weaken; [exact Hm|unfold ELF_header_loaded; lia|].
    unfold ELF_header_loaded, sizeof_ELF. lia. }
  by rewrite (bind_ok _ _ _ _ _ (store_le_ok m1 4 _ 1 Hml)).
Qed.

(** [elf_dump_program_content] copies [p_memsz] bytes of the file from [p_offset] on, whatever the
    size [p_filesz] of the segment in the file: what follows the segment in the file takes the
    place of the zeros of its uninitialised data. *)
Theorem elf_dump_copies m elf file program offset ptr bs :
  word_at 8 m (elf + ELF_file) file → 0 ≤ file < 2 ^ 64 →
  word_at 8 m (program + 8) offset → 0 ≤ offset < 2 ^ 64 →
  word_at 8 m (program + 40) (Z.of_nat (length bs)) → Z.of_nat (length bs) < 2 ^ 64 →
  bytes_at m (file + offset) bs → Forall byte_range bs → mapped m ptr (Z.of_nat (length bs)) →
  disjoint ptr (Z.of_nat (length bs)) (file + offset) (Z.of_nat (length bs)) →
  elf_dump_program_content elf program ptr m = Ok tt (put_bytes ptr bs m).
Proof.
  intros Hfile Hfr Hoff Hor Hsz Hszr Hb Hr Hm Hd. unfold elf_dump_program_content.
  rewrite (bind_ok _ _ _ _ _ (load_word_ok 8 m _ _ Hsz ltac:(lia))).
  rewrite (bind_ok _ _ _ _ _ (load_word_ok 8 m _ _ Hoff Hor)).
  rewrite (bind_ok _ _ _ _ _ (load_word_ok 8 m _ _ Hfile Hfr)).
  apply filebuffer_read_spec; try done; lia.
Qed.

(** * Witnesses *)

(** An [ELF] at 1000, two section headers at 2000, the section names at 3000. *)
Definition demo_elf_mem : mem :=
  put_bytes 1076 (le_bytes 4 1) $ put_bytes 1080 (le_bytes 8 2000) $ put_bytes 1088 (le_bytes 4 1) $
  put_bytes 1096 (le_bytes 8 3000) $ put_bytes 1072 (le_bytes 2 2) $ put_bytes 1074 (le_bytes 2 0) $
  put_bytes 2000 (le_bytes 4 0) $ put_bytes 2032 (le_bytes 8 7) $ put_bytes 2064 (le_bytes 4 1) $
  put_bytes 3000 (string_table [[]; chars ".text"]) $ put_bytes 4000 (chars ".text" ++ [0]) ∅.

Lemma demo_elf : elf_sections demo_elf_mem 1000 2000 3000 [0; 1] [[]; chars ".text"].
Proof.
  split; try lia; try (apply bytes_at_check; vm_compute; reflexivity).
  - done.
  - intros i n Hi. destruct i as [|[|i]]; [| |done]; injection Hi as <-;
      (split; [apply bytes_at_check; vm_compute; reflexivity|lia]).
  - exists 0. split; [apply bytes_at_check; vm_compute; reflexivity|].
    split; [simpl; lia|apply bytes_at_check; vm_compute; reflexivity].
  - done.
  - by repeat constructor.
Qed.

Lemma elf_byname_finds_witness : elf_get_sectionheader_byname 1000 4000 demo_elf_mem = Ok 2064 demo_elf_mem.
Proof.
  apply (elf_byname_finds demo_elf_mem 1000 2000 3000 [0; 1] [[]; chars ".text"] 4000 (chars ".text") demo_elf).
  split; [apply bytes_at_check; vm_compute; reflexivity|by repeat constructor].
Defined.

Definition demo_file_mem : mem :=
  put_bytes 1000 (le_bytes 8 2000) $ put_bytes 1008 (replicate 112 0) $
  put_bytes 2000 (0x7f :: replicate 63 1) $ put_bytes 3008 (le_bytes 8 16) $
  put_bytes 3040 (le_bytes 8 4) $ put_bytes 4000 (replicate 4 9) ∅.

Lemma elf_parseheader_checks_witness :
  elf_parseheader 1000 demo_file_mem = Ok 1 (put_bytes 1008 (le_bytes 4 1)
    (put_bytes 1012 (0x7f :: replicate 63 1) demo_file_mem)).
Proof.
  apply (elf_parseheader_checks demo_file_mem 1000 2000 (0x7f :: replicate 63 1)).
  - apply bytes_at_check; vm_compute; reflexivity.
  - lia.
  - apply bytes_at_check; vm_compute; reflexivity.
  - reflexivity.
  - apply Forall_cons. split; [unfold byte_range; lia|]. apply Forall_replicate. unfold byte_range; lia.
  - intros a Ha. unfold sizeof_ELF in Ha. unfold demo_file_mem.
    destruct (decide (a < 1008)).
    + apply (mapped_put_self _ 1000 8); [done|lia].
    + apply (mapped_put_bytes _ 1008 112); [|lia]. by apply mapped_put_self.
  - left. unfold ELF_header. lia.
Defined.

Lemma elf_dump_copies_witness :
  elf_dump_program_content 1000 3000 4000 demo_file_mem = Ok tt (put_bytes 4000 [1; 1; 1; 1] demo_file_mem).
Proof.
  apply (elf_dump_copies demo_file_mem 1000 2000 3000 16 4000 [1; 1; 1; 1]).
  - apply bytes_at_check; vm_compute; reflexivity.
  - lia.
  - apply bytes_at_check; vm_compute; reflexivity.
  - lia.
  - apply bytes_at_check; vm_compute; reflexivity.
  - simpl. lia.
  - apply bytes_at_check; vm_compute; reflexivity.
  - repeat (apply Forall_cons; split; [unfold byte_range; lia|]). by apply Forall_nil.
  - unfold demo_file_mem. do 5 apply mapped_put_bytes. by apply mapped_put_self.
  - right. simpl. lia.
Defined.
