(* ===== verification/ElfLoad.v ===== *)
(** * Parsing a program file (kernel/elf/elf.c: elf_alloc_and_parse)

    [elf_alloc_and_parse] copies the header of the file into the [ELF] struct and the tables of
    sections and of segments and the names of the sections into memory of the heap, through the
    interface [HeapRegions]. *)
From stdpp Require Import base list gmap.
From Stdlib Require Import ZArith Lia.
From S2P Require Import Prelude Memory CString Heap Machine Log Gic Kernel HeapRegions Elf.

(** ** Specification *)

(** The number at [off] in a list of bytes. *)
Definition field (img : list Z) (off n : nat) (v : Z) : Prop := take n (drop off img) = le_bytes n v.
Definition slice (img : list Z) (off len : Z) : list Z := take (Z.to_nat len) (drop (Z.to_nat off) img).

(** What the kernel uses of the header of a file. *)
Record elf_header : Type := mk_elf_header {
  h_entry : Z; h_phoff : Z; h_shoff : Z; h_phnum : Z; h_shnum : Z; h_shstrndx : Z;
  h_stroff : Z; h_strsize : Z;     (* of the section with the names *)
}.

(** A well-formed file. *)
Record elf_image (img : list Z) (h : elf_header) : Prop := {
  ei_bytes : Forall byte_range img;
  ei_header : (64 ≤ length img)%nat;
  ei_magic : img !! 0%nat = Some ELF_MAGIC_NUMBER;
  ei_entry : field img 24 8 (h_entry h);
  ei_phoff : field img 32 8 (h_phoff h);
  ei_shoff : field img 40 8 (h_shoff h);
  ei_phentsize : field img 54 2 sizeof_Phdr;
  ei_phnum : field img 56 2 (h_phnum h);
  ei_shentsize : field img 58 2 sizeof_Shdr;
  ei_shnum : field img 60 2 (h_shnum h);
  ei_shstrndx : field img 62 2 (h_shstrndx h);
  ei_counts : 0 < h_phnum h < 2 ^ 16 ∧ 0 ≤ h_shstrndx h < h_shnum h ∧ h_shnum h < 2 ^ 16;
  ei_tables : 0 ≤ h_phoff h ∧ h_phoff h + sizeof_Phdr * h_phnum h ≤ Z.of_nat (length img) ∧
    0 ≤ h_shoff h ∧ h_shoff h + sizeof_Shdr * h_shnum h ≤ Z.of_nat (length img);
  ei_stroff : field img (Z.to_nat (h_shoff h + sizeof_Shdr * h_shstrndx h + 24)) 8 (h_stroff h);
  ei_strsize : field img (Z.to_nat (h_shoff h + sizeof_Shdr * h_shstrndx h + 32)) 8 (h_strsize h);
  ei_strings : 0 ≤ h_stroff h ∧ 0 < h_strsize h ∧ h_stroff h + h_strsize h ≤ Z.of_nat (length img);
  ei_entry_range : 0 ≤ h_entry h < 2 ^ 64;
  ei_size : Z.of_nat (length img) < 2 ^ 63;
}.

(** The fields of an [ELF] struct. *)
Record elf_fields : Type := mk_elf_fields {
  f_file : Z; f_header : list Z; f_sections_loaded : Z; f_sections : Z;
  f_strings_loaded : Z; f_strings : Z; f_programs_loaded : Z; f_programs : Z;
}.

Record elf_struct (m : mem) (elf : Z) (f : elf_fields) : Prop := {
  st_file : word_at 8 m (elf + ELF_file) (f_file f);
  st_header_loaded : word_at 4 m (elf + ELF_header_loaded) 1;
  st_header : bytes_at m (elf + ELF_header) (f_header f);
  st_sections_loaded : word_at 4 m (elf + ELF_section_headers_loaded) (f_sections_loaded f);
  st_sections : word_at 8 m (elf + ELF_section_headers) (f_sections f);
  st_strings_loaded : word_at 4 m (elf + ELF_strings_section_loaded) (f_strings_loaded f);
  st_strings : word_at 8 m (elf + ELF_strings_section) (f_strings f);
  st_programs_loaded : word_at 4 m (elf + ELF_program_headers_loaded) (f_programs_loaded f);
  st_programs : word_at 8 m (elf + ELF_program_headers) (f_programs f);
}.

(** * Lemmas *)

Lemma length_slice img off len : 0 ≤ off → 0 ≤ len → off + len ≤ Z.of_nat (length img) →
  Z.of_nat (length (slice img off len)) = len.
Proof. intros Ho Hl Hin. unfold slice. rewrite length_take, length_drop. lia. Qed.

Lemma slice_at m p img off len : bytes_at m p img → 0 ≤ off → 0 ≤ len → off + len ≤ Z.of_nat (length img) →
  bytes_at m (p + off) (slice img off len).
Proof.
  intros Hb Ho Hl Hin i b. unfold slice. intros Hi. apply lookup_take_Some in Hi as [Hi _].
  rewrite lookup_drop in Hi. apply Hb in Hi. replace (p + off + Z.of_nat i) with (p + Z.of_nat (Z.to_nat off + i)) by lia. done.
Qed.

Lemma slice_range img off len : Forall byte_range img → Forall byte_range (slice img off len).
Proof. intros H. by apply Forall_take, Forall_drop. Qed.

Lemma field_at m p img off n v : bytes_at m p img → field img off n v → word_at n m (p + Z.of_nat off) v.
Proof.
  unfold word_at, field. intros Hb <- i b Hi. apply lookup_take_Some in Hi as [Hi _].
  rewrite lookup_drop in Hi. apply Hb in Hi. replace (p + Z.of_nat off + Z.of_nat i) with (p + Z.of_nat (off + i)) by lia. done.
Qed.

(** A field of a copied part of the file. *)
Lemma field_slice img base len off n v : 0 ≤ base → Z.of_nat off + Z.of_nat n ≤ len →
  field img (Z.to_nat (base + Z.of_nat off)) n v → field (slice img base len) off n v.
Proof.
  unfold field, slice. intros Hb Hin <-. rewrite skipn_firstn_comm, take_take, drop_drop. f_equal; [lia|]. f_equal. lia.
Qed.

Ltac elf_offsets := unfold ELF_file, ELF_header_loaded, ELF_header, ELF_section_headers_loaded, ELF_section_headers,
  ELF_strings_section_loaded, ELF_strings_section, ELF_program_headers_loaded, ELF_program_headers, sizeof_ELF in *.

Lemma elf_struct_agree m m' elf f : elf_struct m elf f → length (f_header f) = 64%nat →
  (∀ a, elf ≤ a < elf + sizeof_ELF → m' !! a = m !! a) → elf_struct m' elf f.
Proof.
  intros [] Hlen Hag. elf_offsets.
  split; (eapply bytes_at_agree; [eassumption|]); intros a Ha; rewrite ?length_le_bytes, ?Hlen in Ha; apply Hag; elf_offsets; lia.
Qed.

(** Stores to the fields. *)
Definition set_sections (v : Z) (f : elf_fields) : elf_fields :=
  mk_elf_fields (f_file f) (f_header f) (f_sections_loaded f) v (f_strings_loaded f) (f_strings f) (f_programs_loaded f) (f_programs f).
Definition set_sections_loaded (v : Z) (f : elf_fields) : elf_fields :=
  mk_elf_fields (f_file f) (f_header f) v (f_sections f) (f_strings_loaded f) (f_strings f) (f_programs_loaded f) (f_programs f).
Definition set_strings (v : Z) (f : elf_fields) : elf_fields :=
  mk_elf_fields (f_file f) (f_header f) (f_sections_loaded f) (f_sections f) (f_strings_loaded f) v (f_programs_loaded f) (f_programs f).
Definition set_strings_loaded (v : Z) (f : elf_fields) : elf_fields :=
  mk_elf_fields (f_file f) (f_header f) (f_sections_loaded f) (f_sections f) v (f_strings f) (f_programs_loaded f) (f_programs f).
Definition set_programs (v : Z) (f : elf_fields) : elf_fields :=
  mk_elf_fields (f_file f) (f_header f) (f_sections_loaded f) (f_sections f) (f_strings_loaded f) (f_strings f) (f_programs_loaded f) v.
Definition set_programs_loaded (v : Z) (f : elf_fields) : elf_fields :=
  mk_elf_fields (f_file f) (f_header f) (f_sections_loaded f) (f_sections f) (f_strings_loaded f) (f_strings f) v (f_programs f).

Ltac store_field Hlen :=
  split; unfold word_at in *;
  cbn [f_file f_header f_sections_loaded f_sections f_strings_loaded f_strings f_programs_loaded f_programs
    set_sections set_sections_loaded set_strings set_strings_loaded set_programs set_programs_loaded];
  first [apply bytes_at_put | apply bytes_at_put_ne; [eassumption|]];
  rewrite ?length_le_bytes, ?Hlen; elf_offsets; lia.

Section stores.
Context (m : mem) (elf : Z) (f : elf_fields) (v : Z) (Hf : elf_struct m elf f) (Hlen : length (f_header f) = 64%nat).

Lemma store_sections : elf_struct (put_bytes (elf + ELF_section_headers) (le_bytes 8 v) m) elf (set_sections v f).
Proof. destruct Hf. store_field Hlen. Qed.
Lemma store_sections_loaded : elf_struct (put_bytes (elf + ELF_section_headers_loaded) (le_bytes 4 v) m) elf (set_sections_loaded v f).
Proof. destruct Hf. store_field Hlen. Qed.
Lemma store_strings : elf_struct (put_bytes (elf + ELF_strings_section) (le_bytes 8 v) m) elf (set_strings v f).
Proof. destruct Hf. store_field Hlen. Qed.
Lemma store_strings_loaded : elf_struct (put_bytes (elf + ELF_strings_section_loaded) (le_bytes 4 v) m) elf (set_strings_loaded v f).
Proof. destruct Hf. store_field Hlen. Qed.
Lemma store_programs : elf_struct (put_bytes (elf + ELF_program_headers) (le_bytes 8 v) m) elf (set_programs v f).
Proof. destruct Hf. store_field Hlen. Qed.
Lemma store_programs_loaded : elf_struct (put_bytes (elf + ELF_program_headers_loaded) (le_bytes 4 v) m) elf (set_programs_loaded v f).
Proof. destruct Hf. store_field Hlen. Qed.
End stores.

(** ** The three loads *)

(** The struct with its header copied, the file and the struct apart. *)
Record parsing (m : mem) (elf : Z) (f : elf_fields) (img : list Z) (h : elf_header) : Prop := {
  pg_struct : elf_struct m elf f;
  pg_header : f_header f = slice img 0 64;
  pg_file : bytes_at m (f_file f) img;
  pg_image : elf_image img h;
  pg_range : 0 ≤ f_file f ∧ f_file f + Z.of_nat (length img) ≤ 2 ^ 63;
  pg_mapped : mapped m elf sizeof_ELF;
  pg_apart : disjoint elf sizeof_ELF (f_file f) (Z.of_nat (length img));
}.

Lemma header_length m elf f img h : parsing m elf f img h → length (f_header f) = 64%nat.
Proof.
  intros Hp. rewrite (pg_header _ _ _ _ _ Hp). pose proof (ei_header _ _ (pg_image _ _ _ _ _ Hp)).
  pose proof (length_slice img 0 64). lia.
Qed.

Lemma parsing_within m m' elf f f' img h : parsing m elf f img h → elf_struct m' elf f' →
  f_file f' = f_file f → f_header f' = f_header f → (∀ a, ¬ (elf ≤ a < elf + sizeof_ELF) → m' !! a = m !! a) →
  (∀ a, is_Some (m !! a) → is_Some (m' !! a)) → parsing m' elf f' img h.
Proof.
  intros [] Hst Ef Eh Hag Hdom. unfold disjoint in *. split; rewrite ?Ef, ?Eh; try done.
  - eapply bytes_at_agree; [done|]. intros a Ha. apply Hag. lia.
  - intros a Ha. by apply Hdom, pg_mapped0.
Qed.

Lemma parsing_outside m m' elf f img h : parsing m elf f img h →
  (∀ a, elf ≤ a < elf + sizeof_ELF ∨ f_file f ≤ a < f_file f + Z.of_nat (length img) → m' !! a = m !! a) → parsing m' elf f img h.
Proof.
  intros Hp Hag. pose proof (header_length _ _ _ _ _ Hp) as Hlen. destruct Hp. split; try done.
  - eapply elf_struct_agree; [done|done|]. intros a Ha. apply Hag. by left.
  - eapply bytes_at_agree; [done|]. intros a Ha. apply Hag. by right.
  - intros a Ha. rewrite Hag by (by left). by apply pg_mapped0.
Qed.

Lemma put_bytes_dom p bs m a : is_Some (m !! a) → is_Some (put_bytes p bs m !! a).
Proof. intros Hs. rewrite put_bytes_lookup. case_decide; [|done]. rewrite fmap_is_Some. apply lookup_lt_is_Some. lia. Qed.

(** A word of the header. *)
Lemma header_word m elf f img h off n v : parsing m elf f img h → Z.of_nat off + Z.of_nat n ≤ 64 → field img off n v →
  0 ≤ v < 256 ^ Z.of_nat n → load_le n (elf + ELF_header + Z.of_nat off) m = Ok v m.
Proof.
  intros Hp Hin Hf Hv. apply load_word_ok; [|done]. apply (field_at m _ (f_header f)); [apply Hp|].
  rewrite (pg_header _ _ _ _ _ Hp). apply field_slice; [lia|lia|]. by replace (Z.to_nat (0 + Z.of_nat off)) with off by lia.
Qed.

(** A part of the file copied to [p]. *)
Lemma copy_slice m elf f img h p off size count : parsing m elf f img h →
  0 ≤ off → 0 ≤ size → 0 ≤ count < 2 ^ 31 → off + size * count ≤ Z.of_nat (length img) →
  mapped m p (size * count) → disjoint p (size * count) (f_file f) (Z.of_nat (length img)) →
  filebuffer_read_at_position p off size count (f_file f) m = Ok tt (put_bytes p (slice img off (size * count)) m).
Proof.
  intros Hp Ho Hs Hc Hin Hm Hd. pose proof (ei_size _ _ (pg_image _ _ _ _ _ Hp)).
  assert (Z.of_nat (length (slice img off (size * count))) = size * count) as Hlen by (apply length_slice; lia).
  apply filebuffer_read_spec; rewrite ?Hlen; try done; try lia.
  - apply slice_at; [apply Hp|lia..].
  - apply slice_range, (ei_bytes _ _ (pg_image _ _ _ _ _ Hp)).
  - unfold disjoint in *. lia.
Qed.

(** A new table at [p], or none. *)
Definition room_for (m : mem) (elf : Z) (f : elf_fields) (img : list Z) (p n : Z) : Prop :=
  p ≠ 0 → mapped m p n ∧ disjoint p n (f_file f) (Z.of_nat (length img)) ∧ disjoint p n elf sizeof_ELF.

Lemma store_flag m elf o n v : mapped m elf sizeof_ELF → 0 ≤ o → o + Z.of_nat n ≤ sizeof_ELF →
  store_le n (elf + o) v m = Ok tt (put_bytes (elf + o) (le_bytes n v) m).
Proof. intros Hm Ho Hn. apply store_le_ok. eapply mapped_weaken; [exact Hm|lia|lia]. Qed.

Lemma load_sections_spec m elf f img h (n := sizeof_Shdr * h_shnum h) : parsing m elf f img h →
  0 ≤ f_sections f < 2 ^ 64 → room_for m elf f img (f_sections f) n →
  elf_load_sectionheaders elf m = if f_sections f =? 0 then Ok 0 m else
    Ok 1 (put_bytes (elf + ELF_section_headers_loaded) (le_bytes 4 1) (put_bytes (f_sections f) (slice img (h_shoff h) n) m)).
Proof.
  intros Hp Hr Hroom. pose proof Hp as [Hst _ _ Himg Hrange Hmap _]. pose proof (ei_counts _ _ Himg). pose proof (ei_tables _ _ Himg) as Ht.
  unfold sizeof_Shdr, sizeof_Phdr in *. unfold elf_load_sectionheaders.
  rewrite (bind_ok _ _ _ _ _ (load_word_ok 4 m _ _ (st_header_loaded _ _ _ Hst) ltac:(lia))). change (1 =? 0) with false. cbv iota.
  rewrite (bind_ok _ _ _ _ _ (load_word_ok 8 m _ _ (st_sections _ _ _ Hst) Hr)).
  destruct (Z.eqb_spec (f_sections f) 0) as [E|Hne]; [done|]. destruct (Hroom Hne) as (Hm & Hd & He). pose proof (ei_size _ _ Himg).
  rewrite (bind_ok _ _ _ _ _ (header_word m elf f img h 40 8 _ Hp ltac:(lia) (ei_shoff _ _ Himg) ltac:(lia))).
  rewrite (bind_ok _ _ _ _ _ (header_word m elf f img h 58 2 _ Hp ltac:(lia) (ei_shentsize _ _ Himg) ltac:(unfold sizeof_Shdr; lia))).
  rewrite (bind_ok _ _ _ _ _ (header_word m elf f img h 60 2 _ Hp ltac:(lia) (ei_shnum _ _ Himg) ltac:(lia))).
  rewrite (bind_ok _ _ _ _ _ (load_word_ok 8 m _ _ (st_file _ _ _ Hst) ltac:(lia))).
  rewrite (bind_ok _ _ _ _ _ (copy_slice m elf f img h (f_sections f) (h_shoff h) 64 (h_shnum h) Hp ltac:(lia) ltac:(lia) ltac:(lia) ltac:(lia) Hm Hd)).
  by rewrite (bind_ok _ _ _ _ _ (store_flag (put_bytes _ _ m) elf ELF_section_headers_loaded 4 1 (mapped_put_bytes _ _ _ _ _ Hmap) ltac:(elf_offsets; lia) ltac:(elf_offsets; lia))).
Qed.

Lemma load_programs_spec m elf f img h (n := sizeof_Phdr * h_phnum h) : parsing m elf f img h →
  0 ≤ f_programs f < 2 ^ 64 → room_for m elf f img (f_programs f) n →
  elf_load_programheaders elf m = if f_programs f =? 0 then Ok 0 m else
    Ok 1 (put_bytes (elf + ELF_program_headers_loaded) (le_bytes 4 1) (put_bytes (f_programs f) (slice img (h_phoff h) n) m)).
Proof.
  intros Hp Hr Hroom. pose proof Hp as [Hst _ _ Himg Hrange Hmap _]. pose proof (ei_counts _ _ Himg). pose proof (ei_tables _ _ Himg) as Ht.
  unfold sizeof_Shdr, sizeof_Phdr in *. unfold elf_load_programheaders.
  rewrite (bind_ok _ _ _ _ _ (load_word_ok 4 m _ _ (st_header_loaded _ _ _ Hst) ltac:(lia))). change (1 =? 0) with false. cbv iota.
  rewrite (bind_ok _ _ _ _ _ (load_word_ok 8 m _ _ (st_programs _ _ _ Hst) Hr)).
  destruct (Z.eqb_spec (f_programs f) 0) as [E|Hne]; [done|]. destruct (Hroom Hne) as (Hm & Hd & He). pose proof (ei_size _ _ Himg).
  rewrite (bind_ok _ _ _ _ _ (header_word m elf f img h 32 8 _ Hp ltac:(lia) (ei_phoff _ _ Himg) ltac:(lia))).
  rewrite (bind_ok _ _ _ _ _ (header_word m elf f img h 54 2 _ Hp ltac:(lia) (ei_phentsize _ _ Himg) ltac:(unfold sizeof_Phdr; lia))).
  rewrite (bind_ok _ _ _ _ _ (header_word m elf f img h 56 2 _ Hp ltac:(lia) (ei_phnum _ _ Himg) ltac:(lia))).
  rewrite (bind_ok _ _ _ _ _ (load_word_ok 8 m _ _ (st_file _ _ _ Hst) ltac:(lia))).
  rewrite (bind_ok _ _ _ _ _ (copy_slice m elf f img h (f_programs f) (h_phoff h) 56 (h_phnum h) Hp ltac:(lia) ltac:(lia) ltac:(lia) ltac:(lia) Hm Hd)).
  by rewrite (bind_ok _ _ _ _ _ (store_flag (put_bytes _ _ m) elf ELF_program_headers_loaded 4 1 (mapped_put_bytes _ _ _ _ _ Hmap) ltac:(elf_offsets; lia) ltac:(elf_offsets; lia))).
Qed.

(** The table of sections is loaded at [sh]. *)
Definition sections_at (m : mem) (f : elf_fields) (img : list Z) (h : elf_header) : Prop :=
  f_sections_loaded f = 1 ∧ 0 ≤ f_sections f < 2 ^ 63 ∧
  bytes_at m (f_sections f) (slice img (h_shoff h) (sizeof_Shdr * h_shnum h)).

(** The header of the section with the names. *)
Lemma string_section_words m elf f img h (s := f_sections f + sizeof_Shdr * h_shstrndx h) : parsing m elf f img h → sections_at m f img h →
  load_le 8 (s + 24) m = Ok (h_stroff h) m ∧ load_le 8 (s + 32) m = Ok (h_strsize h) m.
Proof.
  intros Hp (_ & _ & Hb). pose proof (pg_image _ _ _ _ _ Hp) as Himg. pose proof (ei_counts _ _ Himg). pose proof (ei_tables _ _ Himg).
  pose proof (ei_strings _ _ Himg). pose proof (ei_size _ _ Himg). subst s. unfold sizeof_Shdr in *.
  split; apply load_word_ok; try lia.
  - replace (f_sections f + 64 * h_shstrndx h + 24) with (f_sections f + Z.of_nat (Z.to_nat (64 * h_shstrndx h + 24))) by lia.
    eapply field_at; [exact Hb|]. apply field_slice; [lia|lia|].
    replace (Z.to_nat _) with (Z.to_nat (h_shoff h + sizeof_Shdr * h_shstrndx h + 24)) by (unfold sizeof_Shdr; lia). apply Himg.
  - replace (f_sections f + 64 * h_shstrndx h + 32) with (f_sections f + Z.of_nat (Z.to_nat (64 * h_shstrndx h + 32))) by lia.
    eapply field_at; [exact Hb|]. apply field_slice; [lia|lia|].
    replace (Z.to_nat _) with (Z.to_nat (h_shoff h + sizeof_Shdr * h_shstrndx h + 32)) by (unfold sizeof_Shdr; lia). apply Himg.
Qed.

Lemma string_size_spec m elf f img h : parsing m elf f img h → sections_at m f img h →
  elf_get_stringsectionsize elf m = Ok (h_strsize h) m.
Proof.
  intros Hp Hs. pose proof Hp as [Hst _ _ Himg _ _ _]. pose proof (ei_counts _ _ Himg). pose proof Hs as (Hl & Hr & _).
  unfold elf_get_stringsectionsize, elf_get_sectionsize.
  rewrite (bind_ok _ _ _ _ _ (header_word m elf f img h 62 2 _ Hp ltac:(lia) (ei_shstrndx _ _ Himg) ltac:(lia))).
  rewrite (bind_ok _ _ _ _ _ (load_word_ok 4 m _ _ (st_sections_loaded _ _ _ Hst) ltac:(rewrite Hl; lia))). rewrite Hl. change (1 =? 0) with false. cbv iota.
  rewrite (bind_ok _ _ _ _ _ (header_word m elf f img h 60 2 _ Hp ltac:(lia) (ei_shnum _ _ Himg) ltac:(lia))).
  rewrite (proj2 (Z.ltb_ge _ _)), (proj2 (Z.leb_gt _ _)) by lia. cbn [orb].
  rewrite (bind_ok _ _ _ _ _ (load_word_ok 8 m _ _ (st_sections _ _ _ Hst) ltac:(lia))).
  apply (string_section_words m elf f img h Hp Hs).
Qed.

Lemma load_strings_spec m elf f img h : parsing m elf f img h → sections_at m f img h →
  0 ≤ f_strings f < 2 ^ 64 → room_for m elf f img (f_strings f) (h_strsize h) →
  elf_load_strings_section elf m = if f_strings f =? 0 then Ok 0 m else
    Ok 1 (put_bytes (f_strings f) (slice img (h_stroff h) (h_strsize h)) (put_bytes (elf + ELF_strings_section_loaded) (le_bytes 4 1) m)).
Proof.
  intros Hp Hs Hr Hroom. pose proof Hp as [Hst _ _ Himg Hrange Hmap _]. pose proof (ei_counts _ _ Himg). pose proof (ei_strings _ _ Himg).
  pose proof Hs as (Hl & Hsr & _). destruct (string_section_words m elf f img h Hp Hs) as [Hoff Hsz].
  unfold elf_load_strings_section.
  rewrite (bind_ok _ _ _ _ _ (load_word_ok 4 m _ _ (st_sections_loaded _ _ _ Hst) ltac:(rewrite Hl; lia))). rewrite Hl. change (1 =? 0) with false. cbv iota.
  rewrite (bind_ok _ _ _ _ _ (load_word_ok 8 m _ _ (st_strings _ _ _ Hst) Hr)).
  destruct (Z.eqb_spec (f_strings f) 0) as [E|Hne]; [done|]. destruct (Hroom Hne) as (Hm & Hd & He). pose proof (ei_size _ _ Himg).
  rewrite (bind_ok _ _ _ _ _ (header_word m elf f img h 62 2 _ Hp ltac:(lia) (ei_shstrndx _ _ Himg) ltac:(lia))).
  assert (elf_get_sectionheader_byid elf (h_shstrndx h) m = Ok (f_sections f + sizeof_Shdr * h_shstrndx h) m) as Hby.
  { unfold elf_get_sectionheader_byid.
    rewrite (bind_ok _ _ _ _ _ (load_word_ok 4 m _ _ (st_sections_loaded _ _ _ Hst) ltac:(rewrite Hl; lia))). rewrite Hl. change (1 =? 0) with false. cbv iota.
    rewrite (bind_ok _ _ _ _ _ (header_word m elf f img h 60 2 _ Hp ltac:(lia) (ei_shnum _ _ Himg) ltac:(lia))).
    rewrite (proj2 (Z.ltb_ge _ _)), (proj2 (Z.leb_gt _ _)) by lia. cbn [orb].
    by rewrite (bind_ok _ _ _ _ _ (load_word_ok 8 m _ _ (st_sections _ _ _ Hst) ltac:(lia))). }
  rewrite (bind_ok _ _ _ _ _ Hby), (bind_ok _ _ _ _ _ Hoff), (bind_ok _ _ _ _ _ Hsz).
  rewrite (bind_ok _ _ _ _ _ (store_flag m elf ELF_strings_section_loaded 4 1 Hmap ltac:(elf_offsets; lia) ltac:(elf_offsets; lia))).
  set (m1 := put_bytes (elf + ELF_strings_section_loaded) (le_bytes 4 1) m).
  assert (parsing m1 elf (set_strings_loaded 1 f) img h) as Hp1.
  { apply (parsing_within m _ _ f); [done|by apply store_strings_loaded, (header_length _ _ _ _ _ Hp)|done|done|..].
    - intros a Ha. apply put_bytes_outside. rewrite length_le_bytes. elf_offsets. lia.
    - intros a. apply put_bytes_dom. }
  rewrite (bind_ok _ _ _ _ _ (load_word_ok 8 m1 _ _ (st_file _ _ _ (pg_struct _ _ _ _ _ Hp1)) ltac:(cbn; lia))).
  pose proof (copy_slice m1 elf _ img h (f_strings f) (h_stroff h) (h_strsize h) 1 Hp1 ltac:(lia) ltac:(lia) ltac:(lia) ltac:(lia)) as Hcopy.
  rewrite Z.mul_1_r in Hcopy. rewrite (bind_ok _ _ _ _ _ (Hcopy (mapped_put_bytes _ _ _ _ _ Hm) Hd)). done.
Qed.

(** ** The allocations *)

Definition in_regions (R : gmap Z Z) (a : Z) : Prop := ∃ p n, R !! p = Some n ∧ p ≤ a < p + n.

(** What was changed besides the struct at [elf] was free memory of the heap or its table. *)
Record heap_step (elf : Z) (R : gmap Z Z) (k k' : kernel) : Prop := {
  hs_out a : ¬ heap_table_area k a → ¬ (elf ≤ a < elf + sizeof_ELF) → (heap_area k a → in_regions R a) →
    kram k' !! a = kram k !! a;
  hs_dom a : is_Some (kram k !! a) → is_Some (kram k' !! a);
  hs_low : below (2 ^ 63) (kram k) → below (2 ^ 63) (kram k');
  hs_machine : sysregs (mach k') = sysregs (mach k) ∧ trace (mach k') = trace (mach k) ∧ env (mach k') = env (mach k) ∧
    interrupts k' = interrupts k;
  hs_heap : heap_tbl (main_heap k') = heap_tbl (main_heap k) ∧ blocks (main_heap k') = blocks (main_heap k) ∧
    heap_start_address (main_heap k') = heap_start_address (main_heap k);
}.

Lemma heap_step_areas elf R k k' a : heap_step elf R k k' → (heap_area k' a ↔ heap_area k a) ∧ (heap_table_area k' a ↔ heap_table_area k a).
Proof. intros [_ _ _ _ (Ht & Hb & Hs)]. unfold heap_area, heap_table_area. by rewrite Ht, Hb, Hs. Qed.

Lemma heap_step_refl elf R k : heap_step elf R k k.
Proof. by split. Qed.

Lemma heap_step_trans elf R R' k1 k2 k3 : (∀ a, in_regions R a → in_regions R' a) →
  heap_step elf R k1 k2 → heap_step elf R' k2 k3 → heap_step elf R k1 k3.
Proof.
  intros Hsub H12 H23. pose proof (λ a, heap_step_areas _ _ _ _ a H12) as Hareas.
  destruct H12 as [Ho1 Hd1 Hl1 (E1 & E2 & E3 & E4) (E5 & E6 & E7)], H23 as [Ho2 Hd2 Hl2 (F1 & F2 & F3 & F4) (F5 & F6 & F7)].
  split; [|auto|auto|split_and!; congruence|split_and!; congruence].
  intros a Ht He Hin. destruct (Hareas a) as [Ha1 Ha2]. rewrite Ho2; [by apply Ho1|by rewrite Ha2|done|].
  intros Hh. by apply Hsub, Hin, Ha1.
Qed.

Lemma not_overlap p n q l : 0 < n → 0 < l → (∀ a, p ≤ a < p + n → ¬ (q ≤ a < q + l)) → disjoint p n q l.
Proof.
  intros Hn Hl H. unfold disjoint. destruct (decide (p + n ≤ q)); [by left|]. right.
  destruct (decide (p ≤ q)); [|specialize (H p); lia]. specialize (H q). lia.
Qed.

Section parse.
Context {service : kernel → gset Z → Prop} {live : kernel → gmap Z Z → Prop} `{HeapRegions service live}.

(** The parser between two steps. *)
Record parser_ready (k : kernel) (R : gmap Z Z) (elf : Z) (f : elf_fields) (img : list Z) (h : elf_header) : Prop := {
  pr_parsing : parsing (kram k) elf f img h;
  pr_live : live k R;
  pr_file : ∃ n, R !! f_file f = Some n ∧ Z.of_nat (length img) ≤ n;
  pr_elf a : elf ≤ a < elf + sizeof_ELF → ¬ heap_area k a ∧ ¬ heap_table_area k a;
  pr_low : below (2 ^ 63) (kram k);
  pr_table a : heap_table_area k a → 0 ≤ a < 2 ^ 63;
}.

(** The map of regions with a new one, if there is one. *)
Definition with_region (p n : Z) (R : gmap Z Z) : gmap Z Z := if decide (p = 0) then R else <[p := n]> R.

Lemma with_region_in p n R a : R !! p = None ∨ p = 0 → in_regions R a → in_regions (with_region p n R) a.
Proof.
  unfold with_region. intros Hp (q & l & Hq & Ha). case_decide; [by exists q, l|].
  exists q, l. split; [|done]. rewrite lookup_insert_ne; [done|]. intros ->. destruct Hp; congruence.
Qed.

(** A change of memory in the struct or in a region of its own. *)
Lemma parser_put k R0 R elf f f' img h p n m' : parser_ready k R elf f img h → elf_struct m' elf f' →
  f_file f' = f_file f → f_header f' = f_header f → (p ≠ 0 → R !! p = Some n ∧ p ≠ f_file f) →
  (∀ a, in_regions R0 a → (p ≠ 0 → ¬ (p ≤ a < p + n))) →
  (∀ a, ¬ (elf ≤ a < elf + sizeof_ELF) → (p ≠ 0 → ¬ (p ≤ a < p + n)) → m' !! a = kram k !! a) →
  (∀ a, is_Some (kram k !! a) → is_Some (m' !! a)) →
  parser_ready (set_kram m' k) R elf f' img h ∧ heap_step elf R0 k (set_kram m' k).
Proof.
  intros [Hpg Hlive (nf & Hnf & Hlen) Helf Hlow Htab] Hst Ef Eh Hp HR0 Hag Hdom.
  assert (∀ a, p ≠ 0 → p ≤ a < p + n → heap_area k a ∧ ¬ heap_table_area k a ∧ is_Some (kram k !! a)) as Hin.
  { intros a Hne Ha. destruct (Hp Hne) as [HR _]. by eapply regions_inside. }
  assert (below (2 ^ 63) m') as Hlow'.
  { intros a Ha. destruct (decide (elf ≤ a < elf + sizeof_ELF)) as [He|He]; [by apply Hlow, (pg_mapped _ _ _ _ _ Hpg)|].
    destruct (decide (p ≠ 0 ∧ p ≤ a < p + n)) as [[Hne Hr]|Hr]; [by apply Hlow, (Hin a)|].
    apply Hlow. rewrite <-Hag; [done|done|]. intros Hne Hx. by apply Hr. }
  split.
  - split; [| |by exists nf; rewrite Ef|exact Helf|exact Hlow'|exact Htab].
    + destruct Hpg as [? ? ? ? ? Hmap Hap]. split; rewrite ?Ef, ?Eh; try done.
      * eapply bytes_at_agree; [done|]. intros a Ha. unfold disjoint in Hap. apply Hag; [lia|].
        intros Hne Hr. destruct (Hp Hne) as [HR Hnp]. eapply (regions_apart k R (f_file f) nf p n a); try done. lia.
      * intros a Ha. by apply Hdom, Hmap.
    + eapply regions_stable; [done|done| |done]. intros a Ha. apply Hag.
      * intros He. by apply (Helf a).
      * intros Hne Hr. by apply (Hin a Hne Hr).
  - split; try done. intros a Ht He Hh. apply Hag; [done|]. intros Hne Hr.
    destruct (Hin a Hne Hr) as [Hha _]. by apply (HR0 a (Hh Hha)).
Qed.

(** [kalloc] for a table. *)
Lemma alloc_ready k R elf f img h n : parser_ready k R elf f img h → 0 < n < 2 ^ 64 →
  ∃ p k1, kalloc n k = Ok p k1 ∧ 0 ≤ p ∧ (R !! p = None ∨ p = 0) ∧
    parser_ready k1 (with_region p n R) elf f img h ∧ heap_step elf R k k1.
Proof.
  intros [Hpg Hlive (nf & Hnf & Hlen) Helf Hlow Htab] Hn.
  destruct (regions_alloc k R n Hlive Hn) as (p & k1 & Hrun & Hfr & Hst & Hcase).
  destruct Hfr as (Hout & Hdom & Hregs & Htr & Henv & Hint & Ht & Hb).
  assert (∀ a, ¬ heap_table_area k a → kram k1 !! a = kram k !! a) as Hag.
  { intros a Ha. apply Hout. unfold heap_table_area in Ha. lia. }
  assert (∀ a, (heap_area k1 a ↔ heap_area k a) ∧ (heap_table_area k1 a ↔ heap_table_area k a)) as Hareas.
  { intros a. unfold heap_area, heap_table_area. by rewrite Hst, Ht, Hb. }
  assert (below (2 ^ 63) (kram k1)) as Hlow1.
  { intros a Ha. destruct (decide (heap_tbl (main_heap k) ≤ a < heap_tbl (main_heap k) + blocks (main_heap k) + 1)) as [Hin|Hno].
    - by apply Htab.
    - apply Hlow. by rewrite <-Hag. }
  exists p, k1. split; [done|]. split; [destruct Hcase; lia|]. split; [destruct Hcase as [[? _]|(_ & ? & _)]; auto|]. split.
  - split; [| | | |exact Hlow1|].
    + eapply parsing_outside; [done|]. intros a Ha. apply Hag. destruct Ha as [Ha|Ha]; [by apply Helf|].
      eapply (regions_inside k R (f_file f) nf); [done|done|lia].
    + unfold with_region. by case_decide; destruct Hcase as [[? ?]|(? & _ & ?)]; [|lia|lia|].
    + exists nf. split; [|done]. unfold with_region. case_decide; [done|].
      rewrite lookup_insert_ne; [done|]. intros ->. destruct Hcase as [[? _]|(_ & ? & _)]; congruence.
    + intros a Ha. destruct (Hareas a) as [-> ->]. by apply Helf.
    + intros a Ha. apply Htab. by apply Hareas.
  - split; [|done|by intros _|done|done]. intros a Ha _ _. by apply Hag.
Qed.

(** The pointer to it stored in the struct. *)
Lemma store_ready k R elf f img h o p (setp : Z → elf_fields → elf_fields) :
  parser_ready k R elf f img h → 0 ≤ o → o + 8 ≤ sizeof_ELF →
  (∀ m, elf_struct m elf f → length (f_header f) = 64%nat → elf_struct (put_bytes (elf + o) (le_bytes 8 p) m) elf (setp p f)) →
  f_file (setp p f) = f_file f → f_header (setp p f) = f_header f →
  ∃ k2, in_ram (store64 (elf + o) p) k = Ok tt k2 ∧ parser_ready k2 R elf (setp p f) img h ∧
    heap_step elf R k k2 ∧ kram k2 = put_bytes (elf + o) (le_bytes 8 p) (kram k).
Proof.
  intros Hpr Ho Ho8 Hst Ef Eh. pose proof (pr_parsing _ _ _ _ _ _ Hpr) as Hpg.
  eexists. split; [exact (in_ram_ok _ _ _ _ (store_flag (kram k) elf o 8 p (pg_mapped _ _ _ _ _ Hpg) Ho Ho8))|].
  destruct (parser_put k R R elf f (setp p f) img h 0 0 (put_bytes (elf + o) (le_bytes 8 p) (kram k)) Hpr) as [H1 H2]; try done.
  - apply Hst; [apply Hpg|by eapply header_length].
  - intros a Ha _. apply put_bytes_outside. rewrite length_le_bytes. lia.
  - intros a. apply put_bytes_dom.
Qed.

(** A table that was just allocated has room. *)
Lemma ready_room k R elf f img h p n : parser_ready k R elf f img h → 0 < n → (p ≠ 0 → R !! p = Some n ∧ p ≠ f_file f) →
  room_for (kram k) elf f img p n ∧ (p ≠ 0 → p < 2 ^ 63).
Proof.
  intros [Hpg Hlive (nf & Hnf & Hlen) Helf Hlow Htab] Hn Hp.
  assert (∀ a, p ≠ 0 → p ≤ a < p + n → heap_area k a ∧ ¬ heap_table_area k a ∧ is_Some (kram k !! a)) as Hin.
  { intros a Hne Ha. destruct (Hp Hne) as [HR _]. by eapply regions_inside. }
  split; [|intros Hne; destruct (Hin p Hne ltac:(lia)) as (_ & _ & Hs); pose proof (Hlow p Hs); lia].
  intros Hne. destruct (Hp Hne) as [HR Hnp]. split; [intros a Ha; by apply (Hin a Hne)|]. split.
  - pose proof (ei_header _ _ (pg_image _ _ _ _ _ Hpg)). apply not_overlap; [lia|lia|]. intros a Ha Hb. apply (regions_apart k R p n (f_file f) nf a Hlive HR Hnf Hnp Ha). lia.
  - apply not_overlap; [lia|unfold sizeof_ELF; lia|]. intros a Ha Hb. destruct (Hin a Hne Ha) as [Hh _]. destruct (Helf a Hb) as [Hno _]. by apply Hno.
Qed.

(** The table that was read into the new region. *)
Lemma table_ready k R0 R elf f f' img h p n m' bs : parser_ready k R elf f img h → p ≠ 0 → R !! p = Some n → p ≠ f_file f →
  R0 !! p = None → (∀ q l, R0 !! q = Some l → R !! q = Some l) → Z.of_nat (length bs) = n →
  elf_struct m' elf f' → f_file f' = f_file f → f_header f' = f_header f →
  (∀ a, ¬ (elf ≤ a < elf + sizeof_ELF) → m' !! a = put_bytes p bs (kram k) !! a) →
  (∀ a, is_Some (kram k !! a) → is_Some (m' !! a)) →
  parser_ready (set_kram m' k) R elf f' img h ∧ heap_step elf R0 k (set_kram m' k) ∧ bytes_at m' p bs.
Proof.
  intros Hpr Hne HR Hnp HR0 Hsub Hlen Hst Ef Eh Hag Hdom.
  assert (∀ a, p ≤ a < p + n → heap_area k a) as Hin.
  { intros a Ha. destruct Hpr. eapply regions_inside; done. }
  destruct (parser_put k R0 R elf f f' img h p n m' Hpr Hst Ef Eh) as [H1 H2]; try done.
  - intros a (q & l & Hq & Ha) _ Hp. assert (q ≠ p) as Hqp by congruence. destruct Hpr.
    by apply (regions_apart k R q l p n a pr_live0 (Hsub _ _ Hq) HR Hqp Ha).
  - intros a He Hp. rewrite Hag by done. apply put_bytes_outside. rewrite Hlen. by apply Hp.
  - split; [exact H1|]. split; [exact H2|]. intros i b Hi. pose proof (lookup_lt_Some _ _ _ Hi).
    rewrite Hag; [by apply (bytes_at_put p bs (kram k))|]. intros He.
    destruct (pr_elf _ _ _ _ _ _ Hpr _ He) as [Hno _]. apply Hno, Hin. lia.
Qed.

(** A table that is in a region stays when memory elsewhere changes. *)
Lemma region_bytes k k' R elf p n bs : live k R → heap_step elf R k k' → (∀ a, elf ≤ a < elf + sizeof_ELF → ¬ heap_area k a) →
  R !! p = Some n → Z.of_nat (length bs) ≤ n → bytes_at (kram k) p bs → bytes_at (kram k') p bs.
Proof.
  intros Hlive Hs Helf HR Hn Hb. eapply bytes_at_agree; [exact Hb|]. intros a Ha.
  destruct (regions_inside k R p n a Hlive HR ltac:(lia)) as (Hh & Ht & _). apply (hs_out _ _ _ _ Hs); [done| |].
  - intros He. by apply (Helf a).
  - intros _. exists p, n. split; [done|lia].
Qed.

(** One of the three: its size, its memory, the pointer to it, the copy. *)
Lemma parse_table k R elf f img h (get_size load : M mem Z) n o p_field set_p set_loaded bs :
  parser_ready k R elf f img h → get_size (kram k) = Ok n (kram k) → 0 < n < 2 ^ 64 → 0 ≤ o → o + 8 ≤ sizeof_ELF →
  (∀ p m, elf_struct m elf f → length (f_header f) = 64%nat → elf_struct (put_bytes (elf + o) (le_bytes 8 p) m) elf (set_p p f)) →
  (∀ p, f_file (set_p p f) = f_file f ∧ f_header (set_p p f) = f_header f ∧ p_field (set_p p f) = p) →
  (∀ g, f_file (set_loaded g) = f_file g ∧ f_header (set_loaded g) = f_header g) →
  (∀ p k2, parser_ready k2 (with_region p n R) elf (set_p p f) img h → heap_step elf R k k2 → 0 ≤ p < 2 ^ 63 →
    room_for (kram k2) elf (set_p p f) img p n →
    if decide (p = 0) then ∃ r, load (kram k2) = Ok r (kram k2) else
    ∃ r m', load (kram k2) = Ok r m' ∧ Z.of_nat (length (bs p)) = n ∧ elf_struct m' elf (set_loaded (set_p p f)) ∧
      (∀ a, ¬ (elf ≤ a < elf + sizeof_ELF) → m' !! a = put_bytes p (bs p) (kram k2) !! a) ∧
      ∀ a, is_Some (kram k2 !! a) → is_Some (m' !! a)) →
  ∃ p r k' f', (let* size := in_ram get_size in
     let* q := kalloc size in in_ram (store64 (elf + o) q) ;; in_ram load) k = Ok r k' ∧
    f' = (if decide (p = 0) then set_p p f else set_loaded (set_p p f)) ∧ (R !! p = None ∨ p = 0) ∧ 0 ≤ p < 2 ^ 63 ∧
    parser_ready k' (with_region p n R) elf f' img h ∧ heap_step elf R k k' ∧ (p ≠ 0 → bytes_at (kram k') p (bs p)).
Proof.
  intros Hpr Hsize Hn Ho Ho8 Hst Hset Hldd Hload.
  destruct (alloc_ready k R elf f img h n Hpr Hn) as (p & k1 & Hrun1 & Hp0 & Hnew & Hpr1 & Hs1). destruct (Hset p) as (Ef & Eh & Ep).
  destruct (store_ready k1 (with_region p n R) elf f img h o p set_p Hpr1 Ho Ho8 (Hst p) Ef Eh) as (k2 & Hrun2 & Hpr2 & Hs2 & _).
  assert (p ≠ 0 → with_region p n R !! p = Some n ∧ p ≠ f_file (set_p p f)) as Hreg.
  { intros Hne. unfold with_region. rewrite decide_False, lookup_insert_eq by done. split; [done|]. rewrite Ef. intros ->.
    destruct (pr_file _ _ _ _ _ _ Hpr) as (nf & Hnf & _). destruct Hnew; congruence. }
  destruct (ready_room k2 _ _ _ _ _ p n Hpr2 ltac:(lia) Hreg) as [Hroom Hp63].
  assert (0 ≤ p < 2 ^ 63) as Hpr63 by (destruct (decide (p = 0)); lia).
  assert (heap_step elf R k k2) as Hs12.
  { eapply heap_step_trans; [|exact Hs1|exact Hs2]. intros a. by apply with_region_in. }
  assert (∀ r m', load (kram k2) = Ok r m' → (let* size := in_ram get_size in
     let* q := kalloc size in in_ram (store64 (elf + o) q) ;; in_ram load) k = Ok r (set_kram m' k2)) as Hrun.
  { intros r m' Hl. rewrite (bind_ok _ _ _ _ _ (in_ram_ok _ _ _ _ Hsize)), set_kram_id, (bind_ok _ _ _ _ _ Hrun1), (bind_ok _ _ _ _ _ Hrun2).
    exact (in_ram_ok _ _ _ _ Hl). }
  specialize (Hload p k2 Hpr2 Hs12 Hpr63 Hroom). destruct (decide (p = 0)) as [E|Hne].
  - destruct Hload as [r Hl]. exists p, r, k2, (set_p p f). rewrite decide_True by done.
    split; [rewrite (Hrun _ _ Hl); by rewrite set_kram_id|]. split_and!; done || lia.

  - destruct Hload as (r & m' & Hl & Hlen & Hst' & Hag & Hdom). destruct (Hreg Hne) as [HR Hnp]. destruct (Hldd (set_p p f)) as [Elf Elh].
    destruct (table_ready k2 R (with_region p n R) elf (set_p p f) (set_loaded (set_p p f)) img h p n m' (bs p) Hpr2 Hne HR Hnp)
      as (Hpr3 & Hs3 & Hb); try done.
    { destruct Hnew; congruence. }
    { intros q l Hq. unfold with_region. rewrite decide_False by done. rewrite lookup_insert_ne; [done|]. destruct Hnew; congruence. }
    exists p, r, (set_kram m' k2), (set_loaded (set_p p f)). rewrite decide_False by done.
    split; [exact (Hrun _ _ Hl)|]. split; [done|]. split; [done|]. split; [done|]. split; [exact Hpr3|]. split; [|done].
    eapply heap_step_trans; [|exact Hs12|exact Hs3]. done.
Qed.

(** *** The three tables *)

Lemma parse_sections k R elf f img h (n := sizeof_Shdr * h_shnum h) : parser_ready k R elf f img h →
  ∃ p r k' f', (let* size := in_ram (elf_get_sectionheaders_bytes elf) in
     let* q := kalloc size in
     in_ram (store64 (elf + ELF_section_headers) q) ;;
     in_ram (elf_load_sectionheaders elf)) k = Ok r k' ∧
    f' = (if decide (p = 0) then set_sections p f else set_sections_loaded 1 (set_sections p f)) ∧
    (R !! p = None ∨ p = 0) ∧ 0 ≤ p < 2 ^ 63 ∧
    parser_ready k' (with_region p n R) elf f' img h ∧ heap_step elf R k k' ∧
    (p ≠ 0 → bytes_at (kram k') p (slice img (h_shoff h) n)).
Proof.
  intros Hpr. pose proof (pr_parsing _ _ _ _ _ _ Hpr) as Hpg. pose proof (pg_image _ _ _ _ _ Hpg) as Himg.
  pose proof (ei_counts _ _ Himg). pose proof (ei_tables _ _ Himg) as Htab. unfold sizeof_Shdr, sizeof_Phdr in Htab.
  apply (parse_table k R elf f img h (elf_get_sectionheaders_bytes elf) (elf_load_sectionheaders elf) n ELF_section_headers
    f_sections set_sections (set_sections_loaded 1) (λ _, slice img (h_shoff h) n) Hpr); try done; try (unfold n, sizeof_Shdr, sizeof_Phdr; lia).
  - unfold elf_get_sectionheaders_bytes.
    rewrite (bind_ok _ _ _ _ _ (load_word_ok 4 _ _ _ (st_header_loaded _ _ _ (pg_struct _ _ _ _ _ Hpg)) ltac:(lia))). change (1 =? 0) with false. cbv iota.
    rewrite (bind_ok _ _ _ _ _ (header_word (kram k) elf f img h 60 2 _ Hpg ltac:(lia) (ei_shnum _ _ Himg) ltac:(lia))).
    unfold ret. by rewrite u64_small by (unfold sizeof_Shdr; lia).
  - intros p m Hst Hlen. by apply store_sections.
  - intros p k2 Hpr2 _ Hp Hroom. pose proof (pr_parsing _ _ _ _ _ _ Hpr2) as Hpg2.
    pose proof (load_sections_spec (kram k2) elf (set_sections p f) img h Hpg2 ltac:(cbn; lia) Hroom) as Hload. cbn [f_sections set_sections] in Hload.
    change (sizeof_Shdr * h_shnum h) with n in Hload.
    case_decide as E; [rewrite E in Hload; by exists 0|]. rewrite (proj2 (Z.eqb_neq p 0) E) in Hload.
    eexists 1, _. split; [exact Hload|]. assert (Z.of_nat (length (slice img (h_shoff h) n)) = n) as Hlen by (apply length_slice; unfold n, sizeof_Shdr, sizeof_Phdr; lia).
    split; [exact Hlen|]. split; [|split].
    + apply store_sections_loaded; [|by eapply header_length]. eapply elf_struct_agree; [apply Hpg2|by eapply header_length|].
      intros a Ha. apply put_bytes_outside. rewrite Hlen. destruct (Hroom E) as (_ & _ & Hd). unfold disjoint in Hd. lia.
    + intros a Ha. apply put_bytes_outside. rewrite length_le_bytes. elf_offsets. lia.
    + intros a Ha. by apply put_bytes_dom, put_bytes_dom.
Qed.

Lemma parse_programs k R elf f img h (n := sizeof_Phdr * h_phnum h) : parser_ready k R elf f img h →
  ∃ p r k' f', (let* size := in_ram (elf_get_programheaders_bytes elf) in
     let* q := kalloc size in
     in_ram (store64 (elf + ELF_program_headers) q) ;;
     in_ram (elf_load_programheaders elf)) k = Ok r k' ∧
    f' = (if decide (p = 0) then set_programs p f else set_programs_loaded 1 (set_programs p f)) ∧
    (R !! p = None ∨ p = 0) ∧ 0 ≤ p < 2 ^ 63 ∧
    parser_ready k' (with_region p n R) elf f' img h ∧ heap_step elf R k k' ∧
    (p ≠ 0 → bytes_at (kram k') p (slice img (h_phoff h) n)).
Proof.
  intros Hpr. pose proof (pr_parsing _ _ _ _ _ _ Hpr) as Hpg. pose proof (pg_image _ _ _ _ _ Hpg) as Himg.
  pose proof (ei_counts _ _ Himg). pose proof (ei_tables _ _ Himg) as Htab. unfold sizeof_Shdr, sizeof_Phdr in Htab.
  apply (parse_table k R elf f img h (elf_get_programheaders_bytes elf) (elf_load_programheaders elf) n ELF_program_headers
    f_programs set_programs (set_programs_loaded 1) (λ _, slice img (h_phoff h) n) Hpr); try done; try (unfold n, sizeof_Shdr, sizeof_Phdr; lia).
  - unfold elf_get_programheaders_bytes.
    rewrite (bind_ok _ _ _ _ _ (load_word_ok 4 _ _ _ (st_header_loaded _ _ _ (pg_struct _ _ _ _ _ Hpg)) ltac:(lia))). change (1 =? 0) with false. cbv iota.
    rewrite (bind_ok _ _ _ _ _ (header_word (kram k) elf f img h 56 2 _ Hpg ltac:(lia) (ei_phnum _ _ Himg) ltac:(lia))).
    unfold ret. by rewrite u64_small by (unfold sizeof_Phdr; lia).
  - intros p m Hst Hlen. by apply store_programs.
  - intros p k2 Hpr2 _ Hp Hroom. pose proof (pr_parsing _ _ _ _ _ _ Hpr2) as Hpg2.
    pose proof (load_programs_spec (kram k2) elf (set_programs p f) img h Hpg2 ltac:(cbn; lia) Hroom) as Hload. cbn [f_programs set_programs] in Hload.
    change (sizeof_Phdr * h_phnum h) with n in Hload.
    case_decide as E; [rewrite E in Hload; by exists 0|]. rewrite (proj2 (Z.eqb_neq p 0) E) in Hload.
    eexists 1, _. split; [exact Hload|]. assert (Z.of_nat (length (slice img (h_phoff h) n)) = n) as Hlen by (apply length_slice; unfold n, sizeof_Shdr, sizeof_Phdr; lia).
    split; [exact Hlen|]. split; [|split].
    + apply store_programs_loaded; [|by eapply header_length]. eapply elf_struct_agree; [apply Hpg2|by eapply header_length|].
      intros a Ha. apply put_bytes_outside. rewrite Hlen. destruct (Hroom E) as (_ & _ & Hd). unfold disjoint in Hd. lia.
    + intros a Ha. apply put_bytes_outside. rewrite length_le_bytes. elf_offsets. lia.
    + intros a Ha. by apply put_bytes_dom, put_bytes_dom.
Qed.

(** The names are only read when the sections were. *)
Lemma parse_strings k R elf f img h : parser_ready k R elf f img h → sections_at (kram k) f img h →
  (∃ q l, R !! q = Some l ∧ q = f_sections f ∧ sizeof_Shdr * h_shnum h ≤ l) →
  ∃ p r k' f', (let* size := in_ram (elf_get_stringsectionsize elf) in
     let* q := kalloc size in
     in_ram (store64 (elf + ELF_strings_section) q) ;;
     in_ram (elf_load_strings_section elf)) k = Ok r k' ∧
    f' = (if decide (p = 0) then set_strings p f else set_strings_loaded 1 (set_strings p f)) ∧
    (R !! p = None ∨ p = 0) ∧ 0 ≤ p < 2 ^ 63 ∧
    parser_ready k' (with_region p (h_strsize h) R) elf f' img h ∧ heap_step elf R k k' ∧
    (p ≠ 0 → bytes_at (kram k') p (slice img (h_stroff h) (h_strsize h))).
Proof.
  intros Hpr Hsec (q & l & HRq & -> & Hl). pose proof (pr_parsing _ _ _ _ _ _ Hpr) as Hpg. pose proof (pg_image _ _ _ _ _ Hpg) as Himg.
  pose proof (ei_counts _ _ Himg). pose proof (ei_strings _ _ Himg). pose proof (ei_size _ _ Himg). pose proof (ei_tables _ _ Himg).
  apply (parse_table k R elf f img h (elf_get_stringsectionsize elf) (elf_load_strings_section elf) (h_strsize h) ELF_strings_section
    f_strings set_strings (set_strings_loaded 1) (λ _, slice img (h_stroff h) (h_strsize h)) Hpr); try done; try lia.
  - by apply (string_size_spec _ elf f img h).
  - intros p m Hst Hlen. by apply store_strings.
  - intros p k2 Hpr2 Hs2 Hp Hroom. pose proof (pr_parsing _ _ _ _ _ _ Hpr2) as Hpg2.
    assert (sections_at (kram k2) (set_strings p f) img h) as Hsec2.
    { destruct Hsec as (Hq1 & Hq2 & Hq3). split; [done|]. split; [done|]. cbn.
      eapply (region_bytes k k2 R elf); [apply Hpr|done|apply Hpr|exact HRq| |exact Hq3].
      unfold sizeof_Shdr, sizeof_Phdr in *. rewrite length_slice; lia. }
    pose proof (load_strings_spec (kram k2) elf (set_strings p f) img h Hpg2 Hsec2 ltac:(cbn; lia) Hroom) as Hload. cbn [f_strings set_strings] in Hload.
    case_decide as E; [rewrite E in Hload; by exists 0|]. rewrite (proj2 (Z.eqb_neq p 0) E) in Hload.
    eexists 1, _. split; [exact Hload|]. assert (Z.of_nat (length (slice img (h_stroff h) (h_strsize h))) = h_strsize h) as Hlen by (apply length_slice; lia).
    split; [exact Hlen|]. split; [|split].
    + eapply elf_struct_agree; [apply store_strings_loaded; [apply Hpg2|by eapply header_length]|by eapply (header_length _ elf (set_strings p f))|].
      intros a Ha. apply put_bytes_outside. rewrite Hlen. destruct (Hroom E) as (_ & _ & Hd). unfold disjoint in Hd. lia.
    + intros a Ha. rewrite !put_bytes_lookup. case_decide; [done|]. rewrite decide_False; [done|]. rewrite length_le_bytes. elf_offsets. lia.
    + intros a Ha. by apply put_bytes_dom, put_bytes_dom.
Qed.

(** Without the sections the size of the names is -1, for which there is no memory. *)
Lemma parse_strings_none k R elf f img h : parser_ready k R elf f img h → f_sections_loaded f = 0 →
  ∃ r k', (let* size := in_ram (elf_get_stringsectionsize elf) in
     let* q := kalloc size in
     in_ram (store64 (elf + ELF_strings_section) q) ;;
     in_ram (elf_load_strings_section elf)) k = Ok r k' ∧
    parser_ready k' R elf (set_strings 0 f) img h ∧ heap_step elf R k k'.
Proof.
  intros Hpr Hl0. pose proof (pr_parsing _ _ _ _ _ _ Hpr) as Hpg. pose proof (pg_image _ _ _ _ _ Hpg) as Himg. pose proof (ei_counts _ _ Himg).
  assert (∀ m g, parsing m elf g img h → f_sections_loaded g = 0 → load_le 4 (elf + ELF_section_headers_loaded) m = Ok 0 m) as Hl.
  { intros m g Hg E. pose proof (st_sections_loaded _ _ _ (pg_struct _ _ _ _ _ Hg)) as Hw. rewrite E in Hw. by apply (load_word_ok 4 m _ 0 Hw). }
  destruct (parse_table k R elf f img h (elf_get_stringsectionsize elf) (elf_load_strings_section elf) (u64 (-1)) ELF_strings_section
    f_strings set_strings (set_strings_loaded 1) (λ _, []) Hpr) as (p & r & k' & f' & Hrun & Ef & Hnew & Hp & Hpr' & Hs & _); try done.
  - unfold elf_get_stringsectionsize, elf_get_sectionsize.
    rewrite (bind_ok _ _ _ _ _ (header_word (kram k) elf f img h 62 2 _ Hpg ltac:(lia) (ei_shstrndx _ _ Himg) ltac:(lia))).
    by rewrite (bind_ok _ _ _ _ _ (Hl _ _ Hpg Hl0)).
  - intros p m Hst Hlen. by apply store_strings.
  - intros p k2 Hpr2 _ Hp Hroom.
    assert (p = 0) as ->.
    { destruct (decide (p = 0)); [done|]. exfalso. destruct (Hroom n) as (Hm & _). change (u64 (-1)) with (2 ^ 64 - 1) in Hm.
      destruct (pr_low _ _ _ _ _ _ Hpr2 (2 ^ 63)); [apply Hm; lia|lia]. }
    rewrite decide_True by done. exists 0. unfold elf_load_strings_section.
    by rewrite (bind_ok _ _ _ _ _ (Hl _ _ (pr_parsing _ _ _ _ _ _ Hpr2) Hl0)).
  - exists r, k'. split; [exact Hrun|]. split; [|exact Hs].
    assert (p = 0) as ->; [|rewrite Ef in Hpr'; exact Hpr'].
    destruct (decide (p = 0)) as [|Hne]; [done|]. exfalso. pose proof Hpr' as [_ Hlive _ _ Hlow _].
    unfold with_region in Hlive. rewrite decide_False in Hlive by done.
    destruct (regions_inside k' _ p (u64 (-1)) (2 ^ 63) Hlive (lookup_insert_eq _ _ _)) as (_ & _ & Hs63).
    + change (u64 (-1)) with (2 ^ 64 - 1). lia.
    + apply Hlow in Hs63. lia.
Qed.

(** *** The header *)

Lemma zero_header m elf : mapped m elf sizeof_ELF →
  for_up (Z.to_nat sizeof_Ehdr) 0 (λ i, storeb (elf + ELF_header + i) 0) m = Ok tt (put_bytes (elf + ELF_header) (replicate 64 0) m).
Proof.
  intros Hm. apply wp_eq. apply (wp_for_up (λ i mm, mm = put_bytes (elf + ELF_header) (replicate (Z.to_nat i) 0) m)); [|done|by intros s' ->].
  intros i mm Hi ->. change (0 + Z.of_nat (Z.to_nat sizeof_Ehdr)) with 64 in Hi.
  apply wp_storeb; [apply mapped_put_bytes with (n := sizeof_ELF) (p := elf); [done|elf_offsets; lia]|].
  replace (Z.to_nat (i + 1)) with (S (Z.to_nat i)) by lia. rewrite replicate_S_end, put_bytes_snoc, length_replicate.
  by replace (Z.of_nat (Z.to_nat i)) with i by lia.
Qed.

(** [elf_fromfilebuffer] fills the struct. *)
Lemma fromfilebuffer_spec m elf file : mapped m elf sizeof_ELF →
  ∃ m', elf_fromfilebuffer elf file m = Ok tt m' ∧
    word_at 8 m' (elf + ELF_file) file ∧ word_at 4 m' (elf + ELF_header_loaded) 0 ∧ word_at 4 m' (elf + ELF_section_headers_loaded) 0 ∧
    word_at 8 m' (elf + ELF_section_headers) 0 ∧ word_at 4 m' (elf + ELF_strings_section_loaded) 0 ∧
    word_at 8 m' (elf + ELF_strings_section) 0 ∧ word_at 4 m' (elf + ELF_program_headers_loaded) 0 ∧
    word_at 8 m' (elf + ELF_program_headers) 0 ∧
    (∀ a, ¬ (elf ≤ a < elf + sizeof_ELF) → m' !! a = m !! a) ∧ (∀ a, is_Some (m !! a) → is_Some (m' !! a)).
Proof.
  intros Hm.
  pose (m1 := put_bytes (elf + ELF_file) (le_bytes 8 file) m).
  pose (m2 := put_bytes (elf + ELF_header_loaded) (le_bytes 4 0) m1).
  pose (m3 := put_bytes (elf + ELF_header) (replicate 64 0) m2).
  pose (m4 := put_bytes (elf + ELF_section_headers_loaded) (le_bytes 4 0) m3).
  pose (m5 := put_bytes (elf + ELF_section_headers) (le_bytes 8 0) m4).
  pose (m6 := put_bytes (elf + ELF_strings_section_loaded) (le_bytes 4 0) m5).
  pose (m7 := put_bytes (elf + ELF_strings_section) (le_bytes 8 0) m6).
  pose (m8 := put_bytes (elf + ELF_program_headers_loaded) (le_bytes 4 0) m7).
  exists (put_bytes (elf + ELF_program_headers) (le_bytes 8 0) m8).
  assert (∀ q bs t, mapped t elf sizeof_ELF → mapped (put_bytes q bs t) elf sizeof_ELF) as Hk by (intros; by apply mapped_put_bytes).
  split; [|split; [|split; [|split; [|split; [|split; [|split; [|split; [|split; [|split]]]]]]]]].
  - unfold elf_fromfilebuffer.
    rewrite (bind_ok _ _ _ _ _ (store_flag m elf ELF_file 8 file Hm ltac:(elf_offsets; lia) ltac:(elf_offsets; lia))). fold m1.
    rewrite (bind_ok _ _ _ _ _ (store_flag m1 elf ELF_header_loaded 4 0 (Hk _ _ _ Hm) ltac:(elf_offsets; lia) ltac:(elf_offsets; lia))). fold m2.
    rewrite (bind_ok _ _ _ _ _ (zero_header m2 elf (Hk _ _ _ (Hk _ _ _ Hm)))). fold m3.
    assert (mapped m3 elf sizeof_ELF) as Hm3 by (do 3 apply Hk; exact Hm).
    rewrite (bind_ok _ _ _ _ _ (store_flag m3 elf ELF_section_headers_loaded 4 0 Hm3 ltac:(elf_offsets; lia) ltac:(elf_offsets; lia))). fold m4.
    assert (mapped m4 elf sizeof_ELF) as Hm4 by (apply Hk; exact Hm3).
    rewrite (bind_ok _ _ _ _ _ (store_flag m4 elf ELF_section_headers 8 0 Hm4 ltac:(elf_offsets; lia) ltac:(elf_offsets; lia))). fold m5.
    assert (mapped m5 elf sizeof_ELF) as Hm5 by (apply Hk; exact Hm4).
    rewrite (bind_ok _ _ _ _ _ (store_flag m5 elf ELF_strings_section_loaded 4 0 Hm5 ltac:(elf_offsets; lia) ltac:(elf_offsets; lia))). fold m6.
    assert (mapped m6 elf sizeof_ELF) as Hm6 by (apply Hk; exact Hm5).
    rewrite (bind_ok _ _ _ _ _ (store_flag m6 elf ELF_strings_section 8 0 Hm6 ltac:(elf_offsets; lia) ltac:(elf_offsets; lia))). fold m7.
    assert (mapped m7 elf sizeof_ELF) as Hm7 by (apply Hk; exact Hm6).
    rewrite (bind_ok _ _ _ _ _ (store_flag m7 elf ELF_program_headers_loaded 4 0 Hm7 ltac:(elf_offsets; lia) ltac:(elf_offsets; lia))). fold m8.
    assert (mapped m8 elf sizeof_ELF) as Hm8 by (apply Hk; exact Hm7).
    apply (store_flag m8 elf ELF_program_headers 8 0 Hm8); elf_offsets; lia.
  - repeat (apply bytes_at_put_ne; [|rewrite ?length_le_bytes, ?length_replicate; elf_offsets; lia]). apply bytes_at_put.
  - do 7 (apply bytes_at_put_ne; [|rewrite ?length_le_bytes, ?length_replicate; elf_offsets; lia]). apply bytes_at_put.
  - do 5 (apply bytes_at_put_ne; [|rewrite ?length_le_bytes; elf_offsets; lia]). apply bytes_at_put.
  - do 4 (apply bytes_at_put_ne; [|rewrite ?length_le_bytes; elf_offsets; lia]). apply bytes_at_put.
  - do 3 (apply bytes_at_put_ne; [|rewrite ?length_le_bytes; elf_offsets; lia]). apply bytes_at_put.
  - do 2 (apply bytes_at_put_ne; [|rewrite ?length_le_bytes; elf_offsets; lia]). apply bytes_at_put.
  - apply bytes_at_put_ne; [|rewrite ?length_le_bytes; elf_offsets; lia]. apply bytes_at_put.
  - apply bytes_at_put.
  - intros a Ha. unfold m8, m7, m6, m5, m4, m3, m2, m1.
    rewrite !put_bytes_outside; [done|..]; rewrite ?length_le_bytes, ?length_replicate; elf_offsets; lia.
  - intros a Hs. do 9 apply put_bytes_dom. exact Hs.
Qed.

(** The struct is filled and the header copied and accepted. *)
Lemma header_ready k R elf file img h n : live k R → R !! file = Some n → Z.of_nat (length img) ≤ n → 0 ≤ file →
  bytes_at (kram k) file img → elf_image img h → mapped (kram k) elf sizeof_ELF →
  (∀ a, elf ≤ a < elf + sizeof_ELF → ¬ heap_area k a ∧ ¬ heap_table_area k a) → below (2 ^ 63) (kram k) →
  (∀ a, heap_table_area k a → 0 ≤ a < 2 ^ 63) →
  ∃ m0 k0, elf_fromfilebuffer elf file (kram k) = Ok tt m0 ∧ in_ram (elf_parseheader elf) (set_kram m0 k) = Ok 1 k0 ∧
    parser_ready k0 R elf (mk_elf_fields file (slice img 0 64) 0 0 0 0 0 0) img h ∧ heap_step elf R k k0.
Proof.
  intros Hlive HR Hn Hf0 Hb Himg Hm Helf Hlow Htab. pose proof (ei_header _ _ Himg) as H64.
  assert (∀ a, file ≤ a < file + Z.of_nat (length img) → heap_area k a ∧ ¬ heap_table_area k a ∧ is_Some (kram k !! a)) as Hin.
  { intros a Ha. eapply regions_inside; [done|done|lia]. }
  assert (disjoint elf sizeof_ELF file (Z.of_nat (length img))) as Hap.
  { apply not_overlap; [unfold sizeof_ELF; lia|lia|]. intros a Ha Hb'. destruct (Hin a Hb') as [Hh _]. exact (proj1 (Helf a Ha) Hh). }
  assert (file + Z.of_nat (length img) ≤ 2 ^ 63) as Hf63.
  { destruct (Hin (file + Z.of_nat (length img) - 1)) as (_ & _ & Hs); [lia|]. apply Hlow in Hs. lia. }
  destruct (fromfilebuffer_spec (kram k) elf file Hm) as (m0 & Hrun0 & Hfile & _ & Hw1 & Hw2 & Hw3 & Hw4 & Hw5 & Hw6 & Hag & Hdom).
  assert (bytes_at m0 file img) as Hb0.
  { eapply bytes_at_agree; [exact Hb|]. intros a Ha. apply Hag. unfold disjoint in Hap. lia. }
  assert (mapped m0 elf sizeof_ELF) as Hm0 by (intros a Ha; by apply Hdom, Hm).
  assert (length (slice img 0 64) = 64%nat) as Hlen by (pose proof (length_slice img 0 64); lia).
  set (m1 := put_bytes (elf + ELF_header_loaded) (le_bytes 4 1) (put_bytes (elf + ELF_header) (slice img 0 64) m0)).
  assert (elf_parseheader elf m0 = Ok 1 m1) as Hrun1.
  { rewrite (elf_parseheader_checks m0 elf file (slice img 0 64)); try done.
    - rewrite decide_True; [done|]. unfold slice. change (Z.to_nat 0) with 0%nat. rewrite drop_0, lookup_take_lt by lia. apply Himg.
    - lia.
    - pose proof (slice_at m0 file img 0 64 Hb0) as Hsl. rewrite Z.add_0_r in Hsl. apply Hsl; lia.
    - apply slice_range, Himg.
    - unfold disjoint in *. elf_offsets. lia. }
  exists m0, (set_kram m1 k). split; [exact Hrun0|]. split; [exact (in_ram_ok _ (set_kram m0 k) _ _ Hrun1)|].
  assert (∀ a, ¬ (elf ≤ a < elf + sizeof_ELF) → m1 !! a = kram k !! a) as Hag1.
  { intros a Ha. unfold m1. rewrite !put_bytes_outside; [by apply Hag|..]; rewrite ?length_le_bytes, ?Hlen; elf_offsets; lia. }
  assert (∀ a, is_Some (kram k !! a) → is_Some (m1 !! a)) as Hdom1 by (intros a Hs; by apply put_bytes_dom, put_bytes_dom, Hdom).
  assert (below (2 ^ 63) m1) as Hlow1.
  { intros a Ha. destruct (decide (elf ≤ a < elf + sizeof_ELF)) as [He|He]; [by apply Hlow, Hm|]. apply Hlow. by rewrite <-Hag1. }
  split.
  - split; [|eapply regions_stable; [done|done| |done]|by exists n|done|done|done].
    + split; cbn [f_file f_header]; try done.
      * split; cbn [f_file f_header f_sections_loaded f_sections f_strings_loaded f_strings f_programs_loaded f_programs]; unfold word_at in *; unfold m1;
          repeat first [apply bytes_at_put | apply bytes_at_put_ne; [|rewrite ?length_le_bytes, ?Hlen; elf_offsets; lia]]; assumption.
      * eapply bytes_at_agree; [exact Hb|]. intros a Ha. apply Hag1. unfold disjoint in Hap. lia.
      * intros a Ha. by apply Hdom1, Hm.
    + intros a Ha. apply Hag1. intros He. by apply (Helf a He).
  - split; try done. intros a _ Ha _. by apply Hag1.
Qed.

(** ** The parser as a whole *)

(** A table that was read, or no memory for it. *)
Definition table_read (k : kernel) (p loaded : Z) (bs : list Z) : Prop :=
  if decide (p = 0) then loaded = 0 else loaded = 1 ∧ bytes_at (kram k) p bs.

Lemma table_read_kept k k' R elf p n loaded bs : live k R → heap_step elf R k k' → (∀ a, elf ≤ a < elf + sizeof_ELF → ¬ heap_area k a) →
  (p ≠ 0 → R !! p = Some n ∧ Z.of_nat (length bs) ≤ n) → table_read k p loaded bs → table_read k' p loaded bs.
Proof.
  unfold table_read. intros Hlive Hs Helf Hp. case_decide as E; [done|]. intros [Hl Hb]. split; [done|].
  destruct (Hp E) as [HR Hn]. by eapply region_bytes.
Qed.
End parse.

Lemma bind_group {St A B C D E} (m : M St A) (f : A → M St B) (g : B → M St C) (h : M St D) (rest : M St E) s r s' :
  (let* a := m in let* b := f a in g b ;; h) s = Ok r s' → (let* a := m in let* b := f a in g b ;; h ;; rest) s = rest s'.
Proof.
  unfold bind. destruct (m s) as [a s1| |]; try done. destruct (f a s1) as [b s2| |]; try done.
  destruct (g b s2) as [c s3| |]; try done. destruct (h s3) as [d s4| |]; try done. by intros [= _ ->].
Qed.

Section whole.
Context {service : kernel → gset Z → Prop} {live : kernel → gmap Z Z → Prop} `{HeapRegions service live}.

(** A pointer that was not in use, or NULL. *)
Definition fresh_pointer (R : gmap Z Z) (p : Z) : Prop := R !! p = None ∨ p = 0.

(** What the parser leaves. *)
Record parsed (k k' : kernel) (R : gmap Z Z) (elf file : Z) (img : list Z) (h : elf_header) (f : elf_fields)
    (R1 R2 R3 : gmap Z Z) : Prop := {
  pd_ready : parser_ready (live := live) k' R3 elf f img h;
  pd_file : f_file f = file;
  pd_step : heap_step elf R k k';
  pd_sections : table_read k' (f_sections f) (f_sections_loaded f) (slice img (h_shoff h) (sizeof_Shdr * h_shnum h));
  pd_programs : table_read k' (f_programs f) (f_programs_loaded f) (slice img (h_phoff h) (sizeof_Phdr * h_phnum h));
  pd_strings : table_read k' (f_strings f) (f_strings_loaded f) (slice img (h_stroff h) (h_strsize h));
  pd_R1 : R1 = with_region (f_sections f) (sizeof_Shdr * h_shnum h) R;
  pd_R2 : R2 = with_region (f_programs f) (sizeof_Phdr * h_phnum h) R1;
  pd_R3 : R3 = with_region (f_strings f) (h_strsize h) R2;
  pd_fresh : fresh_pointer R (f_sections f) ∧ fresh_pointer R1 (f_programs f) ∧ fresh_pointer R2 (f_strings f);
}.

Lemma with_region_keeps p n R q l : fresh_pointer R p → R !! q = Some l → with_region p n R !! q = Some l.
Proof.
  intros Hf Hq. unfold with_region. case_decide; [done|]. rewrite lookup_insert_ne; [done|]. intros ->. destruct Hf; congruence.
Qed.

Lemma with_region_new p n R : p ≠ 0 → with_region p n R !! p = Some n.
Proof. intros Hp. unfold with_region. rewrite decide_False by done. apply lookup_insert_eq. Qed.

Lemma elf_parse_spec k R elf file img h n : live k R → R !! file = Some n → Z.of_nat (length img) ≤ n → 0 ≤ file →
  bytes_at (kram k) file img → elf_image img h → mapped (kram k) elf sizeof_ELF →
  (∀ a, elf ≤ a < elf + sizeof_ELF → ¬ heap_area k a ∧ ¬ heap_table_area k a) → below (2 ^ 63) (kram k) →
  (∀ a, heap_table_area k a → 0 ≤ a < 2 ^ 63) →
  ∃ m0 k' f R1 R2 R3, elf_fromfilebuffer elf file (kram k) = Ok tt m0 ∧ elf_alloc_and_parse elf (set_kram m0 k) = Ok tt k' ∧
    parsed k k' R elf file img h f R1 R2 R3.
Proof.
  intros Hlive HR Hn Hf0 Hb Himg Hm Helf Hlow Htab.
  destruct (header_ready k R elf file img h n Hlive HR Hn Hf0 Hb Himg Hm Helf Hlow Htab) as (m0 & k0 & Hrun0 & Hrun1 & Hpr0 & Hs0).
  set (f0 := mk_elf_fields file (slice img 0 64) 0 0 0 0 0 0) in *.
  destruct (parse_sections k0 R elf f0 img h Hpr0) as (sh & r1 & k1 & f1 & Hrun2 & E1 & Hnew1 & Hsh & Hpr1 & Hs1 & Hb1).
  set (R1 := with_region sh _ R) in *.
  destruct (parse_programs k1 R1 elf f1 img h Hpr1) as (ph & r2 & k2 & f2 & Hrun3 & E2 & Hnew2 & Hph & Hpr2 & Hs2 & Hb2).
  set (R2 := with_region ph _ R1) in *.
  pose proof (ei_counts _ _ Himg). pose proof (ei_tables _ _ Himg) as Ht. pose proof (ei_strings _ _ Himg) as Hstr.
  assert (∀ j f, parser_ready (live := live) j (R2) elf f img h → ∀ a, elf ≤ a < elf + sizeof_ELF → ¬ heap_area j a) as Helfj.
  { intros j f Hj a Ha. exact (proj1 (pr_elf _ _ _ _ _ _ Hj a Ha)). }
  assert (Z.of_nat (length (slice img (h_shoff h) (sizeof_Shdr * h_shnum h))) = sizeof_Shdr * h_shnum h) as Lsh
    by (apply length_slice; unfold sizeof_Shdr, sizeof_Phdr in *; lia).
  assert (Z.of_nat (length (slice img (h_phoff h) (sizeof_Phdr * h_phnum h))) = sizeof_Phdr * h_phnum h) as Lph
    by (apply length_slice; unfold sizeof_Shdr, sizeof_Phdr in *; lia).
  assert (Z.of_nat (length (slice img (h_stroff h) (h_strsize h))) = h_strsize h) as Lst by (apply length_slice; lia).
  assert (f_sections f2 = sh ∧ f_sections_loaded f2 = (if decide (sh = 0) then 0 else 1) ∧ f_programs f2 = ph ∧
    f_programs_loaded f2 = (if decide (ph = 0) then 0 else 1) ∧ f_file f2 = file ∧ f_strings_loaded f2 = 0) as (F1 & F2 & F3 & F4 & F5 & F6).
  { rewrite E2, E1. by repeat case_decide. }
  assert (sh ≠ 0 → bytes_at (kram k2) sh (slice img (h_shoff h) (sizeof_Shdr * h_shnum h))) as Hb1'.
  { intros Hne. eapply (region_bytes k1 k2 R1 elf); [apply Hpr1|exact Hs2| |by apply with_region_new| |by apply Hb1].
    - intros a Ha. exact (proj1 (pr_elf _ _ _ _ _ _ Hpr1 a Ha)).
    - lia. }
  assert (∃ st r3 k3 f3, (let* size := in_ram (elf_get_stringsectionsize elf) in
     let* q := kalloc size in
     in_ram (store64 (elf + ELF_strings_section) q) ;;
     in_ram (elf_load_strings_section elf)) k2 = Ok r3 k3 ∧
    f3 = (if decide (st = 0) then set_strings st f2 else set_strings_loaded 1 (set_strings st f2)) ∧ fresh_pointer R2 st ∧
    parser_ready (live := live) k3 (with_region st (h_strsize h) R2) elf f3 img h ∧ heap_step elf R2 k2 k3 ∧
    (st ≠ 0 → bytes_at (kram k3) st (slice img (h_stroff h) (h_strsize h)))) as (st & r3 & k3 & f3 & Hrun4 & E3 & Hnew3 & Hpr3 & Hs3 & Hb3).
  { destruct (decide (sh = 0)) as [E|Hne].
    - destruct (parse_strings_none k2 R2 elf f2 img h Hpr2) as (r3 & k3 & Hr & Hp3 & Hst3); [exact F2|].
      exists 0, r3, k3, (set_strings 0 f2). rewrite decide_True by done. split; [exact Hr|]. split; [done|]. split; [by right|]. split; [exact Hp3|]. by split.
    - destruct (parse_strings k2 R2 elf f2 img h Hpr2) as (st & r3 & k3 & f3 & Hr & He & Hf & _ & Hp3 & Hst3 & Hb3).
      + split; [exact F2|]. rewrite F1. split; [lia|by apply Hb1'].
      + exists sh, (sizeof_Shdr * h_shnum h). split; [|by rewrite F1]. apply with_region_keeps; [done|by apply with_region_new].
      + exists st, r3, k3, f3. done. }
  exists m0, k3, f3, R1, R2, (with_region st (h_strsize h) R2).
  assert (f_sections f3 = sh ∧ f_sections_loaded f3 = (if decide (sh = 0) then 0 else 1) ∧ f_programs f3 = ph ∧
    f_programs_loaded f3 = (if decide (ph = 0) then 0 else 1) ∧ f_file f3 = file ∧ f_strings f3 = st ∧
    f_strings_loaded f3 = (if decide (st = 0) then 0 else 1)) as (G1 & G2 & G3 & G4 & G5 & G6 & G7).
  { rewrite E3. case_decide; cbn; by rewrite ?F1, ?F2, ?F3, ?F4, ?F5, ?F6. }
  split; [exact Hrun0|]. split.
  { unfold elf_alloc_and_parse. rewrite (bind_ok _ _ _ _ _ Hrun1).
    rewrite (bind_group _ _ _ _ _ _ _ _ Hrun2), (bind_group _ _ _ _ _ _ _ _ Hrun3), (bind_group _ _ _ _ _ _ _ _ Hrun4). done. }
  assert (∀ p n bs, R2 !! p = Some n → Z.of_nat (length bs) ≤ n → bytes_at (kram k2) p bs → bytes_at (kram k3) p bs) as Hkeep.
  { intros p l bs Hp Hl. eapply region_bytes; [apply Hpr2|exact Hs3| |exact Hp|exact Hl]. intros a Ha. exact (proj1 (pr_elf _ _ _ _ _ _ Hpr2 a Ha)). }
  split; rewrite ?G1, ?G3, ?G6; try done.
  - eapply heap_step_trans; [|eapply heap_step_trans; [|exact Hs0|exact Hs1]|eapply heap_step_trans; [|exact Hs2|exact Hs3]]; [|done|].
    + intros a. by apply with_region_in.
    + intros a. by apply with_region_in.
  - unfold table_read. rewrite G2. destruct (decide (sh = 0)) as [E|E]; [done|]. split; [done|].
    eapply (Hkeep sh (sizeof_Shdr * h_shnum h)); [apply with_region_keeps; [done|by apply with_region_new]|lia|by apply Hb1'].
  - unfold table_read. rewrite G4. destruct (decide (ph = 0)) as [E|E]; [done|]. split; [done|].
    eapply (Hkeep ph (sizeof_Phdr * h_phnum h)); [by apply with_region_new|lia|by apply Hb2].
  - unfold table_read. rewrite G7. destruct (decide (st = 0)) as [E|E]; [done|]. split; [done|]. by apply Hb3.
Qed.

(** ** A file that is no program *)

(** The struct when the header was not accepted; nothing is at the address of [p_memsz] of NULL. *)
Record unparsed (k : kernel) (R : gmap Z Z) (elf : Z) (hdr : list Z) : Prop := {
  un_live : live k R;
  un_flag : word_at 4 (kram k) (elf + ELF_header_loaded) 0;
  un_header : bytes_at (kram k) (elf + ELF_header) hdr;
  un_sections : word_at 4 (kram k) (elf + ELF_section_headers_loaded) 0;
  un_programs : word_at 4 (kram k) (elf + ELF_program_headers_loaded) 0;
  un_mapped : mapped (kram k) elf sizeof_ELF;
  un_apart a : elf ≤ a < elf + sizeof_ELF → ¬ heap_table_area k a;
  un_low : below (2 ^ 63) (kram k);
  un_table a : heap_table_area k a → 0 ≤ a < 2 ^ 63;
  un_null : kram k !! 40 = None ∧ 40 < elf;
}.

(** No memory is left for 2^64 - 1 bytes. *)
Lemma kalloc_too_big k R : live k R → below (2 ^ 63) (kram k) → (∀ a, heap_table_area k a → 0 ≤ a < 2 ^ 63) →
  ∃ k', kalloc (u64 (-1)) k = Ok 0 k' ∧ live k' R ∧ heap_frame k k' ∧ below (2 ^ 63) (kram k').
Proof.
  intros Hlive Hlow Htab. change (u64 (-1)) with (2 ^ 64 - 1).
  destruct (regions_alloc k R (2 ^ 64 - 1) Hlive ltac:(lia)) as (p & k' & Hrun & Hfr & _ & Hcase).
  assert (below (2 ^ 63) (kram k')) as Hlow'.
  { intros a Ha. destruct (decide (heap_tbl (main_heap k) ≤ a < heap_tbl (main_heap k) + blocks (main_heap k))) as [Hx|Hx].
    - apply Htab. unfold heap_table_area. lia.
    - apply Hlow. by rewrite <-(proj1 Hfr a Hx). }
  destruct Hcase as [[-> Hl]|(Hp & _ & Hl)]; [by exists k'|]. exfalso.
  pose proof (regions_inside k' _ p _ p Hl (lookup_insert_eq _ _ _) ltac:(lia)) as (_ & _ & Hs). apply Hlow' in Hs.
  pose proof (regions_inside k' _ p _ (2 ^ 63) Hl (lookup_insert_eq _ _ _) ltac:(lia)) as (_ & _ & Hs2). apply Hlow' in Hs2. lia.
Qed.

Lemma unparsed_frame k k' R elf hdr : unparsed k R elf hdr → live k' R → below (2 ^ 63) (kram k') → length hdr = 64%nat →
  (∀ a, heap_table_area k' a ↔ heap_table_area k a) → (∀ a, is_Some (kram k !! a) → is_Some (kram k' !! a)) →
  (∀ a, a = 40 ∨ elf + ELF_header_loaded ≤ a < elf + ELF_section_headers ∨
    elf + ELF_program_headers_loaded ≤ a < elf + ELF_program_headers → kram k' !! a = kram k !! a) → unparsed k' R elf hdr.
Proof.
  intros [] Hl Hlow Hlen Ht Hdom Hag. split; try done.
  - eapply bytes_at_agree; [eassumption|]. intros a Ha. rewrite length_le_bytes in Ha. apply Hag. elf_offsets. lia.
  - eapply bytes_at_agree; [eassumption|]. intros a Ha. rewrite Hlen in Ha. apply Hag. elf_offsets. lia.
  - eapply bytes_at_agree; [eassumption|]. intros a Ha. rewrite length_le_bytes in Ha. apply Hag. elf_offsets. lia.
  - eapply bytes_at_agree; [eassumption|]. intros a Ha. rewrite length_le_bytes in Ha. apply Hag. elf_offsets. lia.
  - intros a Ha. by apply Hdom, un_mapped0.
  - intros a Ha. rewrite Ht. by apply un_apart0.
  - intros a Ha. apply un_table0. by apply Ht.
  - destruct un_null0. split; [|done]. rewrite Hag; [done|by left].
Qed.

(** One of the three tables. *)
Lemma reject_table k R elf hdr (get_size load : M mem Z) o : unparsed k R elf hdr → length hdr = 64%nat →
  get_size (kram k) = Ok (u64 (-1)) (kram k) → (∀ j, unparsed j R elf hdr → load (kram j) = Ok 0 (kram j)) →
  o = ELF_section_headers ∨ o = ELF_program_headers ∨ o = ELF_strings_section →
  ∃ k', (let* size := in_ram get_size in
     let* q := kalloc size in in_ram (store64 (elf + o) q) ;; in_ram load) k = Ok 0 k' ∧ unparsed k' R elf hdr.
Proof.
  intros Hun Hlen Hsize Hload Ho. pose proof Hun as [Hlive _ _ _ _ Hm Hap Hlow Htab [Hnull H40]].
  destruct (kalloc_too_big k R Hlive Hlow Htab) as (k1 & Hrun1 & Hlive1 & Hfr & Hlow1). pose proof Hfr as (Hout & Hdom & _ & _ & _ & _ & Et & Eb).
  assert (unparsed k1 R elf hdr) as Hun1.
  { apply (unparsed_frame k k1 R elf hdr Hun Hlive1 Hlow1 Hlen); [|done|].
    - intros a. unfold heap_table_area. by rewrite Et, Eb.
    - intros a Ha. apply Hout. intros Hx. assert (heap_table_area k a) as Hx' by (unfold heap_table_area; lia).
      destruct Ha as [->|Ha]; [|apply (Hap a); [elf_offsets; lia|done]].
      destruct (regions_table k R 40 Hlive Hx') as [c Hc]. congruence. }
  set (m2 := put_bytes (elf + o) (le_bytes 8 0) (kram k1)).
  assert (store64 (elf + o) 0 (kram k1) = Ok tt m2) as Hstore.
  { apply (store_flag (kram k1) elf o 8 0 (un_mapped _ _ _ _ Hun1)); destruct Ho as [-> | [-> | ->]]; elf_offsets; lia. }
  assert (∀ a, ¬ (elf + o ≤ a < elf + o + 8) → m2 !! a = kram k1 !! a) as Hag by (intros a Ha; apply put_bytes_outside; rewrite length_le_bytes; lia).
  assert (unparsed (set_kram m2 k1) R elf hdr) as Hun2.
  { apply (unparsed_frame k1 _ R elf hdr Hun1); [| |done|done|intros a; apply put_bytes_dom|].
    - eapply regions_stable; [exact Hlive1|done| |intros a; apply put_bytes_dom]. intros a Ha. apply Hag. intros Hx.
      apply (un_apart _ _ _ _ Hun1 a); [destruct Ho as [-> | [-> | ->]]; elf_offsets; lia|done].
    - apply below_put_bytes; [exact Hlow1|destruct Ho as [-> | [-> | ->]]; elf_offsets; lia|]. rewrite length_le_bytes. pose proof (Hlow1 (elf + sizeof_ELF - 1)) as Hl.
      destruct Hl; [apply (un_mapped _ _ _ _ Hun1); unfold sizeof_ELF; lia|]. destruct Ho as [-> | [-> | ->]]; elf_offsets; lia.
    - intros a Ha. apply Hag. destruct Ho as [-> | [-> | ->]]; elf_offsets; lia. }
  exists (set_kram m2 k1). split; [|exact Hun2].
  rewrite (bind_ok _ _ _ _ _ (in_ram_ok _ _ _ _ Hsize)), set_kram_id, (bind_ok _ _ _ _ _ Hrun1), (bind_ok _ _ _ _ _ (in_ram_ok _ _ _ _ Hstore)).
  rewrite (in_ram_ok _ _ _ _ (Hload _ Hun2)). done.
Qed.

Lemma unparsed_header k R elf hdr off n : unparsed k R elf hdr → length hdr = 64%nat → (off + n ≤ 64)%nat →
  ∃ v, load_le n (elf + ELF_header + Z.of_nat off) (kram k) = Ok v (kram k).
Proof.
  intros Hun Hlen Hn. pose proof (slice_at _ _ hdr (Z.of_nat off) (Z.of_nat n) (un_header _ _ _ _ Hun) ltac:(lia) ltac:(lia) ltac:(lia)) as Hb.
  pose proof (length_slice hdr (Z.of_nat off) (Z.of_nat n) ltac:(lia) ltac:(lia) ltac:(lia)) as Hl.
  apply load_le_ok in Hb. replace (length _) with n in Hb by lia. eauto.
Qed.

Lemma unparsed_flags k R elf hdr : unparsed k R elf hdr →
  load32 (elf + ELF_header_loaded) (kram k) = Ok 0 (kram k) ∧ load32 (elf + ELF_section_headers_loaded) (kram k) = Ok 0 (kram k) ∧
  load32 (elf + ELF_program_headers_loaded) (kram k) = Ok 0 (kram k).
Proof. intros []. split; [|split]; (apply (load_word_ok 4 _ _ 0); [assumption|lia]). Qed.

Lemma reject_tables k R elf file m0 m1 hdr : elf_fromfilebuffer elf file (kram k) = Ok tt m0 → elf_parseheader elf m0 = Ok 0 m1 →
  length hdr = 64%nat → unparsed (set_kram m1 k) R elf hdr →
  ∃ m0 k', elf_fromfilebuffer elf file (kram k) = Ok tt m0 ∧ elf_alloc_and_parse elf (set_kram m0 k) = Ok tt k' ∧ unparsed k' R elf hdr.
Proof.
  intros Hrun0 Hrun1 Hlen Hun. set (k1 := set_kram m1 k) in *. destruct (unparsed_flags _ _ _ _ Hun) as (F1 & _ & _).
  destruct (reject_table k1 R elf hdr (elf_get_sectionheaders_bytes elf) (elf_load_sectionheaders elf) ELF_section_headers Hun Hlen)
    as (k2 & Hrun2 & Hun2); [by unfold elf_get_sectionheaders_bytes; rewrite (bind_ok _ _ _ _ _ F1)| |by left|].
  { intros j Hj. destruct (unparsed_flags _ _ _ _ Hj) as (J1 & _ & _). unfold elf_load_sectionheaders. by rewrite (bind_ok _ _ _ _ _ J1). }
  destruct (unparsed_flags _ _ _ _ Hun2) as (F2 & _ & _).
  destruct (reject_table k2 R elf hdr (elf_get_programheaders_bytes elf) (elf_load_programheaders elf) ELF_program_headers Hun2 Hlen)
    as (k3 & Hrun3 & Hun3); [by unfold elf_get_programheaders_bytes; rewrite (bind_ok _ _ _ _ _ F2)| |by right; left|].
  { intros j Hj. destruct (unparsed_flags _ _ _ _ Hj) as (J1 & _ & _). unfold elf_load_programheaders. by rewrite (bind_ok _ _ _ _ _ J1). }
  destruct (unparsed_flags _ _ _ _ Hun3) as (_ & F3 & _). destruct (unparsed_header _ _ _ _ 62 2 Hun3 Hlen) as [v Hv]; [lia|].
  destruct (reject_table k3 R elf hdr (elf_get_stringsectionsize elf) (elf_load_strings_section elf) ELF_strings_section Hun3 Hlen)
    as (k4 & Hrun4 & Hun4); [| |by right; right|].
  { unfold elf_get_stringsectionsize, elf_get_sectionsize. rewrite (bind_ok _ _ _ _ _ Hv). by rewrite (bind_ok _ _ _ _ _ F3). }
  { intros j Hj. destruct (unparsed_flags _ _ _ _ Hj) as (_ & J2 & _). unfold elf_load_strings_section. by rewrite (bind_ok _ _ _ _ _ J2). }
  exists m0, k4. split; [exact Hrun0|]. split; [|exact Hun4]. unfold elf_alloc_and_parse.
  rewrite (bind_ok _ _ _ _ _ (in_ram_ok _ (set_kram m0 k) _ _ Hrun1)). change (set_kram m1 (set_kram m0 k)) with k1.
  by rewrite (bind_group _ _ _ _ _ _ _ _ Hrun2), (bind_group _ _ _ _ _ _ _ _ Hrun3), (bind_group _ _ _ _ _ _ _ _ Hrun4).
Qed.

(** The parser takes it, and leaves everything NULL. *)
Lemma reject_image k R elf file img n : live k R → R !! file = Some n → 64 ≤ Z.of_nat (length img) ≤ n → 0 ≤ file →
  bytes_at (kram k) file img → Forall byte_range img → img !! 0%nat ≠ Some ELF_MAGIC_NUMBER → mapped (kram k) elf sizeof_ELF →
  (∀ a, elf ≤ a < elf + sizeof_ELF → ¬ heap_area k a ∧ ¬ heap_table_area k a) → below (2 ^ 63) (kram k) →
  (∀ a, heap_table_area k a → 0 ≤ a < 2 ^ 63) → kram k !! 40 = None → 40 < elf →
  ∃ m0 k', elf_fromfilebuffer elf file (kram k) = Ok tt m0 ∧ elf_alloc_and_parse elf (set_kram m0 k) = Ok tt k' ∧
    unparsed k' R elf (slice img 0 64).
Proof.
  intros Hlive HR Hn Hf0 Hb Hrange Hmagic Hm Helf Hlow Htab Hnull H40.
  assert (∀ a, file ≤ a < file + Z.of_nat (length img) → heap_area k a ∧ ¬ heap_table_area k a ∧ is_Some (kram k !! a)) as Hin.
  { intros a Ha. eapply regions_inside; [done|done|lia]. }
  assert (disjoint elf sizeof_ELF file (Z.of_nat (length img))) as Hap.
  { apply not_overlap; [unfold sizeof_ELF; lia|lia|]. intros a Ha Hb'. destruct (Hin a Hb') as [Hh _]. exact (proj1 (Helf a Ha) Hh). }
  assert (file < 2 ^ 63) as Hf63 by (destruct (Hin file) as (_ & _ & Hs); [lia|]; apply Hlow in Hs; lia).
  destruct (fromfilebuffer_spec (kram k) elf file Hm) as (m0 & Hrun0 & Hfile & Hw1 & Hw2 & _ & _ & _ & Hw6 & _ & Hag & Hdom).
  assert (mapped m0 elf sizeof_ELF) as Hm0 by (intros a Ha; by apply Hdom, Hm).
  assert (length (slice img 0 64) = 64%nat) as Hlen by (pose proof (length_slice img 0 64); lia).
  set (m1 := put_bytes (elf + ELF_header) (slice img 0 64) m0).
  assert (elf_parseheader elf m0 = Ok 0 m1) as Hrun1.
  { rewrite (elf_parseheader_checks m0 elf file (slice img 0 64)); try done.
    - rewrite decide_False; [done|]. unfold slice. change (Z.to_nat 0) with 0%nat. by rewrite drop_0, lookup_take_lt by lia.
    - lia.
    - pose proof (slice_at m0 file img 0 64) as Hsl. rewrite Z.add_0_r in Hsl. apply Hsl; [|lia..].
      eapply bytes_at_agree; [exact Hb|]. intros a Ha. apply Hag. unfold disjoint in Hap. lia.
    - by apply slice_range.
    - unfold disjoint in *. elf_offsets. lia. }
  assert (∀ a, ¬ (elf ≤ a < elf + sizeof_ELF) → m1 !! a = kram k !! a) as Hag1.
  { intros a Ha. unfold m1. rewrite put_bytes_outside; [by apply Hag|]. rewrite Hlen. elf_offsets. lia. }
  assert (unparsed (set_kram m1 k) R elf (slice img 0 64)) as Hun1.
  { split; try (apply bytes_at_put_ne; [assumption|rewrite ?length_le_bytes, ?Hlen; elf_offsets; lia]).
    - eapply regions_stable; [done|done| |intros a Hs; by apply put_bytes_dom, Hdom]. intros a Ha. apply Hag1. intros Hx. by apply (Helf a Hx).
    - apply bytes_at_put.
    - intros a Ha. by apply put_bytes_dom, Hm0.
    - intros a Ha. by apply Helf.
    - intros a Ha. destruct (decide (elf ≤ a < elf + sizeof_ELF)) as [Hx|Hx]; [by apply Hlow, Hm|]. apply Hlow. by rewrite <-Hag1.
    - exact Htab.
    - split; [|done]. change (m1 !! 40 = None). rewrite Hag1; [done|]. lia. }
  exact (reject_tables k R elf file m0 m1 (slice img 0 64) Hrun0 Hrun1 Hlen Hun1).
Qed.

(** * Properties *)

(** C11: Parsing a program file: for a well-formed file in a block of the heap, [elf_fromfilebuffer]
    and [elf_alloc_and_parse] leave an [ELF] struct with the header of the file and, each in new
    memory of the heap, the table of sections, the table of segments and the names of the sections
    as they are in the file, or NULL and the flag off where [kalloc] found no memory; what was
    allocated before is unchanged, the file included. *)
Theorem elf_parse_loads k R elf file img h n : live k R → R !! file = Some n → Z.of_nat (length img) ≤ n → 0 ≤ file →
  bytes_at (kram k) file img → elf_image img h → mapped (kram k) elf sizeof_ELF →
  (∀ a, elf ≤ a < elf + sizeof_ELF → ¬ heap_area k a ∧ ¬ heap_table_area k a) → below (2 ^ 63) (kram k) →
  (∀ a, heap_table_area k a → 0 ≤ a < 2 ^ 63) →
  ∃ m0 k' f, elf_fromfilebuffer elf file (kram k) = Ok tt m0 ∧ elf_alloc_and_parse elf (set_kram m0 k) = Ok tt k' ∧
    elf_struct (kram k') elf f ∧ f_file f = file ∧ f_header f = take 64 img ∧ bytes_at (kram k') file img ∧
    table_read k' (f_sections f) (f_sections_loaded f) (slice img (h_shoff h) (sizeof_Shdr * h_shnum h)) ∧
    table_read k' (f_programs f) (f_programs_loaded f) (slice img (h_phoff h) (sizeof_Phdr * h_phnum h)) ∧
    table_read k' (f_strings f) (f_strings_loaded f) (slice img (h_stroff h) (h_strsize h)) ∧
    live k' (with_region (f_strings f) (h_strsize h) (with_region (f_programs f) (sizeof_Phdr * h_phnum h)
      (with_region (f_sections f) (sizeof_Shdr * h_shnum h) R))) ∧
    ∀ p l a, R !! p = Some l → p ≤ a < p + l → kram k' !! a = kram k !! a.
Proof.
  intros Hlive HR Hn Hf0 Hb Himg Hm Helf Hlow Htab.
  destruct (elf_parse_spec k R elf file img h n Hlive HR Hn Hf0 Hb Himg Hm Helf Hlow Htab)
    as (m0 & k' & f & R1 & R2 & R3 & Hrun0 & Hrun & [[Hpg Hlive' _ _ _ _] Ef Hs Hsec Hprog Hstr E1 E2 E3 _]).
  exists m0, k', f. split; [exact Hrun0|]. split; [exact Hrun|]. split; [apply Hpg|]. split; [exact Ef|].
  split; [rewrite (pg_header _ _ _ _ _ Hpg); done|]. split; [rewrite <-Ef; apply Hpg|].
  split; [exact Hsec|]. split; [exact Hprog|]. split; [exact Hstr|]. split; [by rewrite <-E1, <-E2, <-E3|].
  intros p l a Hp Ha. destruct (regions_inside k R p l a Hlive Hp Ha) as (Hh & Ht & _). apply (hs_out _ _ _ _ Hs); [done| |].
  - intros He. by destruct (Helf a He).
  - intros _. by exists p, l.
Qed.
End whole.

(** * Witness: a file with a segment and a section in the first block of the heap. *)

Definition demo_image : list Z :=
  0x7f :: replicate 23 0 ++ le_bytes 8 0x80000000 ++ le_bytes 8 64 ++ le_bytes 8 120 ++ replicate 6 0 ++
  le_bytes 2 56 ++ le_bytes 2 1 ++ le_bytes 2 64 ++ le_bytes 2 1 ++ le_bytes 2 0 ++
  replicate 8 1 ++ le_bytes 8 184 ++ replicate 24 1 ++ le_bytes 8 3 ++ replicate 8 1 ++ replicate 24 2 ++ le_bytes 8 184 ++ le_bytes 8 4 ++ replicate 24 3 ++ chars "abc" ++ [0].
Definition demo_image_header : elf_header := mk_elf_header 0x80000000 64 120 1 1 0 184 4.
Definition demo_image_heap : heap := mk_heap 0x2000 0x1000 6 5.
Definition demo_image_ram : mem :=
  put_bytes 0x1000 [0xe0; 0; 0; 0; 0; 0; 7] $ put_bytes 0x500 (replicate 120 0) $ put_bytes 0x2000 demo_image $
  put_bytes 0x2000 (replicate (Z.to_nat 0x6000) 0) ∅.
Definition demo_image_kernel : kernel :=
  mk_kernel (mk_machine demo_image_ram (λ _, 0) [] (mk_environment (λ _ _, 0) (λ _ _, 0))) demo_image_heap (mk_gic_table [] []).

Lemma demo_image_ok : elf_image demo_image demo_image_header.
Proof.
  assert (length demo_image = 188%nat) as Hlen by reflexivity.
  split; rewrite ?Hlen; try reflexivity; cbn [demo_image_header h_entry h_phoff h_shoff h_phnum h_shnum h_shstrndx h_stroff h_strsize];
    unfold sizeof_Phdr, sizeof_Shdr; try lia.
  apply (bool_decide_unpack (Forall (λ b, 0 ≤ b < 256) demo_image)). vm_compute. exact I.
Qed.

Lemma demo_image_areas a : (heap_area demo_image_kernel a ↔ 0x2000 ≤ a < 0x8000) ∧ (heap_table_area demo_image_kernel a ↔ 0x1000 ≤ a < 0x1007).
Proof.
  change ((0x2000 ≤ a < 0x2000 + 4096 * 6 ↔ 0x2000 ≤ a < 0x8000) ∧ (0x1000 ≤ a < 0x1000 + 6 + 1 ↔ 0x1000 ≤ a < 0x1007)). lia.
Qed.

Lemma demo_image_live : heap_regions demo_image_kernel {[0x2000 := 4096]}.
Proof.
  split; [by change (0 < 0x2000)|]. split.
  - intros a Ha. destruct (demo_image_areas a) as [E1 E2]. apply (proj1 E1) in Ha. split; [|intros Ht; apply (proj1 E2) in Ht; lia].
    change (is_Some (demo_image_ram !! a)). unfold demo_image_ram. do 3 apply put_bytes_dom.
    apply (mapped_put_bytes_self _ (replicate (Z.to_nat 0x6000) 0) ∅ 0x6000); [rewrite length_replicate; lia|lia].
  - exists [Used 1; Free; Free; Free; Free; Free]. split.
    + split; [|by repeat constructor|done|done|done]. exists 7. exact (bytes_at_put 0x1000 [0xe0; 0; 0; 0; 0; 0; 7] _).
    + split; [|by intros i l [[= -> ->]|H]%elem_of_cons; [by exists 4096|apply not_elem_of_nil in H]].
      intros p n [<- <-]%lookup_singleton_Some. exists 0%nat, 1%nat. split; [by left|]. change (0x2000 = 0x2000 + 4096 * 0 ∧ 4096 ≤ 4096 * 1). lia.
Qed.

Lemma elf_parse_loads_witness :
  ∃ m0 k' f, elf_fromfilebuffer 0x500 0x2000 (kram demo_image_kernel) = Ok tt m0 ∧
    elf_alloc_and_parse 0x500 (set_kram m0 demo_image_kernel) = Ok tt k' ∧ elf_struct (kram k') 0x500 f ∧
    f_header f = take 64 demo_image ∧ table_read k' (f_strings f) (f_strings_loaded f) (slice demo_image 184 4).
Proof.
  destruct (elf_parse_loads demo_image_kernel {[0x2000 := 4096]} 0x500 0x2000 demo_image demo_image_header 4096)
    as (m0 & k' & f & Hrun0 & Hrun & Hst & _ & Hh & _ & _ & _ & Hstr & _).
  - exact demo_image_live.
  - apply lookup_singleton_eq.
  - apply (bool_decide_unpack _). vm_compute. exact I.
  - lia.
  - change (bytes_at demo_image_ram 0x2000 demo_image). unfold demo_image_ram.
    do 2 (apply bytes_at_put_ne; [|rewrite ?length_replicate; cbn [length]; change (length demo_image) with 188%nat; lia]). apply bytes_at_put.
  - exact demo_image_ok.
  - change (mapped demo_image_ram 0x500 120). unfold demo_image_ram. apply mapped_put_bytes, mapped_put_bytes_self. rewrite length_replicate. lia.
  - intros a Ha. destruct (demo_image_areas a) as [-> ->]. unfold sizeof_ELF in Ha. lia.
  - change (below (2 ^ 63) demo_image_ram). unfold demo_image_ram.
    do 4 (apply below_put_bytes; [|lia|rewrite ?length_replicate; cbn [length]; try change (length demo_image) with 188%nat; lia]).
    apply below_empty.
  - intros a Ha. apply (proj1 (proj2 (demo_image_areas a))) in Ha. lia.
  - exists m0, k', f. split; [exact Hrun0|]. split; [exact Hrun|]. split; [exact Hst|]. split; [exact Hh|exact Hstr].
Defined.
