(* ===== verification/Virtio.v ===== *)
(** * The disk (kernel/device/virtioblk.c, include/virtioblk.h) and block devices (kernel/device/block.c)

    [struct virtioblk], the virtqueue, the request and [Sync_read] are in memory with the layout
    of the ABI; the registers of the device are the memory-mapped words from [mmio] on.  The
    device itself is not part of the sources: what it does to the memory until it raises its
    interrupt, and the delivery of that interrupt, is the parameter [interrupt]. *)
From stdpp Require Import base list gmap.
From Stdlib Require Import ZArith Lia.
From stdpp Require Import strings.
From S2P Require Import Prelude Layout Memory CString Heap Machine Log Gic Kernel.

Definition VIRTIO_DISK_BASE_ADDRESS : Z := 0xa000000.
Definition VIRTIO_DISK_SIZE : Z := 0x200.
Definition VIRTIO_DISK_MAGIC_VALUE : Z := 0x74726976.
Definition QUEUE_SIZE : Z := 1024.

Definition VIRTIO_MAGIC_OFFSET : Z := 0x0.
Definition VIRTIO_VERSION_OFFSET : Z := 0x4.
Definition VIRTIO_DEVICEID_OFFSET : Z := 0x8.
Definition VIRTIO_DEV_FEATURES_OFFSET : Z := 0x10.
Definition VIRTIO_DEV_FEATURESSELECT_OFFSET : Z := 0x14.
Definition VIRTIO_QUEUE_INDEX_OFFSET : Z := 0x30.
Definition VIRTIO_QUEUE_SIZE_OFFSET : Z := 0x38.
Definition VIRTIO_QUEUE_READY_OFFSET : Z := 0x44.
Definition VIRTIO_QUEUE_NOTIFY_OFFSET : Z := 0x50.
Definition VIRTIO_INTERRUPT_STATUS_OFFSET : Z := 0x60.
Definition VIRTIO_INTERRUPT_ACK_OFFSET : Z := 0x64.
Definition VIRTIO_DEVICE_STATUS_OFFSET : Z := 0x70.
Definition VIRTIO_QUEUE_DESCRIPTOR_LOW_OFFSET : Z := 0x80.
Definition VIRTIO_QUEUE_DESCRIPTOR_HIGH_OFFSET : Z := 0x84.
Definition VIRTIO_QUEUE_AVAILABLE_LOW_OFFSET : Z := 0x90.
Definition VIRTIO_QUEUE_AVAILABLE_HIGH_OFFSET : Z := 0x94.
Definition VIRTIO_QUEUE_USED_LOW_OFFSET : Z := 0xa0.
Definition VIRTIO_QUEUE_USED_HIGH_OFFSET : Z := 0xa4.

Definition VIRTIO_STATUS_ACK : Z := 1.
Definition VIRTIO_STATUS_DRIVER : Z := 2.
Definition VIRTIO_STATUS_FEATURES_OK : Z := 8.
Definition VIRTIO_STATUS_DRIVER_OK : Z := 4.

Definition VIRTQ_DESC_F_NEXT : Z := 1.
Definition VIRTQ_DESC_F_WRITE : Z := 2.

(** ** Structs *)

Definition virtioblk : cstruct := mk_cstruct false
  [("mmio", Ptr); ("descriptors", Ptr); ("avail", Ptr); ("used", Ptr)]%string.
Definition Virtq_desc : cstruct := mk_cstruct true
  [("addr", U64); ("len", U32); ("flags", U16); ("next", U16)]%string.
Definition Virtq_avail : cstruct := mk_cstruct true
  [("flags", U16); ("idx", U16); ("ring", Array U16 1024); ("used_event", U16)]%string.
Definition Virtq_used_elem : cstruct := mk_cstruct true [("id", U32); ("len", U32)]%string.
Definition Virtq_used : cstruct := mk_cstruct true
  [("flags", U16); ("idx", U16); ("ring", Array (Nested (sizeof Virtq_used_elem) 1) 1024);
   ("avail_event", U16)]%string.
Definition Virtio_blk_req : cstruct := mk_cstruct true
  [("type", U32); ("reserved", U32); ("sector", U64); ("status", U8)]%string.
Definition Sync_read : cstruct := mk_cstruct false [("disk", Ptr); ("done", U8)]%string.

(** [struct virtioblk] *)
Definition disk_mmio : Z := 0.
Definition disk_descriptors : Z := 8.
Definition disk_avail : Z := 16.
Definition disk_used : Z := 24.

(** [Virtq_desc]: addr, len, flags, next. *)
Definition sizeof_desc : Z := 16.
Definition desc_addr : Z := 0.
Definition desc_len : Z := 8.
Definition desc_flags : Z := 12.
Definition desc_next : Z := 14.

(** [Virtq_avail]: flags, idx, ring[QUEUE_SIZE], used_event; [Virtq_used]. *)
Definition sizeof_avail : Z := 2 + 2 + 2 * QUEUE_SIZE + 2.
Definition avail_flags : Z := 0.
Definition avail_idx : Z := 2.
Definition avail_ring : Z := 4.
Definition sizeof_used : Z := 2 + 2 + 8 * QUEUE_SIZE + 2.

(** [Virtio_blk_req]: type, reserved, sector, status. *)
Definition sizeof_req : Z := 17.
Definition req_type : Z := 0.
Definition req_sector : Z := 8.

(** [Sync_read]: disk, done. *)
Definition sizeof_sync : Z := 16.
Definition sync_disk : Z := 0.
Definition sync_done : Z := 8.

(** [mb()] *)
Definition mb : M kernel unit := on_machine (emit Dsb).

(** ** Registers *)

Definition disk_read_reg (disk offset : Z) : M kernel Z :=
  let* mmio := in_ram (load64 (disk + disk_mmio)) in
  on_machine (mmio_read32 (mmio + offset)).

Definition disk_set_reg (disk offset value : Z) : M kernel unit :=
  let* mmio := in_ram (load64 (disk + disk_mmio)) in
  on_machine (mmio_write32 (mmio + offset) value).

Definition disk_check_magic (disk : Z) : M kernel bool :=
  let* v := disk_read_reg disk VIRTIO_MAGIC_OFFSET in
  ret (v =? VIRTIO_DISK_MAGIC_VALUE).

Definition disk_get_version (disk : Z) : M kernel Z :=
  let* v := disk_read_reg disk VIRTIO_VERSION_OFFSET in ret (i32 v).

Definition disk_get_device_id (disk : Z) : M kernel Z :=
  let* v := disk_read_reg disk VIRTIO_DEVICEID_OFFSET in ret (i32 v).

Definition disk_init (disk offset : Z) : M kernel Z :=
  in_ram (store64 (disk + disk_mmio) (u64 (VIRTIO_DISK_BASE_ADDRESS + offset * VIRTIO_DISK_SIZE))) ;;
  let* magic := disk_check_magic disk in
  if negb magic then ret (-1) else
  let* version := disk_get_version disk in
  if negb (version =? 2) then ret (-2) else
  let* device_id := disk_get_device_id disk in
  if device_id =? 0 then ret (-3) else
  disk_set_reg disk VIRTIO_DEVICE_STATUS_OFFSET 0 ;;
  mb ;;
  disk_set_reg disk VIRTIO_DEVICE_STATUS_OFFSET VIRTIO_STATUS_ACK ;;
  mb ;;
  disk_set_reg disk VIRTIO_DEVICE_STATUS_OFFSET VIRTIO_STATUS_DRIVER ;;
  mb ;;
  let* feat := disk_read_reg disk VIRTIO_DEV_FEATURES_OFFSET in
  mb ;;
  disk_set_reg disk VIRTIO_DEV_FEATURESSELECT_OFFSET feat ;;
  mb ;;
  disk_set_reg disk VIRTIO_DEVICE_STATUS_OFFSET VIRTIO_STATUS_FEATURES_OK ;;
  let* status := disk_read_reg disk VIRTIO_DEVICE_STATUS_OFFSET in
  if negb (status =? VIRTIO_STATUS_FEATURES_OK) then ret (-4) else
  mb ;;
  disk_set_reg disk VIRTIO_QUEUE_INDEX_OFFSET 0 ;;
  let* ready := disk_read_reg disk VIRTIO_QUEUE_READY_OFFSET in
  if negb (ready =? 0x0) then ret (-5) else
  let queue_size := QUEUE_SIZE in
  disk_set_reg disk VIRTIO_QUEUE_SIZE_OFFSET queue_size ;;
  let* descriptors := kalloc (u64 (sizeof_desc * queue_size)) in
  in_ram (store64 (disk + disk_descriptors) descriptors) ;;
  let* avail := kalloc sizeof_avail in
  in_ram (store64 (disk + disk_avail) avail) ;;
  let* used := kalloc sizeof_used in
  in_ram (store64 (disk + disk_used) used) ;;
  disk_set_reg disk VIRTIO_QUEUE_DESCRIPTOR_LOW_OFFSET descriptors ;;
  disk_set_reg disk VIRTIO_QUEUE_DESCRIPTOR_HIGH_OFFSET 0 ;;
  disk_set_reg disk VIRTIO_QUEUE_AVAILABLE_LOW_OFFSET avail ;;
  disk_set_reg disk VIRTIO_QUEUE_AVAILABLE_HIGH_OFFSET 0 ;;
  disk_set_reg disk VIRTIO_QUEUE_USED_LOW_OFFSET used ;;
  disk_set_reg disk VIRTIO_QUEUE_USED_HIGH_OFFSET 0 ;;
  mb ;;
  disk_set_reg disk VIRTIO_QUEUE_READY_OFFSET 1 ;;
  disk_set_reg disk VIRTIO_DEVICE_STATUS_OFFSET VIRTIO_STATUS_DRIVER_OK ;;
  mb ;;
  ret 0.

(** ** Requests *)

Section requests.
(** The address of [disk_handle_interrupt_sync]; what happens between two looks at [sync->done];
    how often the waiting loop looks. *)
Variables (DISK_HANDLER : Z) (interrupt : M kernel unit) (polls : nat).

(** Assignments to a field of [disk->descriptors[i]]. *)
Definition set_desc (width : nat) (disk i field v : Z) : M kernel unit :=
  let* descriptors := in_ram (load64 (disk + disk_descriptors)) in
  in_ram (store_le width (descriptors + sizeof_desc * i + field) v).

(** The three descriptors of a request. *)
Definition disk_fill (disk req write data : Z) : M kernel unit :=
  let desc1 := 0 in
  let desc2 := desc1 + 1 in
  let desc3 := desc2 + 1 in
  (* header descriptor *)
  set_desc 8 disk desc1 desc_addr req ;;
  set_desc 4 disk desc1 desc_len 16 ;;
  set_desc 2 disk desc1 desc_flags VIRTQ_DESC_F_NEXT ;;
  set_desc 2 disk desc1 desc_next desc2 ;;
  (* data descriptor *)
  set_desc 8 disk desc2 desc_addr data ;;
  set_desc 4 disk desc2 desc_len 512 ;;
  let data_flags := VIRTQ_DESC_F_NEXT in
  let data_flags := if write =? 0 then Z.lor data_flags VIRTQ_DESC_F_WRITE else data_flags in
  set_desc 2 disk desc2 desc_flags data_flags ;;
  set_desc 2 disk desc2 desc_next desc3 ;;
  (* status descriptor *)
  set_desc 8 disk desc3 desc_addr (req + 16) ;;
  set_desc 4 disk desc3 desc_len 1 ;;
  set_desc 2 disk desc3 desc_flags VIRTQ_DESC_F_WRITE.

(** The entry of the available ring. *)
Definition disk_offer (disk desc1 : Z) : M kernel unit :=
  let* avail := in_ram (load64 (disk + disk_avail)) in
  let* idx := in_ram (load16 (avail + avail_idx)) in
  in_ram (store16 (avail + avail_ring + 2 * idx) desc1) ;;
  let* avail := in_ram (load64 (disk + disk_avail)) in
  let* idx := in_ram (load16 (avail + avail_idx)) in
  in_ram (store16 (avail + avail_idx) (u16 (idx + 1))) ;;
  let* avail := in_ram (load64 (disk + disk_avail)) in
  in_ram (store16 (avail + avail_flags) 0).

(** Telling the device; its interrupt will find [sync]. *)
Definition disk_notify (disk sync : Z) : M kernel unit :=
  in_ram (store64 (sync + sync_disk) disk) ;;
  in_ram (storeb (sync + sync_done) 0) ;;
  on_gic (gic_redistributor_set_handler 79 DISK_HANDLER sync) ;;
  on_machine (sysutils_mask_fiq false) ;;
  disk_set_reg disk VIRTIO_QUEUE_NOTIFY_OFFSET 0 ;;
  mb.

(** [while (!sync->done) { }] *)
Definition disk_wait (sync : Z) : M kernel unit :=
  loop polls (λ _ : unit,
    let* d := in_ram (loadb (sync + sync_done)) in
    if d =? 0 then interrupt ;; ret (inl tt) else ret (inr tt)) tt.

Definition disk_create_request_sync (disk write data sector : Z) : M kernel Z :=
  frame_array sizeof_req (λ req,
    in_ram (store64 (req + req_sector) (u64 sector)) ;;
    in_ram (store32 (req + req_type) write) ;;
    disk_fill disk req write data ;;
    disk_offer disk 0 ;;
    mb ;;
    let* sync := kalloc sizeof_sync in
    disk_notify disk sync ;;
    disk_wait sync ;;
    on_machine (sysutils_mask_fiq true) ;;
    kfree sync ;;
    ret 0).

Definition disk_handle_used (disk : Z) : M kernel unit := ret tt.

Definition disk_handle_interrupt_sync (id argument : Z) : M kernel unit :=
  let* disk := in_ram (load64 (argument + sync_disk)) in
  let* interrupt := disk_read_reg disk VIRTIO_INTERRUPT_STATUS_OFFSET in
  disk_set_reg disk VIRTIO_INTERRUPT_ACK_OFFSET interrupt ;;
  disk_handle_used disk ;;
  in_ram (storeb (argument + sync_done) 1) ;;
  disk_handle_used disk.

Definition disk_block_read (ptr n args : Z) : M kernel Z :=
  disk_create_request_sync args 0 ptr (i32 n).

Definition disk_block_write (ptr n args : Z) : M kernel Z :=
  disk_create_request_sync args 1 ptr (i32 n).

End requests.

Lemma virtio_layouts :
  layout_is virtioblk [("mmio", disk_mmio); ("descriptors", disk_descriptors); ("avail", disk_avail);
    ("used", disk_used)]%string 32 ∧
  layout_is Virtq_desc [("addr", desc_addr); ("len", desc_len); ("flags", desc_flags);
    ("next", desc_next)]%string sizeof_desc ∧
  layout_is Virtq_avail [("flags", avail_flags); ("idx", avail_idx); ("ring", avail_ring)]%string sizeof_avail ∧
  layout_is Virtq_used [] sizeof_used ∧
  layout_is Virtio_blk_req [("type", req_type); ("sector", req_sector); ("status", 16)]%string sizeof_req ∧
  layout_is Sync_read [("disk", sync_disk); ("done", sync_done)]%string sizeof_sync.
Proof. repeat (split; [check_layout|]). check_layout. Qed.

(** ** block.c *)

Definition block_struct : cstruct := mk_cstruct false
  [("read", Ptr); ("write", Ptr); ("sector_size", Size); ("args", Ptr); ("read_only", Bool)]%string.

(** [struct block]: read, write, sector_size, args, read_only. *)
Definition block_read_fn : Z := 0.
Definition block_write_fn : Z := 8.
Definition block_sector_size : Z := 16.
Definition block_args : Z := 24.
Definition block_read_only : Z := 32.

Lemma block_layout : layout_is block_struct [("read", block_read_fn); ("write", block_write_fn);
  ("sector_size", block_sector_size); ("args", block_args); ("read_only", block_read_only)]%string 40.
Proof. check_layout. Qed.

(** The struct that [disk_register_block_device] returns, stored at [block]; [READ] and [WRITE]
    are the addresses of [disk_block_read] and [disk_block_write]. *)
Definition disk_register_block_device (READ WRITE block disk : Z) : M mem unit :=
  store64 (block + block_args) disk ;;
  store64 (block + block_read_fn) READ ;;
  store64 (block + block_write_fn) WRITE ;;
  storeb (block + block_read_only) 0 ;;
  store64 (block + block_sector_size) 512.

Section block.
(** The functions behind the pointers a [struct block] can hold. *)
Variable call : Z → option (Z → Z → Z → M kernel Z).

Definition call_block (f ptr n args : Z) : M kernel Z :=
  match call f with Some g => g ptr n args | None => fail BadCall end.

Definition block_write (block ptr n : Z) : M kernel Z :=
  let* f := in_ram (load64 (block + block_write_fn)) in
  let* args := in_ram (load64 (block + block_args)) in
  call_block f ptr n args.

Definition block_read (block ptr n : Z) : M kernel Z :=
  let* f := in_ram (load64 (block + block_read_fn)) in
  let* args := in_ram (load64 (block + block_args)) in
  call_block f ptr n args.
End block.
