(* ===== verification/Fat.v ===== *)
(** * The FAT16 reader (kernel/fs/fat.c, include/fs/fat.h)

    [struct fat_handle], the FAT and the root directory are in memory; the packed structs of the
    disk have the layout of the disk.  Sectors come from [block_read], an interface here. *)
From stdpp Require Import base list gmap.
From Stdlib Require Import ZArith Lia.
From stdpp Require Import strings.
From S2P Require Import Prelude Layout Memory CString Heap Machine Log Gic Kernel.

Definition SECTOR_SIZE : Z := 512.

(** ** Structs *)

Definition fat16_header : cstruct := mk_cstruct true
  [("pad1", Array U8 11); ("bytes_per_sector", U16); ("sectors_per_cluster", U8);
   ("reserved_sectors", U16); ("fat_copies", U8); ("possible_root_entries", U16);
   ("small_sectors", U16); ("descriptor", U8); ("sectors_per_fat", U16); ("sectors_per_track", U16);
   ("number_of_heads", U16); ("hidden_sectors", U32); ("large_sectors", U32);
   ("pad2", Array U8 476)]%string.

Definition fat16_dir_entry : cstruct := mk_cstruct true
  [("filename", Array Char 8); ("extension", Array Char 3); ("attribute", U8); ("windowsnt", U8);
   ("creation_ms", U8); ("creation_time", U16); ("creation_date", U16); ("lastaccess_date", U16);
   ("fat32_reserved", U16); ("lastwrite_time", U16); ("lastwrite_date", U16);
   ("starting_cluster", U16); ("filesize_bytes", U32)]%string.

Definition fat_handle : cstruct := mk_cstruct false
  [("header", Nested (sizeof fat16_header) 1); ("sectors", Size); ("fat_size_bytes", Size);
   ("fat_offset", Size); ("fat", Ptr); ("dir_entry_offset", Size); ("dir_entry_size_bytes", Size);
   ("entries", Ptr); ("data_offset", Size); ("block", Ptr)]%string.

(** [struct fat16_header], at the beginning of [struct fat_handle]. *)
Definition sizeof_fat16_header : Z := 512.
Definition bytes_per_sector (handle : Z) : M mem Z := load16 (handle + 11).
Definition sectors_per_cluster (handle : Z) : M mem Z := loadb (handle + 13).
Definition reserved_sectors (handle : Z) : M mem Z := load16 (handle + 14).
Definition fat_copies (handle : Z) : M mem Z := loadb (handle + 16).
Definition possible_root_entries (handle : Z) : M mem Z := load16 (handle + 17).
Definition small_sectors (handle : Z) : M mem Z := load16 (handle + 19).
Definition sectors_per_fat (handle : Z) : M mem Z := load16 (handle + 22).
Definition large_sectors (handle : Z) : M mem Z := load32 (handle + 32).

(** [struct fat_handle] *)
Definition fat_sectors : Z := 512.
Definition fat_fat_size_bytes : Z := 520.
Definition fat_fat_offset : Z := 528.
Definition fat_fat : Z := 536.
Definition fat_dir_entry_offset : Z := 544.
Definition fat_dir_entry_size_bytes : Z := 552.
Definition fat_entries : Z := 560.
Definition fat_data_offset : Z := 568.
Definition fat_block : Z := 576.
Definition sizeof_fat_handle : Z := 584.

(** [struct fat16_dir_entry] *)
Definition sizeof_dir_entry : Z := 32.
Definition entry_filename : Z := 0.
Definition entry_extension : Z := 8.
Definition starting_cluster (entry : Z) : M mem Z := load16 (entry + 26).
Definition filesize_bytes (entry : Z) : M mem Z := load32 (entry + 28).

Lemma fat_layouts :
  layout_is fat16_header [("bytes_per_sector", 11); ("sectors_per_cluster", 13); ("reserved_sectors", 14);
    ("fat_copies", 16); ("possible_root_entries", 17); ("small_sectors", 19); ("sectors_per_fat", 22);
    ("large_sectors", 32)]%string sizeof_fat16_header ∧
  layout_is fat_handle [("header", 0); ("sectors", fat_sectors); ("fat_size_bytes", fat_fat_size_bytes);
    ("fat_offset", fat_fat_offset); ("fat", fat_fat); ("dir_entry_offset", fat_dir_entry_offset);
    ("dir_entry_size_bytes", fat_dir_entry_size_bytes); ("entries", fat_entries);
    ("data_offset", fat_data_offset); ("block", fat_block)]%string sizeof_fat_handle ∧
  layout_is fat16_dir_entry [("filename", entry_filename); ("extension", entry_extension);
    ("starting_cluster", 26); ("filesize_bytes", 28)]%string sizeof_dir_entry.
Proof. split; [check_layout|]. split; check_layout. Qed.

(** ** Names *)

Definition fat_char_array_compare (a b len : Z) : M mem Z :=
  loop (S (Z.to_nat len)) (λ i,
    if i <? len then
      let* x := loadb (a + i) in
      let* y := loadb (b + i) in
      if x =? y then ret (inl (i + 1)) else ret (inr (x - y))
    else ret (inr 0)) 0.

Definition fat_char_get_uppercase (c : Z) : Z :=
  if (97 <=? c) && (c <=? 122) then u8 (c - (97 - 65)) else c.

Definition fat_uppercase_and_pad (dest src dim : Z) : M mem unit :=
  let dest_last := dest + dim in
  let* len := strlen src in
  let* len' := strlen src in
  if (0 <=? len) && (len' <=? dim) then
    let* dest := mem_fuel (λ fuel, loop fuel (λ '(src, dest),
      let* c := loadb src in
      if negb (c =? 0) then
        storeb dest (fat_char_get_uppercase c) ;;
        ret (inl (src + 1, dest + 1))
      else ret (inr dest)) (src, dest)) in
    loop (S (Z.to_nat dim)) (λ dest,
      if dest <? dest_last then
        storeb dest 32 ;;
        ret (inl (dest + 1))
      else ret (inr tt)) dest
  else ret tt.

Definition fat_get_fat_name (dest src : Z) : M mem unit := fat_uppercase_and_pad dest src 8.
Definition fat_get_fat_extension (dest src : Z) : M mem unit := fat_uppercase_and_pad dest src 3.

(** ** Reading the disk *)

Definition fat_get_cluster_size (handle : Z) : M mem Z :=
  let* b := bytes_per_sector handle in
  let* c := sectors_per_cluster handle in
  int_of (b * c).

Section fat.
(** [block_read(block, ptr, n)] *)
Variable block_read : Z → Z → Z → M kernel Z.

Definition read_sector (handle buffer sector : Z) : M kernel unit :=
  let* block := in_ram (load64 (handle + fat_block)) in
  block_read block buffer (u64 sector) ;;
  ret tt.

Definition fat_load_data_body (handle ptr offset n buffer : Z) : M kernel unit :=
  let sector := i32 (offset / SECTOR_SIZE) in
  let sector_count := i32 (u64 (n / SECTOR_SIZE + (if n mod SECTOR_SIZE =? 0 then 0 else 1) +
    (if offset mod SECTOR_SIZE =? 0 then 0 else 1))) in
  let not_complete_offset := offset mod SECTOR_SIZE in
  (* first sector *)
  read_sector handle buffer sector ;;
  in_ram (memcpy ptr (buffer + not_complete_offset) (SECTOR_SIZE - not_complete_offset)) ;;
  let ptr := ptr + (SECTOR_SIZE - not_complete_offset) in
  if sector_count <? 2 then ret tt else
  (* middle sectors *)
  let* last := in_ram (let* e := int_of (sector_count + sector) in int_of (e - 1)) in
  for_up (Z.to_nat (last - (sector + 1))) 0 (λ i,
    read_sector handle buffer (sector + 1 + i) ;;
    in_ram (memcpy (ptr + SECTOR_SIZE * i) buffer SECTOR_SIZE) ;;
    ret tt) ;;
  let ptr := ptr + SECTOR_SIZE * Z.max 0 (last - (sector + 1)) in
  (* last sector *)
  read_sector handle buffer last ;;
  in_ram (memcpy ptr buffer (if negb (not_complete_offset =? 0) then not_complete_offset else SECTOR_SIZE)) ;;
  ret tt.

Definition fat_load_data (handle ptr offset n : Z) : M kernel unit :=
  frame_array SECTOR_SIZE (fat_load_data_body handle ptr offset n).

Definition fat_load_table (handle : Z) : M kernel unit :=
  let* size := in_ram (load64 (handle + fat_fat_size_bytes)) in
  let* fat := kalloc size in
  in_ram (store64 (handle + fat_fat) fat) ;;
  if fat =? 0 then on_machine (klog_lit (chars "Couldn't allocate fat")) else
  let* offset := in_ram (load64 (handle + fat_fat_offset)) in
  fat_load_data handle fat offset size.

Definition fat_load_entries (handle : Z) : M kernel unit :=
  let* size := in_ram (load64 (handle + fat_dir_entry_size_bytes)) in
  let* entries := kalloc size in
  in_ram (store64 (handle + fat_entries) entries) ;;
  if entries =? 0 then on_machine (klog_lit (chars "Couldn't allocate entries directory")) else
  let* offset := in_ram (load64 (handle + fat_dir_entry_offset)) in
  fat_load_data handle entries offset size.

(** The struct that the function returns is built at [handle]. *)
Definition fat_load (handle block : Z) : M kernel unit :=
  in_ram (store64 (handle + fat_block) block) ;;
  fat_load_data handle handle 0 sizeof_fat16_header ;;
  in_ram (
    let* small := small_sectors handle in
    let* large := large_sectors handle in
    let sectors := if negb (small =? 0) then small else large in
    store64 (handle + fat_sectors) sectors ;;
    store64 (handle + fat_fat_size_bytes) (u64 (2 * sectors)) ;;
    let* reserved := reserved_sectors handle in
    let* bytes := bytes_per_sector handle in
    let* fat_offset := int_of (reserved * bytes) in
    store64 (handle + fat_fat_offset) (u64 fat_offset) ;;
    let* per_fat := sectors_per_fat handle in
    let* copies := fat_copies handle in
    let* fats := int_of (per_fat * copies) in
    let* fat_bytes := int_of (fats * bytes) in
    let dir_entry_offset := u64 (u64 fat_offset + u64 fat_bytes) in
    store64 (handle + fat_dir_entry_offset) dir_entry_offset ;;
    let* possible := possible_root_entries handle in
    let dir_entry_size_bytes := u64 (possible * sizeof_dir_entry) in
    store64 (handle + fat_dir_entry_size_bytes) dir_entry_size_bytes ;;
    store64 (handle + fat_data_offset) (u64 (dir_entry_offset + dir_entry_size_bytes))) ;;
  fat_load_table handle ;;
  fat_load_entries handle.

Definition fat_clear (handle : Z) : M kernel unit :=
  let* fat := in_ram (load64 (handle + fat_fat)) in
  (if fat =? 0 then kfree fat else ret tt) ;;
  in_ram (store64 (handle + fat_fat) 0) ;;
  let* entries := in_ram (load64 (handle + fat_entries)) in
  (if entries =? 0 then kfree entries else ret tt) ;;
  in_ram (store64 (handle + fat_entries) 0).

Definition fat_read_cluster (handle cluster bytes ptr : Z) : M kernel unit :=
  let* data := in_ram (load64 (handle + fat_data_offset)) in
  let* cluster_size := in_ram (
    let* c := sectors_per_cluster handle in
    let* b := bytes_per_sector handle in
    int_of (c * b)) in
  let read_offset := u64 (data + u64 cluster_size * u64 (cluster - 2)) in
  fat_load_data handle ptr read_offset (u64 bytes).

Definition fat_debug_info (handle : Z) : M kernel unit :=
  let* v := in_ram (load64 (handle + fat_sectors)) in
  on_machine (klogf_lit (chars "sectors: %q") [v]) ;;
  let* v := in_ram (sectors_per_cluster handle) in
  on_machine (klogf_lit (chars "sectors per cluster: %q") [v]) ;;
  let* v := in_ram (bytes_per_sector handle) in
  on_machine (klogf_lit (chars "bytes per sector: %q") [v]).

(** [handle->fat[cluster]] *)
Definition fat_next (handle cluster : Z) : M mem Z :=
  let* fat := load64 (handle + fat_fat) in
  load16 (fat + 2 * cluster).

(** A chain that does not end within the fuel repeats its clusters for ever: there are fewer than
    2^16 of them, and a run over the end of the memory is a fault before. *)
Definition chain_fuel {A} (f : nat → M kernel A) : M kernel A := λ k,
  f (Z.to_nat 65537 + size (kram k))%nat k.

(** One round of the loop: [cluster], [bytes_left], [bytes_processed]. *)
Definition fat_read_round (handle ptr cluster_size : Z) : Z * Z * Z → M kernel (Z * Z * Z + unit) :=
  λ '(cluster, bytes_left, bytes_processed),
    if negb (cluster =? 0xffff) then
      fat_read_cluster handle (u64 cluster)
        (i32 (if cluster_size <? u64 bytes_left then cluster_size else u64 bytes_left))
        (ptr + bytes_processed) ;;
      let* cluster := in_ram (fat_next handle cluster) in
      ret (inl (cluster, i32 (u64 bytes_left - cluster_size), i32 (u64 bytes_processed + cluster_size)))
    else ret (inr tt).

Definition fat_read_entry (handle entry ptr : Z) : M kernel unit :=
  let* cs := in_ram (fat_get_cluster_size handle) in
  let cluster_size := u64 cs in
  let* bytes_left := in_ram (filesize_bytes entry) in
  let* cluster := in_ram (starting_cluster entry) in
  chain_fuel (λ fuel, follow fuel (fat_read_round handle ptr cluster_size) (cluster, i32 bytes_left, 0)).

(** [for (int i = 0; i < n; i++) cluster = handle->fat[cluster];] *)
Definition fat_skip (handle : Z) (n cluster : Z) : M mem Z :=
  loop (S (Z.to_nat n)) (λ '(i, cluster),
    if i <? n then
      let* c := fat_next handle cluster in
      ret (inl (i + 1, c))
    else ret (inr cluster)) (0, cluster).

Definition fat_read_entry_offset_size (handle entry ptr offset size : Z) : M kernel unit :=
  let* cs := in_ram (fat_get_cluster_size handle) in
  let cluster_size := u64 cs in
  let* buffer := kalloc cluster_size in
  let* first_cluster_index := in_ram (divu (u64 offset) cluster_size) in
  let* first_cluster_offset := in_ram (modu (u64 offset) cluster_size) in
  let first_cluster_index := i32 first_cluster_index in
  let first_cluster_offset := i32 first_cluster_offset in
  let* cluster := in_ram (starting_cluster entry) in
  let* cluster := in_ram (fat_skip handle first_cluster_index cluster) in
  (* the first cluster *)
  let first_read_size := min size (i32 (u64 (cluster_size - u64 first_cluster_offset))) in
  fat_read_cluster handle (u64 cluster) (i32 cluster_size) buffer ;;
  in_ram (memcpy ptr (buffer + first_cluster_offset) (u64 first_read_size)) ;;
  let* remaining_bytes := in_ram (int_of (size - first_read_size)) in
  let out_index := first_read_size in
  let* cluster := in_ram (fat_next handle cluster) in
  (* the others: [remaining_bytes], [out_index], [cluster] *)
  let* (remaining_bytes, out_index, cluster) := loop (S (Z.to_nat size)) (λ '(remaining_bytes, out_index, cluster),
    if cluster_size <? u64 remaining_bytes then
      fat_read_cluster handle (u64 cluster) (i32 cluster_size) buffer ;;
      in_ram (memcpy (buffer + out_index) buffer cluster_size) ;;
      let* c := in_ram (fat_next handle cluster) in
      ret (inl (i32 (u64 remaining_bytes - cluster_size), i32 (u64 out_index + cluster_size), c))
    else ret (inr (remaining_bytes, out_index, cluster))) (remaining_bytes, out_index, cluster) in
  (if 0 <? remaining_bytes then
    fat_read_cluster handle (u64 cluster) remaining_bytes buffer ;;
    in_ram (memcpy (buffer + out_index) buffer (u64 remaining_bytes)) ;;
    ret tt
  else ret tt) ;;
  kfree buffer.

Definition fat_read_entry_cluster_offset (handle entry ptr cluster_offset : Z) : M kernel unit :=
  let* cs := in_ram (fat_get_cluster_size handle) in
  let* cluster := in_ram (starting_cluster entry) in
  let* cluster := in_ram (loop (S (Z.to_nat cluster_offset)) (λ '(cluster_index, cluster),
    if negb (cluster =? 0xffff) && (cluster_index <? cluster_offset) then
      let* c := fat_next handle cluster in
      ret (inl (cluster_index + 1, c))
    else ret (inr cluster)) (0, cluster)) in
  if cluster =? 0xffff then ret tt else
  fat_read_cluster handle (u64 cluster) cs ptr.

(** The result is a pointer into the directory, or NULL. *)
Definition fat_get_entry_by_file (handle name ext : Z) : M mem Z :=
  with_local 8 (λ fat_name,
  with_local 3 (λ fat_ext,
    fat_get_fat_extension fat_ext ext ;;
    fat_get_fat_name fat_name name ;;
    let* n := possible_root_entries handle in
    loop (S (Z.to_nat n)) (λ i,
      if i <? n then
        let* entries := load64 (handle + fat_entries) in
        let entry := entries + sizeof_dir_entry * i in
        let* d := fat_char_array_compare fat_name (entry + entry_filename) 8 in
        if negb (d =? 0) then ret (inl (i + 1)) else
        let* d := fat_char_array_compare fat_ext (entry + entry_extension) 3 in
        if negb (d =? 0) then ret (inl (i + 1)) else ret (inr entry)
      else ret (inr 0)) 0)).

End fat.

(** * Specification *)

Definition disk_byte_ok (b : Z) : Prop := 0 ≤ b < 256.

(** What the reader relies on: [block_read] stores the 512 bytes of the sector and otherwise
    changes only memory that belongs to the device ([priv]).  [ready r k b] says that the device
    [b] can answer [r] more requests. *)
Class SectorReader (block_read : Z → Z → Z → M kernel Z) (image : Z → list Z)
    (ready : nat → kernel → Z → Prop) (priv : Z → Prop) : Prop := {
  image_length n : length (image n) = 512%nat;
  image_bytes n : Forall disk_byte_ok (image n);
  read_ok r k b buf n : ready (S r) k b → below (2 ^ 63) (kram k) → 0 ≤ n < 2 ^ 31 → mapped (kram k) buf 512 →
    (∀ a, buf ≤ a < buf + 512 → ¬ priv a) →
    ∃ k', block_read b buf n k = Ok 0 k' ∧ ready r k' b ∧
      ∀ a, ¬ priv a → kram k' !! a = put_bytes buf (image n) (kram k) !! a;
  ready_stable r k b m : ready r k b → (∀ a, priv a → m !! a = kram k !! a) → ready r (set_kram m k) b;
  ready_weaken r k b : ready (S r) k b → ready r k b;
  priv_mapped r k b a : ready r k b → priv a → is_Some (kram k !! a);
}.

(** The disk as a sequence of bytes. *)
Definition disk_byte (image : Z → list Z) (a : Z) : Z :=
  default 0 (image (a / 512) !! Z.to_nat (a mod 512)).
Definition disk_bytes (image : Z → list Z) (offset : Z) (len : nat) : list Z :=
  (λ i, disk_byte image (offset + Z.of_nat i)) <$> seq 0 len.

(** [n] rounded up to whole sectors. *)
Definition sectors_of (n : Z) : Z := n / 512 + (if n mod 512 =? 0 then 0 else 1).

(** * Lemmas *)

Lemma length_disk_bytes image o len : length (disk_bytes image o len) = len.
Proof. unfold disk_bytes. by rewrite length_fmap, length_seq. Qed.

Lemma disk_bytes_app image o l1 l2 :
  disk_bytes image o (l1 + l2) = disk_bytes image o l1 ++ disk_bytes image (o + Z.of_nat l1) l2.
Proof.
  unfold disk_bytes. rewrite seq_app, fmap_app. f_equal. rewrite <-(Nat.add_0_r (0 + l1)) at 1.
  rewrite <-fmap_add_seq, <-list_fmap_compose. apply list_fmap_ext. intros i x _. simpl.
  f_equal. lia.
Qed.

(** Part of a sector. *)
Lemma disk_bytes_sector image o len : 0 ≤ o → length (image (o / 512)) = 512%nat →
  (Z.to_nat (o mod 512) + len ≤ 512)%nat →
  disk_bytes image o len = take len (drop (Z.to_nat (o mod 512)) (image (o / 512))).
Proof.
  intros Ho Hl Hlen. apply list_eq. intros i. unfold disk_bytes. rewrite list_lookup_fmap.
  pose proof (Z.mod_pos_bound o 512).
  destruct (decide (i < len)%nat) as [Hi|Hi].
  - rewrite lookup_seq_lt, lookup_take_lt, lookup_drop by done. simpl. unfold disk_byte.
    assert (o + Z.of_nat i = 512 * (o / 512) + (o mod 512 + Z.of_nat i)) as E.
    { pose proof (Z.div_mod o 512). lia. }
    rewrite E. rewrite (Z.mul_comm 512), Z.add_comm, Z.div_add, Z.mod_add by lia.
    rewrite Z.div_small, Z.mod_small by lia. rewrite Z.add_0_l.
    replace (Z.to_nat (o mod 512 + Z.of_nat i)) with (Z.to_nat (o mod 512) + i)%nat by lia.
    destruct (lookup_lt_is_Some_2 (image (o / 512)) (Z.to_nat (o mod 512) + i)) as [b ->]; [lia|done].
  - rewrite !lookup_ge_None_2; [done| |]; [rewrite length_take, length_drop; lia|].
    rewrite length_seq. lia.
Qed.

(** The sectors that hold [n] bytes from [offset] on, by the count of [fat_load_data]. *)
Definition requests (offset n : Z) : Z := sectors_of n + (if offset mod 512 =? 0 then 0 else 1).

Lemma sectors_of_pos n : 0 < n → 0 < sectors_of n.
Proof.
  intros Hn. unfold sectors_of. pose proof (Z.div_mod n 512). pose proof (Z.div_pos n 512).
  destruct (Z.eqb_spec (n mod 512) 0); lia.
Qed.

Lemma wp_chain_fuel {A} (f : nat → M kernel A) k (Q : A → kernel → Prop) :
  (∀ fuel, 65537 ≤ Z.of_nat fuel → wp (f fuel) k Q) → wp (chain_fuel f) k Q.
Proof.
  intros H. unfold wp, chain_fuel in *. apply H. lia.
Qed.

(** ** Names *)

(** A name as the directory stores it: upper-case, padded with spaces to [dim] bytes. *)
Definition name_field (dim : nat) (s : list Z) : list Z :=
  (fat_char_get_uppercase <$> s) ++ replicate (dim - length s) 32.

Lemma length_name_field dim s : (length s ≤ dim)%nat → length (name_field dim s) = dim.
Proof. intros H. unfold name_field. rewrite length_app, length_fmap, length_replicate. lia. Qed.

Lemma fat_char_get_uppercase_range c : 0 ≤ c < 256 → 0 ≤ fat_char_get_uppercase c < 256.
Proof. unfold fat_char_get_uppercase. case_match; [intros _; apply u8_range|done]. Qed.

Lemma wp_upper_loop m dest src s dim fuel (Q : Z → mem → Prop) :
  cstr m src s → Z.of_nat (length s) ≤ dim → mapped m dest dim →
  disjoint dest dim src (Z.of_nat (length s) + 1) → (length s < fuel)%nat →
  Q (dest + Z.of_nat (length s)) (put_bytes dest (fat_char_get_uppercase <$> s) m) →
  wp (loop fuel (λ '(src, dest),
      let* c := loadb src in
      if negb (c =? 0) then
        storeb dest (fat_char_get_uppercase c) ;; ret (inl (src + 1, dest + 1))
      else ret (inr dest)) (src, dest)) m Q.
Proof.
  intros Hs Hlen Hd Hdis Hfuel HQ. set (t := fat_char_get_uppercase <$> s) in *.
  assert (length t = length s) as Ht by apply length_fmap.
  apply (wp_loop (λ '(q, d) mm, ∃ i, (i ≤ length s)%nat ∧ d = dest + Z.of_nat i ∧
    q = src + Z.of_nat i ∧ mm = put_bytes dest (take i t) m)
    (λ '(q, _), Z.to_nat (src + Z.of_nat (length s) - q))).
  - intros [q d] mm (i & Hi & -> & -> & ->). unfold disjoint in Hdis. apply wp_bind.
    destruct (cstr_scan _ _ _ i Hs Hi) as [(b & Hb & Hm & Hr)|[-> Hm]].
    + eapply wp_loadb; [rewrite put_bytes_outside by (rewrite length_take; lia); done|].
      destruct (Z.eqb_spec b 0); [lia|]. simpl negb. apply lookup_lt_Some in Hb as Hlt.
      apply wp_bind, wp_storeb; [apply mapped_put_bytes with dest dim; [done|lia]|].
      apply wp_ret. split; [|lia]. exists (S i). repeat split; try lia.
      assert (t !! i = Some (fat_char_get_uppercase b)) as Hti by (unfold t; by rewrite list_lookup_fmap, Hb).
      erewrite take_S_r by done. rewrite put_bytes_snoc, length_take, u8_small
        by (apply fat_char_get_uppercase_range; lia).
      by replace (i `min` length t)%nat with i by lia.
    + eapply wp_loadb; [rewrite put_bytes_outside by (rewrite length_take; lia); done|].
      simpl. apply wp_ret. rewrite take_ge by lia. done.
  - exists 0%nat. rewrite !Z.add_0_r, take_0. split; [lia|done].
  - lia.
Qed.

Lemma wp_pad_loop m dest k p fuel (Q : unit → mem → Prop) :
  mapped m p (Z.of_nat k) → dest = p + Z.of_nat k → (k < fuel)%nat →
  Q tt (put_bytes p (replicate k 32) m) →
  wp (loop fuel (λ d, if d <? dest then storeb d 32 ;; ret (inl (d + 1)) else ret (inr tt)) p) m Q.
Proof.
  intros Hm -> Hfuel HQ.
  apply (wp_loop (λ d mm, ∃ i, (i ≤ k)%nat ∧ d = p + Z.of_nat i ∧ mm = put_bytes p (replicate i 32) m)
    (λ d, Z.to_nat (p + Z.of_nat k - d))).
  - intros d mm (i & Hi & -> & ->). destruct (Z.ltb_spec (p + Z.of_nat i) (p + Z.of_nat k)).
    + apply wp_bind, wp_storeb; [apply mapped_put_bytes with p (Z.of_nat k); [done|lia]|].
      apply wp_ret. split; [|lia]. exists (S i). split; [lia|]. split; [lia|].
      rewrite replicate_S_end, put_bytes_snoc, length_replicate. done.
    + apply wp_ret. by replace i with k in * by lia.
  - exists 0%nat. split; [lia|]. split; [lia|done].
  - lia.
Qed.

Lemma fat_uppercase_and_pad_spec m dest src s dim :
  cstr m src s → Z.of_nat (length s) ≤ dim → dim ≤ INT_MAX → mapped m dest dim →
  disjoint dest dim src (Z.of_nat (length s) + 1) →
  fat_uppercase_and_pad dest src dim m = Ok tt (put_bytes dest (name_field (Z.to_nat dim) s) m).
Proof.
  intros Hs Hlen Hmax Hd Hdis. unfold fat_uppercase_and_pad.
  pose proof (strlen_spec _ _ _ Hs ltac:(lia)) as E.
  rewrite (bind_ok _ _ _ _ _ E), (bind_ok _ _ _ _ _ E).
  rewrite (proj2 (Z.leb_le 0 _)), (proj2 (Z.leb_le _ dim)) by lia. cbn [andb].
  apply wp_eq, wp_bind. unfold mem_fuel. pose proof (cstr_size _ _ _ Hs).
  apply (wp_upper_loop m dest src s dim); [done..|lia|].
  apply (wp_pad_loop _ _ (Z.to_nat dim - length s)); [|lia|lia|].
  - apply mapped_put_bytes. apply mapped_weaken with dest dim; [done|lia|lia].
  - split; [done|]. unfold name_field.
    rewrite put_bytes_app, put_bytes_comm, length_fmap; [done|].
    rewrite length_fmap, length_replicate. lia.
Qed.

Lemma fat_char_array_compare_spec m a b x y len : bytes_at m a x → bytes_at m b y →
  Z.of_nat (length x) = len → length y = length x →
  ∃ d, fat_char_array_compare a b len m = Ok d m ∧ (d = 0 ↔ x = y).
Proof.
  intros Hx Hy <- Hlen.
  cut (wp (fat_char_array_compare a b (Z.of_nat (length x))) m (λ d m', m' = m ∧ (d = 0 ↔ x = y))).
  { intros (d & m' & E & -> & Hd)%wp_ok. by exists d. }
  apply (wp_loop (λ i m', m' = m ∧ ∃ k, i = Z.of_nat k ∧ (k ≤ length x)%nat ∧ take k x = take k y)
    (λ i, Z.to_nat (Z.of_nat (length x) - i))).
  - intros i m' (-> & k & -> & Hk & Ht). destruct (Z.ltb_spec (Z.of_nat k) (Z.of_nat (length x))).
    + destruct (lookup_lt_is_Some_2 x k) as [c Hc]; [lia|]. destruct (lookup_lt_is_Some_2 y k) as [d Hd]; [lia|].
      apply wp_bind. eapply wp_loadb; [by apply Hx|]. apply wp_bind. eapply wp_loadb; [by apply Hy|].
      destruct (Z.eqb_spec c d) as [->|Hne]; apply wp_ret; (split; [|first [lia|idtac]]); [|done|].
      * split; [done|]. exists (S k). split; [lia|]. split; [lia|]. by rewrite (take_S_r _ _ d), (take_S_r y _ d), Ht.
      * split; [lia|]. intros ->. congruence.
    + apply wp_ret. split; [done|]. split; [|done]. intros _. rewrite !take_ge in Ht by lia. done.
  - split; [done|]. exists 0%nat. split; [done|]. split; [lia|done].
  - lia.
Qed.

(** ** The directory *)

(** The name and the extension fields of the entries from [base] on. *)
Definition directory (m : mem) (base : Z) (names : list (list Z * list Z)) : Prop :=
  ∀ i f x, names !! i = Some (f, x) → length f = 8%nat ∧ length x = 3%nat ∧
    bytes_at m (base + sizeof_dir_entry * Z.of_nat i) (f ++ x).

Definition entry_address (base : Z) (o : option (nat * (list Z * list Z))) : Z :=
  match o with Some (i, _) => base + sizeof_dir_entry * Z.of_nat i | None => 0 end.

Lemma directory_agree m m' base names :
  (∀ a, is_Some (m !! a) → m' !! a = m !! a) → directory m base names → directory m' base names.
Proof.
  intros Hag Hdir i f x Hi. destruct (Hdir i f x Hi) as (Hf & Hx & Hb). split; [done|]. split; [done|].
  eapply bytes_at_agree; [exact Hb|]. intros a Ha. apply Hag. by apply (bytes_at_mapped _ _ _ Hb).
Qed.

Lemma wp_directory_scan m handle base names fat_name fat_ext N E fuel (Q : Z → mem → Prop) :
  word_at 8 m (handle + fat_entries) base → 0 ≤ base < 2 ^ 64 → directory m base names →
  bytes_at m fat_name N → length N = 8%nat → bytes_at m fat_ext E → length E = 3%nat →
  (length names < fuel)%nat →
  Q (entry_address base (list_find (λ p, p = (N, E)) names)) m →
  wp (loop fuel (λ i,
      if i <? Z.of_nat (length names) then
        let* entries := load64 (handle + fat_entries) in
        let entry := entries + sizeof_dir_entry * i in
        let* d := fat_char_array_compare fat_name (entry + entry_filename) 8 in
        if negb (d =? 0) then ret (inl (i + 1)) else
        let* d := fat_char_array_compare fat_ext (entry + entry_extension) 3 in
        if negb (d =? 0) then ret (inl (i + 1)) else ret (inr entry)
      else ret (inr 0)) 0) m Q.
Proof.
  intros Hbase Hb64 Hdir HN HNl HE HEl Hfuel HQ.
  apply (wp_loop (λ i m', m' = m ∧ ∃ k, i = Z.of_nat k ∧ (k ≤ length names)%nat ∧
      ∀ j p, (j < k)%nat → names !! j = Some p → p ≠ (N, E))
    (λ i, Z.to_nat (Z.of_nat (length names) - i))).
  - intros i m' (-> & k & -> & Hk & Hno). destruct (Z.ltb_spec (Z.of_nat k) (Z.of_nat (length names))).
    + apply wp_bind. eapply wp_intro; [apply (load_word_ok 8 _ _ _ Hbase); lia|].
      destruct (lookup_lt_is_Some_2 names k) as [[f x] Hfx]; [lia|].
      destruct (Hdir k f x Hfx) as (Hf & Hx & [Hbf Hbx]%bytes_at_app). rewrite Hf in Hbx.
      assert ((f, x) ≠ (N, E) → ∃ k', Z.of_nat k + 1 = Z.of_nat k' ∧ (k' ≤ length names)%nat ∧
        ∀ j p, (j < k')%nat → names !! j = Some p → p ≠ (N, E)) as Hnext.
      { intros Hne. exists (S k). split; [lia|]. split; [lia|]. intros j p Hj Hp.
        destruct (decide (j = k)) as [->|]; [congruence|]. apply (Hno j); [lia|done]. }
      rewrite <-(Z.add_0_r (base + _)) in Hbf.
      destruct (fat_char_array_compare_spec _ _ _ N f 8 HN Hbf) as (d1 & E1 & Hd1); [lia|lia|].
      destruct (fat_char_array_compare_spec _ _ _ E x 3 HE Hbx) as (d2 & E2 & Hd2); [lia|lia|].
      apply wp_bind, (wp_intro _ _ _ _ _ E1). destruct (Z.eqb_spec d1 0) as [Hz1|Hnz1]; simpl negb; cbv iota.
      2: { apply wp_ret. split; [|lia]. split; [done|]. apply Hnext. intros [= -> ->]. by apply Hnz1, Hd1. }
      apply wp_bind, (wp_intro _ _ _ _ _ E2). destruct (Z.eqb_spec d2 0) as [Hz2|Hnz2]; simpl negb; cbv iota.
      2: { apply wp_ret. split; [|lia]. split; [done|]. apply Hnext. intros [= -> ->]. by apply Hnz2, Hd2. }
      apply wp_ret. apply Hd1 in Hz1 as ->. apply Hd2 in Hz2 as ->.
      assert (list_find (λ p, p = (f, x)) names = Some (k, (f, x))) as Hfind.
      { apply list_find_Some. split; [done|]. split; [done|]. intros j y Hy Hj. by apply (Hno j). }
      by rewrite Hfind in HQ.
    + apply wp_ret.
      assert (list_find (λ p, p = (N, E)) names = None) as Hfind.
      { apply list_find_None, Forall_forall. intros p (j & Hj)%list_elem_of_lookup.
        apply (Hno j); [|done]. apply lookup_lt_Some in Hj. lia. }
      by rewrite Hfind in HQ.
  - split; [done|]. exists 0%nat. split; [done|]. split; [lia|]. intros j p Hj. lia.
  - lia.
Qed.

(** C25: [fat_get_entry_by_file] finds the first directory entry whose name and extension fields
    are the given ones, in upper case and padded with spaces, and answers NULL when there is none;
    it leaves the memory as it was. *)
Theorem fat_lookup_finds_first m handle base names name s ext e :
  word_at 2 m (handle + 17) (Z.of_nat (length names)) → Z.of_nat (length names) < 65536 →
  word_at 8 m (handle + fat_entries) base → 0 ≤ base < 2 ^ 64 → directory m base names →
  cstr m name s → (length s ≤ 8)%nat → cstr m ext e → (length e ≤ 3)%nat →
  fat_get_entry_by_file handle name ext m =
    Ok (entry_address base (list_find (λ p, p = (name_field 8 s, name_field 3 e)) names)) m.
Proof.
  intros Hn Hlen Hbase Hb64 Hdir Hs Hsl He Hel. apply wp_eq. unfold fat_get_entry_by_file, with_local.
  apply wp_with_cells. intros p1 Hp1. apply wp_with_cells. intros p2 Hp2. rewrite !length_replicate.
  set (m1 := put_cells p1 _ m) in *. set (m2 := put_cells p2 _ m1).
  assert (p1 + 8 ≤ p2) as H12 by (apply (mapped_below_fresh m1 p2 p1 8 Hp2); [apply mapped_put_cells_self; rewrite length_replicate; lia|lia]).
  assert (∀ a, is_Some (m !! a) → a < p1) as Hlow.
  { intros a [c Hc]. destruct (Z.lt_ge_cases a p1); [done|]. rewrite Hp1 in Hc; [done|unfold LOCAL_GAP; lia]. }
  set (m3 := put_bytes p2 (name_field 3 e) m2). set (m4 := put_bytes p1 (name_field 8 s) m3).
  pose proof (length_name_field 3 e Hel) as Hl3. pose proof (length_name_field 8 s Hsl) as Hl8.
  assert (∀ a, ¬ (p1 ≤ a < p1 + 8) → ¬ (p2 ≤ a < p2 + 3) → m4 !! a = m !! a) as Hout.
  { intros a H1 H2. unfold m4, m3, m2, m1. rewrite !put_bytes_outside by lia.
    rewrite !put_cells_lookup, !length_replicate, !decide_False by (simpl; lia). done. }
  assert (∀ a, ¬ (p1 ≤ a < p1 + 8) → ¬ (p2 ≤ a < p2 + 3) → m2 !! a = m !! a) as Hout2.
  { intros a H1 H2. unfold m2, m1.
    rewrite !put_cells_lookup, !length_replicate, !decide_False by (simpl; lia). done. }
  assert (∀ a, is_Some (m !! a) → m4 !! a = m !! a ∧ m2 !! a = m !! a) as Hag.
  { intros a Ha%Hlow. split; [apply Hout|apply Hout2]; lia. }
  assert (∀ q t, cstr m q t → q + Z.of_nat (length t) < p1) as Hstr.
  { intros q t Ht. apply Hlow, (cstr_mapped _ _ _ Ht). lia. }
  pose proof (Hstr _ _ Hs). pose proof (Hstr _ _ He).
  unfold fat_get_fat_extension, fat_get_fat_name.
  apply wp_bind, (wp_intro _ _ tt m3).
  { apply fat_uppercase_and_pad_spec; [|lia|unfold INT_MAX; lia| |right; lia].
    - eapply cstr_agree; [exact He|]. intros a Ha. apply Hag, (cstr_mapped _ _ _ He). lia.
    - apply mapped_put_cells_self. rewrite length_replicate. lia. }
  apply wp_bind, (wp_intro _ _ tt m4).
  { apply fat_uppercase_and_pad_spec; [|lia|unfold INT_MAX; lia| |right; lia].
    - eapply cstr_agree; [exact Hs|]. intros a Ha. unfold m3. rewrite put_bytes_outside by lia.
      apply Hag, (cstr_mapped _ _ _ Hs). lia.
    - apply mapped_put_bytes, mapped_put, mapped_put_cells_self. rewrite length_replicate. lia. }
  assert (∀ n q v, word_at n m q v → word_at n m4 q v) as Hword.
  { intros n q v Hw. eapply bytes_at_agree; [exact Hw|]. intros a Ha. apply Hag, (bytes_at_mapped _ _ _ Hw). done. }
  apply wp_bind. eapply wp_intro; [apply (load_word_ok 2 _ _ _ (Hword _ _ _ Hn)); lia|].
  apply (wp_directory_scan m4 handle base names p1 p2 (name_field 8 s) (name_field 3 e));
    [by apply Hword|done| |apply bytes_at_put|done| |done|lia|].
  - eapply directory_agree; [|exact Hdir]. intros a Ha. by apply Hag.
  - apply bytes_at_put_ne; [apply bytes_at_put|lia].
  - split; [done|]. apply map_eq. intros a. rewrite !drop_cells_lookup.
    change (Z.of_nat (Z.to_nat 8)) with 8. change (Z.of_nat (Z.to_nat 3)) with 3.
    case_decide; [rewrite Hp1; [done|unfold LOCAL_GAP; lia]|].
    case_decide; [rewrite Hp1; [done|unfold LOCAL_GAP; lia]|]. by apply Hout.
Qed.

Section reading.
Context {block_read : Z → Z → Z → M kernel Z} {image : Z → list Z}
  {ready : nat → kernel → Z → Prop} {priv : Z → Prop} `{!SectorReader block_read image ready priv}.

Lemma disk_bytes_ok o len : Forall disk_byte_ok (disk_bytes image o len).
Proof.
  apply Forall_forall. intros b (i & -> & _)%list_elem_of_fmap. unfold disk_byte.
  destruct (image _ !! _) as [c|] eqn:E; [|unfold disk_byte_ok; simpl; lia].
  by apply (Forall_lookup_1 _ _ _ _ (image_bytes _) E).
Qed.

Lemma ready_le r r' k b : (r' ≤ r)%nat → ready r k b → ready r' k b.
Proof. induction 1; [done|]. intros H'. by apply IHle, ready_weaken. Qed.

Section loading.
Variables (r0 : nat) (k0 : kernel) (b handle ptr offset total buffer : Z).
Hypothesis Hready0 : ready r0 k0 b.
Hypothesis Hlow : below (2 ^ 62) (kram k0).
Hypothesis Hbuffer : 0 ≤ buffer ≤ 2 ^ 62 + LOCAL_GAP.
Hypothesis Hhandle : word_at 8 (kram k0) (handle + fat_block) b.
Hypothesis Hb : 0 ≤ b < 2 ^ 64.
Hypothesis Hword : ∀ a, handle + fat_block ≤ a < handle + fat_block + 8 → ¬ priv a ∧ ¬ (ptr ≤ a < ptr + total).
Hypothesis Hptr : mapped (kram k0) ptr total.
Hypothesis Hdest : ∀ a, ptr ≤ a < ptr + total → ¬ priv a.
Hypothesis Hfresh : ∀ a, buffer - LOCAL_GAP < a → kram k0 !! a = None.
Hypothesis Hbuf : ∀ a, buffer ≤ a < buffer + 512 → ¬ priv a.
Hypothesis Hoffset : 0 ≤ offset ∧ offset + total < 2 ^ 39.

(** [done_] bytes are copied, [r] requests are left; the buffer of the function is mapped. *)
Definition loaded (r : nat) (done_ : nat) (k : kernel) : Prop :=
  ready r k b ∧ mapped (kram k) buffer 512 ∧
  ∀ a, ¬ priv a → ¬ (buffer ≤ a < buffer + 512) →
    kram k !! a = put_bytes ptr (disk_bytes image offset done_) (kram k0) !! a.

Lemma below_buffer a : is_Some (kram k0 !! a) → a < buffer.
Proof.
  intros [c Hc]. destruct (Z.lt_ge_cases a buffer); [done|]. rewrite Hfresh in Hc; [done|].
  unfold LOCAL_GAP. lia.
Qed.

Lemma loaded_mapped r n k a len : loaded r n k → 0 ≤ a → a + len ≤ total → 0 < len →
  mapped (kram k) (ptr + a) len.
Proof.
  intros (_ & _ & Hk) Ha Hlen Hpos x Hx. rewrite Hk.
  - apply mapped_put_bytes with ptr total; [exact Hptr|lia].
  - apply Hdest. lia.
  - assert (x < buffer) by (apply below_buffer, Hptr; lia). lia.
Qed.

Lemma loaded_block r n k : loaded r n k → Z.of_nat n ≤ total → load64 (handle + fat_block) (kram k) = Ok b (kram k).
Proof.
  intros (_ & _ & Hk) Hn. apply load_word_ok; [|lia]. eapply bytes_at_agree; [exact Hhandle|].
  intros a Ha. rewrite length_le_bytes in Ha. destruct (Hword a) as [Hp Hr]; [lia|].
  rewrite Hk; [|done|].
  - apply put_bytes_outside. rewrite length_disk_bytes. lia.
  - assert (is_Some (kram k0 !! a)) as H%below_buffer; [|lia].
    pose proof (bytes_at_mapped _ _ _ Hhandle a) as H. rewrite length_le_bytes in H. apply H. lia.
Qed.

Lemma loaded_below r n k : loaded r n k → Z.of_nat n ≤ total → below (2 ^ 63) (kram k).
Proof.
  intros (Hr & _ & Hk) Hn a Ha. unfold LOCAL_GAP in Hbuffer.
  destruct (decide (buffer ≤ a < buffer + 512)) as [|Hnb]; [lia|].
  cut (is_Some (kram k0 !! a)); [intros Hm%Hlow; lia|].
  destruct (decide (ptr ≤ a < ptr + total)) as [|Hout]; [by apply Hptr|].
  destruct (kram k0 !! a) as [c|] eqn:E; [by eexists|].
  rewrite Hk, put_bytes_outside, E in Ha; [done|rewrite length_disk_bytes; lia| |done].
  intros Hp. destruct (priv_mapped r0 k0 b a Hready0 Hp). congruence.
Qed.

(** One sector: [len] bytes of sector [s] from byte [from] on. *)
Lemma load_chunk r n len s from k : loaded (S r) n k → (0 < len)%nat → Z.of_nat (n + len) ≤ total →
  s = (offset + Z.of_nat n) / 512 → from = (offset + Z.of_nat n) mod 512 → from + Z.of_nat len ≤ 512 →
  ∃ k', (read_sector block_read handle buffer s ;;
    in_ram (memcpy (ptr + Z.of_nat n) (buffer + from) (Z.of_nat len))) k = Ok (ptr + Z.of_nat n) k' ∧
    loaded r (n + len) k'.
Proof.
  intros Hload Hpos Htot -> -> Hlen. pose proof Hload as (Hready & Hmap & Hk).
  set (o := offset + Z.of_nat n) in *. pose proof (Z.mod_pos_bound o 512).
  assert (0 ≤ o / 512 < 2 ^ 31) as Hs.
  { split; [apply Z.div_pos; lia|apply Z.div_lt_upper_bound; lia]. }
  destruct (read_ok r k b buffer (o / 512) Hready (loaded_below _ _ _ Hload ltac:(lia)) Hs Hmap Hbuf) as (k1 & Hread & Hready1 & Hk1).
  assert (bytes_at (kram k1) (buffer + o mod 512) (disk_bytes image o len)) as Hsrc.
  { rewrite disk_bytes_sector; [|lia|apply image_length|lia].
    apply (bytes_at_agree (put_bytes buffer (image (o / 512)) (kram k))).
    - pose proof (bytes_at_put buffer (image (o / 512)) (kram k)) as Hp.
      rewrite <-(take_drop (Z.to_nat (o mod 512)) (image (o / 512))) in Hp at 2.
      apply bytes_at_app in Hp as [_ Hp]. rewrite length_take, image_length in Hp.
      replace (buffer + Z.of_nat (Z.to_nat (o mod 512) `min` 512)) with (buffer + o mod 512) in Hp by lia.
      rewrite <-(take_drop len (drop _ _)) in Hp. by apply bytes_at_app in Hp as [Hp _].
    - intros a Ha. symmetry. rewrite length_take, length_drop, image_length in Ha.
      symmetry. apply Hk1, Hbuf. lia. }
  assert (mapped (kram k1) (ptr + Z.of_nat n) (Z.of_nat len)) as Hdst.
  { intros a Ha. rewrite Hk1 by (apply Hdest; lia). apply mapped_put_bytes with (ptr + Z.of_nat n) (Z.of_nat len); [|lia].
    apply loaded_mapped with (S r) n; [done|lia|lia|lia]. }
  assert (ptr + total ≤ buffer) as Hbelow.
  { assert (ptr + total - 1 < buffer) by (apply below_buffer, Hptr; lia). lia. }
  assert (memcpy (ptr + Z.of_nat n) (buffer + o mod 512) (Z.of_nat len) (kram k1) =
    Ok (ptr + Z.of_nat n) (put_bytes (ptr + Z.of_nat n) (disk_bytes image o len) (kram k1))) as Hcpy.
  { rewrite <-(length_disk_bytes image o len) at 1. apply memcpy_spec; rewrite ?length_disk_bytes.
    - exact Hsrc.
    - apply disk_bytes_ok.
    - unfold INT_MAX. lia.
    - exact Hdst.
    - left. lia. }
  exists (set_kram (put_bytes (ptr + Z.of_nat n) (disk_bytes image o len) (kram k1)) k1). split.
  { unfold read_sector. rewrite bind_assoc.
    rewrite (bind_ok _ _ _ _ _ (in_ram_ok _ _ _ _ (loaded_block (S r) n k Hload ltac:(lia)))).
    replace (set_kram (kram k) k) with k by (by destruct k as [[] ? ?]). rewrite bind_assoc.
    rewrite u64_small by lia. rewrite (bind_ok _ _ _ _ _ Hread). unfold ret at 1, bind at 1.
    by rewrite (in_ram_ok _ _ _ _ Hcpy). }
  split; [|split].
  - apply ready_stable; [done|]. intros a Ha. apply put_bytes_outside. rewrite length_disk_bytes.
    intros Hin. apply (Hdest a); [lia|done].
  - cbn. apply mapped_put_bytes. intros a Ha. rewrite Hk1 by (apply Hbuf; lia).
    by apply mapped_put_bytes with buffer 512.
  - intros a Hp Hnb. cbn. rewrite disk_bytes_app, put_bytes_app, length_disk_bytes. fold o.
    rewrite put_bytes_comm by (rewrite !length_disk_bytes; lia).
    rewrite !(put_bytes_lookup (ptr + Z.of_nat n)). case_decide; [done|].
    rewrite Hk1 by done. rewrite put_bytes_outside by (rewrite image_length; lia). by apply Hk.
Qed.

(** The same, in front of any continuation [q] of the function. *)
Lemma wp_load_chunk n len s dst src k {A} (q : M kernel A) Q r : loaded (S r) n k → (0 < len)%nat →
  Z.of_nat (n + len) ≤ total → s = (offset + Z.of_nat n) / 512 → dst = ptr + Z.of_nat n →
  src = buffer + (offset + Z.of_nat n) mod 512 → (offset + Z.of_nat n) mod 512 + Z.of_nat len ≤ 512 →
  (∀ k', loaded r (n + len) k' → wp q k' Q) →
  wp (read_sector block_read handle buffer s ;; in_ram (memcpy dst src (Z.of_nat len)) ;; q) k Q.
Proof.
  intros Hl Hpos Htot Hs -> -> Hlen HQ. destruct (load_chunk r n len s _ k Hl Hpos Htot Hs eq_refl Hlen) as (k' & Heq & Hl').
  unfold wp at 1. rewrite <-bind_assoc, (bind_ok _ _ _ _ _ Heq). by apply HQ.
Qed.

(** The middle of the loop: [m] whole sectors. *)
Lemma wp_load_middle r n0 s m lo k Q : loaded (m + r) n0 k → (offset + Z.of_nat n0) mod 512 = 0 →
  s = (offset + Z.of_nat n0) / 512 → Z.of_nat n0 + 512 * Z.of_nat m ≤ total → lo = ptr + Z.of_nat n0 →
  (∀ k', loaded r (n0 + 512 * m) k' → Q tt k') →
  wp (for_up m 0 (λ i, read_sector block_read handle buffer (s + i) ;;
      in_ram (memcpy (lo + SECTOR_SIZE * i) buffer SECTOR_SIZE) ;; ret tt)) k Q.
Proof.
  intros Hl Hr -> Htot -> HQ. apply (wp_for_up (λ i k, loaded (m - Z.to_nat i + r) (n0 + 512 * Z.to_nat i) k)).
  - intros i k1 Hi Hl1.
    assert (offset + Z.of_nat (n0 + 512 * Z.to_nat i) = (offset + Z.of_nat n0) + i * 512) as E by lia.
    assert ((offset + Z.of_nat (n0 + 512 * Z.to_nat i)) mod 512 = 0) as E0 by (rewrite E, Z.mod_add; lia).
    change (memcpy (ptr + Z.of_nat n0 + SECTOR_SIZE * i) buffer SECTOR_SIZE)
      with (memcpy (ptr + Z.of_nat n0 + SECTOR_SIZE * i) buffer (Z.of_nat 512)).
    replace (m - Z.to_nat i + r)%nat with (S (m - Z.to_nat (i + 1) + r)) in Hl1 by lia.
    apply (wp_load_chunk (n0 + 512 * Z.to_nat i)) with (r := (m - Z.to_nat (i + 1) + r)%nat);
      [exact Hl1|lia|lia| | | |lia|].
    + rewrite E. by rewrite Z.div_add by lia.
    + unfold SECTOR_SIZE. lia.
    + lia.
    + intros k' Hl'. apply wp_ret. by replace (n0 + 512 * Z.to_nat (i + 1))%nat with (n0 + 512 * Z.to_nat i + 512)%nat by lia.
  - by rewrite Nat.mul_0_r, Nat.add_0_r, Nat.sub_0_r.
  - intros k' Hl'. apply HQ. rewrite Z.add_0_l, Nat2Z.id, Nat.sub_diag in Hl'. exact Hl'.
Qed.

(** The three phases of [fat_load_data]. *)
Lemma wp_load_phases r n k Q : 0 < n → total = 512 * sectors_of n →
  loaded (Z.to_nat (requests offset n) + r) 0 k → (∀ k', loaded r (Z.to_nat total) k' → Q tt k') →
  wp (fat_load_data_body block_read handle ptr offset n buffer) k Q.
Proof.
  intros Hn Ht Hl HQ. unfold fat_load_data_body.
  set (from := offset mod SECTOR_SIZE). set (sector := i32 (offset / SECTOR_SIZE)).
  pose proof (Z.mod_pos_bound offset 512 ltac:(lia)) as Hr. change (offset mod 512) with from in Hr.
  pose proof (Z.div_mod offset 512 ltac:(lia)) as Hdm. change (offset mod 512) with from in Hdm.
  assert (0 < sectors_of n) as Hpos by (apply sectors_of_pos; lia).
  assert (0 ≤ offset / 512 < 2 ^ 30) as Hdiv.
  { split; [apply Z.div_pos; lia|apply Z.div_lt_upper_bound; lia]. }
  assert (sector = offset / 512) as Es by (apply i32_small; unfold SECTOR_SIZE, INT_MIN, INT_MAX; lia).
  set (extra := if from =? 0 then 0 else 1).
  assert (0 ≤ extra ≤ 1 ∧ (from = 0 → extra = 0) ∧ (0 < from → extra = 1)) as Hextra.
  { unfold extra. destruct (Z.eqb_spec from 0); lia. }
  set (count := i32 _).
  assert (count = sectors_of n + extra) as Ec.
  { unfold count. change (n / SECTOR_SIZE + (if n mod SECTOR_SIZE =? 0 then 0 else 1)) with (sectors_of n).
    rewrite u64_small, i32_small; unfold INT_MIN, INT_MAX; lia. }
  assert (requests offset n = sectors_of n + extra) as Ereq by done.
  clearbody count sector extra. subst sector count.
  replace (Z.to_nat (requests offset n) + r)%nat with (S (Z.to_nat (sectors_of n + extra - 1) + r)) in Hl by lia.
  assert (Z.of_nat (Z.to_nat (512 - from)) = 512 - from) as Efirst by lia.
  replace (SECTOR_SIZE - from) with (Z.of_nat (Z.to_nat (512 - from))) by (unfold SECTOR_SIZE; lia).
  apply (wp_load_chunk 0) with (r := (Z.to_nat (sectors_of n + extra - 1) + r)%nat);
    change (Z.of_nat 0) with 0; rewrite ?Z.add_0_r;
    [exact Hl|lia|lia|done|done|done|change (offset mod 512) with from; lia|].
  intros k1 Hl1. rewrite Nat.add_0_l in Hl1.
  destruct (Z.ltb_spec (sectors_of n + extra) 2) as [Hone|Htwo].
  { apply wp_ret, HQ. replace (Z.to_nat (sectors_of n + extra - 1) + r)%nat with r in Hl1 by lia.
    by replace (Z.to_nat total) with (Z.to_nat (512 - from)) by lia. }
  apply wp_bind, wp_in_ram, wp_bind, wp_int_of; [unfold INT_MIN, INT_MAX; lia|].
  apply wp_int_of; [unfold INT_MIN, INT_MAX; lia|]. rewrite set_kram_id.
  set (m := Z.to_nat (sectors_of n + extra + offset / 512 - 1 - (offset / 512 + 1))).
  assert (Z.of_nat m = sectors_of n + extra - 2) as Em by lia. clearbody m.
  assert ((offset + Z.of_nat (Z.to_nat (512 - from))) / 512 = offset / 512 + 1 ∧
    (offset + Z.of_nat (Z.to_nat (512 - from))) mod 512 = 0) as [Ed1 Em1].
  { replace (offset + Z.of_nat (Z.to_nat (512 - from))) with ((offset / 512 + 1) * 512) by lia.
    split; [by rewrite Z.div_mul|by rewrite Z.mod_mul]. }
  replace (Z.to_nat (sectors_of n + extra - 1) + r)%nat with (m + S r)%nat in Hl1 by lia.
  apply wp_bind, (wp_load_middle (S r) (Z.to_nat (512 - from))); [exact Hl1|exact Em1|by rewrite Ed1|lia|done|].
  intros k2 Hl2.
  assert (offset + Z.of_nat (Z.to_nat (512 - from) + 512 * m) = (offset / 512 + sectors_of n + extra - 1) * 512) as E2 by lia.
  set (rest := if negb (from =? 0) then from else SECTOR_SIZE).
  assert (rest = Z.of_nat (Z.to_nat rest) ∧ rest = 512 * sectors_of n - (512 - from) - 512 * Z.of_nat m ∧ 0 < rest ≤ 512)
    as (Erest & Erest' & Hrest).
  { unfold rest, SECTOR_SIZE. destruct (Z.eqb_spec from 0); simpl; lia. }
  rewrite Erest.
  apply (wp_load_chunk (Z.to_nat (512 - from) + 512 * m)) with (r := r); [exact Hl2|lia|lia| | | | |].
  - rewrite E2, Z.div_mul; lia.
  - unfold SECTOR_SIZE. lia.
  - rewrite E2, Z.mod_mul; lia.
  - rewrite E2, Z.mod_mul; lia.
  - intros k3 Hl3. apply wp_ret, HQ.
    by replace (Z.to_nat total) with (Z.to_nat (512 - from) + 512 * m + Z.to_nat rest)%nat by lia.
Qed.

End loading.

(** The hypotheses of [fat_load_data]: the handle's device, a destination of whole sectors, and a
    range of the disk below 2^39 bytes, so that [int sector] holds its number. *)
Definition load_pre (r : nat) (k : kernel) (b handle ptr offset n : Z) : Prop :=
  ready (Z.to_nat (requests offset n) + r) k b ∧ below (2 ^ 62) (kram k) ∧
  word_at 8 (kram k) (handle + fat_block) b ∧ 0 ≤ b < 2 ^ 64 ∧
  0 < n ∧ 0 ≤ offset ∧ offset + 512 * sectors_of n < 2 ^ 39 ∧
  mapped (kram k) ptr (512 * sectors_of n) ∧
  (∀ a, ptr ≤ a < ptr + 512 * sectors_of n → ¬ priv a) ∧
  (∀ a, handle + fat_block ≤ a < handle + fat_block + 8 →
    ¬ priv a ∧ ¬ (ptr ≤ a < ptr + 512 * sectors_of n)).

(** [k'] is [k] with the sectors from byte [offset] of the disk on stored at [ptr]. *)
Definition load_post (r : nat) (k k' : kernel) (b ptr offset n : Z) : Prop :=
  ready r k' b ∧ ∀ a, ¬ priv a →
    kram k' !! a = put_bytes ptr (disk_bytes image offset (Z.to_nat (512 * sectors_of n))) (kram k) !! a.

Lemma wp_fat_load_data r k b handle ptr offset n (Q : unit → kernel → Prop) :
  load_pre r k b handle ptr offset n → (∀ k', load_post r k k' b ptr offset n → Q tt k') →
  wp (fat_load_data block_read handle ptr offset n) k Q.
Proof.
  intros (Hready & Hlow & Hword & Hb & Hn & Ho & Hend & Hptr & Hdest & Hsep) HQ.
  unfold fat_load_data. apply wp_frame_array. intros buffer Hbuffer Hfresh.
  pose proof (fresh_address_bound (2 ^ 62) (kram k) ltac:(lia) Hlow) as Hrange. rewrite <-Hbuffer in Hrange.
  assert (∀ a, buffer ≤ a < buffer + 512 → ¬ priv a) as Hbuf.
  { intros a Ha Hp. destruct (priv_mapped _ k b a Hready Hp) as [c Hc]. rewrite Hfresh in Hc; [done|].
    unfold LOCAL_GAP. lia. }
  eapply (wp_load_phases _ k b handle ptr offset (512 * sectors_of n) buffer Hready) with (r := r); try done.
  - split; [|split].
    + apply ready_stable; [done|]. intros a Ha. rewrite put_cells_lookup, decide_False; [done|].
      rewrite length_replicate. intros Hin. by apply (Hbuf a).
    + apply mapped_put_cells_self. by rewrite length_replicate.
    + intros a _ Ha. cbn. rewrite put_cells_lookup, decide_False; [done|].
      by rewrite length_replicate.
  - intros k' (Hr' & _ & Hk'). apply HQ. split.
    + apply ready_stable; [done|]. intros a Ha. rewrite drop_cells_lookup, decide_False; [done|].
      intros Hin. by apply (Hbuf a).
    + intros a Ha. change (kram (set_kram ?m ?k)) with m. rewrite drop_cells_lookup. case_decide as Hin.
      * rewrite put_bytes_outside, Hfresh; [done|unfold LOCAL_GAP; lia|].
        rewrite length_disk_bytes. intros H.
        destruct (Hptr a) as [c Hc]; [lia|]. rewrite Hfresh in Hc; [done|unfold LOCAL_GAP; lia].
      * by apply Hk'.
Qed.

(** ** Clusters *)

(** What the reading functions use of the handle: the device, the FAT, the data area and a
    cluster of [spc] sectors of 512 bytes. *)
Definition volume (m : mem) (handle b fat data spc : Z) : Prop :=
  word_at 8 m (handle + fat_block) b ∧ word_at 8 m (handle + fat_fat) fat ∧
  word_at 8 m (handle + fat_data_offset) data ∧ word_at 2 m (handle + 11) 512 ∧
  word_at 1 m (handle + 13) spc.

(** [fat[c]] leads from one cluster of [cs] to the next, and from the last to 0xffff. *)
Fixpoint chain (m : mem) (fat : Z) (cs : list Z) : Prop :=
  match cs with
  | [] => True
  | c :: cs => 2 ≤ c < 0xffff ∧ word_at 2 m (fat + 2 * c) (default 0xffff (head cs)) ∧ chain m fat cs
  end.

Definition cluster_offset (data spc c : Z) : Z := data + 512 * spc * (c - 2).

(** The contents of the clusters [cs], one after the other. *)
Definition clusters_data (data spc : Z) (cs : list Z) : list Z :=
  cs ≫= λ c, disk_bytes image (cluster_offset data spc c) (Z.to_nat (512 * spc)).

Lemma wp_fat_read_cluster r k handle b fat data spc c n ptr (Q : unit → kernel → Prop) :
  volume (kram k) handle b fat data spc → 0 ≤ fat < 2 ^ 64 → 0 ≤ data < 2 ^ 38 → 0 < spc < 256 →
  2 ≤ c < 0xffff → 0 < n ≤ 512 * spc → load_pre r k b handle ptr (cluster_offset data spc c) n →
  (∀ k', load_post r k k' b ptr (cluster_offset data spc c) n → Q tt k') →
  wp (fat_read_cluster block_read handle c n ptr) k Q.
Proof.
  intros (_ & _ & Hdata & H512 & Hspc) Hfat Hd Hs Hc Hn Hpre HQ.
  apply wp_bind. eapply wp_in_ram_read; [apply (load_word_ok 8 _ _ _ Hdata); lia|].
  apply wp_bind, (wp_in_ram_read _ _ (spc * 512)).
  { unfold sectors_per_cluster, bytes_per_sector.
    rewrite (bind_ok _ _ _ _ _ (loadb_word _ _ _ Hspc ltac:(lia))).
    rewrite (bind_ok _ _ _ _ _ (load_word_ok 2 _ _ _ H512 ltac:(lia))). apply int_of_ok. unfold INT_MIN, INT_MAX. lia. }
  assert (0 ≤ 512 * spc * (c - 2) < 2 ^ 34) by nia.
  replace (u64 (data + u64 (spc * 512) * u64 (c - 2))) with (cluster_offset data spc c).
  - rewrite u64_small by lia. by apply wp_fat_load_data with r b.
  - unfold cluster_offset. rewrite (u64_small (spc * 512)), (u64_small (c - 2)) by lia.
    rewrite u64_small by lia. lia.
Qed.

(** The memory that [fat_read_entry] reads again in every round. *)
Definition kept (handle fat : Z) (cs : list Z) (a : Z) : Prop :=
  handle ≤ a < handle + sizeof_fat_handle ∨ ∃ c, c ∈ cs ∧ fat + 2 * c ≤ a < fat + 2 * c + 2.

(** [n] bytes are to be read from the clusters [cs] to [ptr]; the device, the FAT and the
    destination are disjoint.  Every cluster may begin and end inside a sector. *)
Definition file_requests (n : Z) (cs : list Z) : nat := (Z.to_nat (sectors_of n) + length cs)%nat.

Record read_pre (r : nat) (k : kernel) (b handle fat data spc ptr n : Z) (cs : list Z) : Prop := {
  rp_ready : ready (file_requests n cs + r) k b;
  rp_below : below (2 ^ 62) (kram k);
  rp_volume : volume (kram k) handle b fat data spc;
  rp_chain : chain (kram k) fat cs;
  rp_count : 512 * spc * (Z.of_nat (length cs) - 1) < n ≤ 512 * spc * Z.of_nat (length cs);
  rp_dest : mapped (kram k) ptr (512 * sectors_of n);
  rp_device : ∀ a, ptr ≤ a < ptr + 512 * sectors_of n → ¬ priv a;
  rp_kept : ∀ a, kept handle fat cs a → ¬ priv a ∧ ¬ (ptr ≤ a < ptr + 512 * sectors_of n);
}.

Lemma sectors_of_clusters spc n : sectors_of (n + 512 * spc) = sectors_of n + spc.
Proof.
  unfold sectors_of. rewrite (Z.mul_comm 512), Z.mod_add, Z.div_add by lia. lia.
Qed.

Lemma sectors_of_whole spc : sectors_of (512 * spc) = spc.
Proof. by rewrite <-(Z.add_0_l (512 * spc)), sectors_of_clusters. Qed.

Lemma sectors_of_le n m : n ≤ m → sectors_of n ≤ sectors_of m.
Proof.
  intros H. unfold sectors_of. pose proof (Z.div_mod n 512). pose proof (Z.div_mod m 512).
  pose proof (Z.mod_pos_bound n 512). pose proof (Z.mod_pos_bound m 512).
  destruct (Z.eqb_spec (n mod 512) 0), (Z.eqb_spec (m mod 512) 0); lia.
Qed.

Lemma sectors_of_mono n m : 0 < n ≤ 512 * m → sectors_of n ≤ m.
Proof.
  intros H. unfold sectors_of. pose proof (Z.div_mod n 512). pose proof (Z.mod_pos_bound n 512).
  destruct (Z.eqb_spec (n mod 512) 0); nia.
Qed.

Lemma chain_agree m m' fat cs :
  (∀ c a, c ∈ cs → fat + 2 * c ≤ a < fat + 2 * c + 2 → m' !! a = m !! a) → chain m fat cs → chain m' fat cs.
Proof.
  induction cs as [|c cs IH]; [done|]. intros Hag (Hc & Hw & Hch). split; [done|]. split.
  - eapply bytes_at_agree; [exact Hw|]. intros a Ha. rewrite length_le_bytes in Ha. apply (Hag c); [left|lia].
  - apply IH; [|done]. intros c' a Hin. apply Hag. by right.
Qed.

Lemma volume_agree m m' handle b fat data spc :
  (∀ a, handle ≤ a < handle + sizeof_fat_handle → m' !! a = m !! a) →
  volume m handle b fat data spc → volume m' handle b fat data spc.
Proof.
  intros Hag (H1 & H2 & H3 & H4 & H5). unfold sizeof_fat_handle in Hag.
  repeat split; (eapply bytes_at_agree; [eassumption|]; intros a Ha; rewrite length_le_bytes in Ha; apply Hag;
    unfold fat_block, fat_fat, fat_data_offset in Ha; lia).
Qed.

(** The conditions after one whole cluster. *)
Lemma read_pre_step r k k1 b handle fat data spc ptr n c cs : 0 < spc → cs ≠ [] →
  read_pre r k b handle fat data spc ptr n (c :: cs) →
  load_post (file_requests (n - 512 * spc) cs + r) k k1 b ptr (cluster_offset data spc c) (512 * spc) →
  read_pre r k1 b handle fat data spc (ptr + 512 * spc) (n - 512 * spc) cs.
Proof.
  intros Hs Hne [Hready Hlow Hv [Hc [Hw Hch]] Hcount Hdest Hdev Hkept] [Hready1 Hk1].
  assert (sectors_of n = sectors_of (n - 512 * spc) + spc) as Es.
  { rewrite <-sectors_of_clusters. f_equal. lia. }
  rewrite length_cons in Hcount. rewrite sectors_of_whole in Hk1.
  assert (0 < n - 512 * spc) by (destruct cs; [done|]; rewrite length_cons in Hcount; nia).
  pose proof (sectors_of_pos (n - 512 * spc) ltac:(lia)).
  assert (∀ a, kept handle fat (c :: cs) a → kram k1 !! a = kram k !! a) as Hag.
  { intros a Ha. destruct (Hkept a Ha) as [Hp Hout]. rewrite Hk1 by done. apply put_bytes_outside.
    rewrite length_disk_bytes. lia. }
  split.
  - done.
  - intros a Ha. destruct (kram k !! a) as [x|] eqn:E; [apply Hlow; by eexists|]. rewrite Hk1 in Ha.
    + rewrite put_bytes_outside, E in Ha; [by destruct Ha|]. rewrite length_disk_bytes. intros Hin.
      destruct (Hdest a); [lia|congruence].
    + intros Hp. destruct (priv_mapped _ _ _ _ Hready Hp). congruence.
  - eapply volume_agree; [|exact Hv]. intros a Ha. apply Hag. by left.
  - eapply chain_agree; [|exact Hch]. intros c' a Hin Ha. apply Hag. right. exists c'. split; [by right|done].
  - lia.
  - intros a Ha. rewrite Hk1 by (apply Hdev; lia). apply mapped_put_bytes with ptr (512 * sectors_of n); [done|lia].
  - intros a Ha. apply Hdev. lia.
  - intros a Ha. destruct (Hkept a) as [Hp Hout]; [|split; [done|lia]].
    destruct Ha as [Ha|(c' & Hin & Ha)]; [by left|]. right. exists c'. split; [by right|done].
Qed.

Lemma read_pre_load r r' k b handle fat data spc ptr n n' c cs : 0 < spc < 256 → 0 ≤ data < 2 ^ 38 →
  0 ≤ b < 2 ^ 64 → read_pre r k b handle fat data spc ptr n (c :: cs) → 0 < n' ≤ n → n' ≤ 512 * spc →
  sectors_of n' ≤ sectors_of n → (r' + Z.to_nat (sectors_of n') + 1 ≤ file_requests n (c :: cs) + r)%nat →
  load_pre r' k b handle ptr (cluster_offset data spc c) n'.
Proof.
  intros Hs Hd Hb [Hready Hlow Hv [Hc _] _ Hdest Hdev Hkept] Hn' Hle Hsec Hr.
  assert (0 ≤ 512 * spc * (c - 2) < 2 ^ 34) by nia.
  assert (sectors_of n' ≤ spc) by (apply sectors_of_mono; lia).
  pose proof (sectors_of_pos n' ltac:(lia)).
  split; [eapply ready_le, Hready|].
  { unfold requests. destruct (_ =? 0); lia. }
  split; [exact Hlow|]. split; [apply Hv|]. split; [done|]. split; [lia|].
  unfold cluster_offset. split; [lia|]. split; [lia|]. split; [|split].
  - intros a Ha. apply Hdest. lia.
  - intros a Ha. apply Hdev. lia.
  - intros a Ha. destruct (Hkept a) as [Hp Hout]; [|split; [done|lia]].
    left. unfold fat_block, sizeof_fat_handle in *. lia.
Qed.

(** The file has been read: its bytes, up to the end of the last sector, are at [ptr]. *)
Definition read_post (r : nat) (k k' : kernel) (b data spc ptr n : Z) (cs : list Z) : Prop :=
  ready r k' b ∧ ∀ a, ¬ priv a → kram k' !! a =
    put_bytes ptr (take (Z.to_nat (512 * sectors_of n)) (clusters_data data spc cs)) (kram k) !! a.

Lemma take_disk_bytes n o len : (n ≤ len)%nat → take n (disk_bytes image o len) = disk_bytes image o n.
Proof.
  intros Hn. replace len with (n + (len - n))%nat by lia. rewrite disk_bytes_app.
  apply take_app_length'. by rewrite length_disk_bytes.
Qed.

(** One cluster and then the others. *)
Lemma read_post_step r r' k k1 k2 b data spc ptr n c cs : 0 < spc → 512 * spc < n →
  load_post r' k k1 b ptr (cluster_offset data spc c) (512 * spc) →
  read_post r k1 k2 b data spc (ptr + 512 * spc) (n - 512 * spc) cs →
  read_post r k k2 b data spc ptr n (c :: cs).
Proof.
  intros Hs Hn [_ H1] [Hr2 H2]. split; [done|]. intros a Ha. rewrite H2 by done.
  set (ys := take _ (clusters_data data spc cs)).
  assert (take (Z.to_nat (512 * sectors_of n)) (clusters_data data spc (c :: cs)) =
    disk_bytes image (cluster_offset data spc c) (Z.to_nat (512 * spc)) ++ ys) as ->.
  { unfold clusters_data. rewrite bind_cons. unfold ys.
    assert (sectors_of n = sectors_of (n - 512 * spc) + spc) as ->.
    { rewrite <-sectors_of_clusters. f_equal. lia. }
    pose proof (sectors_of_pos (n - 512 * spc) ltac:(lia)).
    rewrite take_app_ge by (rewrite length_disk_bytes; lia). rewrite length_disk_bytes. do 2 f_equal. lia. }
  rewrite put_bytes_app, length_disk_bytes, Z2Nat.id by lia.
  rewrite put_bytes_comm by (rewrite length_disk_bytes; lia). rewrite !(put_bytes_lookup (ptr + 512 * spc)).
  case_decide; [done|]. rewrite H1 by done. by rewrite sectors_of_whole.
Qed.

Lemma fat_next_ok m handle b fat data spc c v : volume m handle b fat data spc → 0 ≤ fat < 2 ^ 64 →
  word_at 2 m (fat + 2 * c) v → 0 ≤ v < 2 ^ 16 → fat_next handle c m = Ok v m.
Proof.
  intros (_ & Hfat & _) Hf Hw Hv. unfold fat_next.
  rewrite (bind_ok _ _ _ _ _ (load_word_ok 8 _ _ _ Hfat ltac:(lia))). by apply load_word_ok.
Qed.

Lemma fat_chain_head m fat c cs : chain m fat (c :: cs) →
  2 ≤ c < 0xffff ∧ word_at 2 m (fat + 2 * c) (default 0xffff (head cs)) ∧ 0 ≤ default 0xffff (head cs) < 2 ^ 16.
Proof. intros (Hc & Hw & Hch). split; [done|]. split; [done|]. destruct cs; simpl in *; lia. Qed.

Section rounds.
Variables (b handle fat data spc p0 : Z).
Hypothesis Hb : 0 ≤ b < 2 ^ 64.
Hypothesis Hfat : 0 ≤ fat < 2 ^ 64.
Hypothesis Hdata : 0 ≤ data < 2 ^ 38.
Hypothesis Hspc : 0 < spc < 256.

(** One round reads one cluster, or what is left of the file. *)
Lemma wp_read_round r r' k ptr n d c cs Q : ptr = p0 + d → read_pre r k b handle fat data spc ptr n (c :: cs) →
  0 < n ≤ INT_MAX → 0 ≤ d → d + 512 * spc ≤ INT_MAX ∨ cs = [] →
  (r' + Z.to_nat (sectors_of (Z.min n (512 * spc))) + 1 ≤ file_requests n (c :: cs) + r)%nat →
  (∀ k' d', load_post r' k k' b ptr (cluster_offset data spc c) (Z.min n (512 * spc)) →
    (cs ≠ [] → d' = d + 512 * spc) → Q (inl (default 0xffff (head cs), n - 512 * spc, d')) k') →
  wp (fat_read_round block_read handle p0 (512 * spc) (c, n, d)) k Q.
Proof.
  intros -> Hpre Hn Hd Hd' Hr' HQ. unfold fat_read_round.
  pose proof (sectors_of_le (Z.min n (512 * spc)) n ltac:(lia)) as Hmin.
  destruct (fat_chain_head _ _ _ _ (rp_chain _ _ _ _ _ _ _ _ _ _ Hpre)) as (Hc & Hw & Hnext).
  rewrite (proj2 (Z.eqb_neq c 0xffff)) by lia. simpl negb. cbv iota.
  rewrite (u64_small c), (u64_small n) by (unfold INT_MAX in *; lia).
  replace (i32 (if 512 * spc <? n then 512 * spc else n)) with (Z.min n (512 * spc))
    by (destruct (Z.ltb_spec (512 * spc) n); rewrite i32_small; unfold INT_MIN, INT_MAX in *; lia).
  apply wp_bind, wp_fat_read_cluster with r' b fat data spc; try done; [apply Hpre|lia| |].
  { eapply read_pre_load; try done; lia. }
  intros k' Hpost. pose proof Hpost as [_ Hk'].
  assert (∀ a, kept handle fat (c :: cs) a → kram k' !! a = kram k !! a) as Hag.
  { intros a Ha. destruct (rp_kept _ _ _ _ _ _ _ _ _ _ Hpre a Ha) as [Hp Hout]. rewrite Hk' by done.
    apply put_bytes_outside. rewrite length_disk_bytes. lia. }
  apply wp_bind. eapply wp_in_ram_read.
  { eapply fat_next_ok; [|done| |exact Hnext].
    - eapply volume_agree; [|apply Hpre]. intros a Ha. apply Hag. by left.
    - eapply bytes_at_agree; [exact Hw|]. intros a Ha. rewrite length_le_bytes in Ha. apply Hag. right.
      exists c. split; [left|lia]. }
  apply wp_ret. rewrite (i32_small (n - 512 * spc)) by (unfold INT_MIN, INT_MAX in *; lia).
  apply HQ; [done|]. intros Hne. rewrite u64_small, i32_small; [done|..]; unfold INT_MIN, INT_MAX in *; destruct Hd'; try done; lia.
Qed.

Lemma wp_read_rounds r cs : ∀ k ptr n d c fuel Q, ptr = p0 + d → read_pre r k b handle fat data spc ptr n (c :: cs) →
  0 < n → n + d ≤ INT_MAX → 0 ≤ d → (length cs + 1 < fuel)%nat →
  (∀ k', read_post r k k' b data spc ptr n (c :: cs) → Q tt k') →
  wp (follow fuel (fat_read_round block_read handle p0 (512 * spc)) (c, n, d)) k Q.
Proof.
  induction cs as [|c' cs IH]; intros k ptr n d c fuel Q Hptr Hpre Hn Hd Hd0 Hfuel HQ;
    (destruct fuel as [|fuel]; [simpl in Hfuel; lia|]); cbn [follow]; pose proof (rp_count _ _ _ _ _ _ _ _ _ _ Hpre) as Hcount;
    cbn [length] in Hcount.
  - apply wp_bind. apply (wp_read_round r r) with (ptr := ptr) (cs := []); [exact Hptr|exact Hpre|lia|lia|by right| |].
    { rewrite Z.min_l by lia. unfold file_requests. simpl. lia. }
    intros k' d' Hpost _. destruct fuel as [|fuel]; [simpl in Hfuel; lia|]. cbn [follow]. simpl default.
    unfold fat_read_round. simpl negb. apply wp_bind, wp_ret, wp_ret, HQ.
    rewrite Z.min_l in Hpost by lia. destruct Hpost as [Hr Hk]. split; [done|].
    intros a Ha. rewrite Hk by done. unfold clusters_data. simpl. rewrite app_nil_r, take_disk_bytes; [done|].
    pose proof (sectors_of_mono n spc ltac:(lia)). lia.
  - assert (512 * spc < n) by nia.
    apply wp_bind. apply (wp_read_round r (file_requests (n - 512 * spc) (c' :: cs) + r)) with (ptr := ptr) (cs := c' :: cs);
      [exact Hptr|exact Hpre|lia|lia|left; lia| |].
    { pose proof (sectors_of_clusters spc (n - 512 * spc)) as E. rewrite Z.min_r, sectors_of_whole by lia.
      replace (n - 512 * spc + 512 * spc) with n in E by lia.
      pose proof (sectors_of_pos (n - 512 * spc) ltac:(lia)). unfold file_requests. rewrite E. simpl. lia. }
    intros k' d' Hpost Hd'. rewrite Hd' by done. rewrite Z.min_r in Hpost by lia. simpl default.
    apply IH with (ptr + 512 * spc); [lia| |lia|lia|lia|simpl in Hfuel; lia|].
    + eapply read_pre_step; [lia|done|exact Hpre|exact Hpost].
    + intros k2 Hpost2. apply HQ. eapply read_post_step; [lia|lia|exact Hpost|exact Hpost2].
Qed.
End rounds.

(** [fat_load_data] reads every sector that the [n] bytes from [offset] on need and stores
    [n] rounded up to whole sectors of the disk, starting at byte [offset], at [ptr]; apart from
    the device's own memory nothing else changes. *)
Theorem fat_load_data_copies r k b handle ptr offset n : load_pre r k b handle ptr offset n →
  ∃ k', fat_load_data block_read handle ptr offset n k = Ok tt k' ∧ load_post r k k' b ptr offset n.
Proof.
  intros Hpre. assert (wp (fat_load_data block_read handle ptr offset n) k
    (λ _ k', load_post r k k' b ptr offset n)) as ([] & k' & H & Hpost)%wp_ok.
  { by apply (wp_fat_load_data r k b). }
  by exists k'.
Qed.

Lemma fat_read_entry_spec r k b handle entry fat data spc ptr n c cs :
  0 ≤ b < 2 ^ 64 → 0 ≤ fat < 2 ^ 64 → 0 ≤ data < 2 ^ 38 → 0 < spc < 256 → 0 < n ≤ INT_MAX →
  Z.of_nat (length cs) < 65536 → word_at 2 (kram k) (entry + 26) c → word_at 4 (kram k) (entry + 28) n →
  read_pre r k b handle fat data spc ptr n (c :: cs) →
  ∃ k', fat_read_entry block_read handle entry ptr k = Ok tt k' ∧ read_post r k k' b data spc ptr n (c :: cs).
Proof.
  intros Hb Hfat Hdata Hspc Hn Hlen Hc Hsize Hpre.
  assert (wp (fat_read_entry block_read handle entry ptr) k
    (λ _ k', read_post r k k' b data spc ptr n (c :: cs))) as ([] & k' & H & Hpost)%wp_ok; [|by exists k'].
  pose proof (rp_volume _ _ _ _ _ _ _ _ _ _ Hpre) as (_ & _ & _ & H512 & Hs).
  destruct (fat_chain_head _ _ _ _ (rp_chain _ _ _ _ _ _ _ _ _ _ Hpre)) as (Hcr & _ & _).
  unfold fat_read_entry. apply wp_bind, (wp_in_ram_read _ _ (512 * spc)).
  { unfold fat_get_cluster_size, sectors_per_cluster, bytes_per_sector.
    rewrite (bind_ok _ _ _ _ _ (load_word_ok 2 _ _ _ H512 ltac:(lia))).
    rewrite (bind_ok _ _ _ _ _ (loadb_word _ _ _ Hs ltac:(lia))). apply int_of_ok.
    unfold INT_MIN, INT_MAX in *. lia. }
  apply wp_bind, (wp_in_ram_read _ _ n); [apply (load_word_ok 4); [done|unfold INT_MAX in *; lia]|].
  apply wp_bind, (wp_in_ram_read _ _ c); [apply (load_word_ok 2); [done|lia]|].
  rewrite u64_small, i32_small by (unfold INT_MIN, INT_MAX in *; lia).
  apply wp_chain_fuel. intros fuel Hfuel.
  apply (wp_read_rounds b handle fat data spc ptr Hb Hfat Hdata Hspc r cs k ptr n 0 c fuel); try lia; done.
Qed.

(** [fat_read_entry] follows the chain of the file through the FAT and stores the contents of
    its clusters, in that order and up to the end of the file's last sector, at [ptr]; it ends
    because the chain does. *)
Theorem fat_read_entry_reads r k b handle entry fat data spc ptr n c cs :
  0 ≤ b < 2 ^ 64 → 0 ≤ fat < 2 ^ 64 → 0 ≤ data < 2 ^ 38 → 0 < spc < 256 → 0 < n ≤ INT_MAX →
  Z.of_nat (length cs) < 65536 → word_at 2 (kram k) (entry + 26) c → word_at 4 (kram k) (entry + 28) n →
  read_pre r k b handle fat data spc ptr n (c :: cs) →
  ∃ k', fat_read_entry block_read handle entry ptr k = Ok tt k' ∧ read_post r k k' b data spc ptr n (c :: cs).
Proof. apply fat_read_entry_spec. Qed.
End reading.

(** * Witnesses *)

(** A disk whose sector [s] is 512 times the byte [s], and a device that stores sectors. *)
Definition demo_disk (s : Z) : list Z := replicate 512 (s mod 256).
Definition demo_block_read (b buf n : Z) : M kernel Z := in_ram (λ m, Ok 0 (put_bytes buf (demo_disk n) m)).

#[local] Instance demo_reader : SectorReader demo_block_read demo_disk (λ _ _ _, True) (λ _, False).
Proof.
  split; try done.
  - intros n. apply Forall_replicate, Z.mod_pos_bound. lia.
  - intros r k b buf n _ _ _ _ _. eexists. split; [by apply in_ram_ok|]. done.
Qed.

(** A handle at 1000 with the FAT at 5000 and the data area at byte 1024 of the disk; a directory
    entry at 6000 for a file of 600 bytes in clusters 2 and 4; space for it at 8000. *)
Definition demo_fat_ram : mem :=
  put_bytes 1576 (le_bytes 8 7) $ put_bytes 1536 (le_bytes 8 5000) $ put_bytes 1568 (le_bytes 8 1024) $
  put_bytes 1011 (le_bytes 2 512) $ put_bytes 1013 (le_bytes 1 1) $ put_bytes 1017 (le_bytes 2 2) $
  put_bytes 5004 (le_bytes 2 4) $ put_bytes 5008 (le_bytes 2 0xffff) $
  put_bytes 1560 (le_bytes 8 5968) $ put_bytes 5968 (replicate 32 32) $
  put_bytes 6000 (chars "INIT    ELF") $ put_bytes 6026 (le_bytes 2 2) $ put_bytes 6028 (le_bytes 4 600) $
  put_bytes 7000 (chars "init" ++ [0]) $ put_bytes 7010 (chars "elf" ++ [0]) $
  put_cells 8000 (replicate 1024 None) ∅.
Definition demo_fat_kernel : kernel :=
  mk_kernel (mk_machine demo_fat_ram (λ _, 0) [] (mk_environment (λ _ _, 0) (λ _ _, 0)))
    (mk_heap 0 0 0 0) (mk_gic_table [] []).

Lemma demo_fat_below : below (2 ^ 62) (kram demo_fat_kernel).
Proof. apply below_check. vm_compute. reflexivity. Qed.

Lemma fat_load_data_copies_witness : ∃ k',
  fat_load_data demo_block_read 1000 8000 700 600 demo_fat_kernel = Ok tt k' ∧
  load_post (image := demo_disk) (ready := λ _ _ _, True) (priv := λ _, False) 0 demo_fat_kernel k' 7 8000 700 600.
Proof.
  apply (fat_load_data_copies 0 demo_fat_kernel 7 1000 8000 700 600).
  split; [done|]. split; [exact demo_fat_below|]. split; [apply bytes_at_check; vm_compute; reflexivity|].
  change (512 * sectors_of 600) with 1024. repeat (split; [lia|]).
  split; [apply mapped_check; vm_compute; reflexivity|]. split; [by intros ? _ []|].
  intros a Ha. split; [by intros []|]. unfold fat_block in Ha. lia.
Defined.

Lemma fat_read_entry_reads_witness : ∃ k',
  fat_read_entry demo_block_read 1000 6000 8000 demo_fat_kernel = Ok tt k' ∧
  read_post (image := demo_disk) (ready := λ _ _ _, True) (priv := λ _, False)
    0 demo_fat_kernel k' 7 1024 1 8000 600 [2; 4].
Proof.
  apply (fat_read_entry_reads 0 demo_fat_kernel 7 1000 6000 5000 1024 1 8000 600 2 [4]); try lia.
  - unfold INT_MAX. lia.
  - simpl. lia.
  - apply bytes_at_check; vm_compute; reflexivity.
  - apply bytes_at_check; vm_compute; reflexivity.
  - split; change (512 * sectors_of 600) with 1024.
    + done.
    + exact demo_fat_below.
    + repeat split; (apply bytes_at_check; vm_compute; reflexivity).
    + split; [lia|]. split; [apply bytes_at_check; vm_compute; reflexivity|].
      split; [lia|]. split; [apply bytes_at_check; vm_compute; reflexivity|done].
    + simpl. lia.
    + apply mapped_check; vm_compute; reflexivity.
    + by intros ? _ [].
    + intros a Ha. split; [by intros []|]. unfold kept, sizeof_fat_handle in Ha.
      destruct Ha as [Ha|(c & Hc & Ha)]; [lia|].
      apply elem_of_cons in Hc as [->|[->|[]%elem_of_nil]%elem_of_cons]; lia.
Defined.

Lemma fat_lookup_finds_first_witness :
  fat_get_entry_by_file 1000 7000 7010 demo_fat_ram = Ok 6000 demo_fat_ram.
Proof.
  apply (fat_lookup_finds_first demo_fat_ram 1000 5968
    [(replicate 8 32, replicate 3 32); (chars "INIT    ", chars "ELF")] 7000 (chars "init") 7010 (chars "elf")).
  - apply bytes_at_check; vm_compute; reflexivity.
  - simpl. lia.
  - apply bytes_at_check; vm_compute; reflexivity.
  - lia.
  - intros i f x Hi. destruct i as [|[|i]]; [| |done]; injection Hi as <- <-;
      (split; [done|]; split; [done|]; apply bytes_at_check; vm_compute; reflexivity).
  - split; [apply bytes_at_check; vm_compute; reflexivity|by repeat constructor].
  - simpl. lia.
  - split; [apply bytes_at_check; vm_compute; reflexivity|by repeat constructor].
  - simpl. lia.
Defined.
