(* ===== verification/FatPart.v ===== *)
(** * A block of a file (kernel/fs/fat.c: fat_read_entry_offset_size)

    [fat_read_entry_offset_size] reads a cluster into memory of the heap and copies a part of it.
    The driver of the disk uses the same heap, so what is private to the device changes while the
    buffer is allocated: [ReaderBuffer] relates the two situations. *)
From stdpp Require Import base list gmap.
From Stdlib Require Import ZArith Lia.
From S2P Require Import Prelude Memory CString Heap Machine Log Gic Kernel Fat.

(** A reader of sectors, [ready] and [priv], that is also one, [ready'] and [priv'], while [size]
    bytes at [p] are allocated; the heap is private to the device. *)
Class ReaderBuffer (block_read : Z → Z → Z → M kernel Z) (image : Z → list Z)
    (ready ready' : nat → kernel → Z → Prop) (priv priv' : Z → Prop) (size p : Z) : Prop := {
  buffer_outer : SectorReader block_read image ready priv;
  buffer_inner : SectorReader block_read image ready' priv';
  buffer_alloc r k b : ready r k b → ∃ k', kalloc size k = Ok p k' ∧ ready' r k' b ∧
    (∀ a, ¬ priv a → kram k' !! a = kram k !! a) ∧ (∀ a, is_Some (kram k !! a) → is_Some (kram k' !! a));
  buffer_free r k b : ready' r k b → mapped (kram k) p size → ∃ k', kfree p k = Ok tt k' ∧ ready r k' b ∧
    ∀ a, ¬ priv' a → kram k' !! a = kram k !! a;
  buffer_apart a : p ≤ a < p + size → ¬ priv' a;
}.
#[export] Existing Instances buffer_outer buffer_inner.

(** The block number [blk] of 512 bytes of the contents of the clusters [cs]. *)
Definition file_block (image : Z → list Z) (data spc : Z) (cs : list Z) (blk : Z) : list Z :=
  take 512 (drop (Z.to_nat (512 * blk)) (clusters_data (image := image) data spc cs)).

(** ** Along the chain *)

Lemma fat_chain_lookup m fat cs j c : chain m fat cs → cs !! j = Some c →
  2 ≤ c < 0xffff ∧ word_at 2 m (fat + 2 * c) (default 0xffff (cs !! S j)) ∧
  0 ≤ default 0xffff (cs !! S j) < 2 ^ 16.
Proof.
  revert j. induction cs as [|c' cs IH]; intros j Hch Hj; [done|]. destruct j as [|j].
  - injection Hj as ->. destruct (fat_chain_head _ _ _ _ Hch) as (? & ? & ?). by destruct cs.
  - by apply IH; [apply Hch|].
Qed.

Lemma chain_first m fat cs : chain m fat cs → 0 ≤ default 0 (head cs) < 0xffff.
Proof. destruct cs as [|c cs]; [simpl; lia|]. intros [Hc _]. simpl. lia. Qed.

Lemma fat_skip_spec m handle b fat data spc cs i ci : volume m handle b fat data spc → 0 ≤ fat < 2 ^ 64 →
  chain m fat cs → cs !! i = Some ci → fat_skip handle (Z.of_nat i) (default 0 (head cs)) m = Ok ci m.
Proof.
  intros Hv Hf Hch Hi. destruct cs as [|c cs]; [done|]. cbn [head default]. apply wp_eq. unfold fat_skip.
  apply (wp_loop (λ '(j, cj) m', m' = m ∧ ∃ n, j = Z.of_nat n ∧ (n ≤ i)%nat ∧ (c :: cs) !! n = Some cj)
    (λ '(j, _), Z.to_nat (Z.of_nat i - j))).
  - intros [j cj] m' (-> & n & -> & Hn & Hj). destruct (Z.ltb_spec (Z.of_nat n) (Z.of_nat i)).
    + destruct (fat_chain_lookup _ _ _ _ _ Hch Hj) as (_ & Hw & Hr).
      apply wp_bind, (wp_intro _ _ _ _ _ (fat_next_ok _ _ _ _ _ _ _ _ Hv Hf Hw Hr)), wp_ret.
      split; [|lia]. split; [done|]. exists (S n). split; [lia|]. split; [lia|].
      destruct (lookup_lt_is_Some_2 (c :: cs) (S n)) as [x Hx]; [apply lookup_lt_Some in Hi; lia|].
      by rewrite Hx.
    + apply wp_ret. assert (n = i) as -> by lia. split; [congruence|done].
  - split; [done|]. exists 0%nat. split_and!; [done|lia|done].
  - lia.
Qed.

(** ** The contents of a file *)

Section contents.
Context (image : Z → list Z) (data spc : Z).
Hypothesis Hspc : 0 < spc.

Lemma length_clusters_data cs : length (clusters_data (image := image) data spc cs) = (Z.to_nat (512 * spc) * length cs)%nat.
Proof.
  induction cs as [|c cs IH]; unfold clusters_data in *; [simpl; lia|].
  rewrite bind_cons, length_app, IH, length_disk_bytes. simpl. lia.
Qed.

Lemma drop_disk_bytes n o len : (n ≤ len)%nat →
  drop n (disk_bytes image o len) = disk_bytes image (o + Z.of_nat n) (len - n).
Proof.
  intros Hn. replace len with (n + (len - n))%nat at 1 by lia. rewrite disk_bytes_app.
  apply drop_app_length'. by rewrite length_disk_bytes.
Qed.

Lemma take_disk_bytes_le n o len : (n ≤ len)%nat → take n (disk_bytes image o len) = disk_bytes image o n.
Proof.
  intros Hn. replace len with (n + (len - n))%nat by lia. rewrite disk_bytes_app.
  apply take_app_length'. by rewrite length_disk_bytes.
Qed.

(** A block lies in one cluster. *)
Lemma file_block_cluster cs blk c : 0 ≤ blk → cs !! Z.to_nat (blk / spc) = Some c →
  file_block image data spc cs blk = disk_bytes image (cluster_offset data spc c + 512 * (blk mod spc)) 512.
Proof.
  intros Hb. unfold file_block. pose proof (Z.mod_pos_bound blk spc Hspc) as Hj. pose proof (Z.div_mod blk spc).
  assert (0 ≤ blk / spc) by (apply Z.div_pos; lia).
  replace (Z.to_nat (512 * blk)) with (Z.to_nat (512 * spc) * Z.to_nat (blk / spc) + Z.to_nat (512 * (blk mod spc)))%nat by nia.
  revert Hj. generalize (Z.to_nat (blk / spc)) as i. generalize (blk mod spc) as j. clear - Hspc.
  intros j i Hj Hi. revert cs Hi. induction i as [|i IH]; intros [|c' cs] Hi; [done| |done|].
  - injection Hi as ->. rewrite Nat.mul_0_r, Nat.add_0_l. unfold clusters_data. rewrite bind_cons.
    rewrite drop_app_le, drop_disk_bytes by (rewrite ?length_disk_bytes; lia).
    rewrite take_app_le, take_disk_bytes_le by (rewrite ?length_disk_bytes; lia). by rewrite Z2Nat.id by lia.
  - unfold clusters_data. rewrite bind_cons, drop_app_ge by (rewrite length_disk_bytes; nia).
    rewrite length_disk_bytes, <-(IH cs Hi). do 2 f_equal. nia.
Qed.
End contents.

(** ** The read *)

Section part.
Context {block_read : Z → Z → Z → M kernel Z} {image : Z → list Z}
  {ready ready' : nat → kernel → Z → Prop} {priv priv' : Z → Prop} {spc p : Z}
  `{Hbuf : !ReaderBuffer block_read image ready ready' priv priv' (512 * spc) p}.

(** The memory that does not keep its contents: the device's, before and after the allocation of
    the buffer, and the buffer. *)
Definition scratch (a : Z) : Prop := priv a ∨ priv' a ∨ p ≤ a < p + 512 * spc.

(** The block [blk] of the file of [entry] is to be read to [ptr]. *)
Record part_pre (r : nat) (k : kernel) (b handle entry fat data ptr blk : Z) (cs : list Z) : Prop := {
  pp_ready : ready (S (Z.to_nat spc) + r) k b;
  pp_below : below (2 ^ 62) (kram k);
  pp_volume : volume (kram k) handle b fat data spc;
  pp_chain : chain (kram k) fat cs;
  pp_first : word_at 2 (kram k) (entry + 26) (default 0 (head cs));
  pp_block : 0 ≤ blk ∧ (Z.to_nat (blk / spc) < length cs)%nat ∧ 512 * blk + 512 ≤ INT_MAX;
  pp_buffer : mapped (kram k) p (512 * spc);
  pp_dest : mapped (kram k) ptr 512;
  pp_free : ∀ a, ptr ≤ a < ptr + 512 → ¬ scratch a;
  pp_kept : ∀ a, kept handle fat cs a ∨ entry + 26 ≤ a < entry + 28 → ¬ scratch a ∧ ¬ (ptr ≤ a < ptr + 512);
}.

Definition part_post (r : nat) (k k' : kernel) (b data ptr blk : Z) (cs : list Z) : Prop :=
  ready r k' b ∧ mapped (kram k') p (512 * spc) ∧ below (2 ^ 62) (kram k') ∧
  ∀ a, ¬ scratch a → kram k' !! a = put_bytes ptr (file_block image data spc cs blk) (kram k) !! a.

Section steps.
Variables (r : nat) (k : kernel) (b handle entry fat data ptr blk : Z) (cs : list Z).
Hypothesis Hpre : part_pre r k b handle entry fat data ptr blk cs.
Hypothesis Hrange : 0 ≤ b < 2 ^ 64 ∧ 0 ≤ fat < 2 ^ 64 ∧ 0 ≤ data < 2 ^ 38 ∧ 0 < spc < 256.

(** What is read of the volume and the entry is there in every state of the read. *)
Definition calm (k' : kernel) : Prop :=
  ∀ a, ¬ scratch a → ¬ (ptr ≤ a < ptr + 512) → kram k' !! a = kram k !! a.

Lemma calm_volume k' : calm k' → volume (kram k') handle b fat data spc.
Proof.
  intros Hc. eapply volume_agree; [|apply (pp_volume _ _ _ _ _ _ _ _ _ _ Hpre)]. intros a Ha.
  destruct (pp_kept _ _ _ _ _ _ _ _ _ _ Hpre a) as [H1 H2]; [left; by left|]. by apply Hc.
Qed.

Lemma calm_chain k' : calm k' → chain (kram k') fat cs.
Proof.
  intros Hc. eapply chain_agree; [|apply (pp_chain _ _ _ _ _ _ _ _ _ _ Hpre)]. intros c a Hin Ha.
  destruct (pp_kept _ _ _ _ _ _ _ _ _ _ Hpre a) as [H1 H2]; [left; right; by exists c|]. by apply Hc.
Qed.

Lemma calm_first k' : calm k' → word_at 2 (kram k') (entry + 26) (default 0 (head cs)).
Proof.
  intros Hc. eapply bytes_at_agree; [apply (pp_first _ _ _ _ _ _ _ _ _ _ Hpre)|]. intros a Ha.
  rewrite length_le_bytes in Ha. destruct (pp_kept _ _ _ _ _ _ _ _ _ _ Hpre a) as [H1 H2]; [right; lia|]. by apply Hc.
Qed.

(** The buffer is allocated. *)
Record lent (k' : kernel) : Prop := {
  le_ready : ready' (S (Z.to_nat spc) + r) k' b;
  le_calm : ∀ a, ¬ scratch a → kram k' !! a = kram k !! a;
  le_below : below (2 ^ 62) (kram k');
  le_buffer : mapped (kram k') p (512 * spc);
}.

Lemma lent_calm k' : lent k' → calm k'.
Proof. intros [] a Ha _. auto. Qed.

Lemma wp_lend (Q : Z → kernel → Prop) : (∀ k', lent k' → Q p k') → wp (kalloc (512 * spc)) k Q.
Proof.
  intros HQ. destruct Hpre as [Hr Hlow _ _ _ _ Hb _ _ _].
  destruct (buffer_alloc _ k b Hr) as (k' & Hk & Hr' & Hsame & Hmap). apply (wp_intro _ _ _ _ _ Hk), HQ. split.
  - exact Hr'.
  - intros a Ha. apply Hsame. intros Hp. apply Ha. by left.
  - intros a [x Hx]. destruct (kram k !! a) as [y|] eqn:E; [apply Hlow; by eexists|].
    rewrite Hsame in Hx; [congruence|]. intros Hp. destruct (priv_mapped _ _ _ _ Hr Hp). congruence.
  - intros a Ha. by apply Hmap, Hb.
Qed.

(** The cluster is in the buffer. *)
Record filled (c : Z) (k' : kernel) : Prop := {
  fi_ready : ready' r k' b;
  fi_calm : ∀ a, ¬ scratch a → kram k' !! a = kram k !! a;
  fi_below : below (2 ^ 62) (kram k');
  fi_buffer : bytes_at (kram k') p (disk_bytes image (cluster_offset data spc c) (Z.to_nat (512 * spc)));
}.

Lemma wp_fill k1 c (Q : unit → kernel → Prop) : lent k1 → 2 ≤ c < 0xffff → (∀ k', filled c k' → Q tt k') →
  wp (fat_read_cluster block_read handle c (512 * spc) p) k1 Q.
Proof.
  intros Hl Hc HQ. destruct Hrange as (Hb & Hf & Hd & Hs). pose proof (calm_volume _ (lent_calm _ Hl)) as Hv.
  destruct Hl as [Hr Hsame Hlow Hbuffer].
  assert (∀ a, p ≤ a < p + 512 * spc → ¬ priv' a) as Hap by apply buffer_apart.
  eapply (wp_fat_read_cluster r); [exact Hv|done..|lia| |].
  - unfold load_pre. rewrite sectors_of_whole. unfold cluster_offset. split_and!; try done; try lia; try nia.
    + eapply ready_le; [|exact Hr]. unfold requests. rewrite sectors_of_whole. case_match; lia.
    + apply Hv.
    + intros a Ha. destruct (pp_kept _ _ _ _ _ _ _ _ _ _ Hpre a) as [Hns _].
      { left. left. unfold fat_block, sizeof_fat_handle in *. lia. }
      unfold scratch in Hns. tauto.
  - intros k' [Hr' Hk']. rewrite sectors_of_whole in Hk'. apply HQ. split.
    + exact Hr'.
    + intros a Ha. rewrite Hk' by (unfold scratch in Ha; tauto). rewrite put_bytes_outside; [by apply Hsame|].
      rewrite length_disk_bytes. unfold scratch in Ha. lia.
    + intros a [x Hx]. destruct (kram k1 !! a) as [y|] eqn:E; [apply Hlow; by eexists|].
      rewrite Hk' in Hx.
      * rewrite put_bytes_outside in Hx; [congruence|]. rewrite length_disk_bytes. intros Hin.
        destruct (Hbuffer a) as [? ?]; [lia|congruence].
      * intros Hp. destruct (priv_mapped _ _ _ _ Hr Hp). congruence.
    + eapply bytes_at_agree; [apply bytes_at_put|]. intros a Ha. symmetry. rewrite Hk'; [done|].
      apply Hap. rewrite length_disk_bytes in Ha. lia.
Qed.

(** The block is copied out of the buffer. *)
Record copied (k' : kernel) : Prop := {
  co_ready : ready' r k' b;
  co_dest : ∀ a, ¬ scratch a → kram k' !! a = put_bytes ptr (file_block image data spc cs blk) (kram k) !! a;
  co_below : below (2 ^ 62) (kram k');
  co_buffer : mapped (kram k') p (512 * spc);
}.

Lemma copied_calm k' : copied k' → calm k'.
Proof.
  intros [_ H _ _] a Ha Hp. rewrite H by done. apply put_bytes_outside. intros Hin. apply Hp.
  unfold file_block in Hin. rewrite length_take in Hin. lia.
Qed.

Lemma wp_copy k2 c (Q : Z → kernel → Prop) : filled c k2 → cs !! Z.to_nat (blk / spc) = Some c →
  (∀ k' d, copied k' → Q d k') →
  wp (in_ram (memcpy ptr (p + 512 * (blk mod spc)) 512)) k2 Q.
Proof.
  intros [Hr Hsame Hlow Hbuffer] Hc HQ. destruct Hrange as (Hb & Hf & Hd & Hs).
  destruct (pp_block _ _ _ _ _ _ _ _ _ _ Hpre) as (Hblk & _ & _). pose proof (Z.mod_pos_bound blk spc ltac:(lia)) as Hm.
  pose proof (file_block_cluster image data spc ltac:(lia) cs blk c Hblk Hc) as Hfb.
  set (bs := file_block image data spc cs blk) in *.
  assert (length bs = 512%nat) as Hlen by (rewrite Hfb; apply length_disk_bytes).
  assert (bytes_at (kram k2) (p + 512 * (blk mod spc)) bs) as Hsrc.
  { rewrite Hfb. replace (Z.to_nat (512 * spc)) with (Z.to_nat (512 * (blk mod spc)) +
      (512 + (Z.to_nat (512 * spc) - Z.to_nat (512 * (blk mod spc)) - 512)))%nat in Hbuffer by nia.
    rewrite !disk_bytes_app in Hbuffer. apply bytes_at_app in Hbuffer as [_ H]. apply bytes_at_app in H as [H _].
    rewrite length_disk_bytes, Z2Nat.id in H by lia. exact H. }
  assert (ptr + 512 ≤ p ∨ p + 512 * spc ≤ ptr) as Hdis.
  { destruct (Z.le_gt_cases (ptr + 512) p); [by left|]. destruct (Z.le_gt_cases (p + 512 * spc) ptr); [by right|].
    exfalso. apply (pp_free _ _ _ _ _ _ _ _ _ _ Hpre (Z.max ptr p)); [lia|]. right. right. lia. }
  assert (mapped (kram k2) ptr 512) as Hdest.
  { intros a Ha. rewrite Hsame by by apply (pp_free _ _ _ _ _ _ _ _ _ _ Hpre). by apply (pp_dest _ _ _ _ _ _ _ _ _ _ Hpre). }
  pose proof (memcpy_spec (kram k2) ptr (p + 512 * (blk mod spc)) bs Hsrc) as Hcpy. rewrite Hlen in Hcpy.
  apply wp_in_ram. change 512 with (Z.of_nat 512) at 2. eapply wp_intro.
  { apply Hcpy; [rewrite Hfb; apply disk_bytes_ok|unfold INT_MAX; lia|exact Hdest|unfold disjoint; nia]. }
  apply HQ. split.
  - apply ready_stable; [done|]. intros a Ha. apply put_bytes_outside. rewrite Hlen. intros Hin.
    apply (pp_free _ _ _ _ _ _ _ _ _ _ Hpre a); [lia|]. right. by left.
  - intros a Ha. change (kram (set_kram ?m _)) with m. fold bs. rewrite !put_bytes_lookup. case_decide; [done|by apply Hsame].
  - intros a Ha. change (kram (set_kram ?m _)) with m in Ha. apply Hlow. rewrite put_bytes_lookup in Ha. case_decide; [|done].
    apply Hdest. lia.
  - apply mapped_put_bytes. pose proof (bytes_at_mapped _ _ _ Hbuffer) as H. rewrite length_disk_bytes in H.
    by rewrite Z2Nat.id in H by lia.
Qed.

Lemma wp_release k3 (Q : unit → kernel → Prop) : copied k3 →
  (∀ k', part_post r k k' b data ptr blk cs → Q tt k') → wp (kfree p) k3 Q.
Proof.
  intros [Hr Hdest Hlow Hbuffer] HQ. destruct (buffer_free _ k3 b Hr Hbuffer) as (k4 & Hfree & Hr4 & Hsame).
  apply (wp_intro _ _ _ _ _ Hfree), HQ. split; [done|]. split; [|split].
  - intros a Ha. rewrite Hsame by by apply buffer_apart. by apply Hbuffer.
  - intros a [x Hx]. destruct (kram k3 !! a) as [y|] eqn:E; [apply Hlow; by eexists|].
    rewrite Hsame in Hx; [congruence|]. intros Hp. destruct (priv_mapped _ _ _ _ Hr Hp). congruence.
  - intros a Ha. rewrite Hsame; [by apply Hdest|]. unfold scratch in Ha. tauto.
Qed.

Lemma wp_part (Q : unit → kernel → Prop) : (∀ k', part_post r k k' b data ptr blk cs → Q tt k') →
  wp (fat_read_entry_offset_size block_read handle entry ptr (512 * blk) 512) k Q.
Proof.
  intros HQ. destruct Hrange as (Hb & Hf & Hd & Hs).
  destruct (pp_block _ _ _ _ _ _ _ _ _ _ Hpre) as (Hblk & Hlen & Hmax).
  destruct (lookup_lt_is_Some_2 cs (Z.to_nat (blk / spc)) Hlen) as [c Hc].
  pose proof (Z.mod_pos_bound blk spc ltac:(lia)) as Hm. pose proof (Z.div_mod blk spc ltac:(lia)) as Hdm.
  assert (0 ≤ blk / spc ≤ blk) as Hdiv by (split; [apply Z.div_pos; lia|apply Z.div_le_upper_bound; nia]).
  assert (512 * blk / (512 * spc) = blk / spc ∧ (512 * blk) mod (512 * spc) = 512 * (blk mod spc)) as [Eq Er].
  { split; [by rewrite Z.div_mul_cancel_l by lia|by rewrite Z.mul_mod_distr_l by lia]. }
  assert (calm k) as Hcalm by done. pose proof (calm_volume k Hcalm) as (_ & _ & _ & H512 & Hspc).
  unfold fat_read_entry_offset_size. apply wp_bind, (wp_in_ram_read _ _ (512 * spc)).
  { unfold fat_get_cluster_size, sectors_per_cluster, bytes_per_sector.
    rewrite (bind_ok _ _ _ _ _ (load_word_ok 2 _ _ _ H512 ltac:(lia))).
    rewrite (bind_ok _ _ _ _ _ (loadb_word _ _ _ Hspc ltac:(lia))). apply int_of_ok. unfold INT_MIN, INT_MAX in *. lia. }
  rewrite (u64_small (512 * spc)) by lia. apply wp_bind, wp_lend. intros k1 Hk1.
  rewrite (u64_small (512 * blk)) by (unfold INT_MAX in *; lia).
  apply wp_bind, wp_in_ram, wp_divu; [lia|]. rewrite set_kram_id. apply wp_bind, wp_in_ram, wp_modu; [lia|]. rewrite set_kram_id.
  rewrite Eq, Er, !(i32_small (blk / spc)), !(i32_small (512 * (blk mod spc))), !(i32_small (512 * spc))
    by (unfold INT_MIN, INT_MAX in *; nia).
  pose proof (lent_calm _ Hk1) as Hc1.
  apply wp_bind, (wp_in_ram_read _ _ (default 0 (head cs))).
  { apply (load_word_ok 2); [by apply calm_first|].
    pose proof (chain_first _ _ _ (calm_chain _ Hc1)). lia. }
  apply wp_bind, (wp_in_ram_read _ _ c).
  { rewrite <-(Z2Nat.id (blk / spc)) by lia.
    eapply fat_skip_spec; [by apply calm_volume|lia|by apply calm_chain|exact Hc]. }
  destruct (fat_chain_lookup _ _ _ _ _ (calm_chain _ Hc1) Hc) as (Hcr & _ & _).
  rewrite (u64_small c) by lia. apply wp_bind, (wp_fill k1 c); [done|lia|]. intros k2 Hk2.
  rewrite (u64_small (512 * (blk mod spc))), (u64_small (512 * spc - 512 * (blk mod spc))) by nia.
  rewrite i32_small by (unfold INT_MIN, INT_MAX; nia).
  assert (min 512 (512 * spc - 512 * (blk mod spc)) = 512) as Emin.
  { unfold min. destruct (Z.ltb_spec 512 (512 * spc - 512 * (blk mod spc))); [done|nia]. }
  rewrite Emin. change (u64 512) with 512. apply wp_bind, (wp_copy k2 c); [done|done|]. intros k3 _ Hk3.
  apply wp_bind, wp_in_ram, wp_int_of; [unfold INT_MIN, INT_MAX; lia|]. rewrite set_kram_id.
  pose proof (copied_calm _ Hk3) as Hc3.
  destruct (fat_chain_lookup _ _ _ _ _ (calm_chain _ Hc3) Hc) as (_ & Hw & Hr).
  apply wp_bind. eapply wp_in_ram_read; [eapply fat_next_ok; [by apply calm_volume|lia|exact Hw|exact Hr]|].
  change (512 - 512) with 0. change (u64 0) with 0.
  apply wp_bind. cbn [loop Z.to_nat]. destruct (Z.to_nat 512) as [|fuel] eqn:Efuel; [done|]. cbn [loop].
  change (u64 0) with 0. rewrite (proj2 (Z.ltb_ge (512 * spc) 0)) by lia. apply wp_bind, wp_ret, wp_ret.
  change (0 <? 0) with false. cbv iota. apply wp_bind, wp_ret. by apply (wp_release k3).
Qed.
End steps.
End part.
