(* ===== verification/Disk.v ===== *)
(** * The disk as a source of sectors

    What a virtio block device does, as documented, for a request that the driver of Virtio.v
    prepares ([VirtioDevice]); under it the driver, called through a [struct block], is a
    [SectorReader] for the FAT reader, as long as the available ring is not full. *)
From stdpp Require Import base list gmap.
From Stdlib Require Import ZArith Lia.
From S2P Require Import Prelude Memory CString Heap Machine Log Gic Kernel Virtio Fat FatPart.

(** ** The device *)

(** The bytes of the descriptor table: a header to read, 512 bytes to write, a status byte. *)
Definition descriptors (req data : Z) : list Z :=
  (le_bytes 8 req ++ le_bytes 4 16 ++ le_bytes 2 1 ++ le_bytes 2 1) ++
  (le_bytes 8 data ++ le_bytes 4 512 ++ le_bytes 2 3 ++ le_bytes 2 2) ++
  (le_bytes 8 (req + 16) ++ le_bytes 4 1 ++ le_bytes 2 2).

(** A read request for [sector] has been offered in entry [idx] of the available ring. *)
Record offered (m : mem) (dt av req data sector idx : Z) : Prop := {
  of_descriptors : bytes_at m dt (descriptors req data);
  of_type : word_at 4 m (req + req_type) 0;
  of_sector : word_at 8 m (req + req_sector) sector;
  of_data : mapped m data 512;
  of_status : mapped m (req + 16) 1;
  of_ring : word_at 2 m (av + avail_ring + 2 * idx) 0;
  of_idx : word_at 2 m (av + avail_idx) (idx + 1);
  of_flags : word_at 2 m (av + avail_flags) 0;
  of_range : 0 ≤ req ∧ req + 17 ≤ 2 ^ 64 ∧ 0 ≤ data ∧ data + 512 ≤ 2 ^ 64;
}.

(** The device has been told, its interrupt is handled by the driver and not masked. *)
Record notified (k : kernel) (handler io sync : Z) : Prop := {
  no_trace : ∃ rest, trace (mach k) = Dsb :: Mmio_write 4 (io + VIRTIO_QUEUE_NOTIFY_OFFSET) 0 :: rest;
  no_unmasked : Z.testbit (sysregs (mach k) DAIF) DAIF_FRQ_MASK = false;
  no_handler : array_get (handlers (interrupts k)) 79 = Some handler;
  no_param : array_get (handler_params (interrupts k)) 79 = Some sync;
}.

(** The device with the registers at [io] and the queue at [dt], [av], [us]: it stores the sector
    and the status, changes the used ring, and raises its interrupt, which runs the handler. *)
Class VirtioDevice (interrupt : M kernel unit) (handler io dt av us : Z) (image : Z → list Z) : Prop := {
  sector_length n : length (image n) = 512%nat;
  sector_bytes n : Forall disk_byte_ok (image n);
  device_serves k req data sector sync idx :
    offered (kram k) dt av req data sector idx → 0 ≤ sector < 2 ^ 31 → 0 ≤ idx < QUEUE_SIZE →
    notified k handler io sync →
    ∃ k1, (∀ a, ¬ (us ≤ a < us + sizeof_used) →
        kram k1 !! a = put_bytes data (image sector) (put_bytes (req + 16) [0] (kram k)) !! a) ∧
      (∀ a, is_Some (kram k !! a) → is_Some (kram k1 !! a)) ∧
      main_heap k1 = main_heap k ∧ interrupts k1 = interrupts k ∧
      ∀ k2, disk_handle_interrupt_sync 79 sync k1 = Ok tt k2 →
        ∃ k3, interrupt k = Ok tt k3 ∧ kram k3 = kram k2 ∧ main_heap k3 = main_heap k2 ∧
          interrupts k3 = interrupts k2;
}.

(** ** Frames *)

(** Only the memory in [P] changes, and what is accessible stays so. *)
Definition step_frame (P : Z → Prop) (k k' : kernel) : Prop :=
  (∀ a, ¬ P a → kram k' !! a = kram k !! a) ∧ (∀ a, is_Some (kram k !! a) → is_Some (kram k' !! a)).

Lemma step_frame_refl P k : step_frame P k k.
Proof. by split. Qed.

Lemma step_frame_trans P k1 k2 k3 : step_frame P k1 k2 → step_frame P k2 k3 → step_frame P k1 k3.
Proof. intros [H1 M1] [H2 M2]. split; [|auto]. intros a Ha. by rewrite H2, H1. Qed.

Lemma step_frame_mono (P P' : Z → Prop) k k' : (∀ a, P a → P' a) → step_frame P k k' → step_frame P' k k'.
Proof. intros HP [H M]. split; [|done]. intros a Ha. apply H. auto. Qed.

Lemma step_frame_put p bs k : mapped (kram k) p (Z.of_nat (length bs)) →
  step_frame (λ a, p ≤ a < p + Z.of_nat (length bs)) k (set_kram (put_bytes p bs (kram k)) k).
Proof.
  intros Hm. split; intros a Ha; cbn.
  - by apply put_bytes_outside.
  - rewrite put_bytes_lookup. case_decide; [|done]. rewrite fmap_is_Some. apply lookup_lt_is_Some. lia.
Qed.

Lemma frame_bytes (P : Z → Prop) k k' p bs : step_frame P k k' →
  (∀ a, p ≤ a < p + Z.of_nat (length bs) → ¬ P a) → bytes_at (kram k) p bs → bytes_at (kram k') p bs.
Proof. intros [H _] HP Hb. eapply bytes_at_agree; [exact Hb|]. intros a Ha. by apply H, HP. Qed.

Lemma frame_word (P : Z → Prop) k k' n p v : step_frame P k k' →
  (∀ a, p ≤ a < p + Z.of_nat n → ¬ P a) → word_at n (kram k) p v → word_at n (kram k') p v.
Proof. intros Hf HP. eapply frame_bytes; [exact Hf|]. by rewrite length_le_bytes. Qed.

Lemma frame_mapped P k k' p n : step_frame P k k' → mapped (kram k) p n → mapped (kram k') p n.
Proof. intros [_ M] Hm a Ha. by apply M, Hm. Qed.

(** ** The driver *)

(** The memory of the driver; [Table] is the heap's, [Sync] the block it hands out, [Spare] the
    one it hands out instead while the caller has allocated a buffer. *)
Inductive part : Type := Block | Device | Descriptors | Available | Used_ring | Sync | Spare | Table.

Record geometry : Type := mk_geometry {
  blk : Z; disk : Z; io : Z; dt : Z; av : Z; us : Z;
  hp : heap; segs : list seg; first : nat;     (* the heap, and its first free block *)
  spare : Z * Z;
  READ : Z; handler : Z;
}.

Definition sy (g : geometry) : Z := heap_start_address (hp g) + 4096 * Z.of_nat (first g).

Definition extent (g : geometry) (p : part) : Z * Z :=
  match p with
  | Block => (blk g, 40)
  | Device => (disk g, 32)
  | Descriptors => (dt g, 48)
  | Available => (av g, sizeof_avail)
  | Used_ring => (us g, sizeof_used)
  | Sync => (sy g, sizeof_sync)
  | Spare => spare g
  | Table => (heap_tbl (hp g), blocks (hp g) + 1)
  end.

Definition within (g : geometry) (p : part) (a : Z) : Prop :=
  (extent g p).1 ≤ a < (extent g p).1 + (extent g p).2.

(** The parts are disjoint and pointers fit 64 bits. *)
Record geometry_ok (g : geometry) : Prop := {
  ok_separate : ∀ p q a, within g p a → within g q a → p = q;
  ok_disk : 0 ≤ disk g < 2 ^ 64;
  ok_io : 0 ≤ io g < 2 ^ 64;
  ok_dt : 0 ≤ dt g < 2 ^ 64;
  ok_av : 0 ≤ av g < 2 ^ 64;
  ok_read : 0 ≤ READ g < 2 ^ 64;
  ok_first : ∃ segs', alloc_segs 1 (segs g) = Some (first g, segs');
}.

(** The words of [struct virtioblk]. *)
Record wired (g : geometry) (k : kernel) : Prop := {
  wi_mmio : word_at 8 (kram k) (disk g + disk_mmio) (io g);
  wi_descriptors : word_at 8 (kram k) (disk g + disk_descriptors) (dt g);
  wi_avail : word_at 8 (kram k) (disk g + disk_avail) (av g);
}.

Definition part_mapped (g : geometry) (k : kernel) : Prop := ∀ p a, within g p a → is_Some (kram k !! a).

(** The device behind the [struct block] at [b] can take [r] more requests: that many entries of
    the available ring are left. *)
Record disk_ready (g : geometry) (r : nat) (k : kernel) (b : Z) : Prop := {
  rd_block : b = blk g;
  rd_read : word_at 8 (kram k) (blk g + block_read_fn) (READ g);
  rd_args : word_at 8 (kram k) (blk g + block_args) (disk g);
  rd_wired : wired g k;
  rd_mapped : part_mapped g k;
  rd_idx : ∃ idx, word_at 2 (kram k) (av g + avail_idx) idx ∧ 0 ≤ idx ∧ idx + Z.of_nat r ≤ QUEUE_SIZE;
  rd_heap : main_heap k = hp g;
  rd_segs : kheap k (segs g);
  rd_handlers : 79 < Z.of_nat (length (handlers (interrupts k))) ∧
    79 < Z.of_nat (length (handler_params (interrupts k)));
}.

Section driver.
Variable g : geometry.
Hypothesis Hg : geometry_ok g.

Lemma part_apart p q a : within g p a → p ≠ q → ¬ within g q a.
Proof. intros Hp Hne Hq. by apply Hne, (ok_separate g Hg p q a). Qed.

Lemma wired_frame P k k' : step_frame P k k' → (∀ a, within g Device a → ¬ P a) → wired g k → wired g k'.
Proof.
  intros Hf HP [H1 H2 H3]. unfold within in HP. simpl in HP.
  split; (eapply frame_word; [exact Hf| |eassumption]); intros a Ha; apply HP;
    unfold disk_mmio, disk_descriptors, disk_avail in Ha; lia.
Qed.

(** The descriptor table while it is filled. *)
Record filling (k0 k : kernel) (D : list Z) : Prop := {
  fl_bytes : bytes_at (kram k) (dt g) D;
  fl_state : k = set_kram (kram k) k0;
  fl_frame : step_frame (within g Descriptors) k0 k;
}.

Lemma filling_start k : filling k k [].
Proof. split; [apply bytes_at_nil|by rewrite set_kram_id|apply step_frame_refl]. Qed.

Lemma set_kram_twice m m' k : set_kram m (set_kram m' k) = set_kram m k.
Proof. done. Qed.

Lemma wp_set_desc k0 k D w i field v : wired g k0 → part_mapped g k0 → filling k0 k D →
  Z.of_nat (length D) = sizeof_desc * i + field → (length D + w ≤ 48)%nat →
  wp (set_desc w (disk g) i field v) k (λ _ k', filling k0 k' (D ++ le_bytes w v)).
Proof.
  intros Hw Hm [Hb Hst Hf] Hlen Hmax. unfold set_desc.
  assert (wired g k) as Hwk by (eapply wired_frame; [exact Hf| |exact Hw]; intros a Ha; by apply part_apart with Device).
  apply wp_bind. eapply wp_in_ram_word; [apply Hwk|apply (ok_dt g Hg)|].
  replace (dt g + sizeof_desc * i + field) with (dt g + Z.of_nat (length D)) by lia.
  assert (mapped (kram k) (dt g + Z.of_nat (length D)) (Z.of_nat w)) as Hmw.
  { intros a Ha. apply Hf, (Hm Descriptors). unfold within. simpl. lia. }
  apply wp_in_ram_store; [exact Hmw|]. split; cbn.
  - apply bytes_at_app. split; [|apply bytes_at_put].
    apply bytes_at_put_ne; [exact Hb|]. rewrite length_le_bytes. lia.
  - rewrite Hst. apply set_kram_twice.
  - eapply step_frame_trans; [exact Hf|]. rewrite <-(length_le_bytes w v) in Hmw.
    eapply step_frame_mono; [|by apply step_frame_put].
    intros a Ha. rewrite length_le_bytes in Ha. unfold within. simpl. lia.
Qed.

(** The next field of the table; the table that holds the fields before it is [Hfl]. *)
Ltac fill_field k Hfl :=
  eapply (wp_set_desc k);
    [done|done|exact Hfl|by rewrite ?length_app, ?length_le_bytes|
     rewrite ?length_app, ?length_le_bytes; simpl; lia].
Ltac fill_next k Hfl :=
  apply wp_bind; eapply wp_mono; [fill_field k Hfl|clear Hfl; intros ? ? Hfl; cbv beta in Hfl].
Ltac fill_last k Hfl := fill_field k Hfl.

Lemma wp_disk_fill k req data : wired g k → part_mapped g k →
  wp (disk_fill (disk g) req 0 data) k (λ _ k', filling k k' (descriptors req data)).
Proof.
  intros Hw Hm. unfold disk_fill, descriptors. rewrite !app_assoc.
  pose proof (filling_start k) as Hfl. rewrite <-(app_nil_l (le_bytes 8 req)).
  fill_next k Hfl. fill_next k Hfl. fill_next k Hfl. fill_next k Hfl. fill_next k Hfl. fill_next k Hfl.
  fill_next k Hfl. fill_next k Hfl. fill_next k Hfl. fill_next k Hfl. fill_last k Hfl.
Qed.

(** A store inside a part. *)
Lemma wp_store_part p k n a v (Q : unit → kernel → Prop) : part_mapped g k →
  (∀ x, a ≤ x < a + Z.of_nat n → within g p x) →
  (∀ k', k' = set_kram (put_bytes a (le_bytes n v) (kram k)) k → step_frame (within g p) k k' →
    word_at n (kram k') a v → Q tt k') →
  wp (in_ram (store_le n a v)) k Q.
Proof.
  intros Hm Hin HQ. assert (mapped (kram k) a (Z.of_nat n)) as Hma by (intros x Hx; by apply (Hm p), Hin).
  apply wp_in_ram_store; [exact Hma|]. apply HQ; [done| |apply bytes_at_put].
  rewrite <-(length_le_bytes n v) in Hma, Hin.
  eapply step_frame_mono; [|by apply step_frame_put]. exact Hin.
Qed.

Lemma part_mapped_frame P k k' : step_frame P k k' → part_mapped g k → part_mapped g k'.
Proof. intros [_ M] Hm p a Ha. by eapply M, Hm. Qed.

Lemma wp_disk_offer k idx (Q : unit → kernel → Prop) : wired g k → part_mapped g k →
  word_at 2 (kram k) (av g + avail_idx) idx → 0 ≤ idx < QUEUE_SIZE →
  (∀ k', k' = set_kram (kram k') k → step_frame (within g Available) k k' →
    word_at 2 (kram k') (av g + avail_ring + 2 * idx) 0 →
    word_at 2 (kram k') (av g + avail_idx) (idx + 1) → word_at 2 (kram k') (av g + avail_flags) 0 → Q tt k') →
  wp (disk_offer (disk g) 0) k Q.
Proof.
  intros Hw Hm Hi Hr HQ. unfold disk_offer, QUEUE_SIZE in *.
  assert (∀ k', step_frame (within g Available) k k' → wired g k') as Hwired.
  { intros k' Hf. eapply wired_frame; [exact Hf| |exact Hw]. intros a Ha. by apply part_apart with Device. }
  assert (∀ n a, within g Available a → within g Available (a + Z.of_nat n - 1) →
    ∀ x, a ≤ x < a + Z.of_nat n → within g Available x) as Hin.
  { unfold within. simpl. intros. lia. }
  assert (∀ o, 0 ≤ o < 2054 → within g Available (av g + o)) as Hoff.
  { unfold within. simpl. unfold sizeof_avail, QUEUE_SIZE. lia. }
  apply wp_bind. eapply wp_in_ram_word; [apply Hw|apply (ok_av g Hg)|].
  apply wp_bind. eapply wp_in_ram_word; [exact Hi|lia|]. apply wp_bind.
  apply (wp_store_part Available); [exact Hm| |].
  { intros x Hx. replace x with (av g + (x - av g)) by lia. apply Hoff. unfold avail_ring in Hx. lia. }
  intros k1 -> Hf1 Hring. set (k1 := set_kram _ k) in *.
  apply wp_bind. eapply wp_in_ram_word; [by apply Hwired|apply (ok_av g Hg)|].
  apply wp_bind. eapply wp_in_ram_word; [|exact (conj (proj1 Hr) (Z.lt_trans _ 1024 65536 (proj2 Hr) eq_refl))|].
  { apply bytes_at_put_ne; [exact Hi|]. rewrite !length_le_bytes. unfold avail_ring, avail_idx. lia. }
  apply wp_bind. rewrite u16_small by lia.
  apply (wp_store_part Available); [by eapply part_mapped_frame| |].
  { intros x Hx. replace x with (av g + (x - av g)) by lia. apply Hoff. unfold avail_idx in Hx. lia. }
  intros k2 -> Hf2 Hidx. set (k2 := set_kram _ k1) in *.
  assert (step_frame (within g Available) k k2) as Hf12 by by eapply step_frame_trans.
  apply wp_bind. eapply wp_in_ram_word; [by apply Hwired|apply (ok_av g Hg)|].
  apply (wp_store_part Available); [by eapply part_mapped_frame| |].
  { intros x Hx. replace x with (av g + (x - av g)) by lia. apply Hoff. unfold avail_flags in Hx. lia. }
  intros k3 -> Hf3 Hflags. apply HQ; [done|by eapply step_frame_trans| | |exact Hflags].
  - apply bytes_at_put_ne; [apply bytes_at_put_ne; [exact Hring|]|]; rewrite !length_le_bytes;
      unfold avail_ring, avail_idx, avail_flags; lia.
  - apply bytes_at_put_ne; [exact Hidx|]. rewrite !length_le_bytes. unfold avail_idx, avail_flags. lia.
Qed.

(** *** Registers of the device *)

Lemma wp_disk_read_reg k offset (Q : Z → kernel → Prop) : wired g k →
  (∀ v k', kram k' = kram k → main_heap k' = main_heap k → interrupts k' = interrupts k → Q v k') →
  wp (disk_read_reg (disk g) offset) k Q.
Proof.
  intros Hw HQ. apply wp_bind. eapply wp_in_ram_word; [apply Hw|apply (ok_io g Hg)|]. by apply HQ.
Qed.

Lemma wp_disk_set_reg k offset v (Q : unit → kernel → Prop) : wired g k →
  (Q tt (set_mach (emit_event (Mmio_write 4 (io g + offset) (u32 v)) (mach k)) k)) →
  wp (disk_set_reg (disk g) offset v) k Q.
Proof.
  intros Hw HQ. apply wp_bind. eapply wp_in_ram_word; [apply Hw|apply (ok_io g Hg)|]. exact HQ.
Qed.

(** The handler of the interrupt. *)
Lemma wp_disk_handler k id (Q : unit → kernel → Prop) : wired g k → part_mapped g k →
  word_at 8 (kram k) (sy g + sync_disk) (disk g) →
  (∀ k', kram k' = <[sy g + sync_done := Some 1]> (kram k) → main_heap k' = main_heap k →
    interrupts k' = interrupts k → Q tt k') →
  wp (disk_handle_interrupt_sync id (sy g)) k Q.
Proof.
  intros Hw Hm Hs HQ. unfold disk_handle_interrupt_sync, disk_handle_used.
  apply wp_bind. eapply wp_in_ram_word; [exact Hs|apply (ok_disk g Hg)|].
  apply wp_bind, wp_disk_read_reg; [done|]. intros v k1 Hk1 Hh1 Hi1.
  assert (wired g k1) as Hw1 by (split; rewrite Hk1; apply Hw).
  apply wp_bind, wp_disk_set_reg; [done|]. apply wp_bind, wp_ret, wp_bind, wp_in_ram, wp_storeb.
  { cbn. change (ram (mach k1)) with (kram k1). rewrite Hk1. apply (Hm Sync). unfold within. simpl.
    unfold sync_done, sizeof_sync. lia. }
  apply wp_ret, HQ; [|done|done]. cbn. change (ram (mach k1)) with (kram k1). by rewrite Hk1.
Qed.

(** *** Waiting for the device *)

(** The memory of the driver, which buffers must not touch. *)
Definition private (a : Z) : Prop := ∃ p, within g p a.

Section waiting.
Context {interrupt : M kernel unit} {image : Z → list Z}
  `{!VirtioDevice interrupt (handler g) (io g) (dt g) (av g) (us g) image}.
Variables (req data : Z).
Hypothesis Hreq : ∀ a, req ≤ a < req + 17 → ¬ private a.
Hypothesis Hdata : ∀ a, data ≤ a < data + 512 → ¬ private a.

(** What the device and the handler have done: the sector and the status are stored. *)
Definition served (sector : Z) (k k' : kernel) : Prop :=
  (∀ a, ¬ within g Used_ring a → ¬ within g Sync a →
    kram k' !! a = put_bytes data (image sector) (put_bytes (req + 16) [0] (kram k)) !! a) ∧
  (∀ a, is_Some (kram k !! a) → is_Some (kram k' !! a)) ∧
  main_heap k' = main_heap k ∧ interrupts k' = interrupts k.

Lemma served_other sector k k' a : served sector k k' → ¬ within g Used_ring a → ¬ within g Sync a →
  ¬ (data ≤ a < data + 512) → a ≠ req + 16 → kram k' !! a = kram k !! a.
Proof.
  intros [H _] H1 H2 H3 H4. rewrite H by done.
  rewrite !put_bytes_outside; [done|simpl; lia|]. rewrite (sector_length sector). lia.
Qed.

Lemma wp_disk_wait polls k sector idx (Q : unit → kernel → Prop) : (2 ≤ polls)%nat →
  wired g k → part_mapped g k → word_at 8 (kram k) (sy g + sync_disk) (disk g) →
  word_at 1 (kram k) (sy g + sync_done) 0 →
  offered (kram k) (dt g) (av g) req data sector idx → 0 ≤ sector < 2 ^ 31 → 0 ≤ idx < QUEUE_SIZE →
  notified k (handler g) (io g) (sy g) → (∀ k', served sector k k' → Q tt k') →
  wp (disk_wait interrupt polls (sy g)) k Q.
Proof.
  intros Hp Hw Hm Hsd Hdone Hof Hs Hi Hno HQ. unfold disk_wait.
  destruct polls as [|[|polls]]; [lia|lia|]. cbn [loop].
  apply wp_bind, wp_bind. eapply wp_in_ram_read; [by apply (loadb_word _ _ 0 Hdone)|]. simpl (0 =? 0). cbv iota.
  destruct (device_serves k req data sector (sy g) idx Hof Hs Hi Hno) as (k1 & Hk1 & Hm1 & Hh1 & Hi1 & Hend).
  assert (∀ a, private a → ¬ within g Used_ring a → kram k1 !! a = kram k !! a) as Hpriv.
  { intros a Ha Hu. rewrite Hk1 by done. rewrite !put_bytes_outside; [done| |].
    - simpl. intros Hin. apply (Hreq a); [lia|done].
    - rewrite (sector_length sector). intros Hin. by apply (Hdata a). }
  assert (∀ n a v p, p ≠ Used_ring → (∀ x, a ≤ x < a + Z.of_nat n → within g p x) →
    word_at n (kram k) a v → word_at n (kram k1) a v) as Hword.
  { intros n a v p Hne Hin Hv. eapply bytes_at_agree; [exact Hv|]. intros x Hx. rewrite length_le_bytes in Hx.
    apply Hpriv; [exists p; by apply Hin|]. apply part_apart with p; [by apply Hin|done]. }
  assert (wp (disk_handle_interrupt_sync 79 (sy g)) k1 (λ _ k2, kram k2 = <[sy g + sync_done := Some 1]> (kram k1) ∧
    main_heap k2 = main_heap k1 ∧ interrupts k2 = interrupts k1)) as ([] & k2 & Hrun & Hk2 & Hh2 & Hi2)%wp_ok.
  { apply wp_disk_handler; [| | |done].
    - destruct Hw as [W1 W2 W3]. split; (eapply (Hword _ _ _ Device); [done| |eassumption]); intros x Hx; unfold within; simpl;
        unfold disk_mmio, disk_descriptors, disk_avail in Hx; lia.
    - intros p a Ha. apply Hm1. by apply (Hm p).
    - apply (Hword _ _ _ Sync); [done| |done]. intros x Hx. unfold within. simpl.
      unfold sync_disk, sizeof_sync in *. lia. }
  destruct (Hend k2 Hrun) as (k3 & Hint & Hk3 & Hh3 & Hi3).
  apply wp_bind, (wp_intro _ _ _ _ _ Hint), wp_ret, wp_bind, wp_bind.
  eapply wp_in_ram_read; [apply loadb_ok; rewrite Hk3, Hk2; apply lookup_insert_eq|]. simpl (1 =? 0). cbv iota.
  apply wp_ret, wp_ret, HQ. split; [|split; [|split]].
  - intros a Hu Hsy. rewrite Hk3, Hk2, lookup_insert_ne; [by apply Hk1|]. intros <-. apply Hsy.
    unfold within. simpl. unfold sync_done, sizeof_sync. lia.
  - intros a Ha. rewrite Hk3, Hk2. destruct (decide (a = sy g + sync_done)) as [->|].
    + rewrite lookup_insert_eq. by eexists.
    + rewrite lookup_insert_ne by done. by apply Hm1.
  - congruence.
  - congruence.
Qed.
End waiting.

(** *** Starting a request *)

Lemma set_handler_ok k id h arg : 0 ≤ id < MAX_INTS →
  id < Z.of_nat (length (handlers (interrupts k))) → id < Z.of_nat (length (handler_params (interrupts k))) →
  ∃ t, on_gic (gic_redistributor_set_handler id h arg) k = Ok tt (set_interrupts t k) ∧
    array_get (handlers t) id = Some h ∧ array_get (handler_params t) id = Some arg ∧
    length (handlers t) = length (handlers (interrupts k)) ∧
    length (handler_params t) = length (handler_params (interrupts k)).
Proof.
  intros Hid Hh Hp. unfold on_gic, zoom, gic_redistributor_set_handler.
  rewrite (proj2 (Z.ltb_ge id 0)), (proj2 (Z.ltb_ge MAX_INTS id)) by lia. simpl orb. cbv iota.
  unfold get, bind. cbn [orb]. cbv beta iota. pose proof (array_set_in _ id h (conj (proj1 Hid) Hh)) as Eh.
  pose proof (array_set_in _ id arg (conj (proj1 Hid) Hp)) as Ep. rewrite Eh, Ep. unfold put.
  eexists. split; [reflexivity|]. cbn. rewrite !length_insert. split; [|split; [|done]];
    (eapply eq_trans; [eapply array_set_get; [first [exact Eh|exact Ep]|lia]|by rewrite decide_True]).
Qed.

(** Clearing the FIQ bit of DAIF. *)
Lemma mask_fiq_off s : ∃ s', sysutils_mask_fiq false s = Ok tt s' ∧ ram s' = ram s ∧
  Z.testbit (sysregs s' DAIF) DAIF_FRQ_MASK = false.
Proof.
  assert (wp (sysutils_mask_fiq false) s (λ _ s', ram s' = ram s ∧
    Z.testbit (sysregs s' DAIF) DAIF_FRQ_MASK = false)) as ([] & s' & H & Hs')%wp_ok; [|by exists s'].
  unfold sysutils_mask_fiq, sysutils_daif_clear. apply wp_bind, wp_shl32; [unfold DAIF_FRQ_MASK; lia|].
  apply wp_bind, wp_mrs; [done|]. apply wp_msr. split; [done|]. cbn [sysregs]. rewrite set_reg_same, Z.land_spec.
  apply andb_false_iff. right. reflexivity.
Qed.

Lemma mask_fiq_on s : ∃ s', sysutils_mask_fiq true s = Ok tt s' ∧ ram s' = ram s.
Proof.
  assert (wp (sysutils_mask_fiq true) s (λ _ s', ram s' = ram s)) as ([] & s' & H & Hs')%wp_ok; [|by exists s'].
  unfold sysutils_mask_fiq, sysutils_daif_set. apply wp_bind, wp_shl32; [unfold DAIF_FRQ_MASK; lia|].
  apply wp_bind, wp_mrs; [done|]. by apply wp_msr.
Qed.

Lemma wp_disk_notify k (Q : unit → kernel → Prop) : wired g k → part_mapped g k →
  79 < Z.of_nat (length (handlers (interrupts k))) → 79 < Z.of_nat (length (handler_params (interrupts k))) →
  (∀ k', step_frame (within g Sync) k k' → word_at 8 (kram k') (sy g + sync_disk) (disk g) →
    word_at 1 (kram k') (sy g + sync_done) 0 → notified k' (handler g) (io g) (sy g) →
    main_heap k' = main_heap k → length (handlers (interrupts k')) = length (handlers (interrupts k)) →
    length (handler_params (interrupts k')) = length (handler_params (interrupts k)) → Q tt k') →
  wp (disk_notify (handler g) (disk g) (sy g)) k Q.
Proof.
  intros Hw Hm Hlh Hlp HQ. unfold disk_notify.
  apply wp_bind, (wp_store_part Sync); [exact Hm| |].
  { unfold within. simpl. unfold sync_disk, sizeof_sync. lia. }
  intros k1 E1 Hf1 Hd1. assert (part_mapped g k1) as Hm1 by by eapply part_mapped_frame.
  apply wp_bind. change (storeb (sy g + sync_done) 0) with (λ m, storeb (sy g + sync_done) 0 m).
  apply (wp_intro _ _ tt (set_kram (put_bytes (sy g + sync_done) (le_bytes 1 0) (kram k1)) k1)).
  { apply in_ram_ok. cbv beta. change (le_bytes 1 0) with [0].
    rewrite storeb_ok; [by rewrite put_bytes_cons, put_bytes_nil|]. apply (Hm1 Sync).
    unfold within. simpl. unfold sync_done, sizeof_sync. lia. }
  set (k2 := set_kram _ k1).
  assert (step_frame (within g Sync) k1 k2) as Hf2.
  { eapply step_frame_mono; [|apply step_frame_put].
    - intros a Ha. rewrite length_le_bytes in Ha. unfold within. simpl. unfold sync_done, sizeof_sync in *. lia.
    - rewrite length_le_bytes. intros a Ha. apply (Hm1 Sync). unfold within. simpl. unfold sync_done, sizeof_sync in *. lia. }
  assert (step_frame (within g Sync) k k2) as Hf12 by by eapply step_frame_trans.
  assert (wired g k2) as Hw2.
  { eapply wired_frame; [exact Hf12| |exact Hw]. intros a Ha. by apply part_apart with Device. }
  destruct (set_handler_ok k2 79 (handler g) (sy g)) as (t & Ht & Hth & Htp & Hlh' & Hlp');
    [unfold MAX_INTS; lia|by subst k1..|].
  apply wp_bind, (wp_intro _ _ _ _ _ Ht).
  destruct (mask_fiq_off (mach (set_interrupts t k2))) as (s3 & Hs3 & Hr3 & Hmask).
  apply wp_bind, (wp_intro _ _ _ _ _ (on_machine_ok _ _ _ _ Hs3)).
  set (k3 := set_mach s3 _). assert (kram k3 = kram k2) as Hk3 by done.
  assert (wired g k3) as Hw3 by (split; rewrite Hk3; apply Hw2).
  apply wp_bind, wp_disk_set_reg; [exact Hw3|]. unfold mb.
  set (k5 := set_mach (emit_event Dsb (emit_event
    (Mmio_write 4 (io g + VIRTIO_QUEUE_NOTIFY_OFFSET) (u32 0)) s3)) k3).
  assert (kram k5 = kram k2) as Hk5 by exact Hr3.
  change (Q tt k5). apply HQ; unfold step_frame; rewrite ?Hk5.
  - exact Hf12.
  - apply bytes_at_put_ne; [exact Hd1|]. rewrite !length_le_bytes. unfold sync_disk, sync_done. lia.
  - apply bytes_at_put.
  - split; cbn; [by eexists|exact Hmask|exact Hth|exact Htp].
  - by subst k1.
  - etrans; [exact Hlh'|by subst k1].
  - etrans; [exact Hlp'|by subst k1].
Qed.

(** *** The block of [sync] *)

Lemma heap_ext h h' : heap_start_address h = heap_start_address h' → heap_tbl h = heap_tbl h' →
  blocks h = blocks h' → free_blocks h = free_blocks h' → h = h'.
Proof. destruct h, h'. cbn. congruence. Qed.

(** The heap between the allocation of [sync] and its release. *)
Record sync_held (k : kernel) (pre post : list seg) : Prop := {
  sh_segs : segs g = pre ++ Free :: post;
  sh_first : first g = length (table pre);
  sh_heap : kheap k (pre ++ Used 1 :: post);
  sh_start : heap_start_address (main_heap k) = heap_start_address (hp g);
  sh_table : heap_tbl (main_heap k) = heap_tbl (hp g);
  sh_blocks : blocks (main_heap k) = blocks (hp g);
}.

Lemma heap_frame_part k k' : heap_frame k k' → heap_tbl (main_heap k) = heap_tbl (hp g) →
  blocks (main_heap k) = blocks (hp g) → step_frame (within g Table) k k'.
Proof.
  intros (Ho & Hm & _) Ht Hb. split; [|done]. intros a Ha. apply Ho. intros Hin. apply Ha.
  unfold within. simpl. rewrite Ht, Hb in Hin. lia.
Qed.

Lemma wp_sync_alloc k (Q : Z → kernel → Prop) : main_heap k = hp g → kheap k (segs g) →
  (∀ k' pre post, sync_held k' pre post → heap_frame k k' → Q (sy g) k') → wp (kalloc sizeof_sync) k Q.
Proof.
  intros Hh Hk HQ. pose proof (kalloc_spec k (segs g) sizeof_sync Hk ltac:(done)) as H.
  destruct (ok_first g Hg) as (segs' & Hal). change (Z.to_nat (alloc_blocks_of sizeof_sync)) with 1%nat in H.
  rewrite Hal in H. destruct H as (k' & Ha & Hk' & Hfr & Hst).
  apply alloc_segs_split in Hal as (pre & post & Hpre & -> & Hfirst). rewrite Hh in Ha, Hst.
  apply (wp_intro _ _ _ _ _ Ha), (HQ k' pre post); [|done].
  destruct Hfr as (_ & _ & _ & _ & _ & _ & Ht & Hb). by split; rewrite ?Ht, ?Hb, ?Hh.
Qed.

Lemma sync_held_frame P k k' pre post : sync_held k pre post → step_frame P k k' →
  (∀ a, within g Table a → ¬ P a) → main_heap k' = main_heap k → sync_held k' pre post.
Proof.
  intros [Hs Hf Hk Hst Ht Hb] [Ho _] HP Hh. split; rewrite ?Hh; try done.
  apply (kheap_stable k); [done|done|]. intros a Ha. apply Ho, HP. unfold within. simpl.
  rewrite Ht, Hb in Ha. lia.
Qed.

Lemma wp_sync_free k pre post (Q : unit → kernel → Prop) : sync_held k pre post →
  free_blocks (hp g) = Z.of_nat (count_segs_free (segs g)) →
  (∀ k', main_heap k' = hp g → kheap k' (segs g) → step_frame (within g Table) k k' →
    interrupts k' = interrupts k → Q tt k') → wp (kfree (sy g)) k Q.
Proof.
  intros [Hs Hf Hk Hst Ht Hb] Hfree HQ.
  destruct (kfree_spec k pre 1 post Hk) as (k' & Hrun & Hk' & Hfr & Hst').
  unfold sy. rewrite Hf, <-Hst. apply (wp_intro _ _ _ _ _ Hrun). change (replicate 1 Free ++ post) with (Free :: post) in Hk'.
  rewrite <-Hs in Hk'. pose proof Hfr as (_ & _ & _ & _ & _ & Hi & Ht' & Hb').
  apply HQ; [|done|by apply heap_frame_part|done].
  pose proof (rep_free _ _ _ Hk') as Hfree'. apply heap_ext; congruence.
Qed.

(** *** A whole request *)

Section request.
Context {interrupt : M kernel unit} {image : Z → list Z}
  `{!VirtioDevice interrupt (handler g) (io g) (dt g) (av g) (us g) image}.
Variables (polls : nat) (req data sector : Z).
Hypothesis Hpolls : (2 ≤ polls)%nat.
Hypothesis Hsector : 0 ≤ sector < 2 ^ 31.
Hypothesis Hreq : ∀ a, req ≤ a < req + 17 → ¬ private a.
Hypothesis Hdata : ∀ a, data ≤ a < data + 512 → ¬ private a.
Hypothesis Hrange : 0 ≤ req ∧ req + 17 ≤ 2 ^ 64 ∧ 0 ≤ data ∧ data + 512 ≤ 2 ^ 64.

(** The header of the request and the memory of the driver, from the preparation of the request
    to the arrival of the interrupt. *)
Definition inside (a : Z) : Prop := private a ∨ req ≤ a < req + 17.

Lemma inside_part p a : within g p a → inside a.
Proof. intros Ha. left. by exists p. Qed.

(** What holds of the driver between two of its steps. *)
Record driving (k0 k : kernel) : Prop := {
  dr_frame : step_frame inside k0 k;
  dr_wired : wired g k;
  dr_block : ∀ a, within g Block a → kram k !! a = kram k0 !! a;
  dr_lengths : length (handlers (interrupts k)) = length (handlers (interrupts k0)) ∧
    length (handler_params (interrupts k)) = length (handler_params (interrupts k0));
}.

Lemma driving_mapped k0 k : part_mapped g k0 → driving k0 k → part_mapped g k.
Proof. intros Hm [Hf _ _ _]. by eapply part_mapped_frame. Qed.

Lemma driving_step (P : Z → Prop) k0 k k' : driving k0 k → step_frame P k k' →
  (∀ a, P a → inside a ∧ ¬ within g Device a ∧ ¬ within g Block a) →
  length (handlers (interrupts k')) = length (handlers (interrupts k)) →
  length (handler_params (interrupts k')) = length (handler_params (interrupts k)) → driving k0 k'.
Proof.
  intros [Hf Hw Hb [Hl1 Hl2]] Hs HP H1 H2. split.
  - eapply step_frame_trans; [exact Hf|]. eapply step_frame_mono; [|exact Hs]. intros a Ha. by apply HP.
  - eapply wired_frame; [exact Hs| |exact Hw]. intros a Ha HPa. by destruct (HP a HPa) as (_ & ? & _).
  - intros a Ha. destruct Hs as [Hs _]. rewrite Hs; [by apply Hb|]. intros HPa. by destruct (HP a HPa) as (_ & _ & ?).
  - split; congruence.
Qed.

Lemma part_step p a : p ≠ Device → p ≠ Block → within g p a →
  inside a ∧ ¬ within g Device a ∧ ¬ within g Block a.
Proof. intros H1 H2 Ha. split; [by eapply inside_part|]. split; by apply part_apart with p. Qed.

Lemma req_step a : req ≤ a < req + 17 → inside a ∧ ¬ within g Device a ∧ ¬ within g Block a.
Proof.
  intros Ha. split; [by right|]. pose proof (Hreq a Ha) as Hn.
  split; intros Hw; apply Hn; by eexists.
Qed.

Lemma wp_store_req k n a v (Q : unit → kernel → Prop) : mapped (kram k) req 17 →
  req ≤ a → a + Z.of_nat n ≤ req + 17 →
  (∀ k', k' = set_kram (put_bytes a (le_bytes n v) (kram k)) k →
    step_frame (λ x, req ≤ x < req + 17) k k' → word_at n (kram k') a v → Q tt k') →
  wp (in_ram (store_le n a v)) k Q.
Proof.
  intros Hm H1 H2 HQ. assert (mapped (kram k) a (Z.of_nat n)) as Hma by (intros x Hx; apply Hm; lia).
  apply wp_in_ram_store; [exact Hma|]. apply HQ; [done| |apply bytes_at_put].
  rewrite <-(length_le_bytes n v) in Hma, H2. eapply step_frame_mono; [|by apply step_frame_put].
  intros x Hx. cbv beta in Hx. lia.
Qed.

(** An event or a register does not concern the memory. *)
Lemma frame_mach P k s : ram s = kram k → step_frame P k (set_mach s k).
Proof. intros E. split; intros a; change (kram (set_mach s k)) with (ram s); by rewrite E. Qed.

Lemma driving_mach k0 k s : ram s = kram k → driving k0 k → driving k0 (set_mach s k).
Proof. intros E D. eapply (driving_step (λ _, False)); [exact D|by apply frame_mach|done..]. Qed.

(** The state in which the request is made. *)
Record requesting (k : kernel) (idx : Z) : Prop := {
  rq_wired : wired g k;
  rq_mapped : part_mapped g k;
  rq_idx : word_at 2 (kram k) (av g + avail_idx) idx;
  rq_room : 0 ≤ idx < QUEUE_SIZE;
  rq_heap : main_heap k = hp g;
  rq_segs : kheap k (segs g);
  rq_handlers : 79 < Z.of_nat (length (handlers (interrupts k)));
  rq_params : 79 < Z.of_nat (length (handler_params (interrupts k)));
  rq_req : mapped (kram k) req 17;
  rq_data : mapped (kram k) data 512;
}.

(** The state in which the driver waits. *)
Record pending (k0 k : kernel) (idx : Z) (pre post : list seg) : Prop := {
  pe_driving : driving k0 k;
  pe_sync : word_at 8 (kram k) (sy g + sync_disk) (disk g);
  pe_done : word_at 1 (kram k) (sy g + sync_done) 0;
  pe_offered : offered (kram k) (dt g) (av g) req data sector idx;
  pe_notified : notified k (handler g) (io g) (sy g);
  pe_held : sync_held k pre post;
}.

(** The preparation of the header and the queue; then the heap is as before. *)
Lemma wp_prepare k0 idx {A} (q : M kernel A) Q : requesting k0 idx →
  (∀ k, driving k0 k → offered (kram k) (dt g) (av g) req data sector idx →
    main_heap k = hp g → kheap k (segs g) → wp q k Q) →
  wp (in_ram (store64 (req + req_sector) (u64 sector)) ;; in_ram (store32 (req + req_type) 0) ;;
    disk_fill (disk g) req 0 data ;; disk_offer (disk g) 0 ;; mb ;; q) k0 Q.
Proof.
  intros [Hw Hm Hidx Hroom Hheap Hsegs Hh Hp Hrm Hdm] HQ.
  assert (driving k0 k0) as D0 by (split; [apply step_frame_refl|done..]).
  apply wp_bind, wp_store_req; [exact Hrm|unfold req_sector; lia|unfold req_sector; lia|]. intros k1 E1 F1 Hsec.
  apply wp_bind, wp_store_req; [by eapply frame_mapped|unfold req_type; lia|unfold req_type; lia|]. intros k2 E2 F2 Htype.
  assert (driving k0 k2) as D2.
  { eapply driving_step; [eapply driving_step; [exact D0|exact F1|exact req_step|by subst k1..]|exact F2|exact req_step|by subst k2..]. }
  apply wp_bind. eapply wp_mono; [apply (wp_disk_fill k2); [apply D2|by eapply driving_mapped]|].
  intros [] k3 [Hdesc E3 F3].
  assert (driving k0 k3) as D3.
  { eapply driving_step; [exact D2|exact F3|intros a; by apply part_step|by rewrite E3..]. }
  assert (step_frame (λ a, req ≤ a < req + 17 ∨ within g Descriptors a) k0 k3) as F03.
  { eapply step_frame_trans; [|eapply step_frame_mono; [|exact F3]; by right].
    eapply step_frame_mono; [|by eapply step_frame_trans]. by left. }
  assert (∀ p a, p ≠ Descriptors → within g p a → ¬ (req ≤ a < req + 17 ∨ within g Descriptors a)) as Hother.
  { intros p a Hne Ha [Hin|Hin]; [apply (Hreq a Hin); by exists p|by apply Hne, (ok_separate g Hg p Descriptors a)]. }
  apply wp_bind, (wp_disk_offer k3 idx); [apply D3|by eapply driving_mapped| |exact Hroom|].
  { eapply frame_word; [exact F03| |exact Hidx]. intros a Ha. apply Hother with Available; [done|].
    unfold within. simpl. unfold avail_idx, sizeof_avail, QUEUE_SIZE in *. lia. }
  intros k4 E4 F4 Hring Hidx4 Hflags.
  assert (driving k0 k4) as D4.
  { eapply driving_step; [exact D3|exact F4|intros a; by apply part_step|by rewrite E4..]. }
  assert (step_frame (λ a, within g Descriptors a ∨ within g Available a) k2 k4) as F24.
  { eapply step_frame_trans; (eapply step_frame_mono; [|eassumption]); [by left|by right]. }
  apply wp_bind. unfold mb. apply (HQ (set_mach (emit_event Dsb (mach k4)) k4)); [by apply driving_mach| | |].
  - change (kram (set_mach (emit_event Dsb (mach k4)) k4)) with (kram k4). split; try done.
    + eapply frame_bytes; [exact F4| |exact Hdesc]. intros a Ha. apply part_apart with Descriptors; [|done].
      unfold within. simpl. unfold descriptors in Ha. rewrite !length_app, !length_le_bytes in Ha. lia.
    + eapply frame_word; [exact F24| |exact Htype]. intros a Ha [Hin|Hin]; (apply (Hreq a); [unfold req_type in Ha; lia|by eexists]).
    + rewrite u64_small in Hsec by lia.
      assert (word_at 8 (kram k2) (req + req_sector) sector) as Hsec2.
      { rewrite E2. apply bytes_at_put_ne; [exact Hsec|]. rewrite !length_le_bytes. unfold req_type, req_sector. lia. }
      eapply frame_word; [exact F24| |exact Hsec2]. intros a Ha [Hin|Hin]; (apply (Hreq a); [unfold req_sector in Ha; lia|by eexists]).
    + eapply frame_mapped; [apply D4|exact Hdm].
    + eapply mapped_weaken; [eapply frame_mapped; [apply D4|exact Hrm]|lia|lia].
  - cbn. rewrite E4, E3, E2, E1. done.
  - apply (kheap_stable k0); [done|by rewrite E4, E3, E2, E1|].
    intros a Ha. rewrite Hheap in Ha. cbn. change (ram (mach k4)) with (kram k4).
    assert (within g Table a) as Hta by (unfold within; simpl; lia).
    destruct F4 as [F4 _]. rewrite F4 by (by apply part_apart with Table).
    destruct F03 as [F03 _]. apply F03. by apply Hother with Table.
Qed.

(** A step of the driver in another part keeps the request. *)
Lemma offered_frame p k k' idx : step_frame (within g p) k k' → p ≠ Descriptors → p ≠ Available →
  0 ≤ idx < QUEUE_SIZE → offered (kram k) (dt g) (av g) req data sector idx →
  offered (kram k') (dt g) (av g) req data sector idx.
Proof.
  intros Hf Hpd Hpa Hi [Hd Ht Hs Hdm Hst Hr Hx Hfl Hrg].
  assert (∀ a, within g Available a → ¬ within g p a) as Hav by (intros a Ha; by apply part_apart with Available).
  assert (∀ a, req ≤ a < req + 17 → ¬ within g p a) as Hr17 by (intros a Ha Hp; apply (Hreq a Ha); by exists p).
  assert (∀ o n, 0 ≤ o → o + n ≤ 2054 → ∀ a, av g + o ≤ a < av g + o + n → ¬ within g p a) as Hin.
  { intros o n Ho Hn a Ha. apply Hav. unfold within. simpl. unfold sizeof_avail, QUEUE_SIZE. lia. }
  unfold QUEUE_SIZE in Hi. split.
  - eapply frame_bytes; [exact Hf| |exact Hd]. intros a Ha. apply part_apart with Descriptors; [|done].
    unfold within. simpl. unfold descriptors in Ha. rewrite !length_app, !length_le_bytes in Ha. lia.
  - eapply frame_word; [exact Hf| |exact Ht]. intros a Ha. apply Hr17. unfold req_type in Ha. lia.
  - eapply frame_word; [exact Hf| |exact Hs]. intros a Ha. apply Hr17. unfold req_sector in Ha. lia.
  - by eapply frame_mapped.
  - by eapply frame_mapped.
  - eapply frame_word; [exact Hf| |exact Hr]. intros a Ha.
    apply (Hin (avail_ring + 2 * idx) 2); unfold avail_ring in *; lia.
  - eapply frame_word; [exact Hf| |exact Hx]. apply (Hin avail_idx 2); unfold avail_idx; lia.
  - eapply frame_word; [exact Hf| |exact Hfl]. apply (Hin avail_flags 2); unfold avail_flags; lia.
  - exact Hrg.
Qed.

Lemma wp_start k0 k idx {A} (q : Z → M kernel A) Q : requesting k0 idx → driving k0 k →
  offered (kram k) (dt g) (av g) req data sector idx → main_heap k = hp g → kheap k (segs g) →
  (∀ k' pre post, pending k0 k' idx pre post → wp (q (sy g)) k' Q) →
  wp (let* sync := kalloc sizeof_sync in disk_notify (handler g) (disk g) sync ;; q sync) k Q.
Proof.
  intros [_ Hm _ Hroom _ _ Hlh Hlp _ _] D Hof Hh Hk HQ.
  apply wp_bind, wp_sync_alloc; [done|done|]. intros k1 pre post Hheld Hfr.
  assert (step_frame (within g Table) k k1) as F1 by (apply heap_frame_part; [done|by rewrite Hh..]).
  pose proof Hfr as (_ & _ & _ & _ & _ & Hi1 & _).
  assert (driving k0 k1) as D1.
  { eapply driving_step; [exact D|exact F1|intros a; by apply part_step|by rewrite Hi1..]. }
  apply wp_bind, wp_disk_notify; [apply D1|by eapply driving_mapped|..].
  { by rewrite (proj1 (dr_lengths _ _ D1)). }
  { by rewrite (proj2 (dr_lengths _ _ D1)). }
  intros k2 F2 Hsd Hdone Hno Hh2 Hl1 Hl2. apply (HQ k2 pre post). split; try done.
  - eapply driving_step; [exact D1|exact F2|intros a; by apply part_step|done|done].
  - eapply (offered_frame Sync); [exact F2|done..|]. by eapply (offered_frame Table).
  - eapply sync_held_frame; [exact Hheld|exact F2| |done]. intros a Ha. by apply part_apart with Table.
Qed.

(** The state after the request. *)
Record finished (k0 k : kernel) (idx : Z) : Prop := {
  fi_wired : wired g k;
  fi_mapped : part_mapped g k;
  fi_idx : word_at 2 (kram k) (av g + avail_idx) (idx + 1);
  fi_heap : main_heap k = hp g;
  fi_segs : kheap k (segs g);
  fi_lengths : length (handlers (interrupts k)) = length (handlers (interrupts k0)) ∧
    length (handler_params (interrupts k)) = length (handler_params (interrupts k0));
  fi_block : ∀ a, within g Block a → kram k !! a = kram k0 !! a;
  fi_memory : ∀ a, ¬ inside a → kram k !! a = put_bytes data (image sector) (kram k0) !! a;
}.

Lemma wp_finish k0 k idx pre post (Q : Z → kernel → Prop) : requesting k0 idx → pending k0 k idx pre post →
  (∀ k', finished k0 k' idx → Q 0 k') →
  wp (disk_wait interrupt polls (sy g) ;; on_machine (sysutils_mask_fiq true) ;; kfree (sy g) ;; ret 0) k Q.
Proof.
  intros Hrq [D Hsd Hdone Hof Hno Hheld] HQ. pose proof Hrq as [_ Hm0 _ Hroom Hh0 Hs0 _ _ _ _].
  assert (part_mapped g k) as Hm by by eapply driving_mapped.
  apply wp_bind, (wp_disk_wait req data Hreq Hdata polls k sector idx); try done; [apply D|]. intros k1 Hserved.
  set (P := λ a, within g Used_ring a ∨ within g Sync a ∨ data ≤ a < data + 512 ∨ a = req + 16).
  assert (step_frame P k k1) as F1.
  { split; [|apply Hserved]. intros a Ha. unfold P in Ha.
    eapply (served_other req data sector); [exact Hserved|tauto|tauto|tauto|tauto]. }
  assert (∀ p a, p ≠ Used_ring → p ≠ Sync → within g p a → ¬ P a) as Hkeep.
  { intros p a Hu Hs Ha [Hp|[Hp|[Hp|Hp]]].
    - by apply Hu, (ok_separate g Hg p Used_ring a).
    - by apply Hs, (ok_separate g Hg p Sync a).
    - apply (Hdata a Hp). by exists p.
    - apply (Hreq a); [lia|by exists p]. }
  destruct (mask_fiq_on (mach k1)) as (s2 & Hs2 & Hr2).
  apply wp_bind, (wp_intro _ _ _ _ _ (on_machine_ok _ _ _ _ Hs2)). set (k2 := set_mach s2 k1).
  assert (step_frame P k k2) as F2 by (eapply step_frame_trans; [exact F1|by apply frame_mach]).
  apply wp_bind, (wp_sync_free k2 pre post).
  { eapply sync_held_frame; [exact Hheld|exact F2| |apply Hserved]. intros a Ha. by apply Hkeep with Table. }
  { rewrite <-Hh0. apply Hs0. }
  intros k3 Hh3 Hs3 F3 Hi3. apply wp_ret, HQ. destruct D as [D1 D2 D3 [D4 D5]].
  assert (∀ a, ¬ within g Table a → kram k3 !! a = kram k1 !! a) as Hmem.
  { intros a Ha. destruct F3 as [F3 _]. rewrite F3 by done. change (kram k2) with (ram s2). by rewrite Hr2. }
  assert (∀ p n a v, p ≠ Used_ring → p ≠ Sync → p ≠ Table → (∀ x, a ≤ x < a + Z.of_nat n → within g p x) →
    word_at n (kram k) a v → word_at n (kram k3) a v) as Hword.
  { intros p n a v H1 H2 H3 Hin Hv. eapply frame_word; [exact F3|intros x Hx; by apply part_apart with p; [apply Hin|]|].
    eapply frame_word; [exact F2| |exact Hv]. intros x Hx. apply Hkeep with p; [done|done|by apply Hin]. }
  split; try done.
  - eapply wired_frame; [exact F3|intros a Ha; by apply part_apart with Device|].
    eapply wired_frame; [exact F2|intros a Ha; by apply Hkeep with Device|exact D2].
  - eapply part_mapped_frame; [exact F3|]. by eapply part_mapped_frame.
  - apply (Hword Available); [done..| |apply Hof]. intros a Ha. unfold within. simpl.
    unfold avail_idx, sizeof_avail, QUEUE_SIZE in *. lia.
  - rewrite Hi3. destruct Hserved as (_ & _ & _ & Hi1). change (interrupts k2) with (interrupts k1). by rewrite Hi1.
  - intros a Ha. rewrite Hmem by (by apply part_apart with Block). destruct F1 as [F1 _].
    rewrite F1 by (by apply Hkeep with Block). by apply D3.
  - intros a Ha. rewrite Hmem by (intros Hin; by eapply Ha, inside_part).
    destruct Hserved as [Hsv _]. rewrite Hsv by (intros Hin; by eapply Ha, inside_part).
    assert (a ≠ req + 16) as Hne by (intros ->; apply Ha; right; lia).
    rewrite !put_bytes_lookup. case_decide; [done|]. rewrite decide_False by (simpl; lia). by apply D1.
Qed.

Lemma wp_request_body k0 idx (Q : Z → kernel → Prop) : requesting k0 idx → (∀ k', finished k0 k' idx → Q 0 k') →
  wp (in_ram (store64 (req + req_sector) (u64 sector)) ;; in_ram (store32 (req + req_type) 0) ;;
    disk_fill (disk g) req 0 data ;; disk_offer (disk g) 0 ;; mb ;;
    let* sync := kalloc sizeof_sync in disk_notify (handler g) (disk g) sync ;; disk_wait interrupt polls sync ;;
    on_machine (sysutils_mask_fiq true) ;; kfree sync ;; ret 0) k0 Q.
Proof.
  intros Hrq HQ. apply (wp_prepare k0 idx); [done|]. intros k D Hof Hh Hs.
  apply (wp_start k0 k idx); [done..|]. intros k' pre post Hp. by apply (wp_finish k0 k' idx pre post).
Qed.
End request.

(** *** The interface *)

Section reader.
Context {interrupt : M kernel unit} {image : Z → list Z}
  `{!VirtioDevice interrupt (handler g) (io g) (dt g) (av g) (us g) image}.
Variables (polls : nat) (call : Z → option (Z → Z → Z → M kernel Z)).
Hypothesis Hpolls : (2 ≤ polls)%nat.
Hypothesis Hcall : call (READ g) = Some (disk_block_read (handler g) interrupt polls).

Lemma private_mapped r k b a : disk_ready g r k b → private a → is_Some (kram k !! a).
Proof. intros Hr [p Ha]. by apply (rd_mapped _ _ _ _ Hr p). Qed.

(** Readiness is about the private memory, the heap and the lengths of the handler tables. *)
Lemma disk_ready_agree r k k' b : disk_ready g r k b → (∀ a, private a → kram k' !! a = kram k !! a) →
  main_heap k' = main_heap k → length (handlers (interrupts k')) = length (handlers (interrupts k)) →
  length (handler_params (interrupts k')) = length (handler_params (interrupts k)) → disk_ready g r k' b.
Proof.
  intros [Hb Hrd Harg [W1 W2 W3] Hm (idx & Hi & Hr) Hh Hs Hl] Hag Hh' Hl1 Hl2.
  assert (∀ p n a v, (∀ x, a ≤ x < a + Z.of_nat n → within g p x) → word_at n (kram k) a v → word_at n (kram k') a v) as Hword.
  { intros p n a v Hin Hv. eapply bytes_at_agree; [exact Hv|]. intros x Hx. rewrite length_le_bytes in Hx.
    apply Hag. exists p. by apply Hin. }
  split; [done|apply (Hword Block)|apply (Hword Block)|split; apply (Hword Device)| |exists idx; split; [apply (Hword Available)|done]|congruence| |lia];
    try done;
    try (intros x Hx; unfold within; simpl;
      unfold block_read_fn, block_args, disk_mmio, disk_descriptors, disk_avail, avail_idx, sizeof_avail, QUEUE_SIZE in *; lia).
  - intros p a Ha. rewrite Hag by (by exists p). by apply (Hm p).
  - apply (kheap_stable k); [done|done|]. intros a Ha. apply Hag. exists Table. unfold within. simpl.
    rewrite Hh in Ha. lia.
Qed.

(** The frame of the request lies above everything that is mapped. *)
Lemma requesting_start r k b req buf idx : disk_ready g (S r) k b →
  (∀ a, req - LOCAL_GAP < a → kram k !! a = None) → mapped (kram k) buf 512 →
  word_at 2 (kram k) (av g + avail_idx) idx → 0 ≤ idx → idx + Z.of_nat (S r) ≤ QUEUE_SIZE →
  requesting req buf (set_kram (put_cells req (replicate 17 None) (kram k)) k) idx.
Proof.
  intros Hr Hfresh Hbuf Hi Hi0 Hir. set (k0 := set_kram _ k).
  assert (∀ a, is_Some (kram k !! a) → kram k0 !! a = kram k !! a) as Hlow.
  { intros a [c Hc]. change (kram k0) with (put_cells req (replicate 17 None) (kram k)).
    rewrite put_cells_lookup, decide_False; [done|]. rewrite length_replicate. intros Hin.
    rewrite Hfresh in Hc; [done|]. unfold LOCAL_GAP. lia. }
  assert (disk_ready g (S r) k0 b) as Hr0.
  { apply (disk_ready_agree (S r) k); [done|intros a Ha; by eapply Hlow, private_mapped|done..]. }
  destruct Hr0 as [Hb Hrd Harg Hw Hm _ Hh Hs [Hl1 Hl2]]. split; try done.
  - eapply bytes_at_agree; [exact Hi|]. intros a Ha. apply Hlow. by apply (bytes_at_mapped _ _ _ Hi).
  - lia.
  - apply mapped_put_cells_self. by rewrite length_replicate.
  - intros a Ha. rewrite Hlow; by apply Hbuf.
Qed.

Lemma disk_reads r k b buf n : disk_ready g (S r) k b → below (2 ^ 63) (kram k) → 0 ≤ n < 2 ^ 31 → mapped (kram k) buf 512 →
  (∀ a, buf ≤ a < buf + 512 → ¬ private a) →
  ∃ k', block_read call b buf n k = Ok 0 k' ∧ disk_ready g r k' b ∧
    ∀ a, ¬ private a → kram k' !! a = put_bytes buf (image n) (kram k) !! a.
Proof.
  intros Hr Hlow63 Hn Hbuf Hdata.
  assert (wp (block_read call b buf n) k (λ v k', v = 0 ∧ disk_ready g r k' b ∧
    ∀ a, ¬ private a → kram k' !! a = put_bytes buf (image n) (kram k) !! a)) as (v & k' & H & -> & Hpost)%wp_ok;
    [|by exists k'].
  pose proof Hr as [-> Hrd Harg _ _ (idx & Hi & Hi0 & Hir) _ _ _]. unfold block_read.
  apply wp_bind. eapply wp_in_ram_word; [exact Hrd|apply (ok_read g Hg)|].
  apply wp_bind. eapply wp_in_ram_word; [exact Harg|apply (ok_disk g Hg)|].
  unfold call_block. rewrite Hcall. unfold disk_block_read, disk_create_request_sync.
  rewrite i32_small by (unfold INT_MIN, INT_MAX; lia).
  apply wp_frame_array. intros req Ereq Hfresh.
  pose proof (fresh_address_bound (2 ^ 63) (kram k) ltac:(lia) Hlow63) as Hrange. rewrite <-Ereq in Hrange.
  assert (0 ≤ req ∧ req + 17 ≤ 2 ^ 64 ∧ 0 ≤ buf ∧ buf + 512 ≤ 2 ^ 64) as Hrg.
  { pose proof (Hlow63 buf (Hbuf buf ltac:(lia))). pose proof (Hlow63 (buf + 511) (Hbuf (buf + 511) ltac:(lia))).
    unfold LOCAL_GAP in Hrange. lia. }
  change (replicate (Z.to_nat sizeof_req) None) with (@replicate (option Z) 17 None).
  assert (∀ a, is_Some (kram k !! a) → a < req) as Hlow.
  { intros a [c Hc]. destruct (Z.lt_ge_cases a req); [done|]. rewrite Hfresh in Hc; [done|unfold LOCAL_GAP; lia]. }
  assert (∀ a, req ≤ a < req + 17 → ¬ private a) as Hreq.
  { intros a Ha Hp. pose proof (Hlow a (private_mapped _ _ _ _ Hr Hp)). lia. }
  pose proof (Hlow (buf + 511) (Hbuf (buf + 511) ltac:(lia))) as Hbelow.
  set (k0 := set_kram _ k). pose proof (requesting_start r k (blk g) req buf idx Hr Hfresh Hbuf Hi Hi0 Hir) as Hrq.
  apply (wp_request_body polls req buf n Hpolls Hn Hreq Hdata Hrg k0 idx); [exact Hrq|].
  intros k1 [Hw Hm Hidx Hh Hs [Hl1 Hl2] Hblock Hmem]. change (Z.to_nat sizeof_req) with 17%nat.
  set (k2 := set_kram _ k1).
  assert (∀ a, kram k2 !! a = if decide (req ≤ a < req + 17) then None else kram k1 !! a) as Hk2.
  { intros a. apply drop_cells_lookup. }
  assert (∀ a, ¬ (req ≤ a < req + 17) → kram k0 !! a = kram k !! a) as Hk0.
  { intros a Ha. change (kram k0) with (put_cells req (replicate 17 None) (kram k)).
    rewrite put_cells_lookup, decide_False; [done|]. by rewrite length_replicate. }
  assert (∀ p n a v, (∀ x, a ≤ x < a + Z.of_nat n → within g p x) → word_at n (kram k0) a v → p = Block →
    word_at n (kram k1) a v) as Hbw.
  { intros p n' a v Hin Hv ->. eapply bytes_at_agree; [exact Hv|]. intros x Hx. rewrite length_le_bytes in Hx.
    by apply Hblock, Hin. }
  split; [done|]. split.
  - apply (disk_ready_agree r k1); [|intros a Ha; rewrite Hk2, decide_False; [done|intros Hin; by apply (Hreq a)]|done..].
    assert (∀ n' a v, word_at n' (kram k) a v → word_at n' (kram k0) a v) as Hw0.
    { intros n' a v Hv. eapply bytes_at_agree; [exact Hv|]. intros x Hx. apply Hk0.
      pose proof (Hlow x (bytes_at_mapped _ _ _ Hv x Hx)). lia. }
    split; try done.
    + apply (Hbw Block); [|by apply Hw0|done]. intros x Hx. unfold within. simpl. unfold block_read_fn in Hx. lia.
    + apply (Hbw Block); [|by apply Hw0|done]. intros x Hx. unfold within. simpl. unfold block_args in Hx. lia.
    + exists (idx + 1). split; [done|]. lia.
    + rewrite Hl1, Hl2. apply Hr.
  - intros a Ha. rewrite Hk2. case_decide as Hin.
    + rewrite put_bytes_outside, Hfresh; [done|unfold LOCAL_GAP; lia|].
      rewrite (sector_length n). lia.
    + rewrite Hmem by (by intros [Hp|Hp]). rewrite !put_bytes_lookup. case_decide; [done|]. by apply Hk0.
Qed.

(** The interface of the FAT reader is implemented. *)
#[export] Instance disk_sector_reader : SectorReader (block_read call) image (disk_ready g) private.
Proof.
  split.
  - exact sector_length.
  - exact sector_bytes.
  - intros r k b buf n Hr Hlow Hn Hbuf Hp. by apply disk_reads.
  - intros r k b m Hr Hm. by apply (disk_ready_agree r k).
  - intros r k b [Hb Hrd Harg Hw Hm (idx & Hi & Hi0 & Hir) Hh Hs Hl]. split; try done.
    exists idx. split; [done|]. lia.
  - intros r k b a Hr Ha. by eapply private_mapped.
Qed.

(** C15: Reading a sector through the driver: the request in the queue, the interrupt and the
    release of its memory leave the 512 bytes of the sector at [buf] and change nothing else but
    the driver's own memory; the driver is ready for one request less. *)
Theorem disk_reads_sector r k b buf n : disk_ready g (S r) k b → below (2 ^ 63) (kram k) → 0 ≤ n < 2 ^ 31 →
  mapped (kram k) buf 512 → (∀ a, buf ≤ a < buf + 512 → ¬ private a) →
  ∃ k', block_read call b buf n k = Ok 0 k' ∧ disk_ready g r k' b ∧
    ∀ a, ¬ private a → kram k' !! a = put_bytes buf (image n) (kram k) !! a.
Proof. apply disk_reads. Qed.

(** C14: A file comes from the disk to memory: [fat_read_entry] over the driver stores the clusters
    of the file, in the order of its chain, at [ptr], one request per sector. *)
Theorem fat_file_from_disk r k b handle entry fat data spc ptr n c cs :
  0 ≤ b < 2 ^ 64 → 0 ≤ fat < 2 ^ 64 → 0 ≤ data < 2 ^ 38 → 0 < spc < 256 → 0 < n ≤ INT_MAX →
  Z.of_nat (length cs) < 65536 → word_at 2 (kram k) (entry + 26) c → word_at 4 (kram k) (entry + 28) n →
  read_pre (ready := disk_ready g) (priv := private) r k b handle fat data spc ptr n (c :: cs) →
  ∃ k', fat_read_entry (block_read call) handle entry ptr k = Ok tt k' ∧
    read_post (image := image) (ready := disk_ready g) (priv := private) r k k' b data spc ptr n (c :: cs).
Proof. apply fat_read_entry_spec. Qed.
End reader.
End driver.

(** ** A buffer of the heap

    While the caller holds memory of the heap, the driver gets its [sync] elsewhere: the geometry
    has other segments, another first free block and other spare memory. *)

Definition with_heap (h : heap) (ss : list seg) (f : nat) (sp : Z * Z) (g : geometry) : geometry :=
  mk_geometry (blk g) (disk g) (io g) (dt g) (av g) (us g) h ss f sp (READ g) (handler g).

Lemma with_heap_id g : with_heap (hp g) (segs g) (first g) (spare g) g = g.
Proof. by destruct g. Qed.

(** Between two states that differ in the table of the heap. *)
Lemma ready_change g h ss f sp h' ss' f' sp' r k k' b (g1 := with_heap h ss f sp g) (g2 := with_heap h' ss' f' sp' g) :
  geometry_ok g1 → disk_ready g1 r k b → heap_frame k k' → main_heap k' = h' → kheap k' ss' →
  (∀ a, within g2 Sync a ∨ within g2 Spare a → is_Some (kram k !! a)) →
  heap_tbl h' = heap_tbl h → blocks h' = blocks h → disk_ready g2 r k' b.
Proof.
  intros Hg [Hb Hrd Harg [W1 W2 W3] Hm (idx & Hi & Hr) Hh Hs Hl] (Ho & Hmap & _ & _ & _ & Hint & _) Hh' Hs' Hsy Ht Hbl.
  assert (∀ p n a v, p ≠ Table → (∀ x, a ≤ x < a + Z.of_nat n → within g1 p x) → word_at n (kram k) a v → word_at n (kram k') a v) as Hword.
  { intros p n a v Hne Hin Hv. eapply bytes_at_agree; [exact Hv|]. intros x Hx. rewrite length_le_bytes in Hx.
    apply Ho. intros Hx'. apply Hne, (ok_separate _ Hg p Table x); [by apply Hin|]. unfold within. simpl.
    rewrite Hh in Hx'. cbn in Hx'. lia. }
  split; [done|apply (Hword Block)|apply (Hword Block)|split; apply (Hword Device)| |exists idx; split; [apply (Hword Available)|done]|done|done|by rewrite Hint];
    try done;
    try (intros x Hx; unfold within, g1, g2 in *; simpl in *;
      unfold block_read_fn, block_args, disk_mmio, disk_descriptors, disk_avail, avail_idx, sizeof_avail, QUEUE_SIZE in *; lia).
  intros [] a Ha; try (by apply Hmap, Hsy; auto); apply Hmap.
  all: try by apply (Hm Block). all: try by apply (Hm Device). all: try by apply (Hm Descriptors).
  all: try by apply (Hm Available). all: try by apply (Hm Used_ring).
  apply (Hm Table). unfold within in *. cbn in *. rewrite Ht, Hbl in Ha. done.
Qed.

(** [g'] is the geometry while [size] bytes are allocated at [p] in the geometry [g]. *)
Record lends (g : geometry) (h' : heap) (ss' : list seg) (f' : nat) (sp' : Z * Z) (size p : Z)
    (g' := with_heap h' ss' f' sp' g) : Prop := {
  ln_ok : geometry_ok g;
  ln_ok' : geometry_ok g';
  ln_size : 0 < size < 2 ^ 64;
  ln_alloc : ∃ i, alloc_segs (Z.to_nat (alloc_blocks_of size)) (segs g) = Some (i, ss') ∧
    p = heap_start_address (hp g) + 4096 * Z.of_nat i;
  ln_start : heap_start_address h' = heap_start_address (hp g);
  ln_table : heap_tbl h' = heap_tbl (hp g);
  ln_blocks : blocks h' = blocks (hp g);
  ln_free : free_blocks (hp g) = Z.of_nat (count_segs_free (segs g));
  ln_free' : free_blocks h' = Z.of_nat (count_segs_free ss');
  ln_apart : ∀ a, p ≤ a < p + size → ¬ private g' a;
  ln_sync a : within g' Sync a ∨ within g' Spare a → private g a;
  ln_back a : within g Sync a ∨ within g Spare a → p ≤ a < p + size ∨ private g' a;
}.

Section lending.
Variables (g : geometry) (h' : heap) (ss' : list seg) (f' : nat) (sp' : Z * Z) (size p : Z).
Hypothesis Hlends : lends g h' ss' f' sp' size p.
Let g' : geometry := with_heap h' ss' f' sp' g.

Lemma lend_alloc r k b : disk_ready g r k b → ∃ k', kalloc size k = Ok p k' ∧ disk_ready g' r k' b ∧
  (∀ a, ¬ private g a → kram k' !! a = kram k !! a) ∧ (∀ a, is_Some (kram k !! a) → is_Some (kram k' !! a)).
Proof.
  intros Hr. destruct Hlends as [Hg Hg' Hsize (i & Hal & Hp) Hst Ht Hb Hf Hf' _ Hsync _]. clear Hlends.
  pose proof (kalloc_spec k (segs g) size (rd_segs _ _ _ _ Hr) Hsize) as H. rewrite Hal in H.
  destruct H as (k' & Hrun & Hk' & Hfr & Hst'). rewrite (rd_heap _ _ _ _ Hr) in *.
  exists k'. rewrite Hp. split; [done|]. pose proof Hfr as (Ho & Hmap & _ & _ & _ & _ & Ht' & Hb').
  rewrite (rd_heap _ _ _ _ Hr) in *. split; [|split; [|done]].
  - rewrite <-(with_heap_id g) in Hr, Hg. unfold g'. eapply ready_change; [exact Hg|exact Hr|exact Hfr| |exact Hk'| |done|done].
    + apply heap_ext; [congruence..|]. by rewrite (rep_free _ _ _ Hk').
    + intros a Ha. rewrite with_heap_id in Hr. by eapply private_mapped, Hsync.
  - intros a Ha. apply Ho. intros Hin. apply Ha. exists Table. unfold within. simpl. lia.
Qed.

Lemma lend_free r k b : disk_ready g' r k b → mapped (kram k) p size → ∃ k', kfree p k = Ok tt k' ∧
  disk_ready g r k' b ∧ ∀ a, ¬ private g' a → kram k' !! a = kram k !! a.
Proof.
  intros Hr Hm. destruct Hlends as [Hg Hg' Hsize (i & Hal & Hp) Hst Ht Hb Hf Hf' _ _ Hback]. clear Hlends.
  apply alloc_segs_split in Hal as (pre & post & Hs & Hss & Hi).
  assert (main_heap k = h') as Hh by apply (rd_heap _ _ _ _ Hr).
  pose proof (rd_segs _ _ _ _ Hr) as Hks. change (segs g') with ss' in Hks. rewrite Hss in Hks.
  destruct (kfree_spec k pre _ post Hks) as (k' & Hrun & Hk' & Hfr & Hst'). rewrite Hh, Hst, <-Hi, <-Hp in Hrun.
  rewrite <-Hs in Hk'. exists k'. split; [done|]. pose proof Hfr as (Ho & Hmap & _ & _ & _ & _ & Ht' & Hb').
  rewrite Hh in *. split.
  - rewrite <-(with_heap_id g). unfold g' in Hr. eapply ready_change; [exact Hg'|exact Hr|exact Hfr| |exact Hk'| |done|done].
    + apply heap_ext; [congruence..|]. by rewrite (rep_free _ _ _ Hk').
    + intros a Ha. rewrite with_heap_id in Ha. destruct (Hback a Ha) as [Hin|Hin]; [by apply Hm|].
      by eapply private_mapped.
  - intros a Ha. apply Ho. intros Hin. apply Ha. exists Table. unfold within. simpl. lia.
Qed.

(** The driver can lend: what the FAT reader needs to read a part of a file. *)
Section instance.
Context {interrupt : M kernel unit} {image : Z → list Z}
  `{!VirtioDevice interrupt (handler g) (io g) (dt g) (av g) (us g) image}.
Variables (polls : nat) (call : Z → option (Z → Z → Z → M kernel Z)).
Hypothesis Hpolls : (2 ≤ polls)%nat.
Hypothesis Hcall : call (READ g) = Some (disk_block_read (handler g) interrupt polls).

#[export] Instance disk_reader_buffer :
  ReaderBuffer (block_read call) image (disk_ready g) (disk_ready g') (private g) (private g') size p.
Proof.
  split.
  - exact (disk_sector_reader g (ln_ok _ _ _ _ _ _ _ Hlends) polls call Hpolls Hcall).
  - exact (disk_sector_reader g' (ln_ok' _ _ _ _ _ _ _ Hlends) polls call Hpolls Hcall).
  - intros r k b Hr. by apply lend_alloc.
  - intros r k b Hr Hm. by apply lend_free.
  - exact (ln_apart _ _ _ _ _ _ _ Hlends).
Qed.
End instance.
End lending.

(** * Witnesses *)

(** A device that does what it is asked for, with the sectors of [demo_disk]. *)
Definition demo_interrupt (dt : Z) : M kernel unit := λ k,
  match peek 8 (kram k) dt, peek 8 (kram k) (dt + 16), array_get (handler_params (interrupts k)) 79 with
  | Some req, Some data, Some sync =>
      match peek 8 (kram k) (req + req_sector) with
      | Some sector => disk_handle_interrupt_sync 79 sync
          (set_kram (put_bytes data (demo_disk sector) (put_bytes (req + 16) [0] (kram k))) k)
      | None => Hang k
      end
  | _, _, _ => Hang k
  end.

#[local] Instance demo_device h io dt av us : VirtioDevice (demo_interrupt dt) h io dt av us demo_disk.
Proof.
  split.
  - intros n. apply length_replicate.
  - intros n. apply Forall_replicate, Z.mod_pos_bound. lia.
  - intros k req data sector sync idx [Hd _ Hs _ _ _ _ _ (Hr0 & Hr1 & Hd0 & Hd1)] Hsec _ [_ _ _ Hp].
    exists (set_kram (put_bytes data (demo_disk sector) (put_bytes (req + 16) [0] (kram k))) k).
    split; [done|]. split.
    { intros a Ha. cbn [kram mach ram set_kram set_mach set_ram]. rewrite !put_bytes_lookup.
      case_decide as E1; [rewrite fmap_is_Some; apply lookup_lt_is_Some; lia|].
      case_decide as E2; [rewrite fmap_is_Some; apply lookup_lt_is_Some; lia|done]. }
    split; [done|]. split; [done|]. intros k2 Hrun. exists k2. split; [|done].
    unfold descriptors in Hd. apply bytes_at_app in Hd as [Hd1' Hd2]. apply bytes_at_app in Hd1' as [Hq _].
    apply bytes_at_app in Hd2 as [Hd2 _]. apply bytes_at_app in Hd2 as [Hdt _].
    rewrite !length_app, !length_le_bytes in Hdt.
    unfold demo_interrupt. rewrite (peek_word 8 _ dt req Hq) by lia.
    change (dt + 16) with (dt + Z.of_nat (8 + (4 + (2 + 2)))). rewrite (peek_word 8 _ _ data Hdt) by lia.
    rewrite Hp, (peek_word 8 _ _ sector Hs) by lia. exact Hrun.
Qed.

(** The driver's memory from 100000 on, next to the volume of the witnesses of Fat.v. *)
Definition demo_geometry : geometry :=
  mk_geometry 100000 100100 0xa003e00 101000 102000 105000 (mk_heap 131072 120000 4 4) [Free; Free; Free; Free] 0 (135168, 16) 77 88.

Definition demo_disk_ram : mem :=
  put_bytes 1576 (le_bytes 8 100000) $
  put_bytes 100000 (le_bytes 8 77) $ put_bytes 100024 (le_bytes 8 100100) $
  put_bytes 100100 (le_bytes 8 0xa003e00) $ put_bytes 100108 (le_bytes 8 101000) $
  put_bytes 100116 (le_bytes 8 102000) $ put_bytes 102002 (le_bytes 2 0) $
  put_cells 100000 (replicate 40 None) $ put_cells 100100 (replicate 32 None) $
  put_cells 101000 (replicate 48 None) $ put_cells 102000 (replicate 2054 None) $
  put_cells 105000 (replicate (Z.to_nat 8198) None) $ put_cells 131072 (replicate 16 None) $ put_cells 135168 (replicate 16 None) $
  put_bytes 120000 [0; 0; 0; 0; 0] demo_fat_ram.

Definition demo_disk_kernel : kernel :=
  mk_kernel (mk_machine demo_disk_ram (λ _, 0) [] (mk_environment (λ _ _, 0) (λ _ _, 0)))
    (mk_heap 131072 120000 4 4) (mk_gic_table (replicate 100 0) (replicate 100 0)).

Definition demo_call : Z → option (Z → Z → Z → M kernel Z) := λ f,
  if f =? 77 then Some (disk_block_read 88 (demo_interrupt 101000) 2) else None.

Lemma demo_geometry_ok : geometry_ok demo_geometry.
Proof.
  split; cbn; try lia.
  - intros [] [] a; try done; unfold within; simpl extent;
      unfold sizeof_avail, sizeof_used, sizeof_sync, sy, QUEUE_SIZE; simpl; intros ? ?; exfalso; lia.
  - by eexists.
Qed.

Ltac open_demo :=
  change (kram demo_disk_kernel) with demo_disk_ram; unfold demo_disk_ram, demo_fat_ram.

Lemma demo_disk_ready r : (r ≤ 1024)%nat → disk_ready demo_geometry r demo_disk_kernel 100000.
Proof.
  intros Hr. split.
  - done.
  - word_of open_demo.
  - word_of open_demo.
  - split; word_of open_demo.
  - assert (∀ p, mapped demo_disk_ram (extent demo_geometry p).1 (extent demo_geometry p).2) as Hm.
    { unfold demo_disk_ram. intros []; range_of idtac. }
    intros p a Ha. by apply (Hm p).
  - exists 0. split; [word_of open_demo|]. unfold QUEUE_SIZE. lia.
  - done.
  - split; try done.
    + exists 0. change (bytes_at (kram demo_disk_kernel) 120000 [0; 0; 0; 0; 0]). open_demo. peel_bytes.
    + by repeat constructor.
  - cbn [interrupts demo_disk_kernel handlers handler_params]. rewrite !length_replicate. lia.
Qed.

Lemma demo_disk_below : below (2 ^ 62) (kram demo_disk_kernel).
Proof. open_demo. peel_below. Qed.

Lemma demo_not_private a : 1000 ≤ a < 10000 → ¬ private demo_geometry a.
Proof.
  intros Ha [[] Hp]; revert Hp; unfold within; simpl extent;
    unfold sizeof_avail, sizeof_used, sizeof_sync, sy, QUEUE_SIZE; simpl; lia.
Qed.

Lemma disk_reads_sector_witness : ∃ k',
  block_read demo_call 100000 8000 5 demo_disk_kernel = Ok 0 k' ∧ disk_ready demo_geometry 1023 k' 100000 ∧
  ∀ a, ¬ private demo_geometry a → kram k' !! a = put_bytes 8000 (demo_disk 5) (kram demo_disk_kernel) !! a.
Proof.
  apply (disk_reads_sector demo_geometry demo_geometry_ok 2 demo_call (le_n 2) eq_refl 1023 demo_disk_kernel).
  - apply demo_disk_ready. lia.
  - intros a Ha. pose proof (demo_disk_below a Ha). lia.
  - lia.
  - range_of open_demo.
  - intros a Ha. apply demo_not_private. lia.
Defined.

Lemma fat_file_from_disk_witness : ∃ k',
  fat_read_entry (block_read demo_call) 1000 6000 8000 demo_disk_kernel = Ok tt k' ∧
  read_post (image := demo_disk) (ready := disk_ready demo_geometry) (priv := private demo_geometry)
    1000 demo_disk_kernel k' 100000 1024 1 8000 600 [2; 4].
Proof.
  apply (fat_file_from_disk demo_geometry demo_geometry_ok 2 demo_call (le_n 2) eq_refl 1000 demo_disk_kernel
    100000 1000 6000 5000 1024 1 8000 600 2 [4]); try lia.
  - unfold INT_MAX. lia.
  - simpl. lia.
  - word_of open_demo.
  - word_of open_demo.
  - split; change (512 * sectors_of 600) with 1024.
    + apply demo_disk_ready. vm_compute. lia.
    + exact demo_disk_below.
    + repeat split; word_of open_demo.
    + split; [lia|]. split; [word_of open_demo|].
      split; [lia|]. split; [word_of open_demo|done].
    + simpl. lia.
    + range_of open_demo.
    + intros a Ha. apply demo_not_private. lia.
    + intros a Ha. unfold kept, sizeof_fat_handle in Ha.
      assert (1000 ≤ a < 6000) as Hr; [|split; [apply demo_not_private; lia|lia]].
      destruct Ha as [Ha|(c & Hc & Ha)]; [lia|].
      apply elem_of_cons in Hc as [->|[->|[]%elem_of_nil]%elem_of_cons]; lia.
Defined.
