(* ===== verification/Fs.v ===== *)
(** * Inodes and file systems (kernel/fs/fs.c, include/fs/fs.h)

    [struct inode] and [struct filesystem] are in memory; their function pointers are the
    addresses of functions, and [file_ops] says which function is at an address.  The inode slab
    and the main file system are statics of fs.c. *)
From stdpp Require Import base list gmap.
From Stdlib Require Import ZArith Lia.
From stdpp Require Import strings.
From S2P Require Import Prelude Layout Memory CString Heap Slab Machine Log Gic Kernel.

Definition FS_INODE_MAX : Z := 32.

Record vfs : Type := mk_vfs {
  fs_kernel : kernel;
  inode_slab : slab;
  main_filesystem : Z;
}.

Definition set_fs_kernel (k : kernel) (v : vfs) : vfs := mk_vfs k (inode_slab v) (main_filesystem v).
Definition set_inode_slab (sl : slab) (v : vfs) : vfs := mk_vfs (fs_kernel v) sl (main_filesystem v).
Definition set_main_filesystem (p : Z) (v : vfs) : vfs := mk_vfs (fs_kernel v) (inode_slab v) p.

Definition fs_k {A} (m : M kernel A) : M vfs A := zoom fs_kernel set_fs_kernel m.
Definition fs_m {A} (m : M mem A) : M vfs A := fs_k (in_ram m).

(** ** Structs *)

Definition inode_vtable : cstruct := mk_cstruct false
  [("get", Ptr); ("put", Ptr); ("close", Ptr); ("left", Ptr)]%string.
Definition inode : cstruct := mk_cstruct false
  [("impl_inode", Ptr); ("vtable", Nested (sizeof inode_vtable) 8)]%string.
Definition filesystem : cstruct := mk_cstruct false
  [("open", Ptr); ("create", Ptr); ("arguments", Ptr)]%string.

(** [struct inode]: impl_inode, vtable = { get, put, close, left }. *)
Definition inode_impl_inode : Z := 0.
Definition inode_get : Z := 8.
Definition inode_put : Z := 16.
Definition inode_close : Z := 24.
Definition inode_left : Z := 32.
Definition sizeof_inode : Z := 40.

(** [struct filesystem]: open, create, arguments. *)
Definition filesystem_open : Z := 0.
Definition filesystem_create : Z := 8.
Definition filesystem_arguments : Z := 16.
Definition sizeof_filesystem : Z := 24.

Lemma fs_layouts :
  layout_is inode [("impl_inode", inode_impl_inode); ("vtable", 8)]%string sizeof_inode ∧
  layout_is inode_vtable [("get", inode_get - 8); ("put", inode_put - 8); ("close", inode_close - 8);
    ("left", inode_left - 8)]%string 32 ∧
  layout_is filesystem [("open", filesystem_open); ("create", filesystem_create);
    ("arguments", filesystem_arguments)]%string sizeof_filesystem.
Proof. split; [check_layout|]. split; check_layout. Qed.

(** The functions behind the pointers of the two structs. *)
Record file_ops : Type := mk_file_ops {
  call_get : Z → option (Z → Z → M vfs Z);
  call_put : Z → option (Z → Z → M vfs Z);
  call_close : Z → option (Z → M vfs Z);
  call_left : Z → option (Z → M vfs Z);
  call_open : Z → option (Z → Z → M vfs Z);
}.

(** ** fs.c *)

Definition fs_init_slab : M vfs unit :=
  let* size := slab_get_needed_size sizeof_inode FS_INODE_MAX in
  let* slab_memory := fs_k (kalloc size) in
  let* sl := fs_m (slab_create sizeof_inode FS_INODE_MAX slab_memory) in
  modify (set_inode_slab sl).

Definition fs_allocate_inode : M vfs Z :=
  let* v := get in fs_m (slab_allocate (inode_slab v)).

Definition fs_free_inode (inode : Z) : M vfs unit :=
  let* v := get in fs_m (slab_free (inode_slab v) inode) ;; ret tt.

Definition fs_filesystem_setmain (filesystem : Z) : M vfs unit := modify (set_main_filesystem filesystem).
Definition fs_filesystem_getmain : M vfs Z := gets main_filesystem.

Section dispatch.
Variable ops : file_ops.

Definition fs_inode_get (inode ptr : Z) : M vfs Z :=
  let* f := fs_m (load64 (inode + inode_get)) in
  match call_get ops f with Some g => g inode ptr | None => fail BadCall end.

Definition fs_inode_put (inode c : Z) : M vfs Z :=
  let* f := fs_m (load64 (inode + inode_put)) in
  match call_put ops f with Some g => g inode c | None => fail BadCall end.

Definition fs_inode_close (inode : Z) : M vfs Z :=
  let* f := fs_m (load64 (inode + inode_close)) in
  match call_close ops f with Some g => g inode | None => fail BadCall end.

Definition fs_inode_left (inode : Z) : M vfs Z :=
  let* f := fs_m (load64 (inode + inode_left)) in
  match call_left ops f with Some g => g inode | None => fail BadCall end.

(** [fs->open(fs, filename)] *)
Definition fs_open (filesystem filename : Z) : M vfs Z :=
  let* f := fs_m (load64 (filesystem + filesystem_open)) in
  match call_open ops f with Some g => g filesystem filename | None => fail BadCall end.
End dispatch.
