(* ===== verification/RamFs.v ===== *)
(** * Files in memory (kernel/fs/ram_fs.c, include/fs/ram_fs.h) *)
From stdpp Require Import base list gmap.
From Stdlib Require Import ZArith Lia.
From stdpp Require Import strings.
From S2P Require Import Prelude Layout Memory CString Heap Slab Machine Log Gic Kernel Fs.

Definition RAMFILE_STARTSIZE : Z := 4096.

(** ** Structs *)

Definition ram_file : cstruct := mk_cstruct false
  [("name", Array Char 30); ("content", Ptr); ("content_alloc", Int); ("content_fill", Int);
   ("next", Ptr)]%string.
Definition ram_filesystem : cstruct := mk_cstruct false [("head", Ptr)]%string.
Definition ram_inode : cstruct := mk_cstruct false [("ram_file", Ptr); ("position", Int)]%string.

(** [struct ram_file]: name[30], content, content_alloc, content_fill, next. *)
Definition ram_file_name : Z := 0.
Definition ram_file_content : Z := 32.
Definition ram_file_content_alloc : Z := 40.
Definition ram_file_content_fill : Z := 44.
Definition ram_file_next : Z := 48.
Definition sizeof_ram_file : Z := 56.

(** [struct ram_filesystem]: head. *)
Definition sizeof_ram_filesystem : Z := 8.

(** [struct ram_inode]: ram_file, position. *)
Definition ram_inode_ram_file : Z := 0.
Definition ram_inode_position : Z := 8.
Definition sizeof_ram_inode : Z := 16.

Lemma ramfs_layouts :
  layout_is ram_file [("name", ram_file_name); ("content", ram_file_content);
    ("content_alloc", ram_file_content_alloc); ("content_fill", ram_file_content_fill);
    ("next", ram_file_next)]%string sizeof_ram_file ∧
  layout_is ram_filesystem [("head", 0)]%string sizeof_ram_filesystem ∧
  layout_is ram_inode [("ram_file", ram_inode_ram_file); ("position", ram_inode_position)]%string sizeof_ram_inode.
Proof. split; [check_layout|]. split; check_layout. Qed.

(** [int] fields *)
Definition load_int (p : Z) : M mem Z := let* v := load32 p in ret (i32 v).
Definition store_int (p v : Z) : M mem unit := store32 p (u32 v).

Section ramfs.
(** The addresses of the functions. *)
Variables (RAMFS_GET RAMFS_PUT RAMFS_CLOSE RAMFS_CREATE RAMFS_OPEN : Z).

(** [vtable.left] is not set. *)
Definition ramfs_allocate_inode (ram_file : Z) : M vfs Z :=
  let* inode := fs_allocate_inode in
  let* ram_inode := fs_k (kalloc sizeof_ram_inode) in
  fs_m (
    store64 (inode + inode_impl_inode) ram_inode ;;
    store64 (inode + inode_close) RAMFS_CLOSE ;;
    store64 (inode + inode_get) RAMFS_GET ;;
    store64 (inode + inode_put) RAMFS_PUT ;;
    store64 (ram_inode + ram_inode_ram_file) ram_file ;;
    store_int (ram_inode + ram_inode_position) 0) ;;
  ret inode.

(** [while (ptr->next != NULL) ptr = ptr->next;] *)
Definition ramfs_last (ptr : Z) : M mem Z := λ m,
  follow (S (size m)) (λ ptr,
    let* next := load64 (ptr + ram_file_next) in
    if negb (next =? 0) then ret (inl next) else ret (inr ptr)) ptr m.

Definition ramfs_create_internal (filesystem filename : Z) : M vfs Z :=
  let* ram_filesystem := fs_m (load64 (filesystem + filesystem_arguments)) in
  let* ptr := fs_m (load64 ram_filesystem) in
  let* setup :=
    if ptr =? 0 then
      let* ptr := fs_k (kalloc sizeof_ram_file) in
      fs_m (store64 ram_filesystem ptr) ;;
      ret ptr
    else
      let* ptr := fs_m (ramfs_last ptr) in
      let* next := fs_k (kalloc sizeof_ram_file) in
      fs_m (store64 (ptr + ram_file_next) next) ;;
      fs_m (load64 (ptr + ram_file_next)) in
  fs_m (store64 (setup + ram_file_next) 0) ;;
  fs_m (strcpy (setup + ram_file_name) filename) ;;
  let* content := fs_k (kalloc RAMFILE_STARTSIZE) in
  fs_m (
    store64 (setup + ram_file_content) content ;;
    store_int (setup + ram_file_content_alloc) RAMFILE_STARTSIZE ;;
    store_int (setup + ram_file_content_fill) 0) ;;
  ramfs_allocate_inode setup.

(** [ptr] does not change in the loop: a first file with another name is compared for ever. *)
Definition ramfs_open_internal (filesystem filename : Z) : M vfs Z :=
  let* ram_filesystem := fs_m (load64 (filesystem + filesystem_arguments)) in
  let* ptr := fs_m (load64 ram_filesystem) in
  follow 1 (λ ptr,
    if negb (ptr =? 0) then
      let* d := fs_m (strcmp filename (ptr + ram_file_name)) in
      if d =? 0 then
        let* inode := ramfs_allocate_inode ptr in
        ret (inr inode)
      else ret (inl ptr)
    else ret (inr 0)) ptr.

(** [create] and [open] are set, [ram_filesystem->head] is not. *)
Definition ramfs_createfs : M vfs Z :=
  let* filesystem := fs_k (kalloc sizeof_filesystem) in
  let* ram_filesystem := fs_k (kalloc sizeof_ram_filesystem) in
  fs_m (
    store64 (filesystem + filesystem_create) RAMFS_CREATE ;;
    store64 (filesystem + filesystem_open) RAMFS_OPEN ;;
    store64 (filesystem + filesystem_arguments) ram_filesystem) ;;
  ret filesystem.

Definition ramfs_deletefs (filesystem : Z) : M vfs unit :=
  let* arguments := fs_m (load64 (filesystem + filesystem_arguments)) in
  fs_k (kfree arguments) ;;
  fs_k (kfree filesystem).

Definition ramfs_get (inode ptr : Z) : M vfs Z := fs_m (
  let* ram_inode := load64 (inode + inode_impl_inode) in
  let* ram_file := load64 (ram_inode + ram_inode_ram_file) in
  let* position := load_int (ram_inode + ram_inode_position) in
  let* fill := load_int (ram_file + ram_file_content_fill) in
  if position <? fill then
    let* content := load64 (ram_file + ram_file_content) in
    let* position := load_int (ram_inode + ram_inode_position) in
    let* c := loadb (content + position) in
    storeb ptr c ;;
    let* position := load_int (ram_inode + ram_inode_position) in
    let* next := int_of (position + 1) in
    store_int (ram_inode + ram_inode_position) next ;;
    ret 1
  else ret 0).

Definition ramfs_close (inode : Z) : M vfs Z :=
  let* ram_inode := fs_m (load64 (inode + inode_impl_inode)) in
  let* ram_file := fs_m (load64 (ram_inode + ram_inode_ram_file)) in
  fs_k (kfree ram_inode) ;;
  fs_free_inode inode ;;
  ret 0.

Definition ramfs_put (inode c : Z) : M vfs Z := fs_m (
  let* ram_inode := load64 (inode + inode_impl_inode) in
  let* ram_file := load64 (ram_inode + ram_inode_ram_file) in
  let* position := load_int (ram_inode + ram_inode_position) in
  let* alloc := load_int (ram_file + ram_file_content_alloc) in
  if alloc <=? position then ret 0 else
  let* content := load64 (ram_file + ram_file_content) in
  let* position := load_int (ram_inode + ram_inode_position) in
  storeb (content + position) c ;;
  let* position := load_int (ram_inode + ram_inode_position) in
  let* next := int_of (position + 1) in
  store_int (ram_inode + ram_inode_position) next ;;
  let* fill := load_int (ram_file + ram_file_content_fill) in
  let* fill := int_of (fill + 1) in
  store_int (ram_file + ram_file_content_fill) fill ;;
  ret 1).

End ramfs.

(** * Specification *)

(** The memory of the file systems' state. *)
Definition vram (v : vfs) : mem := kram (fs_kernel v).
Definition set_vram (m : mem) (v : vfs) : vfs := set_fs_kernel (set_kram m (fs_kernel v)) v.

(** The inode at [i], with [struct ram_inode] at [ri] and position [pos]. *)
Record ram_inode_at (m : mem) (i ri f pos : Z) : Prop := {
  ia_impl : word_at 8 m (i + inode_impl_inode) ri;
  ia_file : word_at 8 m (ri + ram_inode_ram_file) f;
  ia_position : word_at 4 m (ri + ram_inode_position) pos;
}.

(** The [struct ram_file] at [f]: [alloc] bytes at [content], [fill] of them written. *)
Record ram_file_at (m : mem) (f content alloc fill : Z) : Prop := {
  fa_content : word_at 8 m (f + ram_file_content) content;
  fa_alloc : word_at 4 m (f + ram_file_content_alloc) alloc;
  fa_fill : word_at 4 m (f + ram_file_content_fill) fill;
}.

Record ram_sizes (ri f content alloc : Z) : Prop := {
  sz_inode : 0 ≤ ri < 2 ^ 64;
  sz_file : 0 ≤ f < 2 ^ 64;
  sz_content : 0 ≤ content < 2 ^ 64;
  sz_alloc : 0 ≤ alloc ≤ INT_MAX;
}.

(** A program that writes [cs] and one that reads to the end, through the calls of an inode; the
    reader asks at most [n] times and has the character stored at [p]. *)
Fixpoint write_chars (i : Z) (cs : list Z) : M vfs (list Z) :=
  match cs with
  | [] => ret []
  | c :: cs =>
      let* r := ramfs_put i c in
      let* rs := write_chars i cs in
      ret (r :: rs)
  end.

Fixpoint read_chars (n : nat) (i p : Z) : M vfs (list Z) :=
  match n with
  | O => fail OutOfFuel
  | S n =>
      let* r := ramfs_get i p in
      if r =? 0 then ret [] else
      let* c := fs_m (loadb p) in
      let* cs := read_chars n i p in
      ret (c :: cs)
  end.

(** * Lemmas *)

Lemma set_vram_id v : set_vram (vram v) v = v.
Proof. by destruct v as [[[] ? ?] ? ?]. Qed.

Lemma wp_fs_m {A} (m : M mem A) v (Q : A → vfs → Prop) :
  wp m (vram v) (λ a t, Q a (set_vram t v)) → wp (fs_m m) v Q.
Proof. intros H. by apply wp_zoom, wp_in_ram. Qed.

Lemma wp_load_int m p n (Q : Z → mem → Prop) : word_at 4 m p n → 0 ≤ n ≤ INT_MAX → Q n m → wp (load_int p) m Q.
Proof.
  intros Hw Hn HQ. unfold INT_MAX in Hn. apply wp_bind, (wp_load_word 4 m p n); [done|lia|].
  apply wp_ret. by rewrite i32_small by (unfold INT_MIN, INT_MAX; lia).
Qed.

Lemma wp_store_int m p n (Q : unit → mem → Prop) : mapped m p 4 → 0 ≤ n ≤ INT_MAX →
  Q tt (put_bytes p (le_bytes 4 n) m) → wp (store_int p n) m Q.
Proof.
  intros Hm Hn HQ. unfold store_int. rewrite u32_small by (unfold INT_MAX in Hn; lia). by apply wp_store_word.
Qed.

Section stream.
Variables (i ri f content alloc : Z) (rs : list (Z * Z)) (a b c d : nat).
Hypothesis Hsizes : ram_sizes ri f content alloc.
Hypothesis Hsep : separate rs.
(** The inode, its [struct ram_inode], the fields of the file and its contents are regions of [rs]. *)
Hypothesis Ha : rs !! a = Some (i, 8).
Hypothesis Hb : rs !! b = Some (ri, 12).
Hypothesis Hc : rs !! c = Some (f + ram_file_content, 16).
Hypothesis Hd : rs !! d = Some (content, alloc).
Hypothesis Hdistinct : NoDup [a; b; c; d].

(** A store in the region [e] keeps an inode or a file that is not there. *)
Lemma inode_kept m pos e y q cs : rs !! e = Some y → e ≠ a → e ≠ b → y.1 ≤ q →
  q + Z.of_nat (length cs) ≤ y.1 + y.2 → ram_inode_at m i ri f pos → ram_inode_at (put_bytes q cs m) i ri f pos.
Proof.
  intros He H1 H2 H3 H4 [W1 W2 W3]. split.
  - apply (separate_keep rs a e (i, 8) y); rewrite ?length_le_bytes; try done; simpl; unfold inode_impl_inode; lia.
  - apply (separate_keep rs b e (ri, 12) y); rewrite ?length_le_bytes; try done; simpl; unfold ram_inode_ram_file; lia.
  - apply (separate_keep rs b e (ri, 12) y); rewrite ?length_le_bytes; try done; simpl; unfold ram_inode_position; lia.
Qed.

Lemma file_kept m fill e y q cs : rs !! e = Some y → e ≠ c → y.1 ≤ q →
  q + Z.of_nat (length cs) ≤ y.1 + y.2 → ram_file_at m f content alloc fill →
  ram_file_at (put_bytes q cs m) f content alloc fill.
Proof.
  intros He H1 H3 H4 [W1 W2 W3].
  split; apply (separate_keep rs c e (f + ram_file_content, 16) y); rewrite ?length_le_bytes; try done; simpl;
    unfold ram_file_content, ram_file_content_alloc, ram_file_content_fill; lia.
Qed.

Lemma inode_moved m pos pos' : ram_inode_at m i ri f pos →
  ram_inode_at (put_bytes (ri + ram_inode_position) (le_bytes 4 pos') m) i ri f pos'.
Proof.
  intros [W1 W2 W3]. assert (a ≠ b) as Hab by (intros ->; revert Hdistinct; rewrite NoDup_cons; set_solver).
  split.
  - apply (separate_keep rs a b (i, 8) (ri, 12)); rewrite ?length_le_bytes; try done; simpl;
      unfold inode_impl_inode, ram_inode_position; lia.
  - apply bytes_at_put_ne; [done|]. rewrite !length_le_bytes. unfold ram_inode_ram_file, ram_inode_position. lia.
  - apply bytes_at_put.
Qed.

Lemma file_filled m fill fill' : ram_file_at m f content alloc fill →
  ram_file_at (put_bytes (f + ram_file_content_fill) (le_bytes 4 fill') m) f content alloc fill'.
Proof.
  intros [W1 W2 W3]. split.
  - apply bytes_at_put_ne; [done|]. rewrite !length_le_bytes. unfold ram_file_content, ram_file_content_fill. lia.
  - apply bytes_at_put_ne; [done|]. rewrite !length_le_bytes. unfold ram_file_content_alloc, ram_file_content_fill. lia.
  - apply bytes_at_put.
Qed.

(** What [ramfs_put] and [ramfs_get] store. *)
Definition put_memory (pos fill ch : Z) (m : mem) : mem :=
  put_bytes (f + ram_file_content_fill) (le_bytes 4 (fill + 1))
    (put_bytes (ri + ram_inode_position) (le_bytes 4 (pos + 1)) (put_bytes (content + pos) [ch] m)).

Definition get_memory (pos p ch : Z) (m : mem) : mem :=
  put_bytes (ri + ram_inode_position) (le_bytes 4 (pos + 1)) (put_bytes p [ch] m).

(** The fields are mapped. *)
Lemma inode_mapped m pos : ram_inode_at m i ri f pos → mapped m (ri + ram_inode_position) 4.
Proof. intros [_ _ W]. exact (bytes_at_mapped _ _ _ W). Qed.

Lemma file_mapped m fill : ram_file_at m f content alloc fill → mapped m (f + ram_file_content_fill) 4.
Proof. intros [_ _ W]. exact (bytes_at_mapped _ _ _ W). Qed.
Lemma distinct_parts : a ≠ b ∧ a ≠ c ∧ a ≠ d ∧ b ≠ c ∧ b ≠ d ∧ c ≠ d.
Proof. revert Hdistinct. rewrite !NoDup_cons. set_solver. Qed.

Ltac read_ptr H := eapply wp_bind, wp_load_word; [exact H|lia|].
Ltac read_int H := eapply wp_bind, wp_load_int; [exact H|unfold INT_MAX in *; lia|].
Ltac write_int H := apply wp_bind, wp_store_int; [by eapply H|unfold INT_MAX in *; lia|].
Ltac count := apply wp_bind, wp_int_of; [unfold INT_MIN, INT_MAX in *; lia|].

(** [ramfs_put] in the contents. *)
Lemma ramfs_put_ok v pos fill ch : ram_inode_at (vram v) i ri f pos → ram_file_at (vram v) f content alloc fill →
  mapped (vram v) content alloc → 0 ≤ pos < alloc → 0 ≤ fill < INT_MAX → 0 ≤ ch < 256 →
  ramfs_put i ch v = Ok 1 (set_vram (put_memory pos fill ch (vram v)) v).
Proof.
  intros Hi Hf Hm Hpos Hfill Hch. destruct distinct_parts as (Hab & Hac & Had & Hbc & Hbd & Hcd).
  pose proof Hsizes as [S1 S2 S3 S4]. apply wp_eq, wp_fs_m.
  read_ptr (ia_impl _ _ _ _ _ Hi). read_ptr (ia_file _ _ _ _ _ Hi). read_int (ia_position _ _ _ _ _ Hi).
  read_int (fa_alloc _ _ _ _ _ Hf). rewrite (proj2 (Z.leb_gt _ _)) by lia.
  read_ptr (fa_content _ _ _ _ _ Hf). read_int (ia_position _ _ _ _ _ Hi).
  apply wp_bind, wp_storeb; [apply Hm; lia|]. rewrite u8_small by lia.
  change (<[content + pos:=Some ch]> (vram v)) with (put_bytes (content + pos) [ch] (vram v)).
  apply (inode_kept _ _ d _ (content + pos) [ch] Hd) in Hi; [|done|done|simpl; lia|simpl; lia].
  apply (file_kept _ _ d _ (content + pos) [ch] Hd) in Hf; [|done|simpl; lia|simpl; lia].
  read_int (ia_position _ _ _ _ _ Hi). count. write_int inode_mapped.
  apply (file_kept _ _ b _ (ri + ram_inode_position) (le_bytes 4 (pos + 1)) Hb) in Hf;
    [|done|unfold ram_inode_position; simpl; lia|unfold ram_inode_position; simpl; lia].
  read_int (fa_fill _ _ _ _ _ Hf). count. write_int file_mapped. by apply wp_ret.
Qed.

(** [ramfs_put] behind the contents. *)
Lemma ramfs_put_full v pos fill ch : ram_inode_at (vram v) i ri f pos → ram_file_at (vram v) f content alloc fill →
  alloc ≤ pos ≤ INT_MAX → ramfs_put i ch v = Ok 0 v.
Proof.
  intros Hi Hf Hpos. pose proof Hsizes as [S1 S2 S3 S4].
  cut (wp (ramfs_put i ch) v (λ r v', r = 0 ∧ v' = set_vram (vram v) v)).
  { intros H%wp_eq. by rewrite H, set_vram_id. }
  apply wp_fs_m.
  read_ptr (ia_impl _ _ _ _ _ Hi). read_ptr (ia_file _ _ _ _ _ Hi). read_int (ia_position _ _ _ _ _ Hi).
  read_int (fa_alloc _ _ _ _ _ Hf). rewrite (proj2 (Z.leb_le _ _)) by lia. by apply wp_ret.
Qed.

(** [ramfs_get] of a character that was written; the destination is another region. *)
Lemma ramfs_get_ok v e p pos fill ch : ram_inode_at (vram v) i ri f pos → ram_file_at (vram v) f content alloc fill →
  rs !! e = Some (p, 1) → e ≠ a → e ≠ b → mapped (vram v) p 1 →
  vram v !! (content + pos) = Some (Some ch) → 0 ≤ ch < 256 → 0 ≤ pos < fill → fill ≤ INT_MAX →
  ramfs_get i p v = Ok 1 (set_vram (get_memory pos p ch (vram v)) v).
Proof.
  intros Hi Hf He Hea Heb Hp Hch Hbyte Hpos Hfill. pose proof Hsizes as [S1 S2 S3 S4]. apply wp_eq, wp_fs_m.
  read_ptr (ia_impl _ _ _ _ _ Hi). read_ptr (ia_file _ _ _ _ _ Hi). read_int (ia_position _ _ _ _ _ Hi).
  read_int (fa_fill _ _ _ _ _ Hf). rewrite (proj2 (Z.ltb_lt _ _)) by lia.
  read_ptr (fa_content _ _ _ _ _ Hf). read_int (ia_position _ _ _ _ _ Hi).
  eapply wp_bind, wp_loadb; [exact Hch|]. apply wp_bind, wp_storeb; [apply Hp; lia|]. rewrite u8_small by lia.
  change (<[p:=Some ch]> (vram v)) with (put_bytes p [ch] (vram v)).
  apply (inode_kept _ _ e _ p [ch] He) in Hi; [|done|done|simpl; lia|simpl; lia].
  read_int (ia_position _ _ _ _ _ Hi). count. write_int inode_mapped. by apply wp_ret.
Qed.

(** [ramfs_get] at the end. *)
Lemma ramfs_get_end v p pos fill : ram_inode_at (vram v) i ri f pos → ram_file_at (vram v) f content alloc fill →
  0 ≤ fill ≤ pos → pos ≤ INT_MAX → ramfs_get i p v = Ok 0 v.
Proof.
  intros Hi Hf Hpos Hmax. pose proof Hsizes as [S1 S2 S3 S4].
  cut (wp (ramfs_get i p) v (λ r v', r = 0 ∧ v' = set_vram (vram v) v)).
  { intros H%wp_eq. by rewrite H, set_vram_id. }
  apply wp_fs_m.
  read_ptr (ia_impl _ _ _ _ _ Hi). read_ptr (ia_file _ _ _ _ _ Hi). read_int (ia_position _ _ _ _ _ Hi).
  read_int (fa_fill _ _ _ _ _ Hf). rewrite (proj2 (Z.ltb_ge _ _)) by lia. by apply wp_ret.
Qed.
End stream.

Lemma fs_m_read {A} (m : M mem A) v a : m (vram v) = Ok a (vram v) → fs_m m v = Ok a v.
Proof. intros H. apply wp_eq, wp_fs_m, (wp_intro _ _ _ _ _ H). by rewrite set_vram_id. Qed.

Lemma vram_set m v : vram (set_vram m v) = m.
Proof. done. Qed.

Section write_read.
(** A writer [i] and a reader [j] of the same file, and the reader's buffer [p]. *)
Variables (i ri j rj f content alloc p : Z).
Let rs : list (Z * Z) :=
  [(i, 8); (ri, 12); (j, 8); (rj, 12); (f + ram_file_content, 16); (content, alloc); (p, 1)].
Hypothesis Hsep : separate rs.
Hypothesis Hri : ram_sizes ri f content alloc.
Hypothesis Hrj : ram_sizes rj f content alloc.

(** The writer is at [pos], the reader at [n], and the file says that it holds [fill] characters. *)
Record text_at (m : mem) (text : list Z) (pos n fill : Z) : Prop := {
  ta_writer : ram_inode_at m i ri f pos;
  ta_reader : ram_inode_at m j rj f n;
  ta_file : ram_file_at m f content alloc fill;
  ta_text : bytes_at m content text;
  ta_fits : Z.of_nat (length text) ≤ alloc;
  ta_alloc : mapped m content alloc;
  ta_buffer : mapped m p 1;
}.

Lemma writer_parts : NoDup [0; 1; 4; 5]%nat.
Proof. by apply (bool_decide_unpack _). Qed.
Lemma reader_parts : NoDup [2; 3; 4; 5]%nat.
Proof. by apply (bool_decide_unpack _). Qed.

(** What a store in the region [e] keeps. *)
Ltac store_in_region := simpl; unfold ram_inode_position, ram_file_content, ram_file_content_fill; lia.
Ltac kept k r :=
  first
    [ by apply mapped_put_bytes
    | apply (inode_kept i ri f rs 0 1) with (e := k) (y := r); [done..|store_in_region|store_in_region|done]
    | apply (inode_kept j rj f rs 2 3) with (e := k) (y := r); [done..|store_in_region|store_in_region|done]
    | apply (file_kept f content alloc rs 4) with (e := k) (y := r); [done..|store_in_region|store_in_region|done]
    | apply (separate_keep rs 5 k (content, alloc) r); [done..|store_in_region|store_in_region|store_in_region|store_in_region|done]
    | done ].

Lemma text_grows m text pos n fill ch : text_at m text pos n fill → Z.of_nat (length text) < alloc →
  text_at (put_bytes (content + Z.of_nat (length text)) [ch] m) (text ++ [ch]) pos n fill.
Proof.
  intros [W R F T L A B] Hlen. split; try kept 5%nat (content, alloc).
  - apply bytes_at_app. split; [|apply bytes_at_put]. apply bytes_at_put_ne; [done|]. lia.
  - rewrite length_app. simpl. lia.
Qed.

Lemma writer_moves m text pos n fill pos' : text_at m text pos n fill →
  text_at (put_bytes (ri + ram_inode_position) (le_bytes 4 pos') m) text pos' n fill.
Proof.
  intros [W R F T L A B]. split; try kept 1%nat (ri, 12).
  by apply (inode_moved i ri f rs 0 1 4 5 Hsep eq_refl eq_refl writer_parts _ pos).
Qed.

Lemma reader_moves m text pos n fill n' : text_at m text pos n fill →
  text_at (put_bytes (rj + ram_inode_position) (le_bytes 4 n') m) text pos n' fill.
Proof.
  intros [W R F T L A B]. split; try kept 3%nat (rj, 12).
  by apply (inode_moved j rj f rs 2 3 4 5 Hsep eq_refl eq_refl reader_parts _ n).
Qed.

Lemma file_grows m text pos n fill fill' : text_at m text pos n fill →
  text_at (put_bytes (f + ram_file_content_fill) (le_bytes 4 fill') m) text pos n fill'.
Proof.
  intros [W R F T L A B]. split; try kept 4%nat (f + ram_file_content, 16). by apply (file_filled _ _ _ _ fill).
Qed.

Lemma buffer_written m text pos n fill ch : text_at m text pos n fill →
  text_at (put_bytes p [ch] m) text pos n fill.
Proof. intros [W R F T L A B]. split; kept 6%nat (p, 1). Qed.

Lemma put_step v text ch n (N := Z.of_nat (length text)) :
  text_at (vram v) text N n N → N < alloc → 0 ≤ ch < 256 →
  ∃ v', ramfs_put i ch v = Ok 1 v' ∧
    text_at (vram v') (text ++ [ch]) (Z.of_nat (length (text ++ [ch]))) n (Z.of_nat (length (text ++ [ch]))).
Proof.
  intros HT HN Hch. pose proof HT as [W R F T L A B]. pose proof Hri as [_ _ _ Hal]. unfold INT_MAX in Hal.
  eexists. split.
  - apply (ramfs_put_ok i ri f content alloc rs 0 1 4 5 Hri Hsep eq_refl eq_refl eq_refl eq_refl writer_parts v N N ch);
      unfold INT_MAX; done || lia.
  - rewrite vram_set, length_app, Nat2Z.inj_add. by eapply file_grows, writer_moves, text_grows.
Qed.

Lemma write_fits v cs text n (N := Z.of_nat (length text)) : text_at (vram v) text N n N →
  N + Z.of_nat (length cs) ≤ alloc → Forall (λ c, 0 ≤ c < 256) cs →
  ∃ v', write_chars i cs v = Ok (replicate (length cs) 1) v' ∧
    text_at (vram v') (text ++ cs) (Z.of_nat (length (text ++ cs))) n (Z.of_nat (length (text ++ cs))).
Proof.
  intros HT HN Hcs. unfold N in *. clear N. revert v text HT HN.
  induction Hcs as [|ch cs Hch Hcs IH]; intros v text HT HN; cbn [length write_chars replicate] in *.
  { exists v. by rewrite app_nil_r. }
  destruct (put_step v text ch n HT ltac:(lia) Hch) as (v1 & E1 & HT1). rewrite (bind_ok _ _ _ _ _ E1).
  destruct (IH v1 _ HT1) as (v2 & E2 & HT2); [rewrite length_app; simpl; lia|].
  rewrite (bind_ok _ _ _ _ _ E2). exists v2. by rewrite <-app_assoc in HT2.
Qed.

Lemma write_full v cs text n fill : text_at (vram v) text alloc n fill →
  write_chars i cs v = Ok (replicate (length cs) 0) v.
Proof.
  intros [W R F T L A B]. pose proof Hri as [_ _ _ Hal].
  assert (∀ ch, ramfs_put i ch v = Ok 0 v) as Hput.
  { intros ch. apply (ramfs_put_full i ri f content alloc Hri v alloc fill ch W F). lia. }
  induction cs as [|ch cs IH]; [done|]. cbn [write_chars]. rewrite (bind_ok _ _ _ _ _ (Hput ch)).
  by rewrite (bind_ok _ _ _ _ _ IH).
Qed.

Lemma write_chars_app ps qs v u v' a b : write_chars i ps v = Ok a u → write_chars i qs u = Ok b v' →
  write_chars i (ps ++ qs) v = Ok (a ++ b) v'.
Proof.
  revert v a. induction ps as [|c ps IH]; intros v a; cbn [write_chars app].
  { by intros [= <- <-] ->. }
  unfold bind at 1 3. destruct (ramfs_put i c v) as [r w| |]; [|done..].
  unfold bind. destruct (write_chars i ps w) as [rs' w'| |] eqn:E; [|done..].
  intros [= <- ->] Hq. by rewrite (IH w rs' E Hq).
Qed.

Lemma get_step v text pos n ch : text_at (vram v) text pos n (Z.of_nat (length text)) → 0 ≤ n →
  text !! Z.to_nat n = Some ch → 0 ≤ ch < 256 →
  ∃ v', ramfs_get j p v = Ok 1 v' ∧ text_at (vram v') text pos (n + 1) (Z.of_nat (length text)) ∧
    loadb p (vram v') = Ok ch (vram v').
Proof.
  intros HT Hn Hch Hb. pose proof HT as [W R F T L A B]. pose proof Hrj as [_ _ _ Hal].
  apply lookup_lt_Some in Hch as Hlt. eexists. split_and!.
  - eapply (ramfs_get_ok j rj f content alloc rs 2 3 Hrj Hsep eq_refl eq_refl v 6 p n _ ch); try done; try lia.
    by eapply bytes_at_lookupZ.
  - rewrite vram_set. by eapply reader_moves, buffer_written.
  - rewrite vram_set. apply loadb_ok. unfold get_memory.
    assert (bytes_at (put_bytes (rj + ram_inode_position) (le_bytes 4 (n + 1)) (put_bytes p [ch] (vram v))) p [ch]) as H.
    { apply (separate_keep rs 6 3 (p, 1) (rj, 12)); try done; [store_in_region..|apply bytes_at_put]. }
    pose proof (bytes_at_lookup _ _ _ 0%nat ch H eq_refl) as E. by rewrite Z.add_0_r in E.
Qed.

Lemma read_chars_S n q : read_chars (S n) q p =
  (let* r := ramfs_get q p in
   if r =? 0 then ret [] else let* c := fs_m (loadb p) in let* cs := read_chars n q p in ret (c :: cs)).
Proof. done. Qed.

Lemma read_rest v text pos k : text_at (vram v) text pos (Z.of_nat k) (Z.of_nat (length text)) →
  Forall (λ c, 0 ≤ c < 256) text → (k ≤ length text)%nat →
  ∃ v', read_chars (S (length text - k)) j p v = Ok (drop k text) v'.
Proof.
  intros HT Hbytes Hk. remember (length text - k)%nat as m eqn:Hm. revert v k HT Hk Hm.
  induction m as [|m IH]; intros v k HT Hk Hm; rewrite read_chars_S.
  - pose proof HT as [W R F T L A B]. pose proof Hrj as [_ _ _ Hal].
    rewrite (bind_ok _ _ _ _ _ (ramfs_get_end j rj f content alloc Hrj v p _ _ R F ltac:(lia) ltac:(lia))).
    exists v. by rewrite drop_ge by lia.
  - destruct (lookup_lt_is_Some_2 text k) as [ch Hch]; [lia|].
    destruct (get_step v text pos (Z.of_nat k) ch HT) as (v1 & E1 & HT1 & E2); [lia|by rewrite Nat2Z.id| |].
    { exact (Forall_lookup_1 _ _ _ _ Hbytes Hch). }
    rewrite (bind_ok _ _ _ _ _ E1). cbn [Z.eqb]. rewrite (bind_ok _ _ _ _ _ (fs_m_read _ _ _ E2)).
    replace (Z.of_nat k + 1) with (Z.of_nat (S k)) in HT1 by lia.
    destruct (IH v1 (S k) HT1 ltac:(lia) ltac:(lia)) as (v2 & E3). rewrite (bind_ok _ _ _ _ _ E3).
    exists v2. by rewrite (drop_S text ch k).
Qed.
End write_read.

(** C21: A program writes [cs] through one inode of an empty file and another one reads: the
    characters come back in order, up to the [alloc] characters for which the file has room, and
    then the reader is told the end.  The answers of the writer say which characters were kept. *)
Theorem ramfs_write_then_read i ri j rj f content alloc p v cs :
  separate [(i, 8); (ri, 12); (j, 8); (rj, 12); (f + ram_file_content, 16); (content, alloc); (p, 1)] →
  ram_sizes ri f content alloc → ram_sizes rj f content alloc →
  ram_inode_at (vram v) i ri f 0 → ram_inode_at (vram v) j rj f 0 → ram_file_at (vram v) f content alloc 0 →
  mapped (vram v) content alloc → mapped (vram v) p 1 → Forall (λ c, 0 ≤ c < 256) cs →
  ∃ v1 v2, let stored := take (Z.to_nat alloc) cs in
    write_chars i cs v = Ok (replicate (length stored) 1 ++ replicate (length cs - length stored) 0) v1 ∧
    read_chars (S (length stored)) j p v1 = Ok stored v2.
Proof.
  intros Hsep Hri Hrj W R F A B Hcs. pose proof Hri as [_ _ _ Hal]. set (stored := take (Z.to_nat alloc) cs).
  assert (text_at i ri j rj f content alloc p (vram v) [] 0 0 0) as HT.
  { split; try done; first [apply bytes_at_nil | simpl; lia]. }
  assert (Z.of_nat (length stored) ≤ alloc) as Hst by (unfold stored; rewrite length_take; lia).
  assert (Forall (λ c, 0 ≤ c < 256) stored) as Hbytes by by apply Forall_take.
  destruct (write_fits i ri j rj f content alloc p Hsep Hri v stored [] 0 HT Hst Hbytes) as (v1 & E1 & HT1).
  cbn [app] in HT1.
  assert (write_chars i (drop (Z.to_nat alloc) cs) v1 = Ok (replicate (length (drop (Z.to_nat alloc) cs)) 0) v1) as E2.
  { destruct (decide (length cs ≤ Z.to_nat alloc)%nat) as [H|H]; [by rewrite drop_ge by lia|].
    assert (Z.of_nat (length stored) = alloc) as El by (unfold stored; rewrite length_take; lia).
    rewrite El in HT1. by apply (write_full i ri j rj f content alloc p Hri v1 _ _ _ _ HT1). }
  destruct (read_rest i ri j rj f content alloc p Hsep Hrj v1 stored _ 0 HT1 Hbytes) as (v2 & E3); [lia|].
  exists v1, v2. rewrite Nat.sub_0_r in E3. split; [|exact E3].
  pose proof (write_chars_app i _ _ _ _ _ _ _ E1 E2) as E. unfold stored in E at 1. rewrite take_drop in E. rewrite E.
  do 2 f_equal. unfold stored. rewrite length_drop, length_take. f_equal. lia.
Qed.

(** An empty file of four characters, open twice. *)
Definition ram_demo : vfs :=
  let m := put_bytes 100 (le_bytes 8 200) (put_bytes 200 (le_bytes 8 500 ++ le_bytes 4 0)
    (put_bytes 300 (le_bytes 8 400) (put_bytes 400 (le_bytes 8 500 ++ le_bytes 4 0)
    (put_bytes 532 (le_bytes 8 600 ++ le_bytes 4 4 ++ le_bytes 4 0)
    (put_cells 600 (replicate 4 None) (put_cells 700 [None] ∅)))))) in
  mk_vfs (set_kram m boot_kernel) (mk_slab 0 0 0 0) 0.

Lemma ramfs_write_then_read_witness : ∃ v1 v2,
  write_chars 100 [65; 66; 67; 68; 69] ram_demo = Ok [1; 1; 1; 1; 0] v1 ∧
  read_chars 5 300 700 v1 = Ok [65; 66; 67; 68] v2.
Proof.
  apply (ramfs_write_then_read 100 200 300 400 500 600 4 700 ram_demo [65; 66; 67; 68; 69]).
  - apply separate_check. reflexivity.
  - by split.
  - by split.
  - split; apply bytes_at_check; reflexivity.
  - split; apply bytes_at_check; reflexivity.
  - split; apply bytes_at_check; reflexivity.
  - apply mapped_check. reflexivity.
  - apply mapped_check. reflexivity.
  - repeat constructor; lia.
Defined.
