(* ===== verification/FatFs.v ===== *)
(** * Files on the disk (kernel/fs/fat_fs.c, include/fs/fat_fs.h) *)
From stdpp Require Import base list gmap.
From Stdlib Require Import ZArith Lia.
From stdpp Require Import strings.
From S2P Require Import Prelude Layout Memory CString Heap Slab Machine Log Gic Kernel Fat FatPart Fs RamFs.

Definition BUFFERSIZE : Z := 512.

Definition fat_inode_struct : cstruct := mk_cstruct false
  [("fat16_dir_entry", Ptr); ("fat_handle", Ptr); ("buffer", Array Char 512); ("position", Int);
   ("loaded_buffer_index", Int)]%string.

(** [struct fat_inode]: fat16_dir_entry, fat_handle, buffer[BUFFERSIZE], position, loaded_buffer_index. *)
Definition fat_inode_entry : Z := 0.
Definition fat_inode_handle : Z := 8.
Definition fat_inode_buffer : Z := 16.
Definition fat_inode_position : Z := 528.
Definition fat_inode_loaded_buffer_index : Z := 532.
Definition sizeof_fat_inode : Z := 536.

Lemma fatfs_layout : layout_is fat_inode_struct [("fat16_dir_entry", fat_inode_entry);
  ("fat_handle", fat_inode_handle); ("buffer", fat_inode_buffer); ("position", fat_inode_position);
  ("loaded_buffer_index", fat_inode_loaded_buffer_index)]%string sizeof_fat_inode.
Proof. check_layout. Qed.

Section fatfs.
Variable block_read : Z → Z → Z → M kernel Z.
Variables (FATFS_GET FATFS_CLOSE FATFS_LEFT FATFS_OPEN : Z).

(** The handle is built in a local and copied to the allocated struct; here it is built in place.
    [create] is not set. *)
Definition fatfs_createfs (block : Z) : M vfs Z :=
  let* fat := fs_k (kalloc sizeof_fat_handle) in
  fs_k (fat_load block_read fat block) ;;
  let* fs := fs_k (kalloc sizeof_filesystem) in
  fs_m (
    store64 (fs + filesystem_arguments) fat ;;
    store64 (fs + filesystem_open) FATFS_OPEN) ;;
  ret fs.

Definition fatfs_deletefs (filesystem : Z) : M vfs unit :=
  let* arguments := fs_m (load64 (filesystem + filesystem_arguments)) in
  fs_k (kfree arguments) ;;
  fs_k (kfree filesystem).

(** [while (c = *filename, c != stop) { dest[index++] = c; filename++; } dest[index] = 0;] and the
    pointer behind the stop character. *)
Definition split_name (dest filename stop : Z) : M mem Z := mem_fuel (λ fuel,
  let* (filename, index) := loop fuel (λ '(filename, index),
    let* c := loadb filename in
    if negb (c =? stop) then
      storeb (dest + index) c ;;
      let* index := int_of (index + 1) in
      ret (inl (filename + 1, index))
    else ret (inr (filename, index))) (filename, 0) in
  storeb (dest + index) 0 ;;
  ret (filename + 1)).

(** The directory entry of [filename]: its name is split at the first dot. *)
Definition fatfs_lookup (fat_handle filename : Z) : M mem Z :=
  with_local 10 (λ name,
  with_local 10 (λ ext,
    let* filename := split_name name filename 46 in
    split_name ext filename 0 ;;
    fat_get_entry_by_file fat_handle name ext)).

Definition fatfs_open (filesystem filename : Z) : M vfs Z :=
  let* fat_handle := fs_m (load64 (filesystem + filesystem_arguments)) in
  let* inode := fs_allocate_inode in
  let* entry := fs_m (fatfs_lookup fat_handle filename) in
  let* fat_inode := fs_k (kalloc sizeof_fat_inode) in
  fs_m (
    store64 (inode + inode_impl_inode) fat_inode ;;
    store64 (fat_inode + fat_inode_handle) fat_handle ;;
    store64 (fat_inode + fat_inode_entry) entry ;;
    store_int (fat_inode + fat_inode_position) 0 ;;
    store_int (fat_inode + fat_inode_loaded_buffer_index) (-1) ;;
    store64 (inode + inode_close) FATFS_CLOSE ;;
    store64 (inode + inode_get) FATFS_GET ;;
    store64 (inode + inode_put) 0 ;;
    store64 (inode + inode_left) FATFS_LEFT) ;;
  ret inode.

Definition fatfs_read (inode ptr : Z) : M vfs Z :=
  let* fat_inode := fs_m (load64 (inode + inode_impl_inode)) in
  let* handle := fs_m (load64 (fat_inode + fat_inode_handle)) in
  let* entry := fs_m (load64 (fat_inode + fat_inode_entry)) in
  fs_k (fat_read_entry block_read handle entry ptr) ;;
  ret 0.

(** The comparison of [position] with [filesize_bytes] is unsigned. *)
Definition fatfs_get (inode ptr : Z) : M vfs Z :=
  let* fat_inode := fs_m (load64 (inode + inode_impl_inode)) in
  let* fat_handle := fs_m (load64 (fat_inode + fat_inode_handle)) in
  let* position := fs_m (load_int (fat_inode + fat_inode_position)) in
  let* entry := fs_m (load64 (fat_inode + fat_inode_entry)) in
  let* filesize := fs_m (filesize_bytes entry) in
  if filesize <=? u32 position then ret 0 else
  let req_buffer_index := Z.quot position BUFFERSIZE in
  let req_buffer_offset := Z.rem position BUFFERSIZE in
  let* loaded := fs_m (load_int (fat_inode + fat_inode_loaded_buffer_index)) in
  (if negb (req_buffer_index =? loaded) then
    fs_m (store_int (fat_inode + fat_inode_loaded_buffer_index) req_buffer_index) ;;
    let* entry := fs_m (load64 (fat_inode + fat_inode_entry)) in
    let* offset := fs_m (int_of (BUFFERSIZE * req_buffer_index)) in
    fs_k (fat_read_entry_offset_size block_read fat_handle entry (fat_inode + fat_inode_buffer)
      offset BUFFERSIZE)
  else ret tt) ;;
  fs_m (
    let* c := loadb (fat_inode + fat_inode_buffer + req_buffer_offset) in
    storeb ptr c ;;
    let* position := load_int (fat_inode + fat_inode_position) in
    let* next := int_of (position + 1) in
    store_int (fat_inode + fat_inode_position) next) ;;
  ret 1.

Definition fatfs_close (inode : Z) : M vfs Z :=
  let* fat_inode := fs_m (load64 (inode + inode_impl_inode)) in
  fs_k (kfree fat_inode) ;;
  fs_free_inode inode ;;
  ret 0.

Definition fatfs_left (inode : Z) : M vfs Z :=
  let* fat_inode := fs_m (load64 (inode + inode_impl_inode)) in
  let* entry := fs_m (load64 (fat_inode + fat_inode_entry)) in
  let* filesize := fs_m (filesize_bytes entry) in
  let* position := fs_m (load_int (fat_inode + fat_inode_position)) in
  ret (i32 (u32 (filesize - position))).

End fatfs.

(** * Specification *)

(** An [int] field that may be negative. *)
Definition int_at (m : mem) (p v : Z) : Prop := word_at 4 m p (u32 v) ∧ INT_MIN ≤ v ≤ INT_MAX.

Lemma i32_u32 v : INT_MIN ≤ v ≤ INT_MAX → i32 (u32 v) = v.
Proof.
  unfold INT_MIN, INT_MAX, i32, u32. intros H. rewrite Zplus_mod_idemp_l, Z.mod_small by lia. lia.
Qed.

Lemma load_int_ok m p v : int_at m p v → load_int p m = Ok v m.
Proof.
  intros [Hw Hv]. unfold load_int. rewrite (bind_ok _ _ _ _ _ (load_word_ok 4 _ _ _ Hw (u32_range v))).
  unfold ret. by rewrite i32_u32.
Qed.

(** The number of blocks of the file that are still to be loaded before the character [pos]. *)
Definition blocks_left (n pos : Z) : nat := Z.to_nat (sectors_of n - (pos - 1) / 512 - 1).

Section file.
Context {block_read : Z → Z → Z → M kernel Z} {image : Z → list Z}
  {ready ready' : nat → kernel → Z → Prop} {priv priv' : Z → Prop} {spc p : Z}
  `{Hbuf : !ReaderBuffer block_read image ready ready' priv priv' (512 * spc) p}.
(** The inode [i] with [struct fat_inode] at [fi], of the entry of a file of [n] bytes. *)
Variables (b handle entry fat data n i fi : Z) (cs : list Z).
Hypothesis Hrange : 0 ≤ b < 2 ^ 64 ∧ 0 ≤ fat < 2 ^ 64 ∧ 0 ≤ data < 2 ^ 38 ∧ 0 < spc < 256.
Hypothesis Hpointers : 0 ≤ handle < 2 ^ 64 ∧ 0 ≤ entry < 2 ^ 64 ∧ 0 ≤ fi < 2 ^ 64.
Hypothesis Hsize : 0 ≤ n ≤ 512 * spc * Z.of_nat (length cs) ∧ n + 512 ≤ INT_MAX.

#[local] Abbreviation scratch := (scratch (priv := priv) (priv' := priv') (spc := spc) (p := p)).

(** The contents of the file. *)
Definition contents : list Z := take (Z.to_nat n) (clusters_data (image := image) data spc cs).

Definition in_inode (a : Z) : Prop := fi ≤ a < fi + sizeof_fat_inode.

(** The memory that describes the file. *)
Definition fixed (a : Z) : Prop :=
  kept handle fat cs a ∨ entry + 26 ≤ a < entry + 32 ∨ i ≤ a < i + sizeof_inode.

Hypothesis Hinode : ∀ a, in_inode a → ¬ scratch a.
Hypothesis Hfixed : ∀ a, fixed a → ¬ scratch a ∧ ¬ in_inode a.

(** The file is open; [pos] characters have been read, the buffer is marked with block [loaded] and
    holds it when it is [valid], and the device can answer [r] requests. *)
Record open_file (valid : Prop) (r : nat) (k : kernel) (pos loaded : Z) : Prop := {
  op_ready : ready r k b;
  op_below : below (2 ^ 62) (kram k);
  op_buffer : mapped (kram k) p (512 * spc);
  op_volume : volume (kram k) handle b fat data spc;
  op_chain : chain (kram k) fat cs;
  op_first : word_at 2 (kram k) (entry + 26) (default 0 (head cs));
  op_size : word_at 4 (kram k) (entry + 28) n;
  op_impl : word_at 8 (kram k) (i + inode_impl_inode) fi;
  op_entry : word_at 8 (kram k) (fi + fat_inode_entry) entry;
  op_handle : word_at 8 (kram k) (fi + fat_inode_handle) handle;
  op_mapped : mapped (kram k) fi sizeof_fat_inode;
  op_position : int_at (kram k) (fi + fat_inode_position) pos;
  op_loaded : int_at (kram k) (fi + fat_inode_loaded_buffer_index) loaded;
  op_block : valid → bytes_at (kram k) (fi + fat_inode_buffer) (file_block image data spc cs loaded);
}.

(** What changes: the scratch memory and the inode. *)
Definition quiet (k k' : kernel) : Prop :=
  ∀ a, ¬ scratch a → ¬ in_inode a → kram k' !! a = kram k !! a.

Lemma open_change valid valid' r r' k k' pos loaded pos' loaded' : open_file valid r k pos loaded →
  ready r' k' b → below (2 ^ 62) (kram k') → mapped (kram k') p (512 * spc) →
  (∀ a, fixed a ∨ fi ≤ a < fi + 16 → kram k' !! a = kram k !! a) → mapped (kram k') fi sizeof_fat_inode →
  int_at (kram k') (fi + fat_inode_position) pos' → int_at (kram k') (fi + fat_inode_loaded_buffer_index) loaded' →
  (valid' → bytes_at (kram k') (fi + fat_inode_buffer) (file_block image data spc cs loaded')) →
  open_file valid' r' k' pos' loaded'.
Proof.
  intros [_ _ _ Hv Hch Hfi Hsz Him Hen Hha _ _ _ _] Hr' Hlow' Hbuf' Hsame Hmap' Hp' Hl' Hbl'.
  assert (∀ w q v, word_at w (kram k) q v → (∀ a, q ≤ a < q + Z.of_nat w → fixed a ∨ fi ≤ a < fi + 16) →
    word_at w (kram k') q v) as Hword.
  { intros w q v Hw Hin. eapply bytes_at_agree; [exact Hw|]. intros a Ha. rewrite length_le_bytes in Ha. by apply Hsame, Hin. }
  split; try done; try (apply Hword; [done|]; intros a Ha; unfold fixed, sizeof_inode, inode_impl_inode, fat_inode_entry, fat_inode_handle in *; lia).
  - eapply volume_agree; [|exact Hv]. intros a Ha. apply Hsame. left. left. by left.
  - eapply chain_agree; [|exact Hch]. intros c a Hin Ha. apply Hsame. left. left. right. by exists c.
Qed.

(** A store of known bytes outside the scratch memory and what describes the file. *)
Lemma open_store valid valid' r k pos loaded q bs pos' loaded' (k' := set_kram (put_bytes q bs (kram k)) k) :
  open_file valid r k pos loaded → mapped (kram k) q (Z.of_nat (length bs)) →
  (∀ a, q ≤ a < q + Z.of_nat (length bs) → ¬ scratch a ∧ ¬ fixed a ∧ ¬ (fi ≤ a < fi + 16)) →
  int_at (kram k') (fi + fat_inode_position) pos' → int_at (kram k') (fi + fat_inode_loaded_buffer_index) loaded' →
  (valid' → bytes_at (kram k') (fi + fat_inode_buffer) (file_block image data spc cs loaded')) →
  open_file valid' r k' pos' loaded'.
Proof.
  intros Ho Hm Hout Hp' Hl' Hbl'. change (kram k') with (put_bytes q bs (kram k)) in *.
  assert (∀ a, scratch a ∨ fixed a ∨ fi ≤ a < fi + 16 → kram k' !! a = kram k !! a) as Hsame.
  { intros a Ha. apply put_bytes_outside. intros Hin. destruct (Hout a Hin) as (? & ? & ?). tauto. }
  eapply open_change; [exact Ho|..]; try done.
  - apply ready_stable; [apply Ho|]. intros a Ha. apply Hsame. left. by left.
  - intros a Ha. apply (op_below _ _ _ _ _ Ho). change (kram k') with (put_bytes q bs (kram k)) in Ha.
    rewrite put_bytes_lookup in Ha. case_decide; [by apply Hm|done].
  - by apply mapped_put_bytes, (op_buffer _ _ _ _ _ Ho).
  - intros a Ha. apply Hsame. tauto.
  - by apply mapped_put_bytes, (op_mapped _ _ _ _ _ Ho).
Qed.

Lemma int_at_put m q v : INT_MIN ≤ v ≤ INT_MAX → int_at (put_bytes q (le_bytes 4 (u32 v)) m) q v.
Proof. intros Hv. split; [apply bytes_at_put|done]. Qed.

Lemma int_at_put_ne m q v a bs : int_at m q v → q + 4 ≤ a ∨ a + Z.of_nat (length bs) ≤ q → int_at (put_bytes a bs m) q v.
Proof. intros [Hw Hv] Hne. split; [|done]. apply bytes_at_put_ne; [done|]. rewrite length_le_bytes. lia. Qed.

Ltac inode_field := unfold in_inode, sizeof_fat_inode, fat_inode_position, fat_inode_loaded_buffer_index,
  fat_inode_buffer in *; lia.

Lemma in_inode_free a : in_inode a → fi + 16 ≤ a → ¬ scratch a ∧ ¬ fixed a ∧ ¬ (fi ≤ a < fi + 16).
Proof. intros Ha H. split; [by apply Hinode|]. split; [|lia]. intros Hf. by destruct (Hfixed a Hf). Qed.

(** A store to one of the two numbers of the inode; a new block number makes the buffer invalid. *)
Lemma wp_store_field valid r k pos loaded q v pos' loaded' (valid' : Prop) (Q : unit → mem → Prop)
    (k' := set_kram (put_bytes q (le_bytes 4 (u32 v)) (kram k)) k) :
  open_file valid r k pos loaded →
  q = fi + fat_inode_position ∧ pos' = v ∧ loaded' = loaded ∧ (valid' → valid) ∨
    q = fi + fat_inode_loaded_buffer_index ∧ pos' = pos ∧ loaded' = v ∧ ¬ valid' →
  INT_MIN ≤ v ≤ INT_MAX → (open_file valid' r k' pos' loaded' → quiet k k' → Q tt (kram k')) → wp (store_int q v) (kram k) Q.
Proof.
  intros Ho Hq Hv HQ. assert (length (le_bytes 4 (u32 v)) = 4%nat) as Hl4 by apply length_le_bytes.
  assert (fi + 528 ≤ q ∧ q + 4 ≤ fi + 536) as Hqr by (destruct Hq as [(-> & _)|(-> & _)]; inode_field).
  apply wp_store_word.
  { apply mapped_weaken with fi sizeof_fat_inode; [apply Ho|inode_field..]. }
  change (Q tt (kram k')). apply HQ.
  - eapply (open_store valid valid' r k pos loaded q (le_bytes 4 (u32 v)) pos' loaded' Ho); rewrite ?Hl4.
    + apply mapped_weaken with fi sizeof_fat_inode; [apply Ho|inode_field..].
    + intros a Ha. apply in_inode_free; inode_field.
    + destruct Hq as [(-> & -> & _)|(-> & -> & _)]; [by apply int_at_put|].
      apply int_at_put_ne; [apply Ho|rewrite Hl4; inode_field].
    + destruct Hq as [(-> & _ & -> & _)|(-> & _ & -> & _)]; [|by apply int_at_put].
      apply int_at_put_ne; [apply Ho|rewrite Hl4; inode_field].
    + intros Hl. destruct Hq as [(-> & _ & -> & Hval)|(_ & _ & _ & Hval)]; [|done].
      apply bytes_at_put_ne; [by apply Ho, Hval|]. rewrite Hl4.
      assert (length (file_block image data spc cs loaded) ≤ 512)%nat by (unfold file_block; rewrite length_take; lia).
      inode_field.
  - intros a _ Hin. apply put_bytes_outside. rewrite Hl4. intros Ha. apply Hin. inode_field.
Qed.

(** The block that is noted is loaded. *)
Lemma wp_fetch valid r k pos blk (Q : unit → kernel → Prop) :
  open_file valid (S (Z.to_nat spc) + r) k pos blk → 0 ≤ blk → 512 * blk < n →
  (∀ k', open_file True r k' pos blk → quiet k k' → Q tt k') →
  wp (fat_read_entry_offset_size block_read handle entry (fi + fat_inode_buffer) (512 * blk) 512) k Q.
Proof.
  intros Ho Hblk Hn HQ. destruct Hrange as (_ & _ & _ & Hs). destruct Hsize as [Hlen Hmax].
  assert (Z.to_nat (blk / spc) < length cs)%nat as Hcl.
  { assert (blk / spc < Z.of_nat (length cs)) by (apply Z.div_lt_upper_bound; nia).
    assert (0 ≤ blk / spc) by (apply Z.div_pos; lia). lia. }
  assert (part_pre (ready := ready) (priv := priv) (priv' := priv') (spc := spc) (p := p) r k b handle entry fat data (fi + fat_inode_buffer) blk cs) as Hpre.
  { split; try apply Ho.
    - split; [done|]. split; [done|lia].
    - apply mapped_weaken with fi sizeof_fat_inode; [apply Ho|inode_field..].
    - intros a Ha. apply Hinode. inode_field.
    - intros a Ha. destruct (Hfixed a) as [H1 H2]; [unfold fixed; destruct Ha; [tauto|lia]|].
      split; [done|]. intros Hin. apply H2. inode_field. }
  apply (wp_part r k b handle entry fat data (fi + fat_inode_buffer) blk cs Hpre Hrange).
  intros k' (Hr' & Hb' & Hlow' & Hk'). set (bs := file_block image data spc cs blk) in *.
  assert (length bs ≤ 512)%nat as Hbs by (unfold bs, file_block; rewrite length_take; lia).
  assert (∀ a, ¬ scratch a → ¬ (fi + 16 ≤ a < fi + 528) → kram k' !! a = kram k !! a) as Hsame.
  { intros a Ha Hout. rewrite Hk' by done. apply put_bytes_outside. inode_field. }
  apply HQ.
  - eapply (open_change valid True _ r); [exact Ho|done..| | | | |]; unfold int_at in *.
    + intros a Ha. apply Hsame; [|destruct Ha as [Ha|Ha]; [|lia]].
      * destruct Ha as [Ha|Ha]; [by apply Hfixed|apply Hinode; inode_field].
      * intros Hin. destruct (Hfixed a Ha) as [_ Hni]. apply Hni. inode_field.
    + intros a Ha. rewrite Hk' by by apply Hinode. apply mapped_put_bytes with fi sizeof_fat_inode; [apply Ho|done].
    + destruct (op_position _ _ _ _ _ Ho) as [Hw Hv]. split; [|done]. eapply bytes_at_agree; [exact Hw|].
      intros a Ha. rewrite length_le_bytes in Ha. apply Hsame; [apply Hinode; inode_field|inode_field].
    + destruct (op_loaded _ _ _ _ _ Ho) as [Hw Hv]. split; [|done]. eapply bytes_at_agree; [exact Hw|].
      intros a Ha. rewrite length_le_bytes in Ha. apply Hsame; [apply Hinode; inode_field|inode_field].
    + intros _. eapply bytes_at_agree; [apply bytes_at_put|]. intros a Ha. symmetry. rewrite Hk'; [done|].
      apply Hinode. fold bs in Ha. inode_field.
  - intros a Ha Hin. apply Hsame; [done|]. intros H. apply Hin. inode_field.
Qed.

(** The character [pos] in the buffer. *)
Lemma buffer_char r k pos : open_file True r k pos (pos / 512) → 0 ≤ pos < n →
  ∃ ch, contents !! Z.to_nat pos = Some ch ∧ 0 ≤ ch < 256 ∧
    loadb (fi + fat_inode_buffer + pos mod 512) (kram k) = Ok ch (kram k).
Proof.
  intros Ho Hpos. destruct Hsize as [Hlen Hmax]. pose proof (Z.div_mod pos 512). pose proof (Z.mod_pos_bound pos 512).
  set (cd := clusters_data (image := image) data spc cs).
  assert (length cd = Z.to_nat (512 * spc) * length cs)%nat as Hcd by (apply length_clusters_data; lia).
  destruct (lookup_lt_is_Some_2 cd (Z.to_nat pos)) as [ch Hch]; [rewrite Hcd; nia|].
  exists ch. split; [|split].
  - unfold contents. by rewrite lookup_take_lt by lia.
  - assert (Forall disk_byte_ok cd) as Hall.
    { apply Forall_bind, Forall_forall. intros c _. apply disk_bytes_ok. }
    exact (Forall_lookup_1 _ _ _ _ Hall Hch).
  - apply loadb_ok. eapply bytes_at_lookupZ; [by apply Ho|lia|]. unfold file_block. fold cd.
    rewrite lookup_take_lt, lookup_drop by lia. rewrite <-Hch. f_equal. lia.
Qed.

(** [pos] characters have been read one after the other: the buffer holds the block of the last
    one, and for every block that is left the device has the requests. *)
Definition reading (r : nat) (k : kernel) (pos : Z) : Prop :=
  open_file (0 < pos) (blocks_left n pos * S (Z.to_nat spc) + r) k pos ((pos - 1) / 512).

Lemma wp_block r v pos (Q : unit → vfs → Prop) : reading r (fs_kernel v) pos → 0 ≤ pos < n →
  (∀ k', open_file True (blocks_left n (pos + 1) * S (Z.to_nat spc) + r) k' pos (pos / 512) →
    quiet (fs_kernel v) k' → Q tt (set_fs_kernel k' v)) →
  wp (if negb (pos / 512 =? (pos - 1) / 512) then
      fs_m (store_int (fi + fat_inode_loaded_buffer_index) (pos / 512)) ;;
      let* entry := fs_m (load64 (fi + fat_inode_entry)) in
      let* offset := fs_m (int_of (BUFFERSIZE * (pos / 512))) in
      fs_k (fat_read_entry_offset_size block_read handle entry (fi + fat_inode_buffer) offset BUFFERSIZE)
    else ret tt) v Q.
Proof.
  intros Ho Hpos HQ. unfold reading in Ho.
  pose proof (Z.div_mod pos 512) as Hdm. pose proof (Z.mod_pos_bound pos 512) as Hm.
  pose proof (Z.div_mod (pos - 1) 512) as Hdm1. pose proof (Z.mod_pos_bound (pos - 1) 512) as Hm1.
  assert (pos + 1 - 1 = pos) as Epos by lia.
  destruct (Z.eqb_spec (pos / 512) ((pos - 1) / 512)) as [E|E]; cbn [negb].
  - apply wp_ret. destruct v as [k sl mf]. apply HQ; [|done].
    unfold blocks_left in *. rewrite Epos, E. destruct Ho. split; try done. intros _. apply op_block0. lia.
  - assert (512 * (pos / 512) < n) as Hn by lia. assert (0 ≤ pos / 512) by lia.
    pose proof (sectors_of_pos n ltac:(lia)) as Hsec.
    assert (blocks_left n pos = S (blocks_left n (pos + 1))) as Ebl.
    { unfold blocks_left. rewrite Epos. assert (pos / 512 < sectors_of n); [|lia].
      unfold sectors_of in *. pose proof (Z.div_mod n 512). pose proof (Z.mod_pos_bound n 512).
      destruct (Z.eqb_spec (n mod 512) 0); lia. }
    rewrite Ebl in Ho. destruct Hsize as [Hlen Hmax]. unfold INT_MAX in *.
    apply wp_bind, wp_fs_m. eapply (wp_store_field _ _ _ _ _ _ _ _ _ False); [exact Ho|right; split; [done|]; split; [reflexivity|]; split; [reflexivity|tauto]| |].
    { unfold INT_MIN, INT_MAX. lia. }
    intros Ho1 Hq1. set (k1 := set_kram _ _) in *.
    change (set_vram (kram k1) v) with (set_fs_kernel k1 v).
    apply wp_bind, (wp_intro _ _ entry (set_fs_kernel k1 v)).
    { apply fs_m_read, (load_word_ok 8); [apply Ho1|lia]. }
    apply wp_bind, (wp_intro _ _ (512 * (pos / 512)) (set_fs_kernel k1 v)).
    { apply fs_m_read, int_of_ok. unfold INT_MIN, INT_MAX, BUFFERSIZE. lia. }
    apply wp_zoom. eapply (wp_fetch False (blocks_left n (pos + 1) * S (Z.to_nat spc) + r)); [|done|done|].
    { replace (S (Z.to_nat spc) + (blocks_left n (pos + 1) * S (Z.to_nat spc) + r))%nat
        with (S (blocks_left n (pos + 1)) * S (Z.to_nat spc) + r)%nat by lia. exact Ho1. }
    intros k2 Ho2 Hq2. apply (HQ k2 Ho2). intros a Ha Hin. rewrite Hq2, Hq1; done.
Qed.

(** The place where the caller wants the character. *)
Definition outside_file (a : Z) : Prop := ¬ scratch a ∧ ¬ fixed a ∧ ¬ in_inode a.

(** The last part of [fatfs_get]. *)
Lemma wp_give v r pos ptr (Q : Z → vfs → Prop) : open_file True r (fs_kernel v) pos (pos / 512) → 0 ≤ pos < n →
  mapped (vram v) ptr 1 → outside_file ptr →
  (∀ ch k', contents !! Z.to_nat pos = Some ch → open_file True r k' (pos + 1) (pos / 512) →
    kram k' !! ptr = Some (Some ch) →
    (∀ a, ¬ scratch a → ¬ in_inode a → a ≠ ptr → kram k' !! a = vram v !! a) → Q 1 (set_fs_kernel k' v)) →
  wp (fs_m (
    let* c := loadb (fi + fat_inode_buffer + pos mod 512) in
    storeb ptr c ;;
    let* position := load_int (fi + fat_inode_position) in
    let* next := int_of (position + 1) in
    store_int (fi + fat_inode_position) next) ;;
  ret 1) v Q.
Proof.
  intros Ho Hpos Hm (Hs & Hf & Hin) HQ. destruct Hsize as [_ Hmax].
  destruct (buffer_char r (fs_kernel v) pos Ho Hpos) as (ch & Hch & Hbyte & Hload).
  apply wp_bind, wp_fs_m. change (vram v) with (kram (fs_kernel v)) in *.
  apply wp_bind, (wp_intro _ _ _ _ _ Hload). apply wp_bind, wp_storeb; [apply Hm; lia|]. rewrite u8_small by lia.
  set (k1 := set_kram (put_bytes ptr [ch] (kram (fs_kernel v))) (fs_kernel v)).
  change (<[ptr:=Some ch]> (kram (fs_kernel v))) with (kram k1).
  assert (∀ q v', fi + 528 ≤ q → q + 4 ≤ fi + 536 → int_at (kram (fs_kernel v)) q v' → int_at (kram k1) q v') as Hint.
  { intros q v' H1 H2 H. apply int_at_put_ne; [done|]. simpl. unfold in_inode, sizeof_fat_inode in Hin. lia. }
  assert (open_file True r k1 pos (pos / 512)) as Ho1.
  { apply (open_store True True r (fs_kernel v) pos (pos / 512)); try done.
    - intros a Ha. simpl in Ha. assert (a = ptr) as -> by lia. split_and!; [done..|]. intros H. apply Hin. inode_field.
    - apply Hint; [inode_field..|apply Ho].
    - apply Hint; [inode_field..|apply Ho].
    - intros _. apply bytes_at_put_ne; [by apply Ho|].
      assert (length (file_block image data spc cs (pos / 512)) ≤ 512)%nat by (unfold file_block; rewrite length_take; lia).
      simpl. unfold in_inode, sizeof_fat_inode, fat_inode_buffer in *. lia. }
  apply wp_bind, (wp_intro _ _ _ _ _ (load_int_ok _ _ _ (op_position _ _ _ _ _ Ho1))).
  apply wp_bind, wp_int_of; [unfold INT_MIN, INT_MAX in *; lia|].
  eapply (wp_store_field True r k1 pos (pos / 512) _ (pos + 1) (pos + 1) (pos / 512) True); [exact Ho1|by left| |].
  { unfold INT_MIN, INT_MAX in *. lia. }
  intros Ho2 Hq2. apply wp_ret. set (k2 := set_kram _ k1) in *.
  change (set_vram (kram k2) v) with (set_fs_kernel k2 v).
  apply (HQ ch k2 Hch Ho2).
  - rewrite Hq2 by done. change (kram k1) with (put_bytes ptr [ch] (kram (fs_kernel v))).
    pose proof (bytes_at_put ptr [ch] (kram (fs_kernel v))) as H%bytes_at_cons. apply H.
  - intros a Ha Hna Hne. rewrite Hq2 by done. change (kram k1) with (put_bytes ptr [ch] (kram (fs_kernel v))).
    apply put_bytes_outside. simpl. lia.
Qed.

(** What [fatfs_get] reads first. *)
Ltac read_inode Ho v pos :=
  apply wp_bind, (wp_intro _ _ fi v); [apply fs_m_read, (load_word_ok 8); [apply Ho|lia]|];
  apply wp_bind, (wp_intro _ _ handle v); [apply fs_m_read, (load_word_ok 8); [apply Ho|lia]|];
  apply wp_bind, (wp_intro _ _ pos v); [apply fs_m_read, load_int_ok, Ho|];
  apply wp_bind, (wp_intro _ _ entry v); [apply fs_m_read, (load_word_ok 8); [apply Ho|lia]|];
  apply wp_bind, (wp_intro _ _ n v); [apply fs_m_read, (load_word_ok 4); [apply Ho|lia]|].

(** One call of [fatfs_get] before the end of the file. *)
Lemma wp_fatfs_get r v pos ptr (Q : Z → vfs → Prop) : reading r (fs_kernel v) pos → 0 ≤ pos < n →
  mapped (vram v) ptr 1 → outside_file ptr →
  (∀ ch k', contents !! Z.to_nat pos = Some ch → reading r k' (pos + 1) → kram k' !! ptr = Some (Some ch) →
    (∀ a, ¬ scratch a → ¬ in_inode a → a ≠ ptr → kram k' !! a = vram v !! a) → Q 1 (set_fs_kernel k' v)) →
  wp (fatfs_get block_read i ptr) v Q.
Proof.
  intros Hr Hpos Hm Hout HQ. pose proof Hr as Ho. unfold reading in Ho. destruct Hsize as [_ Hmax]. unfold INT_MAX in *.
  unfold fatfs_get.
  read_inode Ho v pos.
  rewrite u32_small, (proj2 (Z.leb_gt _ _)) by lia. cbv zeta.
  rewrite Z.quot_div_nonneg, Z.rem_mod_nonneg by (unfold BUFFERSIZE; lia). change BUFFERSIZE with 512 at 1 2 3.
  apply wp_bind, (wp_intro _ _ ((pos - 1) / 512) v); [apply fs_m_read, load_int_ok, Ho|].
  apply wp_bind, (wp_block r v pos); [done|done|]. intros k1 Ho1 Hq1.
  assert (mapped (kram k1) ptr 1) as Hm1.
  { intros a Ha. assert (a = ptr) as -> by lia. destruct Hout as (H1 & _ & H3). rewrite Hq1 by done. apply Hm. lia. }
  apply (wp_give (set_fs_kernel k1 v) (blocks_left n (pos + 1) * S (Z.to_nat spc) + r) pos ptr); [exact Ho1|done|exact Hm1|done|].
  intros ch k2 Hch Ho2 Hptr Hsame. apply (HQ ch k2 Hch); [|done|].
  - unfold reading. replace (pos + 1 - 1) with pos by lia. destruct Ho2. split; try done. intros _. by apply op_block0.
  - intros a H1 H2 H3. rewrite Hsame by done. by apply Hq1.
Qed.

Lemma fatfs_get_end r v pos ptr : reading r (fs_kernel v) pos → n ≤ pos → pos ≤ INT_MAX → fatfs_get block_read i ptr v = Ok 0 v.
Proof.
  intros Hr Hpos Hp. pose proof Hr as Ho. unfold reading in Ho. destruct Hsize as [Hn Hmax]. unfold INT_MAX in *.
  apply wp_eq. unfold fatfs_get.
  read_inode Ho v pos.
  rewrite u32_small, (proj2 (Z.leb_le _ _)) by lia. by apply wp_ret.
Qed.
End file.

Lemma length_contents {image : Z → list Z} {spc : Z} data n cs : 0 < spc → 0 ≤ n ≤ 512 * spc * Z.of_nat (length cs) →
  length (contents (image := image) (spc := spc) data n cs) = Z.to_nat n.
Proof. intros Hs Hn. unfold contents. rewrite length_take, length_clusters_data by done. nia. Qed.
