(* ===== verification/Exceptions.v ===== *)
(** * Loading programs, system calls and interrupts
    (kernel/mp/job.c: job_create_from_file, kernel/exceptions/exceptions.c)

    The whole system: the jobs, the statics of fs.c and of exceptions.c.  Pointers that come from
    a user program are addresses of its address space; they are read and written through the
    MMU, everything else is mapped to itself. *)
From stdpp Require Import base list gmap.
From Stdlib Require Import ZArith Lia.
From S2P Require Import Prelude Memory CString Heap Slab Machine Log LogOverflow Gic Kernel Paging Job Sched Elf.
From S2P Require Import Virtio Fat FatPart Disk Fs RamFs FatFs.

Definition ESR_EC_OFFSET : Z := 26.
Definition ESR_EC_MASK : Z := 0x3f.
Definition ESR_EC_SVC64 : Z := 21.
Definition ESR_EC_DATABT_LOWER : Z := 36.
Definition ESR_EC_DATABT_SAME : Z := 37.
Definition ESR_ISS_SVC_IMM16 : Z := 0xffff.

Record os : Type := mk_os {
  sys : system;
  os_inode_slab : slab;
  os_main_filesystem : Z;
  exceptions_context_switch_x30 : Z;
}.

Definition set_sys (s : system) (o : os) : os :=
  mk_os s (os_inode_slab o) (os_main_filesystem o) (exceptions_context_switch_x30 o).
Definition set_x30 (p : Z) (o : os) : os := mk_os (sys o) (os_inode_slab o) (os_main_filesystem o) p.

Definition os_vfs (o : os) : vfs := mk_vfs (kern (sys o)) (os_inode_slab o) (os_main_filesystem o).
Definition set_vfs (v : vfs) (o : os) : os :=
  mk_os (set_kern (fs_kernel v) (sys o)) (inode_slab v) (main_filesystem v) (exceptions_context_switch_x30 o).

Definition in_sys {A} (m : M system A) : M os A := zoom sys set_sys m.
Definition in_fs {A} (m : M vfs A) : M os A := zoom os_vfs set_vfs m.
Definition in_k {A} (m : M kernel A) : M os A := in_sys (in_kernel m).
Definition in_m {A} (m : M mem A) : M os A := in_k (in_ram m).
Definition in_dev {A} (m : M machine A) : M os A := in_k (on_machine m).

(** Local arrays and literals at this level. *)
Definition os_cells {A} (cs : list (option Z)) (f : Z → M os A) : M os A := λ o,
  let p := fresh_address (kram (kern (sys o))) in
  let upd m o := set_sys (set_kern (set_kram m (kern (sys o))) (sys o)) o in
  match f p (upd (put_cells p cs (kram (kern (sys o)))) o) with
  | Ok a o' => Ok a (upd (drop_cells p (length cs) (kram (kern (sys o')))) o')
  | Hang o' => Hang o'
  | Fault e => Fault e
  end.
Definition os_array {A} (n : Z) (f : Z → M os A) : M os A := os_cells (replicate (Z.to_nat n) None) f.
Definition os_literal {A} (s : list Z) (f : Z → M os A) : M os A := os_cells (Some <$> (s ++ [0])) f.

(** ** User memory *)

Definition user_loadb (va : Z) : M machine Z := λ s,
  match mmu_translate s va with
  | Some (pa, _, _) => on_ram (loadb pa) s
  | None => Fault (BadAddress va)
  end.

Definition user_storeb (va v : Z) : M machine unit := λ s,
  match mmu_translate s va with
  | Some (pa, _, read_only) => if read_only : bool then Fault (BadAddress va) else on_ram (storeb pa v) s
  | None => Fault (BadAddress va)
  end.

(** The characters of a string of the user program. *)
Fixpoint user_chars (fuel : nat) (va : Z) : M machine (list Z) :=
  match fuel with
  | O => fail OutOfFuel
  | S fuel' =>
      let* c := user_loadb va in
      if c =? 0 then ret [] else
      let* s := user_chars fuel' (va + 1) in
      ret (c :: s)
  end.
Definition user_string (va : Z) : M machine (list Z) := ram_fuel (λ fuel, user_chars fuel va).

(** [filebuffer_read_at_position] with a destination in user memory. *)
Definition user_copy (bytes ptr src : Z) : M machine unit :=
  ram_fuel (λ fuel, loop fuel (λ '(bytes, char_ptr, src),
    if 0 <? bytes then
      let* c := on_ram (loadb src) in
      user_storeb char_ptr c ;;
      ret (inl (bytes - 1, char_ptr + 1, src + 1))
    else ret (inr tt)) (bytes, ptr, src)).

Definition elf_dump_program_content_user (elf program ptr : Z) : M machine unit :=
  let* size := on_ram (p_memsz program) in
  let* offset := on_ram (p_offset program) in
  let* file := on_ram (load64 (elf + ELF_file)) in
  user_copy (u64 (size * u64 1)) ptr (file + offset).

(** ** Function pointers *)

(** The addresses the linker gives to the functions that are called through pointers. *)
Record symbols : Type := mk_symbols {
  INTERNAL_HANDLER : Z; DISK_HANDLER : Z; DISK_BLOCK_READ : Z; DISK_BLOCK_WRITE : Z;
  FATFS_GET : Z; FATFS_CLOSE : Z; FATFS_LEFT : Z; FATFS_OPEN : Z;
  RAMFS_GET : Z; RAMFS_PUT : Z; RAMFS_CLOSE : Z; RAMFS_CREATE : Z; RAMFS_OPEN : Z;
}.

Section exceptions.
(** The disk: see [Virtio]. *)
Variables (syms : symbols) (interrupt : M kernel unit) (polls : nat).

Definition kernel_blocks (f : Z) : option (Z → Z → Z → M kernel Z) :=
  if f =? DISK_BLOCK_READ syms then Some (disk_block_read (DISK_HANDLER syms) interrupt polls)
  else if f =? DISK_BLOCK_WRITE syms then Some (disk_block_write (DISK_HANDLER syms) interrupt polls)
  else None.

Definition kernel_block_read : Z → Z → Z → M kernel Z := block_read kernel_blocks.

Definition kernel_files : file_ops := mk_file_ops
  (λ f, if f =? FATFS_GET syms then Some (fatfs_get kernel_block_read)
        else if f =? RAMFS_GET syms then Some ramfs_get else None)
  (λ f, if f =? RAMFS_PUT syms then Some ramfs_put else None)
  (λ f, if f =? FATFS_CLOSE syms then Some fatfs_close
        else if f =? RAMFS_CLOSE syms then Some ramfs_close else None)
  (λ f, if f =? FATFS_LEFT syms then Some fatfs_left else None)
  (λ f, if f =? FATFS_OPEN syms then Some (fatfs_open (FATFS_GET syms) (FATFS_CLOSE syms) (FATFS_LEFT syms))
        else if f =? RAMFS_OPEN syms
             then Some (ramfs_open_internal (RAMFS_GET syms) (RAMFS_PUT syms) (RAMFS_CLOSE syms)) else None).

(** ** job_create_from_file *)

(** [while (fs_inode_get(inode, ptr)) ptr++;]: an inode that never reports its end fills the
    memory. *)
Definition read_all (inode ptr : Z) : M os Z := λ o,
  loop (S (size (kram (kern (sys o))))) (λ ptr,
    let* more := in_fs (fs_inode_get kernel_files inode ptr) in
    if negb (more =? 0) then ret (inl (ptr + 1)) else ret (inr ptr)) ptr o.

(** The address space of the program and its copy: the new space is active while it is copied. *)
Definition job_load_program (elf program_header : Z) : M os (Z * Z) :=
  let* memsz := in_m (p_memsz program_header) in
  let* (pm, allocated_size) := in_sys (job_create_paging (i32 memsz)) in
  let* old_paging := in_sys (paging_manager_apply pm) in
  in_dev (elf_dump_program_content_user elf program_header JOB_BASE_USER) ;;
  in_sys (paging_manager_apply old_paging) ;;
  ret (pm, allocated_size).

(** From the file in memory to the job. *)
Definition job_create_from_image (fb name : Z) : M os Z :=
  os_array sizeof_ELF (λ elf,
    in_m (elf_fromfilebuffer elf fb) ;;
    in_k (elf_alloc_and_parse elf) ;;
    let* ph_count := in_m (elf_get_programheader_count elf) in
    let* program_header := in_m (elf_get_programheader_byid elf 0) in
    let* (pm, allocated_size) := job_load_program elf program_header in
    in_k (elf_free elf) ;;
    let* entry := in_m (elf_get_entrypoint elf) in
    in_sys (job_create entry (u64 (JOB_BASE_USER + allocated_size)) name pm)).

Definition job_create_from_file (inode name : Z) : M os Z :=
  let* file_size := in_fs (fs_inode_left kernel_files inode) in
  let* init_mem := in_k (kalloc (u64 file_size)) in
  read_all inode init_mem ;;
  in_fs (fs_inode_close kernel_files inode) ;;
  job_create_from_image (filebuffer_frombuffer init_mem) name.

(** ** exceptions.c *)

(** [REG(x)] *)
Definition reg_address (x30 x : Z) : Z := x30 + 8 * (30 - x).

Definition exceptions_internal_open (x30 : Z) : M os unit :=
  let* fs := in_fs fs_filesystem_getmain in
  let* filename := in_m (load64 (reg_address x30 0)) in
  let* s := in_dev (user_string filename) in
  let* inode := os_literal s (λ filename, in_fs (fs_open kernel_files fs filename)) in
  let* job := in_sys job_get_current in
  let* fd := in_sys (job_add_file job inode) in
  in_m (store64 (reg_address x30 0) (u64 fd)).

Definition exceptions_internal_get (x30 : Z) : M os unit :=
  let* job := in_sys job_get_current in
  let* r := in_m (load64 (reg_address x30 0)) in
  let fd := i32 r in
  let* inode := in_sys (job_get_file job fd) in
  if inode =? 0 then in_m (store64 (reg_address x30 0) (u64 (-1))) else
  os_array 1 (λ c,
    in_fs (fs_inode_get kernel_files inode c) ;;
    let* v := in_m (loadb c) in
    in_m (store64 (reg_address x30 0) v)).

Definition exceptions_internal_spawn (x30 : Z) : M os unit :=
  let* fs := in_fs fs_filesystem_getmain in
  let* filename := in_m (load64 (reg_address x30 0)) in
  let* s := in_dev (user_string filename) in
  let* len := in_m (int_of (Z.of_nat (length s) + 1)) in
  let* copy_filename := in_k (kalloc (u64 len)) in
  os_literal s (λ filename, in_m (strcpy copy_filename filename)) ;;
  let* inode := in_fs (fs_open kernel_files fs copy_filename) in
  job_create_from_file inode copy_filename ;;
  in_k (kfree copy_filename).

(** The result is [res]; when no case sets it, nobody has written it. *)
Definition exceptions_handle_syscall (imm x30 : Z) : M os (option Z) :=
  let* lr := in_dev (mrs ELR_EL1) in
  let* spsr := in_dev (mrs SPSR_EL1) in
  let* res :=
    if imm =? 10 then in_sys job_terminate ;; ret (Some 1)
    else if imm =? 11 then
      let* current := in_sys job_get_current in
      let* j := in_sys (get_job current) in
      let* r := in_m (load64 (reg_address x30 0)) in
      let* s := in_dev (user_string r) in
      os_literal (name j) (λ job_name, os_literal s (λ text,
        in_dev (klogf_lit (chars "'%s': '%s'") [job_name; text]))) ;;
      ret (Some 1)
    else if imm =? 20 then exceptions_internal_open x30 ;; ret (Some 1)
    else if imm =? 21 then exceptions_internal_get x30 ;; ret (Some 1)
    else if imm =? 22 then exceptions_internal_spawn x30 ;; ret (Some 1)
    else ret None in
  in_dev (msr ELR_EL1 lr) ;;
  in_dev (msr SPSR_EL1 spsr) ;;
  ret res.

Definition exceptions_getesr : M machine Z := mrs ESR_EL1.

(** The cases of the switch fall through: an abort is logged and then treated as a system call. *)
Definition exceptions_distributor (x30 : Z) : M os unit :=
  let* pc := in_dev (mrs ELR_EL1) in
  let* esr := in_dev exceptions_getesr in
  let ec := Z.land (Z.shiftr esr ESR_EC_OFFSET) ESR_EC_MASK in
  (if ec =? ESR_EC_DATABT_SAME then in_dev (klog_lit (chars "Data abort from same EL")) else ret tt) ;;
  (if (ec =? ESR_EC_DATABT_SAME) || (ec =? ESR_EC_DATABT_LOWER)
   then in_dev (klog_lit (chars "Data abort from lower EL")) else ret tt) ;;
  let* handled :=
    if (ec =? ESR_EC_DATABT_SAME) || (ec =? ESR_EC_DATABT_LOWER) || (ec =? ESR_EC_SVC64) then
      let imm16 := u16 (Z.land esr ESR_ISS_SVC_IMM16) in
      let* res := exceptions_handle_syscall imm16 x30 in
      match res with
      | None => fail (Uninitialised 0)
      | Some res =>
          if negb (res =? 0) then ret true
          else in_dev (klogf_lit (chars "Unhandled syscall (imm=%q)") [imm16]) ;; ret false
      end
    else ret false in
  if handled : bool then ret tt else
  in_dev (klogf_lit (chars "Unhandled exception (esr=0x%x)") [esr]) ;;
  hang.

(** Calling a handler through its pointer. *)
Definition call_handler (handler intid param : Z) : M os unit :=
  if handler =? INTERNAL_HANDLER syms then
    let* o := get in in_sys (internal_handler (exceptions_context_switch_x30 o))
  else if handler =? DISK_HANDLER syms then in_k (disk_handle_interrupt_sync intid param)
  else fail BadCall.

Definition exceptions_handle_fiq (x30 : Z) : M os unit :=
  let* iar := in_dev gic_interface_read_and_ack_group0 in
  let intid := i32 iar in
  (if intid =? 30 then modify (set_x30 x30) else ret tt) ;;
  let* handler := in_k (on_gic (gic_redistributor_get_handler intid)) in
  (if negb (handler =? 0) then
     let* param := in_k (on_gic (gic_redistributor_get_handler_param intid)) in
     call_handler handler intid param
   else in_dev (local_literal (chars "Unhandled interrupt" ++ [10]) put_string)) ;;
  in_dev (gic_interface_end_of_interrupt_group0 (u32 intid)).

(** [loweraa64_svc] and [loweraa64_fiq] of exceptions.asm: the registers of the program before and
    after; [stack] is SP_EL1. *)
Definition exception_entry (handler : Z → M os unit) (g : list Z) (stack : Z) : M os (list Z) :=
  let* x30 := in_m (push_frame g stack) in
  handler x30 ;;
  let* g' := in_m (pop_frame x30) in
  in_dev (emit Eret) ;;
  ret g'.

Definition loweraa64_svc : list Z → Z → M os (list Z) := exception_entry exceptions_distributor.
Definition loweraa64_fiq : list Z → Z → M os (list Z) := exception_entry exceptions_handle_fiq.

End exceptions.

(** * Lemmas *)

Lemma in_sys_ok {A} (m : M system A) o a s : m (sys o) = Ok a s → in_sys m o = Ok a (set_sys s o).
Proof. intros H. unfold in_sys, zoom. by rewrite H. Qed.

Lemma in_k_ok {A} (m : M kernel A) o a k : m (kern (sys o)) = Ok a k →
  in_k m o = Ok a (set_sys (set_kern k (sys o)) o).
Proof. intros H. by apply in_sys_ok, in_kernel_ok. Qed.

Lemma in_m_ok {A} (m : M mem A) o a t : m (kram (kern (sys o))) = Ok a t →
  in_m m o = Ok a (set_sys (set_kern (set_kram t (kern (sys o))) (sys o)) o).
Proof. intros H. by apply in_k_ok, in_ram_ok. Qed.

Lemma in_dev_ok {A} (m : M machine A) o a mc : m (mach (kern (sys o))) = Ok a mc →
  in_dev m o = Ok a (set_sys (set_kern (set_mach mc (kern (sys o))) (sys o)) o).
Proof. intros H. by apply in_k_ok, on_machine_ok. Qed.

Lemma in_dev_fault {A} (m : M machine A) o e : m (mach (kern (sys o))) = Fault e → in_dev m o = Fault e.
Proof. intros H. unfold in_dev, in_k, in_sys, in_kernel, on_machine, zoom. by rewrite H. Qed.

(** What only reads leaves the state. *)
Lemma set_kram_os_id o : set_sys (set_kern (set_kram (kram (kern (sys o))) (kern (sys o))) (sys o)) o = o.
Proof. by destruct o as [[[[]] ? ? ? ? ? ? ?] ? ? ?]. Qed.

Lemma in_m_read {A} (m : M mem A) o a : m (kram (kern (sys o))) = Ok a (kram (kern (sys o))) → in_m m o = Ok a o.
Proof. intros H. by rewrite (in_m_ok _ _ _ _ H), set_kram_os_id. Qed.

(** *** Local arrays *)

(** The state with a local array of [n] bytes, and without it. *)
Definition with_array (n : Z) (k : kernel) : kernel :=
  set_kram (put_cells (fresh_address (kram k)) (replicate (Z.to_nat n) None) (kram k)) k.
Definition drop_array (p n : Z) (o : os) : os :=
  set_sys (set_kern (set_kram (drop_cells p (Z.to_nat n) (kram (kern (sys o)))) (kern (sys o))) (sys o)) o.

Lemma os_array_ok {A} n (f : Z → M os A) o a o' :
  f (fresh_address (kram (kern (sys o)))) (set_sys (set_kern (with_array n (kern (sys o))) (sys o)) o) = Ok a o' →
  os_array n f o = Ok a (drop_array (fresh_address (kram (kern (sys o)))) n o').
Proof. intros H. unfold os_array, os_cells. unfold with_array in H. by rewrite H, length_replicate. Qed.

Lemma os_array_fault {A} n (f : Z → M os A) o e :
  f (fresh_address (kram (kern (sys o)))) (set_sys (set_kern (with_array n (kern (sys o))) (sys o)) o) = Fault e → os_array n f o = Fault e.
Proof. intros H. unfold os_array, os_cells. unfold with_array in H. by rewrite H. Qed.

Lemma in_m_fault {A} (m : M mem A) o e : m (kram (kern (sys o))) = Fault e → in_m m o = Fault e.
Proof. intros H. unfold in_m, in_k, in_sys, in_kernel, in_ram, on_machine, on_ram, zoom. unfold kram in H. by rewrite H. Qed.

(** What is mapped is not in the array. *)
Lemma mapped_not_local (m : mem) a n : is_Some (m !! a) → ¬ (fresh_address m ≤ a < fresh_address m + n).
Proof. intros [c Hc] Ha. rewrite fresh_address_spec in Hc; [done|]. unfold LOCAL_GAP. lia. Qed.

Lemma with_array_lookup n k a : is_Some (kram k !! a) → kram (with_array n k) !! a = kram k !! a.
Proof.
  intros Hs. change (put_cells (fresh_address (kram k)) (replicate (Z.to_nat n) None) (kram k) !! a = kram k !! a).
  rewrite put_cells_lookup, decide_False; [done|]. by apply mapped_not_local.
Qed.

(** The program's registers are pushed, and the handler runs on the frame. *)
Lemma entry_ok (handler : Z → M os unit) g stack o o1 o2 (p := stack - 256) regs :
  length g = 31%nat → mapped (kram (kern (sys o))) p 256 →
  o1 = set_sys (set_kern (set_kram (put_bytes p (words (frame_words g)) (kram (kern (sys o)))) (kern (sys o))) (sys o)) o →
  handler p o1 = Ok tt o2 → pop_frame p (kram (kern (sys o2))) = Ok regs (kram (kern (sys o2))) →
  exception_entry handler g stack o =
    Ok regs (set_sys (set_kern (set_mach (emit_event Eret (mach (kern (sys o2)))) (kern (sys o2))) (sys o2)) o2).
Proof.
  intros Hg Hm -> Hh Hp. unfold exception_entry.
  rewrite (bind_ok _ _ _ _ _ (in_m_ok _ _ _ _ (push_frame_spec g stack _ Hg Hm))).
  rewrite (bind_ok _ _ _ _ _ Hh), (bind_ok _ _ _ _ _ (in_m_ok _ _ _ _ Hp)).
  rewrite (bind_ok _ _ _ _ _ (in_dev_ok (emit Eret) _ tt _ eq_refl)). done.
Qed.

(** ** The state of the handlers *)

(** The program's registers are on the kernel's stack. *)
Definition pushed (g : list Z) (stack : Z) (o : os) : os :=
  set_sys (set_kern (set_kram (put_bytes (stack - 256) (words (frame_words g)) (kram (kern (sys o))))
    (kern (sys o))) (sys o)) o.

(** The interrupt that the controller reports next. *)
Definition acknowledged (o : os) : Z :=
  u64 (env_reg (env (mach (kern (sys o)))) (trace (mach (kern (sys o)))) ICC_IAR0_EL1).
Definition pending_interrupt (o : os) : Z := i32 (u32 (Z.land (acknowledged o) 0xffffff)).

(** After the acknowledgement. *)
Definition acked (o : os) : os :=
  set_sys (set_kern (set_mach (emit_event (Mrs_volatile ICC_IAR0_EL1 (acknowledged o)) (mach (kern (sys o))))
    (kern (sys o))) (sys o)) o.

Definition handler_of (o : os) (intid : Z) : option (Z * Z) :=
  let t := interrupts (kern (sys o)) in
  match array_get (handlers t) intid, array_get (handler_params t) intid with
  | Some h, Some p => Some (h, p)
  | _, _ => None
  end.

Lemma on_gic_read {A} (m : M gic_table A) o a :
  m (interrupts (kern (sys o))) = Ok a (interrupts (kern (sys o))) → in_k (on_gic m) o = Ok a o.
Proof.
  intros H. assert (on_gic m (kern (sys o)) = Ok a (kern (sys o))) as E.
  { unfold on_gic, zoom. rewrite H. by destruct (kern (sys o)). }
  rewrite (in_k_ok _ _ _ _ E). by destruct o as [[] ? ? ?].
Qed.

Lemma get_handler_ok o intid h param : handler_of o intid = Some (h, param) → 0 ≤ intid ≤ MAX_INTS →
  in_k (on_gic (gic_redistributor_get_handler intid)) o = Ok h o ∧
  in_k (on_gic (gic_redistributor_get_handler_param intid)) o = Ok param o.
Proof.
  unfold handler_of. intros Hh Hid.
  destruct (array_get (handlers _) intid) as [h'|] eqn:E1; [|done].
  destruct (array_get (handler_params _) intid) as [p'|] eqn:E2; [|done]. injection Hh as -> ->.
  split; apply on_gic_read; unfold gic_redistributor_get_handler, gic_redistributor_get_handler_param;
    rewrite (proj2 (Z.ltb_ge _ _)), (proj2 (Z.ltb_ge _ _)) by lia; unfold get, bind; cbn [orb];
    by rewrite ?E1, ?E2.
Qed.

Lemma inv_pushed {live : kernel → gset Z → Prop} `{HeapService live} o l used L stack g :
  job_inv live (sys o) l used L → outside (sys o) (stack - 256) 256 → job_inv live (sys (pushed g stack o)) l used L.
Proof.
  intros Hinv Hout. eapply (inv_machine (sys o) l used L _ (stack - 256) (words (frame_words g)));
    [exact Hinv| |reflexivity]. rewrite length_words. exact Hout.
Qed.

Section interrupts.
Variable syms : symbols.

(** The state at the end: the end of the interrupt is signalled. *)
Definition ended (intid : Z) (s : system) : system :=
  set_kern (set_mach (mk_machine (kram (kern s)) (set_reg ICC_EOIR0_EL1 intid (sysregs (mach (kern s))))
    (Msr ICC_EOIR0_EL1 intid :: trace (mach (kern s))) (env (mach (kern s)))) (kern s)) s.

(** A pending timer interrupt whose handler is the scheduler. *)
Lemma handle_timer o x30 param :
  pending_interrupt o = 30 → handler_of o 30 = Some (INTERNAL_HANDLER syms, param) → INTERNAL_HANDLER syms ≠ 0 →
  exceptions_handle_fiq syms x30 o =
    (in_sys (internal_handler x30) ;; in_dev (gic_interface_end_of_interrupt_group0 30)) (set_x30 x30 (acked o)).
Proof.
  intros Hp Hh Hne. unfold exceptions_handle_fiq.
  rewrite (bind_ok _ _ o (u32 (Z.land (acknowledged o) 0xffffff)) (acked o)) by by apply in_dev_ok.
  unfold pending_interrupt in Hp. cbv zeta. rewrite Hp. change (30 =? 30) with true. cbv iota.
  rewrite (bind_ok _ _ (acked o) tt (set_x30 x30 (acked o))) by done. set (o2 := set_x30 x30 (acked o)).
  destruct (get_handler_ok o2 30 _ _ Hh) as [E1 E2]; [unfold MAX_INTS; lia|].
  rewrite (bind_ok _ _ _ _ _ E1). rewrite (proj2 (Z.eqb_neq _ _) Hne). cbn [negb].
  rewrite bind_assoc, (bind_ok _ _ _ _ _ E2).
  change (u32 30) with 30. unfold bind, call_handler. rewrite Z.eqb_refl. reflexivity.
Qed.

Lemma handle_timer_ok o x30 param s' :
  pending_interrupt o = 30 → handler_of o 30 = Some (INTERNAL_HANDLER syms, param) → INTERNAL_HANDLER syms ≠ 0 →
  internal_handler x30 (sys (acked o)) = Ok tt s' →
  exceptions_handle_fiq syms x30 o = Ok tt (set_sys (ended 30 s') (set_x30 x30 (acked o))).
Proof.
  intros Hp Hh Hne Hint. rewrite (handle_timer _ _ _ Hp Hh Hne). set (o2 := set_x30 x30 (acked o)).
  rewrite (bind_ok _ _ o2 tt (set_sys s' o2)) by by apply in_sys_ok.
  by rewrite (in_dev_ok _ _ tt (mach (kern (ended 30 s')))).
Qed.

(** Whatever the handler does, there is a return only when it returns. *)
Lemma entry_returns (handler : Z → M os unit) g stack o g' o' : length g = 31%nat →
  mapped (kram (kern (sys o))) (stack - 256) 256 → exception_entry handler g stack o = Ok g' o' →
  ∃ o2, handler (stack - 256) (pushed g stack o) = Ok tt o2.
Proof.
  intros Hg Hm. unfold exception_entry.
  rewrite (bind_ok _ _ _ _ _ (in_m_ok _ _ _ _ (push_frame_spec g stack _ Hg Hm))).
  change (set_sys _ o) with (pushed g stack o). unfold bind at 1.
  destruct (handler (stack - 256) (pushed g stack o)) as [[] o2|o2|f]; [by exists o2|done..].
Qed.

Context {live : kernel → gset Z → Prop} `{HeapService live}.

Lemma timer_spec o c r pre q post used L stack g jc jq gq pm param (s := sys o) :
  job_inv live s (c :: r) used L → r ++ [c] = pre ++ q :: post →
  Forall (λ p, status_of s p ≠ Some RUNNING) pre → status_of s q = Some RUNNING →
  jobs s !! c = Some jc → length (x jc) = 31%nat → length g = 31%nat → Forall is_u64 g →
  mapped (kram (kern s)) (stack - 256) 256 → outside s (stack - 256) 256 →
  pending_interrupt o = 30 → handler_of o 30 = Some (INTERNAL_HANDLER syms, param) → INTERNAL_HANDLER syms ≠ 0 →
  jobs (after_save s c jc g) !! q = Some jq → x jq = saved_words (frame_words gq) →
  length gq = 31%nat → Forall is_u64 gq → managers s !! paging jq = Some pm →
  ∃ o' used' L', loweraa64_fiq syms g stack o = Ok (<[1%nat := gpr g 1]> gq) o' ∧
    current_job (sys o') = q ∧ job_inv live (sys o') (q :: post ++ sleeping s pre) used' L' ∧
    sysregs (mach (kern (sys o'))) ELR_EL1 = pc jq ∧ sysregs (mach (kern (sys o'))) SP_EL0 = sp jq ∧
    sysregs (mach (kern (sys o'))) TTBR0_EL1 = l1 pm ∧
    same_jobs (jobs (after_save s c jc g)) (jobs (sys o')) ∧ switch_frame s (sys o') ∧
    mapped (kram (kern (sys o'))) (stack - 256) 256 ∧ accounts s used L (sys o') used' L'.
Proof.
  intros Hinv E Hpre Hq Hjc Hx Hg Hu Hm Hout Hpend Hh Hne Hjq Hxq Hgq Huq Hpm.
  set (o1 := pushed g stack o).
  pose proof (inv_registers (sys o1) _ _ _ (mach (kern (sys (acked o1)))) (inv_pushed _ _ _ _ _ _ Hinv Hout) eq_refl) as Hinv1.
  destruct (context_switch_spec (sys (acked o1)) c r pre q post used L (stack - 256) g jc jq gq pm) as
    (s' & used' & L' & Hsw & Hcur & Hinv' & Hpop & Helr & Hsp & Httbr & _ & Hsame & Hkept & Hmap & Hacc); try done.
  { exact (bytes_at_put (stack - 256) (words (frame_words g)) (kram (kern s))). }
  exists (set_sys (set_kern (set_mach (emit_event Eret (mach (kern (ended 30 s')))) (kern (ended 30 s'))) (ended 30 s'))
    (set_sys (ended 30 s') (set_x30 (stack - 256) (acked o1)))), used', L'.
  split; [|split; [|split; [|split; [|split; [|split; [|split; [|split; [|split; [|exact Hacc]]]]]]]]].
  - unfold loweraa64_fiq. rewrite (entry_ok _ g stack o o1 _ _ Hg Hm eq_refl (handle_timer_ok o1 _ _ s' Hpend Hh Hne Hsw) Hpop).
    done.
  - exact Hcur.
  - by apply (inv_registers s' _ _ _ (emit_event Eret (mach (kern (ended 30 s'))))).
  - cbn. rewrite set_reg_other by done. exact Helr.
  - cbn. rewrite set_reg_other by done. exact Hsp.
  - cbn. rewrite set_reg_other by done. exact Httbr.
  - exact Hsame.
  - destruct Hkept as [K1 K2 K3 K4 K5]. by split.
  - exact Hmap.
Qed.

(** With no job that can run the interrupt does not return. *)
Lemma timer_stuck o c r used L stack g jc param g' o' (s := sys o) :
  job_inv live s (c :: r) used L → Forall (λ p, status_of s p ≠ Some RUNNING) (c :: r) →
  jobs s !! c = Some jc → length (x jc) = 31%nat → length g = 31%nat → Forall is_u64 g →
  mapped (kram (kern s)) (stack - 256) 256 → outside s (stack - 256) 256 →
  pending_interrupt o = 30 → handler_of o 30 = Some (INTERNAL_HANDLER syms, param) → INTERNAL_HANDLER syms ≠ 0 →
  loweraa64_fiq syms g stack o ≠ Ok g' o'.
Proof.
  intros Hinv Hall Hjc Hx Hg Hu Hm Hout Hpend Hh Hne Hrun.
  destruct (entry_returns _ _ _ _ _ _ Hg Hm Hrun) as [o2 Hfiq]. set (o1 := pushed g stack o) in *.
  rewrite (handle_timer o1 _ _ Hpend Hh Hne) in Hfiq. unfold bind, in_sys, zoom in Hfiq.
  pose proof (inv_registers (sys o1) _ _ _ (mach (kern (sys (acked o1)))) (inv_pushed _ _ _ _ _ _ Hinv Hout) eq_refl) as Hinv1.
  rewrite (internal_handler_saved _ c jc g (stack - 256)) in Hfiq; try done.
  - set (s1 := after_save _ c jc g) in Hfiq. unfold bind at 1 in Hfiq.
    destruct (job_forward s1) as [[] s2|s2|f] eqn:Hfwd; [|done|done].
    apply (job_forward_idle s1 (c :: r) used L); [by apply inv_after_save|done| |by exists s2].
    eapply Forall_impl; [exact Hall|]. intros p. unfold s1. by rewrite status_after_save.
  - apply Hinv1.
  - exact (bytes_at_put (stack - 256) (words (frame_words g)) (kram (kern s))).
Qed.

(** The timer interrupt, from the moment it is taken to the return: the entry pushes the
    registers [g] of the program, the controller reports interrupt 30, the handler table leads to
    the scheduler, and the program that is resumed is the next running job, in its address space,
    with the registers it had when it was interrupted - but for x1, which the entry of the
    interrupt did not save in a word that the scheduler keeps, and which holds the value of the
    interrupted job. *)
Theorem timer_interrupt o c r pre q post used L stack g jc jq gq pm param (s := sys o) :
  job_inv live s (c :: r) used L → r ++ [c] = pre ++ q :: post →
  Forall (λ p, status_of s p ≠ Some RUNNING) pre → status_of s q = Some RUNNING →
  jobs s !! c = Some jc → length (x jc) = 31%nat → length g = 31%nat → Forall is_u64 g →
  mapped (kram (kern s)) (stack - 256) 256 → outside s (stack - 256) 256 →
  pending_interrupt o = 30 → handler_of o 30 = Some (INTERNAL_HANDLER syms, param) → INTERNAL_HANDLER syms ≠ 0 →
  jobs (after_save s c jc g) !! q = Some jq → x jq = saved_words (frame_words gq) →
  length gq = 31%nat → Forall is_u64 gq → managers s !! paging jq = Some pm →
  ∃ o' used' L', loweraa64_fiq syms g stack o = Ok (<[1%nat := gpr g 1]> gq) o' ∧
    current_job (sys o') = q ∧ job_inv live (sys o') (q :: post ++ sleeping s pre) used' L' ∧
    sysregs (mach (kern (sys o'))) ELR_EL1 = pc jq ∧ sysregs (mach (kern (sys o'))) SP_EL0 = sp jq ∧
    sysregs (mach (kern (sys o'))) TTBR0_EL1 = l1 pm.
Proof.
  intros H1 H2 H3 H4 H5 H6 H7 H8 H9 H10 H11 H12 H13 H14 H15 H16 H17 H18.
  destruct (timer_spec o c r pre q post used L stack g jc jq gq pm param) as
    (o' & used' & L' & R1 & R2 & R3 & R4 & R5 & R6 & _); try done.
  by exists o', used', L'.
Qed.
End interrupts.

(** ** System calls *)

(** The program executed [svc imm]. *)
Definition takes_svc (o : os) (imm : Z) : Prop :=
  let esr := sysregs (mach (kern (sys o))) ESR_EL1 in
  Z.land (Z.shiftr esr ESR_EC_OFFSET) ESR_EC_MASK = ESR_EC_SVC64 ∧ u16 (Z.land esr ESR_ISS_SVC_IMM16) = imm.

(** The registers come back from the frame. *)
Lemma pop_pushed m p g : length g = 31%nat → Forall is_u64 g → bytes_at m p (words (frame_words g)) →
  pop_frame p m = Ok g m.
Proof.
  intros Hg Hu Hb. rewrite (pop_frame_spec _ _ (frame_words g)); [|done|by apply frame_words_u64|done].
  by rewrite frame_regs_words.
Qed.

Section syscalls.
Variables (syms : symbols) (interrupt : M kernel unit) (polls : nat).

Lemma in_dev_mrs o r : volatile_reg r = false → in_dev (mrs r) o = Ok (sysregs (mach (kern (sys o))) r) o.
Proof.
  intros Hr. rewrite (in_dev_ok _ _ (sysregs (mach (kern (sys o))) r) (mach (kern (sys o)))).
  - by destruct o as [[[] ? ? ? ? ? ? ?] ? ? ?].
  - unfold mrs. by rewrite Hr.
Qed.

(** The distributor hands the number of the call on; without a result the test of [res] reads a
    variable that nobody has set. *)
Lemma distributor_svc o imm x30 : takes_svc o imm →
  match exceptions_handle_syscall syms interrupt polls imm x30 o with
  | Ok (Some r) o' => r ≠ 0 → exceptions_distributor syms interrupt polls x30 o = Ok tt o'
  | Ok None _ => exceptions_distributor syms interrupt polls x30 o = Fault (Uninitialised 0)
  | Hang _ => True
  | Fault e => exceptions_distributor syms interrupt polls x30 o = Fault e
  end.
Proof.
  intros [Hec Himm]. set (esr := sysregs (mach (kern (sys o))) ESR_EL1) in *.
  assert (exceptions_distributor syms interrupt polls x30 o = bind (exceptions_handle_syscall syms interrupt polls imm x30) (λ res,
    let* handled := match res with
      | None => fail (Uninitialised 0)
      | Some res => if negb (res =? 0) then ret true
          else in_dev (klogf_lit (chars "Unhandled syscall (imm=%q)") [imm]) ;; ret false
      end in
    if handled : bool then ret tt else in_dev (klogf_lit (chars "Unhandled exception (esr=0x%x)") [esr]) ;; hang) o) as ->.
  { unfold exceptions_distributor. rewrite (bind_ok _ _ _ _ _ (in_dev_mrs o ELR_EL1 eq_refl)).
    rewrite (bind_ok _ _ _ _ _ (in_dev_mrs o ESR_EL1 eq_refl)).
    fold esr. cbv zeta. rewrite Hec, Himm.
    change (ESR_EC_SVC64 =? ESR_EC_DATABT_SAME) with false. change (ESR_EC_SVC64 =? ESR_EC_DATABT_LOWER) with false.
    change (ESR_EC_SVC64 =? ESR_EC_SVC64) with true. cbn [orb]. cbv iota.
    by rewrite (bind_ok _ _ o tt o eq_refl), (bind_ok _ _ o tt o eq_refl), bind_assoc. }
  unfold bind. destruct (exceptions_handle_syscall _ _ _ imm x30 o) as [[r|] o'|o'|f]; [|done..].
  intros Hr. by rewrite (proj2 (Z.eqb_neq _ _) Hr).
Qed.

(** [ELR_EL1] and [SPSR_EL1] after the call are the ones from before. *)
Definition restored (o : os) (s : system) : system :=
  let mc := mach (kern s) in let f := sysregs (mach (kern (sys o))) in
  set_kern (set_mach (mk_machine (ram mc) (set_reg SPSR_EL1 (f SPSR_EL1) (set_reg ELR_EL1 (f ELR_EL1) (sysregs mc)))
    (Msr SPSR_EL1 (f SPSR_EL1) :: Msr ELR_EL1 (f ELR_EL1) :: trace mc) (env mc)) (kern s)) s.

Lemma syscall_terminate x30 o s : job_terminate (sys o) = Ok tt s →
  exceptions_handle_syscall syms interrupt polls 10 x30 o = Ok (Some 1) (set_sys (restored o s) o).
Proof.
  intros H. unfold exceptions_handle_syscall.
  rewrite (bind_ok _ _ _ _ _ (in_dev_mrs o ELR_EL1 eq_refl)), (bind_ok _ _ _ _ _ (in_dev_mrs o SPSR_EL1 eq_refl)).
  change (10 =? 10) with true. cbv iota. rewrite bind_assoc, (bind_ok _ _ _ _ _ (in_sys_ok _ _ _ _ H)).
  rewrite (bind_ok _ _ _ (Some 1) (set_sys s o)) by done. done.
Qed.

Lemma syscall_unknown imm x30 o : imm ∉ [10; 11; 20; 21; 22] →
  exceptions_handle_syscall syms interrupt polls imm x30 o = Ok None (set_sys (restored o (sys o)) o).
Proof.
  rewrite !not_elem_of_cons. intros (H1 & H2 & H3 & H4 & H5 & _). unfold exceptions_handle_syscall.
  rewrite (bind_ok _ _ _ _ _ (in_dev_mrs o ELR_EL1 eq_refl)), (bind_ok _ _ _ _ _ (in_dev_mrs o SPSR_EL1 eq_refl)).
  rewrite !(proj2 (Z.eqb_neq _ _)) by done. done.
Qed.

Context {live : kernel → gset Z → Prop} `{HeapService live}.

(** The return to the program with the state [s] of the kernel. *)
Definition returned (o : os) (s : system) : os :=
  let s := restored o s in set_sys (set_kern (set_mach (emit_event Eret (mach (kern s))) (kern s)) s) o.

Lemma returned_reg o s reg : sysregs (mach (kern s)) = sysregs (mach (kern (sys o))) →
  sysregs (mach (kern (sys (returned o s)))) reg = sysregs (mach (kern (sys o))) reg.
Proof. intros E. cbn. unfold set_reg. rewrite E. by repeat case_decide; subst. Qed.

Lemma inv_returned o s l used L : job_inv live s l used L → job_inv live (sys (returned o s)) l used L.
Proof. intros Hinv. by apply (inv_registers s l used L (mach (kern (sys (returned o s))))). Qed.

(** A call that leaves the frame alone returns with the registers it was made with. *)
Lemma svc_returns o imm g stack s r : length g = 31%nat → Forall is_u64 g → mapped (kram (kern (sys o))) (stack - 256) 256 →
  takes_svc o imm → r ≠ 0 →
  exceptions_handle_syscall syms interrupt polls imm (stack - 256) (pushed g stack o) =
    Ok (Some r) (set_sys (restored (pushed g stack o) s) (pushed g stack o)) →
  kram (kern s) = kram (kern (sys (pushed g stack o))) →
  loweraa64_svc syms interrupt polls g stack o = Ok g (returned (pushed g stack o) s).
Proof.
  intros Hg Hu Hm Hsvc Hr Hcall Hk. pose proof (distributor_svc (pushed g stack o) imm (stack - 256) Hsvc) as Hd.
  rewrite Hcall in Hd. unfold loweraa64_svc. eapply (entry_ok _ g stack o _ _ g Hg Hm eq_refl (Hd Hr)).
  apply (pop_pushed _ _ _ Hg Hu). change (kram (kern (sys (set_sys (restored (pushed g stack o) s) (pushed g stack o)))))
    with (kram (kern s)). rewrite Hk. apply bytes_at_put.
Qed.

(** The state after [svc 10] of the current job [c]. *)
Definition exited (g : list Z) (stack : Z) (o : os) (c : Z) (j : job) : os :=
  let o1 := pushed g stack o in returned o1 (set_jobs (<[c := set_status TERMINATED j]> (jobs (sys o))) (sys o1)).

Lemma exited_reg g stack o c j reg :
  sysregs (mach (kern (sys (exited g stack o c j)))) reg = sysregs (mach (kern (sys o))) reg.
Proof. exact (returned_reg (pushed g stack o) (set_jobs _ (sys (pushed g stack o))) reg eq_refl). Qed.

Lemma syscall_exit_run o c r used L stack g j : job_inv live (sys o) (c :: r) used L →
  length g = 31%nat → Forall is_u64 g → mapped (kram (kern (sys o))) (stack - 256) 256 →
  outside (sys o) (stack - 256) 256 → takes_svc o 10 → jobs (sys o) !! c = Some j →
  loweraa64_svc syms interrupt polls g stack o = Ok g (exited g stack o c j) ∧
    job_inv live (sys (exited g stack o c j)) (c :: r) used L.
Proof.
  intros Hinv Hg Hu Hm Hout Hsvc Hj. set (o1 := pushed g stack o).
  pose proof (inv_pushed o _ used L stack g Hinv Hout) as Hinv1.
  pose proof (job_terminate_run (sys o1) c r j (inv_ring _ _ _ _ _ Hinv) Hj) as Ht. split.
  - eapply (svc_returns o 10 g stack _ 1 Hg Hu Hm Hsvc); [done|by apply syscall_terminate|done].
  - apply inv_returned. by apply (inv_update live (sys o1) (c :: r) used L c j).
Qed.

(** C19: The system call 10 ends the program: the current job is marked, the ring and everything
    that the allocators promise stay intact, no other job changes, and the call returns with
    every register as it was - the program runs on until the next timer interrupt. *)
Theorem syscall_exit o c r used L stack g : job_inv live (sys o) (c :: r) used L →
  length g = 31%nat → Forall is_u64 g → mapped (kram (kern (sys o))) (stack - 256) 256 →
  outside (sys o) (stack - 256) 256 → takes_svc o 10 →
  ∃ o', loweraa64_svc syms interrupt polls g stack o = Ok g o' ∧
    job_inv live (sys o') (c :: r) used L ∧ status_of (sys o') c = Some TERMINATED ∧
    (∀ q, q ≠ c → status_of (sys o') q = status_of (sys o) q) ∧
    ∀ reg, sysregs (mach (kern (sys o'))) reg = sysregs (mach (kern (sys o))) reg.
Proof.
  intros Hinv Hg Hu Hm Hout Hsvc. pose proof (inv_ring _ _ _ _ _ Hinv) as Hring.
  destruct (ring_lookup (sys o) _ c Hring) as [j Hj]; [by left|].
  destruct (syscall_exit_run o c r used L stack g j Hinv Hg Hu Hm Hout Hsvc Hj) as [Hrun Hinv'].
  exists (exited g stack o c j). split; [exact Hrun|]. split; [exact Hinv'|]. unfold status_of. cbn [exited sys set_sys].
  split; [|split].
  - cbn. by rewrite lookup_insert_eq.
  - intros q Hq. cbn. by rewrite lookup_insert_ne.
  - apply exited_reg.
Qed.

(** *** The log call *)

(** A byte that a user address leads to, and a string in user memory. *)
Definition user_reads (mc : machine) (va c : Z) : Prop :=
  ∃ pa el0 read_only, mmu_translate mc va = Some (pa, el0, read_only) ∧ ram mc !! pa = Some (Some c).
Definition user_cstr (mc : machine) (va : Z) (s : list Z) : Prop :=
  (∀ i c, (s ++ [0]) !! i = Some c → user_reads mc (va + Z.of_nat i) c) ∧ Forall char_ok s.

Lemma user_loadb_ok mc va c : user_reads mc va c → user_loadb va mc = Ok c mc.
Proof.
  intros (pa & el0 & ro & Ht & Hc). unfold user_loadb. rewrite Ht.
  rewrite (on_ram_ok _ _ c (ram mc) (loadb_ok _ _ _ Hc)). by rewrite set_ram_id.
Qed.

Lemma user_chars_spec fuel mc va s : user_cstr mc va s → (length s < fuel)%nat → user_chars fuel va mc = Ok s mc.
Proof.
  revert fuel va. induction s as [|c s IH]; intros fuel va [Hr Hok] Hf; (destruct fuel as [|fuel]; [simpl in Hf; lia|]);
    cbn [user_chars]; pose proof (Hr 0%nat _ eq_refl) as H0; rewrite Z.add_0_r in H0;
    rewrite (bind_ok _ _ _ _ _ (user_loadb_ok _ _ _ H0)); [done|].
  apply Forall_cons in Hok as [Hc Hok]. unfold char_ok in Hc. rewrite (proj2 (Z.eqb_neq c 0)) by lia.
  rewrite (bind_ok _ _ _ s mc); [done|]. apply IH; [|simpl in Hf; lia]. split; [|done]. intros i d Hi.
  replace (va + 1 + Z.of_nat i) with (va + Z.of_nat (S i)) by lia. by apply Hr.
Qed.

Lemma user_string_spec mc va s : user_cstr mc va s → (length s ≤ size (ram mc))%nat → user_string va mc = Ok s mc.
Proof. intros Hs Hl. unfold user_string, ram_fuel. apply user_chars_spec; [done|lia]. Qed.

(** Local literals of this level around an output are those of the machine. *)
Lemma os_literal_dev {A} lit (f : Z → M machine A) o :
  os_literal lit (λ p, in_dev (f p)) o = in_dev (local_literal lit f) o.
Proof.
  unfold os_literal, local_literal, os_cells, local_cells, in_dev, in_k, in_sys, in_kernel, on_machine, zoom.
  unfold kram. cbn. by destruct (f _ _).
Qed.

Lemma os_literal_ext {A} lit (f f' : Z → M os A) o : (∀ p o', f p o' = f' p o') → os_literal lit f o = os_literal lit f' o.
Proof. intros E. unfold os_literal, os_cells. by rewrite E. Qed.

Definition log_line (job_name text : list Z) : list Z := chars "'" ++ job_name ++ chars "': '" ++ text ++ chars "'".

Lemma log_line_ok job_name text : Forall char_ok job_name → Forall char_ok text → Forall char_ok (log_line job_name text).
Proof. intros Hn Ht. unfold log_line. rewrite !Forall_app. split_and!; try done; by repeat constructor. Qed.

Lemma log_line_format rd n t : format rd (chars "'%s': '%s'") [n; t] = Some (log_line (rd n) (rd t), 6).
Proof. reflexivity. Qed.

Lemma log_line_spec mc job_name text : Forall char_ok job_name → Forall char_ok text → log_fits mc (log_line job_name text) →
  below (2 ^ 62) (ram mc) →
  local_literal job_name (λ n, local_literal text (λ t, klogf_lit (chars "'%s': '%s'") [n; t])) mc =
    Ok tt (mk_machine (ram mc) (sysregs mc) (log_events mc (log_line job_name text) ++ trace mc) (env mc)).
Proof.
  intros Hn Ht (Hf & H1 & H2 & H3) Hlow. pose proof H1 as Hlen. unfold log_line in Hlen. rewrite !length_app in Hlen.
  apply (local_literal_out (2 ^ 62)); [done|lia|done|]. intros n m1 Hcn _ Hpn Hb1.
  eapply (local_literal_out _ text _ (set_ram m1 mc)); [done| |exact Hb1|]; [unfold LOCAL_GAP; lia|].
  intros t m2 Hct Hk2 Hpt Hb2. cbn [ram set_ram] in Hk2. destruct (cstr_kept _ _ _ _ _ Hcn Hk2) as [Hcn2 Hnt].
  set (rd v := if v =? n then job_name else text).
  assert (rd n = job_name) as En by (unfold rd; by rewrite Z.eqb_refl).
  assert (rd t = text) as Et by (unfold rd; by rewrite (proj2 (Z.eqb_neq t n)) by lia).
  rewrite (klogf_lit_spec (set_ram m2 (set_ram m1 mc)) (chars "'%s': '%s'") [n; t] rd (log_line job_name text) 6); try done.
  - by repeat constructor.
  - by rewrite log_line_format, En, Et.
  - unfold LOCAL_GAP in *. apply Forall_cons. split; [lia|]. apply Forall_singleton. lia.
  - by apply log_line_ok.
  - change (string_args (chars "'%s': '%s'") [n; t]) with [n; t]. constructor; [by rewrite En|].
    apply Forall_singleton. by rewrite Et.
  - intros x Hx. specialize (Hb2 x Hx). unfold LOCAL_GAP in *. lia.
Qed.

(** A line that does not fit the arrays of the log. *)
Lemma log_line_stops mc job_name text : Forall char_ok job_name → Forall char_ok text → 1000000 ≤ u32 (sysregs mc CNTFRQ_EL0) →
  Z.of_nat (length job_name) ≤ 256 → Z.of_nat (length text) ≤ 256 → ¬ log_fits mc (log_line job_name text) → below (2 ^ 62) (ram mc) →
  stops (λ _, True) (local_literal job_name (λ n, local_literal text (λ t, klogf_lit (chars "'%s': '%s'") [n; t]))) mc.
Proof.
  intros Hn Ht Hf Hln Hlt Hlong Hlow. apply (stops_literal_low _ (2 ^ 62)); [done|lia|done|]. intros n m1 Hcn _ Hpn Hb1.
  eapply (stops_literal_low _ _ text _ (set_ram m1 mc)); [done| |exact Hb1|]; [unfold LOCAL_GAP; lia|].
  intros t m2 Hct Hk2 Hpt Hb2. cbn [ram set_ram] in Hk2. destruct (cstr_kept _ _ _ _ _ Hcn Hk2) as [Hcn2 Hnt].
  set (rd v := if v =? n then job_name else text).
  assert (rd n = job_name) as En by (unfold rd; by rewrite Z.eqb_refl).
  assert (rd t = text) as Et by (unfold rd; by rewrite (proj2 (Z.eqb_neq t n)) by lia).
  apply (klogf_lit_stops (set_ram m2 (set_ram m1 mc)) (chars "'%s': '%s'") [n; t] rd (log_line job_name text) 6); try done.
  - by repeat constructor.
  - by rewrite log_line_format, En, Et.
  - unfold LOCAL_GAP in *. apply Forall_cons. split; [lia|]. apply Forall_singleton. lia.
  - by apply log_line_ok.
  - change (string_args (chars "'%s': '%s'") [n; t]) with [n; t]. unfold INT_MAX. constructor; [rewrite En|apply Forall_singleton; rewrite Et];
      (split; [done|lia]).
Qed.

(** What the log call needs: a string in user memory, and room for the line. *)
Record log_call (g : list Z) (stack : Z) (o : os) (j : job) (text : list Z) : Prop := {
  lc_svc : takes_svc o 11;
  lc_job : jobs (sys o) !! current_job (sys o) = Some j;
  lc_name : Forall char_ok (name j);
  lc_text : user_cstr (mach (kern (sys (pushed g stack o)))) (gpr g 0) text;
  lc_fits : log_fits (mach (kern (sys o))) (log_line (name j) text);
  lc_low : below (2 ^ 62) (kram (kern (sys o)));
}.

(** The line is on the UART. *)
Definition log_printed (line : list Z) (s : system) : system :=
  let mc := mach (kern s) in
  set_kern (set_mach (mk_machine (ram mc) (sysregs mc) (log_events mc line ++ trace mc) (env mc)) (kern s)) s.
Definition logged (g : list Z) (stack : Z) (o : os) (j : job) (text : list Z) : os :=
  let o1 := pushed g stack o in returned o1 (log_printed (log_line (name j) text) (sys o1)).

Lemma load_reg0 g stack o : Forall is_u64 g →
  in_m (load64 (reg_address (stack - 256) 0)) (pushed g stack o) = Ok (gpr g 0) (pushed g stack o).
Proof.
  intros Hu. pose proof (load_frame_word (put_bytes (stack - 256) (words (frame_words g)) (kram (kern (sys o))))
    (stack - 256) (frame_words g) 30 (gpr g 0) (bytes_at_put _ _ _) (frame_words_u64 g Hu) eq_refl) as Hload.
  apply in_m_read. exact Hload.
Qed.

Lemma below_pushed B g stack o : 0 ≤ B → mapped (kram (kern (sys o))) (stack - 256) 256 → below B (kram (kern (sys o))) →
  below B (kram (kern (sys (pushed g stack o)))).
Proof.
  intros HB Hm Hlow x Hx. apply Hlow.
  change (kram (kern (sys (pushed g stack o)))) with (put_bytes (stack - 256) (words (frame_words g)) (kram (kern (sys o)))) in Hx.
  rewrite put_bytes_lookup in Hx. case_decide as Hin; [|exact Hx]. rewrite length_words in Hin. apply Hm. simpl in Hin. lia.
Qed.

(** The log call up to its output. *)
Lemma syscall_log_calls o x30 va j text : in_m (load64 (reg_address x30 0)) o = Ok va o →
  jobs (sys o) !! current_job (sys o) = Some j → user_cstr (mach (kern (sys o))) va text →
  (length text ≤ size (kram (kern (sys o))))%nat →
  exceptions_handle_syscall syms interrupt polls 11 x30 o =
    (in_dev (local_literal (name j) (λ n, local_literal text (λ t, klogf_lit (chars "'%s': '%s'") [n; t]))) ;;
     in_dev (msr ELR_EL1 (sysregs (mach (kern (sys o))) ELR_EL1)) ;;
     in_dev (msr SPSR_EL1 (sysregs (mach (kern (sys o))) SPSR_EL1)) ;; ret (Some 1)) o.
Proof.
  intros Hload Hj Htext Hsize. unfold exceptions_handle_syscall.
  rewrite (bind_ok _ _ _ _ _ (in_dev_mrs o ELR_EL1 eq_refl)), (bind_ok _ _ _ _ _ (in_dev_mrs o SPSR_EL1 eq_refl)).
  change (11 =? 10) with false. change (11 =? 11) with true. cbv iota.
  rewrite !bind_assoc, (bind_ok _ _ o (current_job (sys o)) o) by by destruct o as [[] ? ? ?].
  rewrite !bind_assoc, (bind_ok _ _ o j o).
  2:{ unfold in_sys, zoom. rewrite (get_job_ok (sys o) _ j Hj). by destruct o as [[] ? ? ?]. }
  rewrite !bind_assoc, (bind_ok _ _ _ _ _ Hload), !bind_assoc, (bind_ok _ _ o text o).
  2:{ rewrite (in_dev_ok _ _ text (mach (kern (sys o))) (user_string_spec _ _ _ Htext Hsize)). by destruct o as [[[] ? ? ? ? ? ? ?] ? ? ?]. }
  rewrite !bind_assoc. unfold bind at 1 4.
  rewrite (os_literal_ext _ _ (λ n, in_dev (local_literal text (λ t, klogf_lit (chars "'%s': '%s'") [n; t])))), os_literal_dev; [done|].
  intros n o'. apply os_literal_dev.
Qed.

Lemma syscall_log_handled o x30 va j text : in_m (load64 (reg_address x30 0)) o = Ok va o →
  jobs (sys o) !! current_job (sys o) = Some j → Forall char_ok (name j) → user_cstr (mach (kern (sys o))) va text →
  (length text ≤ size (kram (kern (sys o))))%nat → log_fits (mach (kern (sys o))) (log_line (name j) text) →
  below (2 ^ 62) (kram (kern (sys o))) →
  exceptions_handle_syscall syms interrupt polls 11 x30 o =
    Ok (Some 1) (set_sys (restored o (log_printed (log_line (name j) text) (sys o))) o).
Proof.
  intros Hload Hj Hname Htext Hsize Hfits Hlow. rewrite (syscall_log_calls o x30 va j text Hload Hj Htext Hsize).
  erewrite bind_ok; [|by apply in_dev_ok, log_line_spec; [|apply Htext|..]]. done.
Qed.

Lemma syscall_log_run g stack o j text : length g = 31%nat → Forall is_u64 g →
  mapped (kram (kern (sys o))) (stack - 256) 256 → log_call g stack o j text →
  loweraa64_svc syms interrupt polls g stack o = Ok g (logged g stack o j text).
Proof.
  intros Hg Hu Hm [Hsvc Hj Hname Htext Hfits Hlow]. set (o1 := pushed g stack o).
  apply (svc_returns o 11 g stack _ 1 Hg Hu Hm Hsvc); [done| |done].
  apply (syscall_log_handled o1 (stack - 256) (gpr g 0) j text).
  - by apply load_reg0.
  - exact Hj.
  - exact Hname.
  - exact Htext.
  - assert (mapped (kram (kern (sys o1))) (stack - 256) 256) as Hm1 by by apply mapped_put_bytes.
    apply mapped_size in Hm1. destruct Hfits as (_ & Hl & _). unfold log_line in Hl. rewrite !length_app in Hl. lia.
  - exact Hfits.
  - by apply below_pushed.
Qed.

(** A call that stops the kernel. *)
Lemma svc_faults o imm g stack e : length g = 31%nat → mapped (kram (kern (sys o))) (stack - 256) 256 → takes_svc o imm →
  exceptions_handle_syscall syms interrupt polls imm (stack - 256) (pushed g stack o) = Fault e →
  loweraa64_svc syms interrupt polls g stack o = Fault e.
Proof.
  intros Hg Hm Hsvc Hcall. pose proof (distributor_svc (pushed g stack o) imm (stack - 256) Hsvc) as Hd. rewrite Hcall in Hd.
  unfold loweraa64_svc, exception_entry. rewrite (bind_ok _ _ _ _ _ (in_m_ok _ _ _ _ (push_frame_spec g stack _ Hg Hm))).
  by apply bind_fault.
Qed.

Lemma syscall_log_stops g stack o j text : length g = 31%nat → Forall is_u64 g → mapped (kram (kern (sys o))) (stack - 256) 256 →
  takes_svc o 11 → jobs (sys o) !! current_job (sys o) = Some j → Forall char_ok (name j) → (length (name j) ≤ 256)%nat →
  user_cstr (mach (kern (sys (pushed g stack o)))) (gpr g 0) text → (length text ≤ 256)%nat →
  1000000 ≤ u32 (sysregs (mach (kern (sys o))) CNTFRQ_EL0) → ¬ log_fits (mach (kern (sys o))) (log_line (name j) text) →
  below (2 ^ 62) (kram (kern (sys o))) → ∃ a, loweraa64_svc syms interrupt polls g stack o = Fault (BadAddress a).
Proof.
  intros Hg Hu Hm Hsvc Hj Hname Hln Htext Hlt Hf Hlong Hlow. set (o1 := pushed g stack o).
  assert (mapped (kram (kern (sys o1))) (stack - 256) 256) as Hm1%mapped_size by by apply mapped_put_bytes.
  destruct (log_line_stops (mach (kern (sys o1))) (name j) text Hname (proj2 Htext) Hf ltac:(lia) ltac:(lia) Hlong) as (a & _ & Ha);
    [by apply below_pushed|]. exists a. apply (svc_faults o 11 g stack); [done..|].
  fold o1. rewrite (syscall_log_calls o1 (stack - 256) (gpr g 0) j text); [|by apply load_reg0|exact Hj|exact Htext|lia].
  apply bind_fault. by apply in_dev_fault.
Qed.

Lemma inv_logged o l used L stack g j text : job_inv live (sys o) l used L → outside (sys o) (stack - 256) 256 →
  job_inv live (sys (logged g stack o j text)) l used L.
Proof.
  intros Hinv Hout. pose proof (inv_pushed o _ used L stack g Hinv Hout) as Hinv1. apply inv_returned.
  by apply (inv_registers (sys (pushed g stack o))).
Qed.

Lemma uart_logged g stack o j text : let mc := mach (kern (sys o)) in
  uart_output (trace (mach (kern (sys (logged g stack o j text))))) =
    uart_output (trace mc) ++ klog_text (usec_now mc) (log_line (name j) text).
Proof.
  intros mc. change (trace (mach (kern (sys (logged g stack o j text))))) with
    (Eret :: Msr SPSR_EL1 (sysregs mc SPSR_EL1) :: Msr ELR_EL1 (sysregs mc ELR_EL1) ::
      (uart_events (klog_text (usec_now mc) (log_line (name j) text)) ++
        [Mrs_volatile CNTPCT_EL0 (u64 (env_reg (env mc) (trace mc) CNTPCT_EL0))]) ++ trace mc).
  cbn [uart_output]. rewrite <-app_assoc, uart_output_events. done.
Qed.

(** C33: The system call 11 prints the message of the program, under the name of its job, on the UART,
    when the line fits the arrays of the log; it changes no job, no register and no memory but
    the stack of the kernel. *)
Theorem syscall_log o l used L stack g j text : job_inv live (sys o) l used L →
  length g = 31%nat → Forall is_u64 g → mapped (kram (kern (sys o))) (stack - 256) 256 →
  outside (sys o) (stack - 256) 256 → log_call g stack o j text →
  ∃ o' mc, loweraa64_svc syms interrupt polls g stack o = Ok g o' ∧ mc = mach (kern (sys o')) ∧
    job_inv live (sys o') l used L ∧ jobs (sys o') = jobs (sys o) ∧
    (∀ reg, sysregs mc reg = sysregs (mach (kern (sys o))) reg) ∧
    (∀ a, ¬ (stack - 256 ≤ a < stack) → ram mc !! a = kram (kern (sys o)) !! a) ∧
    uart_output (trace mc) = uart_output (trace (mach (kern (sys o)))) ++
      klog_text (usec_now (mach (kern (sys o)))) (log_line (name j) text).
Proof.
  intros Hinv Hg Hu Hm Hout Hcall. exists (logged g stack o j text), (mach (kern (sys (logged g stack o j text)))).
  split; [by apply syscall_log_run|]. split; [done|]. split; [by apply inv_logged|]. split; [done|]. split; [|split].
  - intros reg. exact (returned_reg (pushed g stack o) (log_printed _ (sys (pushed g stack o))) reg eq_refl).
  - intros a Ha. change (ram (mach (kern (sys (logged g stack o j text))))) with
      (put_bytes (stack - 256) (words (frame_words g)) (kram (kern (sys o)))).
    apply put_bytes_outside. rewrite length_words. simpl. lia.
  - apply uart_logged.
Qed.

(** C29: A system call whose number is none of 10, 11, 20, 21 and 22 is undefined behaviour: the
    result is read although no case has set it. *)
Theorem syscall_unknown_undefined o imm stack g : length g = 31%nat → mapped (kram (kern (sys o))) (stack - 256) 256 →
  takes_svc o imm → imm ∉ [10; 11; 20; 21; 22] →
  loweraa64_svc syms interrupt polls g stack o = Fault (Uninitialised 0).
Proof.
  intros Hg Hm Hsvc Himm. set (o1 := pushed g stack o). pose proof (distributor_svc o1 imm (stack - 256) Hsvc) as Hd.
  rewrite (syscall_unknown _ _ _ Himm) in Hd. unfold loweraa64_svc, exception_entry.
  rewrite (bind_ok _ _ _ _ _ (in_m_ok _ _ _ _ (push_frame_spec g stack _ Hg Hm))).
  by rewrite (bind_fault _ _ _ _ Hd).
Qed.
End syscalls.

(** ** The file of a program *)

Lemma in_fs_ok {A} (m : M vfs A) o a v : m (os_vfs o) = Ok a v → in_fs m o = Ok a (set_vfs v o).
Proof. intros H. unfold in_fs, zoom. by rewrite H. Qed.

(** [o] with another state of the kernel below the jobs. *)
Definition with_kernel (k : kernel) (o : os) : os := set_vfs (set_fs_kernel k (os_vfs o)) o.

Lemma with_kernel_twice k k' o : with_kernel k (with_kernel k' o) = with_kernel k o.
Proof. done. Qed.

Lemma with_kernel_id o : with_kernel (kern (sys o)) o = o.
Proof. by destruct o as [[] ? ? ?]. Qed.

Section loading.
Variables (syms : symbols) (interrupt : M kernel unit) (polls : nat).
Context {image : Z → list Z} {ready ready' : nat → kernel → Z → Prop} {priv priv' : Z → Prop} {spc p : Z}
  `{Hbuf : !ReaderBuffer (kernel_block_read syms interrupt polls) image ready ready' priv priv' (512 * spc) p}.
Variables (b handle entry fat data n i fi : Z) (cs : list Z).
Hypothesis Hrange : 0 ≤ b < 2 ^ 64 ∧ 0 ≤ fat < 2 ^ 64 ∧ 0 ≤ data < 2 ^ 38 ∧ 0 < spc < 256.
Hypothesis Hpointers : 0 ≤ handle < 2 ^ 64 ∧ 0 ≤ entry < 2 ^ 64 ∧ 0 ≤ fi < 2 ^ 64.
Hypothesis Hsize : 0 ≤ n ≤ 512 * spc * Z.of_nat (length cs) ∧ n + 512 ≤ INT_MAX.

#[local] Abbreviation scratch := (scratch (priv := priv) (priv' := priv') (spc := spc) (p := p)).
#[local] Abbreviation fixed := (fixed handle entry fat i cs).
#[local] Abbreviation reading := (reading (image := image) (ready := ready) (spc := spc) (p := p) b handle entry fat data n i fi cs).
#[local] Abbreviation contents := (contents (image := image) (spc := spc) data n cs).
#[local] Abbreviation outside_file :=
  (outside_file (priv := priv) (priv' := priv') (spc := spc) (p := p) handle entry fat i fi cs).

Hypothesis Hinode : ∀ a, in_inode fi a → ¬ scratch a.
Hypothesis Hfixed : ∀ a, fixed a → ¬ scratch a ∧ ¬ in_inode fi a.
Hypothesis Hsyms : 0 ≤ FATFS_GET syms < 2 ^ 64.

(** A call through the inode. *)
Lemma wp_inode_get o ptr (Q : Z → os → Prop) : word_at 8 (kram (kern (sys o))) (i + inode_get) (FATFS_GET syms) →
  wp (fatfs_get (kernel_block_read syms interrupt polls) i ptr) (os_vfs o) (λ a v, Q a (set_vfs v o)) →
  wp (in_fs (fs_inode_get (kernel_files syms interrupt polls) i ptr)) o Q.
Proof.
  intros Hget HQ. apply wp_zoom. unfold fs_inode_get. apply wp_bind, (wp_intro _ _ (FATFS_GET syms) (os_vfs o)).
  { apply fs_m_read, (load_word_ok 8); [exact Hget|lia]. }
  unfold kernel_files at 1. cbn [call_get]. by rewrite Z.eqb_refl.
Qed.

(** The loop has read [pos] characters to [ptr]. *)
Record loading (r : nat) (o0 : os) (ptr pos : Z) (k : kernel) : Prop := {
  ld_reading : reading r k pos;
  ld_get : word_at 8 (kram k) (i + inode_get) (FATFS_GET syms);
  ld_dest : mapped (kram k) ptr n;
  ld_text : bytes_at (kram k) ptr (take (Z.to_nat pos) contents);
  ld_frame : ∀ a, ¬ scratch a → ¬ in_inode fi a → ¬ (ptr ≤ a < ptr + n) → kram k !! a = kram (kern (sys o0)) !! a;
}.

Lemma loading_step r o0 ptr pos k k' ch : loading r o0 ptr pos k → 0 ≤ pos < n →
  (∀ a, ptr ≤ a < ptr + n → outside_file a) →
  contents !! Z.to_nat pos = Some ch → reading r k' (pos + 1) → kram k' !! (ptr + pos) = Some (Some ch) →
  (∀ a, ¬ scratch a → ¬ in_inode fi a → a ≠ ptr + pos → kram k' !! a = kram k !! a) → loading r o0 ptr (pos + 1) k'.
Proof.
  intros [Hr Hg Hd Ht Hfr] Hpos Hout Hch Hr' Hptr Hsame. split.
  - exact Hr'.
  - eapply bytes_at_agree; [exact Hg|]. intros a Ha. rewrite length_le_bytes in Ha.
    assert (fixed a) as Hfx by (right; right; unfold inode_get, sizeof_inode in *; lia).
    destruct (Hfixed a Hfx). apply Hsame; [done|done|]. intros ->.
    by destruct (Hout (ptr + pos) ltac:(lia)) as (_ & Hnf & _).
  - intros a Ha. destruct (Hout a Ha) as (H1 & _ & H3). destruct (decide (a = ptr + pos)) as [->|Hne]; [by eexists|].
    rewrite Hsame by done. by apply Hd.
  - replace (Z.to_nat (pos + 1)) with (S (Z.to_nat pos)) by lia. rewrite (take_S_r _ _ _ Hch).
    apply lookup_lt_Some in Hch as Hlt. apply bytes_at_app. rewrite length_take.
    replace (ptr + Z.of_nat (Z.to_nat pos `min` length contents)) with (ptr + pos) by lia. split.
    + eapply bytes_at_agree; [exact Ht|]. intros a Ha. rewrite length_take in Ha.
      destruct (Hout a ltac:(lia)) as (H1 & _ & H3). apply Hsame; [done|done|lia].
    + apply bytes_at_cons. split; [done|apply bytes_at_nil].
  - intros a H1 H2 H3. rewrite Hsame by (done || lia). by apply Hfr.
Qed.

Lemma read_all_spec r o ptr : loading r o ptr 0 (kern (sys o)) → (∀ a, ptr ≤ a < ptr + n → outside_file a) →
  ∃ k, read_all syms interrupt polls i ptr o = Ok (ptr + n) (with_kernel k o) ∧ loading r o ptr n k.
Proof.
  intros Hl Hout. cut (wp (read_all syms interrupt polls i ptr) o (λ e o', e = ptr + n ∧
    ∃ k, o' = with_kernel k o ∧ loading r o ptr n k)).
  { intros (e & o' & H & -> & k & -> & Hk)%wp_ok. by exists k. }
  pose proof (mapped_size _ _ _ (ld_dest _ _ _ _ _ Hl)) as Hfuel. unfold read_all, wp at 1.
  apply (wp_loop (λ q o', ∃ pos k, q = ptr + pos ∧ 0 ≤ pos ≤ n ∧ o' = with_kernel k o ∧ loading r o ptr pos k)
    (λ q, Z.to_nat (ptr + n - q))).
  - intros q o' (pos & k & -> & Hpos & -> & Hk). apply wp_bind, wp_inode_get; [apply Hk|].
    destruct (Z.eq_dec pos n) as [->|Hne].
    + assert (fatfs_get (kernel_block_read syms interrupt polls) i (ptr + n) (os_vfs (with_kernel k o)) =
        Ok 0 (os_vfs (with_kernel k o))) as E.
      { eapply fatfs_get_end; [exact Hpointers|exact Hsize|apply Hk|lia|lia]. }
      apply (wp_intro _ _ _ _ _ E). apply wp_ret. split; [done|]. by exists k.
    + eapply wp_fatfs_get; [exact Hrange|exact Hpointers|exact Hsize|exact Hinode|exact Hfixed|apply Hk|lia| |apply Hout; lia|].
      { apply mapped_weaken with ptr n; [apply Hk|lia|lia]. }
      intros ch k' Hch Hr' Hptr Hsame. apply wp_ret. split; [|lia]. exists (pos + 1), k'.
      split; [lia|]. split; [lia|]. split; [done|]. apply (loading_step r o ptr pos k k' ch); [exact Hk|lia|exact Hout|exact Hch|exact Hr'|exact Hptr|exact Hsame].
  - exists 0, (kern (sys o)). rewrite Z.add_0_r, with_kernel_id. split_and!; [done|lia|lia|done|done].
  - lia.
Qed.
End loading.

Section from_disk.
Context {interrupt : M kernel unit} {image : Z → list Z} {g : geometry}
  `{!VirtioDevice interrupt (handler g) (io g) (dt g) (av g) (us g) image}.
Variables (syms : symbols) (polls : nat).
Hypothesis Hpolls : (2 ≤ polls)%nat.
Hypothesis Hread : READ g = DISK_BLOCK_READ syms.
Hypothesis Hhandler : handler g = DISK_HANDLER syms.
Hypothesis Hget : 0 ≤ FATFS_GET syms < 2 ^ 64.

Lemma kernel_blocks_read : kernel_blocks syms interrupt polls (READ g) = Some (disk_block_read (handler g) interrupt polls).
Proof. unfold kernel_blocks. by rewrite Hread, Hhandler, Z.eqb_refl. Qed.

(** C6: The loop of [job_create_from_file] loads the whole file of a program from the disk: the
    calls go through the table of the inode to the FAT file, which fills its buffer block by
    block, each time with a cluster in memory of the heap, which the driver reads from the device
    sector by sector; the [n] characters of the file are at [ptr], nothing else changes but the
    inode and what belongs to the driver and the heap, and the file is at its end. *)
Theorem program_file_loaded h' ss' f' sp' spc p b handle entry fat data n i fi cs r o ptr
    (k := kern (sys o)) (g' := with_heap h' ss' f' sp' g)
    (scratch_ := scratch (priv := private g) (priv' := private g') (spc := spc) (p := p))
    (contents_ := contents (image := image) (spc := spc) data n cs) :
  lends g h' ss' f' sp' (512 * spc) p →
  0 ≤ b < 2 ^ 64 ∧ 0 ≤ fat < 2 ^ 64 ∧ 0 ≤ data < 2 ^ 38 ∧ 0 < spc < 256 →
  0 ≤ handle < 2 ^ 64 ∧ 0 ≤ entry < 2 ^ 64 ∧ 0 ≤ fi < 2 ^ 64 →
  0 ≤ n ≤ 512 * spc * Z.of_nat (length cs) ∧ n + 512 ≤ INT_MAX →
  (∀ a, in_inode fi a → ¬ scratch_ a) → (∀ a, fixed handle entry fat i cs a → ¬ scratch_ a ∧ ¬ in_inode fi a) →
  reading (image := image) (ready := disk_ready g) (spc := spc) (p := p) b handle entry fat data n i fi cs r k 0 →
  word_at 8 (kram k) (i + inode_get) (FATFS_GET syms) → mapped (kram k) ptr n →
  (∀ a, ptr ≤ a < ptr + n → ¬ scratch_ a ∧ ¬ fixed handle entry fat i cs a ∧ ¬ in_inode fi a) →
  ∃ k', read_all syms interrupt polls i ptr o = Ok (ptr + n) (with_kernel k' o) ∧
    bytes_at (kram k') ptr contents_ ∧ length contents_ = Z.to_nat n ∧
    (∀ a, ¬ scratch_ a → ¬ in_inode fi a → ¬ (ptr ≤ a < ptr + n) → kram k' !! a = kram k !! a) ∧
    reading (image := image) (ready := disk_ready g) (spc := spc) (p := p) b handle entry fat data n i fi cs r k' n.
Proof.
  intros Hlends Hrange Hpointers Hsize Hinode Hfixed Hreading Hw Hdest Hout.
  pose proof (disk_reader_buffer g h' ss' f' sp' (512 * spc) p Hlends polls _ Hpolls kernel_blocks_read) as Hbuf.
  destruct (read_all_spec syms interrupt polls b handle entry fat data n i fi cs Hrange Hpointers Hsize Hinode Hfixed
    Hget r o ptr) as (k' & Hrun & [Hr _ _ Ht Hfr]); [|exact Hout|].
  { split; [done|done|done|apply bytes_at_nil|done]. }
  pose proof (length_contents (image := image) (spc := spc) data n cs ltac:(lia) ltac:(lia)) as Hlen.
  exists k'. split; [exact Hrun|]. rewrite take_ge in Ht by (unfold contents_ in *; lia). by split_and!.
Qed.
End from_disk.

(** * Witnesses *)

(** The two jobs of [demo_switch], with the scheduler as the handler of interrupt 30. *)
Definition demo_symbols : symbols := mk_symbols 0x1000 0 0 0 0 0 0 0 0 0 0 0 0.
Definition demo_os : os :=
  let k := kern demo_switch in
  mk_os (set_kern (mk_kernel
      (mk_machine (ram (mach k)) (sysregs (mach k)) [] (mk_environment (λ _ _, 0) (λ _ _, 30)))
      (main_heap k) (mk_gic_table (replicate 30 0 ++ [0x1000]) (replicate 31 0))) demo_switch)
    (mk_slab 0 0 0 0) 0 0.

Lemma demo_os_inv : job_inv heap_live (sys demo_os) [4744; 5136] {[0; 1]} {[0x2000; 0x3000; 0x4000]}.
Proof. pose proof demo_switch_inv as []. by split. Qed.

Lemma timer_interrupt_witness :
  ∃ o', loweraa64_fiq demo_symbols demo_regs 0x8100 demo_os = Ok (<[1%nat := 101]> (replicate 31 0)) o' ∧
    current_job (sys o') = 5136 ∧ sysregs (mach (kern (sys o'))) TTBR0_EL1 = 0x6000.
Proof.
  destruct (timer_interrupt demo_symbols demo_os 4744 [5136] [] 5136 [4744] {[0; 1]} {[0x2000; 0x3000; 0x4000]}
    0x8100 demo_regs (demo_job SLEEPING 0x2000 5136) (demo_job RUNNING 0x3000 4744) (replicate 31 0)
    (mk_paging_manager 0x6000 demo_job_slab) 0 demo_os_inv)
    as (o' & used' & L' & H & Hc & _ & _ & _ & Httbr).
  - reflexivity.
  - apply Forall_nil_2.
  - reflexivity.
  - reflexivity.
  - reflexivity.
  - reflexivity.
  - exact demo_regs_u64.
  - apply mapped_put_self. simpl. lia.
  - split; right; simpl; lia.
  - reflexivity.
  - reflexivity.
  - done.
  - reflexivity.
  - reflexivity.
  - reflexivity.
  - apply Forall_replicate. unfold is_u64. lia.
  - reflexivity.
  - exists o'. split; [exact H|]. split; [exact Hc|exact Httbr].
Defined.

(** [svc 10] of the current job. *)
Definition demo_svc (imm : Z) : os :=
  let k := kern demo_switch in
  mk_os (set_kern (set_mach (mk_machine (ram (mach k)) (set_reg ESR_EL1 (Z.shiftl 21 26 + imm) (λ _, 0)) []
    (mk_environment (λ _ _, 0) (λ _ _, 0))) k) demo_switch) (mk_slab 0 0 0 0) 0 0.

Lemma demo_svc_inv imm : job_inv heap_live (sys (demo_svc imm)) [4744; 5136] {[0; 1]} {[0x2000; 0x3000; 0x4000]}.
Proof. pose proof demo_switch_inv as []. by split. Qed.

Lemma syscall_exit_witness :
  ∃ o', loweraa64_svc demo_symbols (ret tt) 0 demo_regs 0x8100 (demo_svc 10) = Ok demo_regs o' ∧
    status_of (sys o') 4744 = Some TERMINATED.
Proof.
  destruct (syscall_exit demo_symbols (ret tt) 0 (demo_svc 10) 4744 [5136] {[0; 1]} {[0x2000; 0x3000; 0x4000]}
    0x8100 demo_regs (demo_svc_inv 10)) as (o' & H & _ & Hst & _).
  - reflexivity.
  - exact demo_regs_u64.
  - apply mapped_put_self. simpl. lia.
  - split; right; simpl; lia.
  - split; reflexivity.
  - exists o'. split; [exact H|exact Hst].
Defined.

(** [svc 11] with a message at 0x9000; the clock runs at 62.5 MHz. *)
Definition demo_log_os : os :=
  let k := kern demo_switch in
  mk_os (set_kern (set_mach (mk_machine (put_bytes 0x9000 (chars "hey" ++ [0]) (ram (mach k)))
    (set_reg CNTFRQ_EL0 62500000 (set_reg ESR_EL1 (Z.shiftl 21 26 + 11) (λ _, 0))) []
    (mk_environment (λ _ _, 0) (λ _ _, 6250000))) k) demo_switch) (mk_slab 0 0 0 0) 0 0.
Definition demo_log_regs : list Z := <[0%nat := 0x9000]> demo_regs.

Lemma demo_log_inv : job_inv heap_live (sys demo_log_os) [4744; 5136] {[0; 1]} {[0x2000; 0x3000; 0x4000]}.
Proof.
  apply (inv_machine demo_switch _ _ _ _ 0x9000 (chars "hey" ++ [0]) demo_switch_inv); [|done].
  split; right; simpl; lia.
Qed.

Lemma demo_log_call : log_call demo_log_regs 0x8100 demo_log_os (demo_job SLEEPING 0x2000 5136) (chars "hey").
Proof.
  split.
  - split; reflexivity.
  - reflexivity.
  - by repeat constructor.
  - split; [|by repeat constructor]. intros i c Hi. eexists _, _, _. split; [reflexivity|].
    assert (bytes_at (put_bytes 0x8000 (words (frame_words demo_log_regs)) (kram (kern (sys demo_log_os)))) 0x9000 (chars "hey" ++ [0])) as Hb.
    { apply bytes_at_put_ne; [apply bytes_at_put|]. simpl. lia. }
    exact (bytes_at_lookup _ _ _ _ _ Hb Hi).
  - split; [vm_compute; discriminate|]. repeat split; apply Nat.leb_le; vm_compute; reflexivity.
  - change (below (2 ^ 62) (put_bytes 0x9000 (chars "hey" ++ [0]) (put_bytes 0x8000 demo_frame demo_ram))).
    unfold demo_ram. peel_below.
Qed.

Lemma syscall_log_witness : ∃ o',
  loweraa64_svc demo_symbols (ret tt) 0 demo_log_regs 0x8100 demo_log_os = Ok demo_log_regs o' ∧
  uart_output (trace (mach (kern (sys o')))) = chars "[100806] 'demo': 'hey'" ++ [10].
Proof.
  destruct (syscall_log demo_symbols (ret tt) 0 demo_log_os [4744; 5136] {[0; 1]} {[0x2000; 0x3000; 0x4000]} 0x8100
    demo_log_regs (demo_job SLEEPING 0x2000 5136) (chars "hey") demo_log_inv) as (o' & mc & H & -> & _ & _ & _ & _ & Ht).
  - reflexivity.
  - apply Forall_insert; [exact demo_regs_u64|]. unfold is_u64. lia.
  - apply mapped_put_bytes, mapped_put_self. simpl. lia.
  - split; right; simpl; lia.
  - exact demo_log_call.
  - exists o'. split; [exact H|]. rewrite Ht. vm_compute. reflexivity.
Defined.

Lemma syscall_unknown_undefined_witness :
  loweraa64_svc demo_symbols (ret tt) 0 demo_regs 0x8100 (demo_svc 12) = Fault (Uninitialised 0).
Proof.
  apply (syscall_unknown_undefined demo_symbols (ret tt) 0 (demo_svc 12) 12).
  - reflexivity.
  - apply mapped_put_self. simpl. lia.
  - split; reflexivity.
  - rewrite !not_elem_of_cons. repeat split; try lia. apply not_elem_of_nil.
Defined.

(** The file of the witnesses of Fat.v, open: its inode at 20000, [struct fat_inode] at 21000, a
    buffer in the first block of the heap. *)
Definition demo_load_symbols : symbols := mk_symbols 0x1000 88 77 0 66 0 0 0 0 0 0 0 0.
Definition demo_load_ram : mem :=
  put_bytes 20000 (le_bytes 8 21000) $ put_bytes 20008 (le_bytes 8 66) $
  put_bytes 21000 (le_bytes 8 6000) $ put_bytes 21008 (le_bytes 8 1000) $
  put_bytes 21528 (le_bytes 4 0) $ put_bytes 21532 (le_bytes 4 (u32 (-1))) $
  put_cells 20000 (replicate 40 None) $ put_cells 21000 (replicate 536 None) $
  put_cells 131088 (replicate 496 None) demo_disk_ram.
Definition demo_load_kernel : kernel :=
  mk_kernel (mk_machine demo_load_ram (λ _, 0) [] (mk_environment (λ _ _, 0) (λ _ _, 0)))
    (mk_heap 131072 120000 4 4) (mk_gic_table (replicate 100 0) (replicate 100 0)).
Definition demo_load_os : os := mk_os (set_kern demo_load_kernel demo_system) (mk_slab 0 0 0 0) 0 0.

Definition demo_lent_heap : heap := mk_heap 131072 120000 4 3.
Definition demo_lent : geometry := with_heap demo_lent_heap [Used 1; Free; Free; Free] 1 (0, 0) demo_geometry.

Ltac geometry_cases := unfold within; simpl extent;
  unfold sizeof_avail, sizeof_used, sizeof_sync, sy, QUEUE_SIZE; simpl.

Lemma demo_lent_ok : geometry_ok demo_lent.
Proof.
  split; cbn; try lia.
  - intros [] [] a; try done; geometry_cases; intros ? ?; exfalso; lia.
  - by eexists.
Qed.

Lemma demo_lends : lends demo_geometry demo_lent_heap [Used 1; Free; Free; Free] 1 (0, 0) (512 * 1) 131072.
Proof.
  split; [exact demo_geometry_ok|exact demo_lent_ok|lia|by exists 0%nat|done|done|done|done|done|..].
  - intros a Ha [[] Hp]; revert Hp; geometry_cases; lia.
  - intros a [Ha|Ha]; revert Ha; geometry_cases; intros Ha; [|lia]. exists Spare. revert Ha. geometry_cases. lia.
  - intros a [Ha|Ha]; revert Ha; geometry_cases; intros Ha; [left; lia|]. right. exists Sync. geometry_cases. lia.
Qed.

(** What the demonstration disk does not own. *)
Lemma demo_scratch_free a : 1000 ≤ a < 100000 →
  ¬ scratch (priv := private demo_geometry) (priv' := private demo_lent) (spc := 1) (p := 131072) a.
Proof. intros Ha [[[] Hp]|[[[] Hp]|Hp]]; try lia; revert Hp; geometry_cases; lia. Qed.

Lemma demo_load_agree a : private demo_geometry a → demo_load_ram !! a = demo_disk_ram !! a.
Proof.
  intros Ha. assert (100000 ≤ a < 131088 ∨ 135168 ≤ a) as Hrange.
  { destruct Ha as [[] Hp]; revert Hp; geometry_cases; lia. }
  unfold demo_load_ram. rewrite !put_bytes_outside by (rewrite length_le_bytes; lia).
  rewrite !put_cells_lookup, !length_replicate, !decide_False by lia. reflexivity.
Qed.

(** The equations go through the value: the two memories are never compared. *)
Lemma demo_load_ready r : (r ≤ 1024)%nat → disk_ready demo_geometry r demo_load_kernel 100000.
Proof.
  intros Hr. apply (disk_ready_agree demo_geometry 2 (le_n 2) r demo_disk_kernel).
  - by apply demo_disk_ready.
  - exact demo_load_agree.
  - by transitivity (mk_heap 131072 120000 4 4).
  - transitivity (length (replicate 100 0)); reflexivity.
  - transitivity (length (replicate 100 0)); reflexivity.
Qed.

Ltac open_load :=
  change (kram (kern (sys demo_load_os))) with demo_load_ram; unfold demo_load_ram, demo_disk_ram, demo_fat_ram.

Lemma demo_reading : reading (image := demo_disk) (ready := disk_ready demo_geometry) (spc := 1) (p := 131072)
  100000 1000 6000 5000 1024 600 20000 21000 [2; 4] 1000 (kern (sys demo_load_os)) 0.
Proof.
  unfold reading. split.
  - apply demo_load_ready. vm_compute. lia.
  - open_load. peel_below.
  - intros a Ha. destruct (Z.lt_ge_cases a 131088).
    + assert (mapped demo_load_ram 131072 16) as Hm; [|apply Hm; lia]. open_load. peel_mapped.
    + assert (mapped demo_load_ram 131088 496) as Hm; [|apply Hm; lia]. open_load. peel_mapped.
  - repeat split; word_of open_load.
  - split; [lia|]. split; [word_of open_load|].
    split; [lia|]. split; [word_of open_load|done].
  - word_of open_load.
  - word_of open_load.
  - word_of open_load.
  - word_of open_load.
  - word_of open_load.
  - range_of open_load.
  - split; [word_of open_load|unfold INT_MIN, INT_MAX; lia].
  - change ((0 - 1) / 512) with (-1). split; [word_of open_load|unfold INT_MIN, INT_MAX; lia].
  - lia.
Qed.

Lemma program_file_loaded_witness : ∃ k',
  read_all demo_load_symbols (demo_interrupt 101000) 2 20000 8000 demo_load_os =
    Ok 8600 (with_kernel k' demo_load_os) ∧
  bytes_at (kram k') 8000 (contents (image := demo_disk) (spc := 1) 1024 600 [2; 4]).
Proof.
  assert (∀ a, fixed 1000 6000 5000 20000 [2; 4] a → 1000 ≤ a < 20040 ∧ ¬ (8000 ≤ a < 8600)) as Hfixed.
  { intros a [[Ha|(c & Hc & Ha)]|[Ha|Ha]]; unfold sizeof_fat_handle, sizeof_inode in *; try lia.
    apply elem_of_cons in Hc as [->|[->|[]%elem_of_nil]%elem_of_cons]; lia. }
  destruct (program_file_loaded (VirtioDevice0 := demo_device 88 0xa003e00 101000 102000 105000) (g := demo_geometry)
    demo_load_symbols 2 (le_n 2) eq_refl eq_refl ltac:(simpl; lia) demo_lent_heap [Used 1; Free; Free; Free] 1 (0, 0)
    1 131072 100000 1000 6000 5000 1024 600 20000 21000 [2; 4] 1000 demo_load_os 8000 demo_lends)
    as (k' & H & Ht & _).
  - lia.
  - lia.
  - unfold INT_MAX. simpl. lia.
  - intros a Ha. apply demo_scratch_free. unfold in_inode, sizeof_fat_inode in Ha. lia.
  - intros a Ha%Hfixed. split; [apply demo_scratch_free; lia|]. unfold in_inode, sizeof_fat_inode. lia.
  - exact demo_reading.
  - word_of open_load.
  - apply mapped_weaken with 8000 1024; [range_of open_load|lia|lia].
  - intros a Ha. split; [apply demo_scratch_free; lia|]. split; [intros Hf%Hfixed; lia|].
    unfold in_inode, sizeof_fat_inode. lia.
  - exists k'. split; [exact H|exact Ht].
Defined.
