(* ===== verification/LoadProgram.v ===== *)
(** * A program in its address space (job_create_from_file of kernel/mp/job.c)

    [job_load_program] is the part of [job_create_from_file] between the parsing of the file and
    the new job: the address space is built, becomes active, receives the program through the MMU
    and makes way for the old one. *)
From stdpp Require Import base list gmap.
From Stdlib Require Import ZArith Lia.
From S2P Require Import Prelude Memory CString Heap Slab Machine Log Gic Kernel Paging Job AddressSpace Sched Elf.
From S2P Require Import Virtio Fat FatPart Disk Fs RamFs FatFs Exceptions.

(** * Lemmas *)

(** ** Copying through the MMU *)

(** The bytes [bs] at the physical addresses [pa 0], [pa 1], ... *)
Definition scattered (m : mem) (pa : nat → Z) (bs : list Z) : Prop := ∀ i b, bs !! i = Some b → m !! pa i = Some (Some b).
Definition same_outside (pa : nat → Z) (n : nat) (m m' : mem) : Prop := ∀ a, (∀ i, (i < n)%nat → a ≠ pa i) → m' !! a = m !! a.

Lemma user_copy_spec mc dest src bs pa :
  (∀ m, same_outside pa (length bs) (ram mc) m → ∀ i, (i < length bs)%nat →
    mmu_translate (set_ram m mc) (dest + Z.of_nat i) = Some (pa i, true, false)) →
  bytes_at (ram mc) src bs → Forall byte_range bs →
  (∀ i j, (i < length bs)%nat → (j < length bs)%nat → pa i = pa j → i = j) →
  (∀ i, (i < length bs)%nat → is_Some (ram mc !! pa i)) →
  (∀ i, (i < length bs)%nat → ¬ (src ≤ pa i < src + Z.of_nat (length bs))) →
  ∃ m', user_copy (Z.of_nat (length bs)) dest src mc = Ok tt (set_ram m' mc) ∧
    scattered m' pa bs ∧ same_outside pa (length bs) (ram mc) m'.
Proof.
  intros Hmmu Hsrc Hr Hinj Hmap Hdis.
  assert (wp (user_copy (Z.of_nat (length bs)) dest src) mc (λ _ t, ∃ m', t = set_ram m' mc ∧
    scattered m' pa bs ∧ same_outside pa (length bs) (ram mc) m')) as Hwp.
  2: { apply wp_ok in Hwp as ([] & t & Hrun & m' & -> & H1 & H2). by exists m'. }
  pose proof (mapped_size _ _ _ (bytes_at_mapped _ _ _ Hsrc)) as Hsize. unfold user_copy, ram_fuel.
  apply (wp_loop (λ '(n, d, sr) t, ∃ i m, (i ≤ length bs)%nat ∧ n = Z.of_nat (length bs - i) ∧
      d = dest + Z.of_nat i ∧ sr = src + Z.of_nat i ∧ t = set_ram m mc ∧
      scattered m pa (take i bs) ∧ same_outside pa i (ram mc) m)
    (λ '(n, _, _), Z.to_nat n)).
  - intros [[n d] sr] t (i & m & Hi & -> & -> & -> & -> & Hdone & Hout).
    destruct (decide (i = length bs)) as [->|Hne].
    + rewrite (proj2 (Z.ltb_ge _ _)) by lia. apply wp_ret. exists m. by rewrite take_ge in Hdone by lia.
    + rewrite (proj2 (Z.ltb_lt _ _)) by lia. destruct (lookup_lt_is_Some_2 bs i) as [b Hb]; [lia|].
      assert (same_outside pa (length bs) (ram mc) m) as Hall.
      { intros a Ha. apply Hout. intros k Hk. apply Ha. lia. }
      assert (m !! (src + Z.of_nat i) = Some (Some b)) as Hc.
      { rewrite Hall; [by apply (bytes_at_lookup _ _ _ _ _ Hsrc Hb)|]. intros k Hk E. apply (Hdis k Hk). lia. }
      assert (is_Some (m !! pa i)) as Hpa.
      { rewrite Hout; [apply Hmap; lia|]. intros k Hk E. apply Hinj in E; lia. }
      apply wp_bind, (wp_intro _ _ _ _ _ (on_ram_ok _ (set_ram m mc) _ _ (loadb_ok _ _ _ Hc) :
        on_ram (loadb (src + Z.of_nat i)) (set_ram m mc) = Ok b (set_ram m mc))).
      apply wp_bind. eapply wp_intro.
      { unfold user_storeb. rewrite (Hmmu m Hall i) by lia.
        apply (on_ram_ok _ (set_ram m mc)). by apply storeb_ok. }
      apply wp_ret. split; [|lia]. exists (S i), (<[pa i := Some b]> m).
      assert (u8 b = b) as -> by (apply u8_small; by apply (Forall_lookup_1 _ _ _ _ Hr Hb)).
      do 4 (split; [lia|]). split; [done|]. split.
      * intros k c Hk. destruct (decide (k = i)) as [->|Hki].
        -- rewrite (take_S_r _ _ _ Hb), lookup_app_r, length_take, Nat.min_l, Nat.sub_diag in Hk by (rewrite ?length_take; lia).
           injection Hk as ->. apply lookup_insert_eq.
        -- pose proof (lookup_lt_Some _ _ _ Hk) as Hlt. rewrite length_take in Hlt.
           rewrite lookup_insert_ne; [apply Hdone; by rewrite !lookup_take_lt in * by lia|].
           intros E. apply Hinj in E; lia.
      * intros a Ha. rewrite lookup_insert_ne by (intros <-; by apply (Ha i); [lia|]). apply Hout. intros k Hk. apply Ha. lia.
  - exists O, (ram mc). split; [lia|]. split; [f_equal; lia|]. do 2 (split; [lia|]). split; [by rewrite set_ram_id|].
    split; [|done]. intros k b. by rewrite take_0, lookup_nil.
  - lia.
Qed.

(** ** The pages of a space *)

(** The physical address of byte [i] of the space of a program. *)
Definition page_address (us : slab) (slots : list Z) (i : nat) : Z :=
  slot_address us (nth (Z.to_nat (Z.of_nat i / 4096)) slots 0) + Z.of_nat i mod 4096.

Lemma page_offset i (slots : list Z) : Z.of_nat i < 4096 * Z.of_nat (length slots) →
  (Z.to_nat (Z.of_nat i / 4096) < length slots)%nat ∧ 0 ≤ Z.of_nat i mod 4096 < 4096.
Proof. intros Hi. pose proof (Z.div_mod (Z.of_nat i) 4096). pose proof (Z.mod_pos_bound (Z.of_nat i) 4096). lia. Qed.

Lemma page_slot i (slots : list Z) : Z.of_nat i < 4096 * Z.of_nat (length slots) →
  slots !! Z.to_nat (Z.of_nat i / 4096) = Some (nth (Z.to_nat (Z.of_nat i / 4096)) slots 0).
Proof. intros Hi. by destruct (nth_lookup_or_length slots (Z.to_nat (Z.of_nat i / 4096)) 0); [|pose proof (page_offset i slots Hi); lia]. Qed.

Lemma page_translates us slots i : Z.of_nat i < 4096 * Z.of_nat (length slots) →
  space_map us slots (JOB_BASE_USER + Z.of_nat i) = Some (page_address us slots i, true, false).
Proof.
  intros Hi. unfold space_map. rewrite decide_False by lia.
  replace (JOB_BASE_USER + Z.of_nat i - JOB_BASE_USER) with (Z.of_nat i) by lia. rewrite page_slot by done. cbn.
  unfold page_address, JOB_BASE_USER. replace (0x80000000 + Z.of_nat i) with (Z.of_nat i + 0x80000 * 4096) by lia.
  by rewrite Z_mod_plus_full.
Qed.

Lemma page_inside us slots i : object_size us = 4096 → (∀ n, n ∈ slots → 0 ≤ n < max_store us) →
  Z.of_nat i < 4096 * Z.of_nat (length slots) →
  slot_address us 0 ≤ page_address us slots i < slot_address us 0 + 4096 * max_store us.
Proof.
  intros Ho Hslots Hi. pose proof (page_offset i slots Hi) as [_ Hm].
  specialize (Hslots _ (list_elem_of_lookup_2 _ _ _ (page_slot i slots Hi))). unfold page_address, slot_address. rewrite Ho. lia.
Qed.

Lemma page_injective us slots i j : object_size us = 4096 → NoDup slots →
  Z.of_nat i < 4096 * Z.of_nat (length slots) → Z.of_nat j < 4096 * Z.of_nat (length slots) →
  page_address us slots i = page_address us slots j → i = j.
Proof.
  intros Ho Hnd Hi Hj. pose proof (page_offset i slots Hi) as [Hli Hmi]. pose proof (page_offset j slots Hj) as [Hlj Hmj].
  unfold page_address, slot_address. rewrite Ho. intros E.
  pose proof (page_slot i slots Hi) as Hsi. pose proof (page_slot j slots Hj) as Hsj.
  assert (nth (Z.to_nat (Z.of_nat i / 4096)) slots 0 = nth (Z.to_nat (Z.of_nat j / 4096)) slots 0) as En by lia.
  rewrite En in Hsi. pose proof (NoDup_lookup _ _ _ _ Hnd Hsi Hsj).
  pose proof (Z.div_mod (Z.of_nat i) 4096). pose proof (Z.div_mod (Z.of_nat j) 4096). lia.
Qed.

(** ** Switching the address space *)

Lemma apply_mmu s p pm m used T : p ≠ 0 → managers s !! p = Some pm → manager_rep pm m used T → tcr_ok (mach (kern s)) →
  ∃ mc, paging_manager_apply p s =
      Ok (current_paging_manager s) (set_kern (set_mach mc (kern s)) (set_current_paging p s)) ∧
    ram mc = kram (kern s) ∧ tcr_ok mc ∧ mmu_uses mc (l1 pm).
Proof.
  intros Hp0 Hp Hrep Htcr. destruct (apply_registers_spec pm (mach (kern s)) m used T Hrep Htcr) as (mc & tcr & sctlr & Hrun & Hram & _ & Htcr' & Hmmu).
  exists mc. split; [|done]. unfold paging_manager_apply, gets, modify, bind at 1 2.
  rewrite (bind_ok _ _ _ _ _ (get_manager_ok (set_current_paging p s) p pm Hp0 Hp)). by rewrite (bind_ok _ _ _ _ _ (in_kernel_ok _ (set_current_paging p s) _ _ (on_machine_ok _ _ _ _ Hrun))).
Qed.

(** ** The program *)

(** Memory that neither the two slabs nor the table of the heap hold. *)
Definition elsewhere (s : system) (a : Z) : Prop :=
  ¬ slab_area (table_slab s) a ∧ ¬ slab_area (user_space s) a ∧
  ¬ (heap_tbl (main_heap (kern s)) ≤ a < heap_tbl (main_heap (kern s)) + blocks (main_heap (kern s))).

(** The parsed file: [bs] are the bytes of the segment. *)
Record program_source (s : system) (elf program file offset : Z) (bs : list Z) : Prop := {
  ps_memsz : word_at 8 (kram (kern s)) (program + 40) (Z.of_nat (length bs));
  ps_offset : word_at 8 (kram (kern s)) (program + 8) offset;
  ps_file : word_at 8 (kram (kern s)) (elf + ELF_file) file;
  ps_ranges : 0 ≤ file < 2 ^ 64 ∧ 0 ≤ offset < 2 ^ 64;
  ps_bytes : bytes_at (kram (kern s)) (file + offset) bs;
  ps_range : Forall byte_range bs;
  ps_elsewhere a : program ≤ a < program + 56 ∨ elf ≤ a < elf + 120 ∨ file + offset ≤ a < file + offset + Z.of_nat (length bs) →
    elsewhere s a;
}.

(** The pages of the programs: memory of their own. *)
Record user_pages (s : system) : Prop := {
  up_apart a : slab_area (user_space s) a → ¬ slab_area (table_slab s) a ∧
    ¬ (heap_tbl (main_heap (kern s)) ≤ a < heap_tbl (main_heap (kern s)) + blocks (main_heap (kern s)) + 1);
  up_mapped : mapped (kram (kern s)) (slot_address (user_space s) 0) (4096 * max_store (user_space s));
}.

Lemma read_word mc n p v m : ram mc = m → word_at n m p v → 0 ≤ v < 256 ^ Z.of_nat n → on_ram (load_le n p) mc = Ok v mc.
Proof. intros <- Hw Hv. rewrite (on_ram_ok _ _ _ _ (load_word_ok n _ _ _ Hw Hv)). by rewrite set_ram_id. Qed.

Lemma word_kept m m' (P : Z → Prop) p v : word_at 8 m p v → (∀ a, P a → m' !! a = m !! a) → (∀ a, p ≤ a < p + 8 → P a) → word_at 8 m' p v.
Proof. intros Hw Hk Hp. eapply bytes_at_agree; [exact Hw|]. intros a Ha. rewrite length_le_bytes in Ha. apply Hk, Hp. lia. Qed.

Lemma header_in_area s a : slab_ok s → slab_header s a → slab_area s a.
Proof. intros [? ? _ _ _] Ha. unfold slab_area, slab_header in *. nia. Qed.

Lemma slots_in_area s a : slab_ok s → object_size s = 4096 →
  slot_address s 0 ≤ a < slot_address s 0 + 4096 * max_store s → slab_area s a ∧ ¬ slab_header s a.
Proof. intros Hok Ho Ha. pose proof (ok_hdr _ Hok). pose proof (ok_max _ Hok). unfold slot_address, slab_area, slab_header in *. rewrite Ho in *. lia. Qed.

(** What is written to pages of programs is written to no table. *)
Lemma pages_keep_tables s m m' used root T (pa : nat → Z) n : user_pages s → page_slab (table_slab s) m used →
  tree (table_slab s) m used root T → slab_ok (user_space s) → object_size (user_space s) = 4096 →
  (∀ i, (i < n)%nat → slot_address (user_space s) 0 ≤ pa i < slot_address (user_space s) 0 + 4096 * max_store (user_space s)) →
  same_outside pa n m m' →
  tree (table_slab s) m' used root T ∧ ∀ va, translate m' root va = translate m root va.
Proof.
  intros Hup Hps Htr Hok Ho Hin Hm. eapply tables_kept; [done|done|]. intros q t a Hq Ha. apply Hm. intros i Hi ->.
  destruct (tr_node _ _ _ _ _ Htr q t Hq) as (_ & j & Hj & ->).
  destruct (slot_in_area _ _ _ j _ Hps (ps_used _ _ _ Hps _ Hj) Ha) as [Hts _].
  destruct (slots_in_area _ _ Hok Ho (Hin i Hi)) as [Hus _]. by destruct (up_apart _ Hup _ Hus).
Qed.

Section load.
Context {live : kernel → gset Z → Prop} `{HeapService live}.

Lemma pages_fit (bs : list Z) i : (i < length bs)%nat → Z.of_nat i < 4096 * pages_of (Z.of_nat (length bs)).
Proof.
  intros Hi. unfold pages_of. pose proof (Z.div_mod (Z.of_nat (length bs) + 8191) 4096).
  pose proof (Z.mod_pos_bound (Z.of_nat (length bs) + 8191) 4096). lia.
Qed.

Lemma page_not_busy us slots (busy : gset Z) n i : object_size us = 4096 → (∀ n, n ∈ slots → (n ∉ busy) ∧ 0 ≤ n < max_store us) →
  Z.of_nat i < 4096 * Z.of_nat (length slots) → n ∈ busy →
  ¬ (slot_address us n ≤ page_address us slots i < slot_address us n + 4096).
Proof.
  intros Ho Hslots Hi Hn Ha. destruct (page_offset i slots Hi) as [_ Hm].
  destruct (Hslots _ (list_elem_of_lookup_2 _ _ _ (page_slot i slots Hi))) as [Hnb _].
  apply Hnb. replace (nth _ _ _) with n; [done|]. unfold page_address, slot_address in Ha. rewrite Ho in Ha. lia.
Qed.

(** The copy, with the new space active. *)
Lemma dump_spec s L used busy p root slots k mc elf program file offset bs :
  space_ready live s L used busy → user_pages s → program_source s elf program file offset bs →
  Z.of_nat (length bs) + 8192 ≤ INT_MAX →
  space_built live s L used busy (pages_of (Z.of_nat (length bs))) p root slots k →
  ram mc = kram k → mmu_uses mc root →
  ∃ m', elf_dump_program_content_user elf program JOB_BASE_USER mc = Ok tt (set_ram m' mc) ∧
    scattered m' (page_address (user_space s) slots) bs ∧
    same_outside (page_address (user_space s) slots) (length bs) (kram k) m'.
Proof.
  intros Hready Hup [Hmemsz Hoffset Hfile [Hfr Hor] Hbytes Hrange Helse] Hmax Hsb Hram Hmmu.
  pose proof (us_obj _ _ _ (sb_user _ _ _ _ _ _ _ _ _ _ Hsb)) as Ho.
  assert (∀ i, (i < length bs)%nat → Z.of_nat i < 4096 * Z.of_nat (length slots)) as Hfit.
  { intros i Hi. rewrite (sb_pages _ _ _ _ _ _ _ _ _ _ Hsb). by apply pages_fit. }
  assert (∀ a, elsewhere s a → kram k !! a = kram (kern s) !! a) as Hkeep.
  { intros a (H1 & H2 & H3). apply (sb_frame _ _ _ _ _ _ _ _ _ _ Hsb); [done| |done]. intros Hh. by apply H2, header_in_area; [apply Hready|]. }
  pose proof (λ i Hi, page_inside (user_space s) slots i Ho (λ n Hn, proj2 (sb_slots _ _ _ _ _ _ _ _ _ _ Hsb n Hn)) (Hfit i Hi)) as Hin.
  destruct (sb_manager _ _ _ _ _ _ _ _ _ _ Hsb) as (now & T & [Hps Htr] & _).
  unfold elf_dump_program_content_user.
  rewrite (bind_ok _ _ _ _ _ (read_word mc 8 (program + 40) _ _ Hram (word_kept _ _ _ _ _ Hmemsz Hkeep ltac:(intros a Ha; apply Helse; lia)) ltac:(unfold INT_MAX in Hmax; lia))).
  rewrite (bind_ok _ _ _ _ _ (read_word mc 8 (program + 8) _ _ Hram (word_kept _ _ _ _ _ Hoffset Hkeep ltac:(intros a Ha; apply Helse; lia)) Hor)).
  rewrite (bind_ok _ _ _ _ _ (read_word mc 8 (elf + ELF_file) _ _ Hram (word_kept _ _ _ _ _ Hfile Hkeep ltac:(unfold ELF_file; intros a Ha; apply Helse; lia)) Hfr)).
  rewrite (u64_small 1), Z.mul_1_r, u64_small by (unfold INT_MAX in Hmax; lia).
  rewrite <-Hram. apply user_copy_spec; rewrite ?Hram; try done.
  - intros m Hm i Hi. rewrite Hmmu. rewrite (proj2 (pages_keep_tables s (kram k) m now root T _ _ Hup Hps Htr (us_ok _ _ _ (sr_pages _ _ _ _ _ Hready)) Ho Hin Hm)).
    rewrite (sb_translate _ _ _ _ _ _ _ _ _ _ Hsb). by apply page_translates, Hfit.
  - eapply bytes_at_agree; [exact Hbytes|]. intros a Ha. apply Hkeep, Helse. lia.
  - intros i j Hi Hj. by apply page_injective; auto; apply (sb_distinct _ _ _ _ _ _ _ _ _ _ Hsb).
  - intros i Hi. destruct (slots_in_area (user_space s) _ (us_ok _ _ _ (sr_pages _ _ _ _ _ Hready)) Ho (Hin i Hi)) as [Harea Hhdr].
    destruct (up_apart _ Hup _ Harea) as [H1 H2]. rewrite (sb_frame _ _ _ _ _ _ _ _ _ _ Hsb) by (done || lia).
    apply (up_mapped _ Hup). by apply Hin.
  - intros i Hi Hsrc. destruct (Helse (page_address (user_space s) slots i)) as (_ & Hno & _); [lia|].
    apply Hno. apply slots_in_area; [apply Hready|exact Ho|by apply Hin].
Qed.

(** The steps of the function in a row. *)
Lemma load_program_run o elf program memsz p pm alloc s1 mc2 m3 mc4 :
  word_at 8 (kram (kern (sys o))) (program + 40) memsz → 0 ≤ memsz ≤ INT_MAX →
  job_create_paging memsz (sys o) = Ok (p, alloc) s1 →
  paging_manager_apply p s1 = Ok pm (set_kern (set_mach mc2 (kern s1)) (set_current_paging p s1)) →
  elf_dump_program_content_user elf program JOB_BASE_USER mc2 = Ok tt (set_ram m3 mc2) →
  (let s3 := set_kern (set_mach (set_ram m3 mc2) (kern s1)) (set_current_paging p s1) in
   ∃ r, paging_manager_apply pm s3 = Ok r (set_kern (set_mach mc4 (kern s1)) (set_current_paging pm s1))) →
  job_load_program elf program o = Ok (p, alloc) (set_sys (set_kern (set_mach mc4 (kern s1)) (set_current_paging pm s1)) o).
Proof.
  intros Hsz Hr Hrun1 Hrun2 Hrun3 [r Hrun4]. unfold INT_MAX in Hr. unfold job_load_program.
  rewrite (bind_ok _ _ _ _ _ (in_m_read _ o _ (load_word_ok 8 _ _ _ Hsz ltac:(lia)))).
  rewrite (i32_small memsz) by (unfold INT_MIN, INT_MAX; lia).
  rewrite (bind_ok _ _ _ _ _ (in_sys_ok _ o _ _ Hrun1)).
  rewrite (bind_ok _ _ _ _ _ (in_sys_ok (paging_manager_apply p) (set_sys s1 o) _ _ Hrun2)).
  set (o2 := set_sys _ (set_sys s1 o)).
  rewrite (bind_ok _ _ _ _ _ (in_dev_ok _ o2 _ _ Hrun3)).
  set (o3 := set_sys _ o2). rewrite (bind_ok _ _ _ _ _ (in_sys_ok (paging_manager_apply pm) o3 _ _ Hrun4)). done.
Qed.

Lemma load_program_fault o elf program memsz e : word_at 8 (kram (kern (sys o))) (program + 40) memsz → 0 ≤ memsz ≤ INT_MAX →
  job_create_paging memsz (sys o) = Fault e → job_load_program elf program o = Fault e.
Proof.
  intros Hsz Hr Hrun. unfold INT_MAX in Hr. unfold job_load_program.
  rewrite (bind_ok _ _ _ _ _ (in_m_read _ o _ (load_word_ok 8 _ _ _ Hsz ltac:(lia)))).
  rewrite (i32_small memsz) by (unfold INT_MIN, INT_MAX; lia). apply bind_fault. unfold in_sys, zoom. by rewrite Hrun.
Qed.

(** The address space that is active before. *)
Record active_space (s : system) (L used : gset Z) (old : Z) (root : Z) (T : gmap (list Z) Z) : Prop := {
  ac_current : current_paging_manager s = old;
  ac_manager : managers s !! old = Some (mk_paging_manager root (table_slab s));
  ac_live : old ∈ L ∧ old ≠ 0;
  ac_tree : tree (table_slab s) (kram (kern s)) used root T;
  ac_tcr : tcr_ok (mach (kern s));
}.

(** The state with the program at [JOB_BASE_USER] of the space of [p], the old space active. *)
Record program_loaded (s : system) (L used busy : gset Z) (bs : list Z) (old root0 : Z) (p root : Z) (slots : list Z)
    (s' : system) : Prop := {
  pl_live : 0 < p ∧ (p ∉ L) ∧ live (kern s') ({[p]} ∪ L);
  pl_system : set_kern (kern s) (set_managers (managers s) s') = s ∧
    managers s' = <[p := mk_paging_manager root (table_slab s)]> (managers s) ∧ current_paging_manager s' = old;
  pl_manager : ∃ now T, manager_rep (mk_paging_manager root (table_slab s)) (kram (kern s')) now T ∧ used ⊆ now;
  pl_space va : translate (kram (kern s')) root va = space_map (user_space s) slots va;
  pl_bytes : scattered (kram (kern s')) (page_address (user_space s) slots) bs;
  pl_slots : Z.of_nat (length slots) = pages_of (Z.of_nat (length bs)) ∧ ∀ n, n ∈ slots → (n ∉ busy) ∧ 0 ≤ n < max_store (user_space s);
  pl_mmu : mmu_uses (mach (kern s')) root0;
  pl_others r T : tree (table_slab s) (kram (kern s)) used r T →
    tree (table_slab s) (kram (kern s')) used r T ∧ ∀ va, translate (kram (kern s')) r va = translate (kram (kern s)) r va;
  pl_pages n a : n ∈ busy → 0 ≤ n < max_store (user_space s) → slot_address (user_space s) n ≤ a < slot_address (user_space s) n + 4096 →
    kram (kern s') !! a = kram (kern s) !! a;
  pl_frame a : elsewhere s a → kram (kern s') !! a = kram (kern s) !! a;
  pl_heap : heap_tbl (main_heap (kern s')) = heap_tbl (main_heap (kern s)) ∧ blocks (main_heap (kern s')) = blocks (main_heap (kern s));
}.

Lemma load_program_spec o L used busy elf program file offset bs old root0 T0
    (s := sys o) (us := user_space (sys o)) (pages := pages_of (Z.of_nat (length bs))) :
  space_ready live s L used busy → user_pages s → program_source s elf program file offset bs →
  active_space s L used old root0 T0 → Z.of_nat (length bs) + 8192 ≤ INT_MAX →
  Z.of_nat (size busy) + pages ≤ max_store us → Z.of_nat (size used) + 1 + 2 * pages ≤ max_store (table_slab s) →
  ∃ p k1, kalloc sizeof_paging_manager (kern s) = Ok p k1 ∧
    if decide (p = 0) then job_load_program elf program o = Fault (BadAddress 0)
    else ∃ root slots s1 s', job_create_paging (Z.of_nat (length bs)) s = Ok (p, 4096 * pages) s1 ∧
      job_load_program elf program o = Ok (p, 4096 * pages) (set_sys s' o) ∧
      program_loaded s L used busy bs old root0 p root slots s'.
Proof.
  intros Hready Hup Hsrc [Hcur Hmgr [HoldL Hold0] Htree Htcr] Hmax Hroom Hcap.
  destruct (job_create_paging_spec live s L used busy (Z.of_nat (length bs)) Hready ltac:(lia) Hmax Hroom Hcap)
    as (p & k1 & Hk1 & Hcase). exists p, k1. split; [exact Hk1|]. case_decide as Hp0.
  { by apply (load_program_fault o elf program (Z.of_nat (length bs))); [apply Hsrc|lia|]. }
  destruct Hcase as (root & slots & k & Hrun1 & Hsb).
  set (s1 := set_managers _ _) in Hrun1. pose proof Hsb as [Hlive (now & T & Hrep & Hsub) Hpages Hnd Hslots Hus Htrans Hothers Hframe [Hregs Henv] Hheap].
  destruct (apply_mmu s1 p (mk_paging_manager root (table_slab s)) (kram k) now T) as (mc2 & Hrun2 & Hram2 & Htcr2 & Hmmu2);
    [exact Hp0|apply lookup_insert_eq|exact Hrep|unfold tcr_ok; change (mach (kern s1)) with (mach k); by rewrite Hregs|].
  destruct (dump_spec s L used busy p root slots k mc2 elf program file offset bs Hready Hup Hsrc Hmax Hsb Hram2 Hmmu2)
    as (m3 & Hrun3 & Hscat & Hout).
  set (s3 := set_kern (set_mach (set_ram m3 mc2) (kern s1)) (set_current_paging p s1)).
  destruct (apply_mmu s3 old (mk_paging_manager root0 (table_slab s)) (kram (kern s)) used T0) as (mc4 & Hrun4 & Hram4 & _ & Hmmu4);
    [exact Hold0| |split; [apply Hready|exact Htree]|exact Htcr2|].
  { cbn [s3 s1 managers set_kern set_current_paging set_managers]. rewrite lookup_insert_ne; [exact Hmgr|].
    intros ->. by destruct Hlive as (_ & ? & _). }
  pose proof (us_obj _ _ _ Hus) as Ho. pose proof (us_ok _ _ _ Hus) as Hok.
  assert (∀ i, (i < length bs)%nat → Z.of_nat i < 4096 * Z.of_nat (length slots)) as Hfit by (intros i Hi; rewrite Hpages; by apply pages_fit).
  pose proof (λ i Hi, page_inside us slots i Ho (λ n Hn, proj2 (Hslots n Hn)) (Hfit i Hi)) as Hin.
  assert (∀ a, ¬ slab_area us a → m3 !! a = kram k !! a) as Hout'.
  { intros a Ha. apply Hout. intros i Hi ->. apply Ha. exact (proj1 (slots_in_area us _ Hok Ho (Hin i Hi))). }
  assert (∀ u r T, page_slab (table_slab s) (kram k) u → tree (table_slab s) (kram k) u r T →
    tree (table_slab s) m3 u r T ∧ ∀ va, translate m3 r va = translate (kram k) r va) as Hkeep.
  { intros u r T1 Hps Ht. by apply (pages_keep_tables s (kram k) m3 u r T1 (page_address us slots) (length bs)). }
  exists root, slots, s1, (set_kern (set_mach mc4 (kern s1)) (set_current_paging old s1)).
  split; [exact Hrun1|]. split.
  { apply (load_program_run o elf program (Z.of_nat (length bs)) p old _ s1 mc2 m3 mc4); try done.
    - apply Hsrc.
    - lia.
    - by rewrite Hrun2, <-Hcur.
    - by eexists. }
  assert (kram (kern (set_kern (set_mach mc4 (kern s1)) (set_current_paging old s1))) = m3) as Em by exact Hram4.
  assert (∀ L', live k L' → live (set_mach mc4 (kern s1)) L') as Hl.
  { intros L' HL'. eapply service_stable; [exact HL'|done|]. intros a Ha. rewrite (Em : kram (set_mach mc4 (kern s1)) = m3). apply Hout'.
    intros Hx. destruct (up_apart _ Hup _ Hx) as [_ Hno]. apply Hno. destruct Hheap as [Et Eb]. by rewrite <-Et, <-Eb. }
  split; rewrite ?Em.
  - destruct Hlive as (? & ? & ?). auto.
  - split; [|done]. change (set_current_paging old s = s). by rewrite <-Hcur; destruct s.
  - exists now, T. split; [|exact Hsub]. destruct Hrep as [Hps Ht]. split; [|by apply Hkeep].
    eapply page_slab_agree; [exact Hps|]. intros a Ha. apply Hout'. intros Hx. destruct (up_apart _ Hup _ Hx) as [Hno _]. apply Hno.
    unfold slab_area. pose proof (ps_obj _ _ _ Hps) as Eo. cbn [pages_allocator] in *. by rewrite Eo.
  - intros va. rewrite (proj2 (Hkeep now root T (proj1 Hrep) (proj2 Hrep))). apply Htrans.
  - exact Hscat.
  - done.
  - exact Hmmu4.
  - intros r T1 Ht. destruct (Hothers r T1 Ht) as [Ht1 Etr].
    assert (tree (table_slab s) (kram k) now r T1) as Htn by (eapply tree_frame; [exact Ht1|exact Hsub|done]).
    destruct (Hkeep now r T1 (proj1 Hrep) Htn) as [_ Ek]. split; [|intros va; by rewrite Ek].
    eapply tables_kept; [exact Ht1|done|]. intros q t a Hq Ha. apply Hout'. intros Hx. destruct (up_apart _ Hup _ Hx) as [Hno _].
    destruct (tr_node _ _ _ _ _ Ht1 q t Hq) as (_ & j & Hj & ->). apply Hno. pose proof (sr_tables _ _ _ _ _ Hready) as Hps.
    exact (proj1 (slot_in_area _ _ _ j _ Hps (ps_used _ _ _ Hps _ Hj) Ha)).
  - intros n a Hn Hnr Ha.
    assert (slab_area us a ∧ ¬ slab_header us a) as [Harea Hhdr].
    { apply (slots_in_area us); [exact Hok|exact Ho|]. unfold slot_address, us in *. fold s in Ha |- *. rewrite Ho in *. lia. }
    destruct (up_apart _ Hup a Harea) as [Hts Hh].
    rewrite Hout; [apply Hframe; [exact Hts|exact Hhdr|lia]|]. intros i Hi ->.
    by apply (page_not_busy us slots busy n i); auto.
  - intros a (Hts & Hua & Hh). rewrite Hout' by exact Hua. apply Hframe; [exact Hts| |exact Hh].
    intros Hx. by apply Hua, header_in_area.
  - exact Hheap.
Qed.

(** * Properties *)

(** C8: The program of a new job is in its own address space: [job_create_from_file] builds the
    space, copies the segment through the MMU while that space is active and goes back to the old
    one; then the program finds byte [i] of its segment at 0x80000000 + [i], with access from EL0,
    in pages that no other program has; the old space is active again, and neither it nor any other
    one, nor a page of another program, has changed.  Without memory for the paging manager the
    kernel writes through NULL. *)
Theorem program_in_its_space o L used busy elf program file offset bs old root0 T0
    (s := sys o) (us := user_space (sys o)) (pages := pages_of (Z.of_nat (length bs))) :
  space_ready live s L used busy → user_pages s → program_source s elf program file offset bs →
  active_space s L used old root0 T0 → Z.of_nat (length bs) + 8192 ≤ INT_MAX →
  Z.of_nat (size busy) + pages ≤ max_store us → Z.of_nat (size used) + 1 + 2 * pages ≤ max_store (table_slab s) →
  ∃ p k1, kalloc sizeof_paging_manager (kern s) = Ok p k1 ∧
    if decide (p = 0) then job_load_program elf program o = Fault (BadAddress 0)
    else ∃ root slots s', job_load_program elf program o = Ok (p, 4096 * pages) (set_sys s' o) ∧
      managers s' = <[p := mk_paging_manager root (table_slab s)]> (managers s) ∧ jobs s' = jobs s ∧
      current_paging_manager s' = old ∧
      (∀ va, translate (kram (kern s')) root va = space_map us slots va) ∧
      (∀ i b, bs !! i = Some b → ∃ pa, translate (kram (kern s')) root (JOB_BASE_USER + Z.of_nat i) = Some (pa, true, false) ∧
        kram (kern s') !! pa = Some (Some b)) ∧
      (∀ va, mmu_translate (mach (kern s')) va = translate (kram (kern s)) root0 va) ∧
      (∀ r T, tree (table_slab s) (kram (kern s)) used r T →
        ∀ va, translate (kram (kern s')) r va = translate (kram (kern s)) r va) ∧
      ∀ n a, n ∈ busy → 0 ≤ n < max_store us → slot_address us n ≤ a < slot_address us n + 4096 →
        kram (kern s') !! a = kram (kern s) !! a.
Proof.
  intros Hready Hup Hsrc Hact Hmax Hroom Hcap. pose proof Hact as [_ _ _ Htree _].
  destruct (load_program_spec o L used busy elf program file offset bs old root0 T0 Hready Hup Hsrc Hact Hmax Hroom Hcap)
    as (p & k1 & Hk & Hcase). exists p, k1. split; [exact Hk|]. case_decide; [exact Hcase|].
  destruct Hcase as (root & slots & s1 & s' & _ & Hrun & [_ (Hs & Hms & Hcur) _ Htr Hb [Hlen Hslots] Hmmu Hoth Hpg _ _]).
  exists root, slots, s'. split; [exact Hrun|]. split; [exact Hms|]. split; [exact (f_equal jobs Hs)|]. split; [exact Hcur|].
  split; [exact Htr|]. split; [|split; [|split; [|exact Hpg]]].
  - intros i b Hi. pose proof (lookup_lt_Some _ _ _ Hi). exists (page_address us slots i). split; [|by apply Hb].
    rewrite Htr. apply page_translates. rewrite Hlen. by apply pages_fit.
  - intros va. rewrite <-(proj2 (Hoth root0 T0 Htree)), <-(set_ram_id (mach (kern s'))). apply Hmmu.
  - intros r T Ht. apply (Hoth r T Ht).
Qed.
End load.

(** * Witness: a segment of three bytes, for the second address space of [demo_space]. *)

Definition demo_segment_ram : mem :=
  put_bytes 0x6800 (le_bytes 8 0x7000) $ put_bytes 0x6008 (le_bytes 8 16) $ put_bytes 0x6028 (le_bytes 8 3) $
  put_bytes 0x7010 [1; 2; 3] $ put_bytes 0x80000000 (replicate (Z.to_nat 0x2000) 0) demo_space_ram.
Definition demo_segment_system : system :=
  mk_system (set_kram demo_segment_ram (kern demo_space)) demo_tables 0x2000
    {[0x2000 := mk_paging_manager demo_root2 demo_tables]} demo_job_slab demo_user_slab 0 ∅.
Definition demo_segment : os := mk_os demo_segment_system demo_job_slab 0 0.

Lemma demo_segment_other a : a < 0x5000 ∨ 0x8000 ≤ a < 0x80000000 → demo_segment_ram !! a = demo_space_ram !! a.
Proof.
  intros Ha. unfold demo_segment_ram. rewrite !put_bytes_outside; [done|..]; rewrite ?length_replicate, ?length_le_bytes; cbn [length]; lia.
Qed.

Lemma demo_segment_below : below (2 ^ 63) demo_segment_ram.
Proof.
  unfold demo_segment_ram. do 4 (apply below_put_bytes; [|lia|rewrite ?length_le_bytes; cbn [length]; lia]).
  apply below_put_bytes; [exact demo_space_below|lia|rewrite length_replicate; lia].
Qed.

Lemma demo_segment_ready : space_ready heap_live demo_segment_system {[0x2000; 0x3000; 0x4000]} {[7; 6]} ∅.
Proof.
  apply (space_ready_kept heap_live demo_space demo_segment_system).
  1: exact demo_space_ready.
  1-6: cbv [demo_segment_system table_slab user_space kern set_kram mach set_mach set_ram sysregs trace env main_heap demo_space]; reflexivity.
  { exact demo_segment_below. }
  intros a Ha. change (demo_segment_ram !! a = demo_space_ram !! a). apply demo_segment_other. unfold slab_area, slab_header in Ha. cbn in Ha. lia.
Qed.

Lemma demo_segment_pages : user_pages demo_segment_system.
Proof.
  split.
  - intros a. unfold slab_area. cbn. lia.
  - change (mapped demo_segment_ram 0x80000000 0x2000). unfold demo_segment_ram. do 4 apply mapped_put_bytes.
    apply mapped_put_bytes_self. rewrite length_replicate. lia.
Qed.

Lemma demo_segment_source : program_source demo_segment_system 0x6800 0x6000 0x7000 16 [1; 2; 3].
Proof.
  split; change (kram (kern demo_segment_system)) with demo_segment_ram.
  - change (bytes_at demo_segment_ram 0x6028 (le_bytes 8 3)). unfold demo_segment_ram. peel_bytes.
  - change (bytes_at demo_segment_ram 0x6008 (le_bytes 8 16)). unfold demo_segment_ram. peel_bytes.
  - change (bytes_at demo_segment_ram 0x6800 (le_bytes 8 0x7000)). unfold demo_segment_ram. peel_bytes.
  - lia.
  - change (bytes_at demo_segment_ram 0x7010 [1; 2; 3]). unfold demo_segment_ram. peel_bytes.
  - repeat (apply Forall_cons; split; [unfold byte_range; lia|]). by apply Forall_nil.
  - intros a Ha. unfold elsewhere, slab_area. cbn in *. lia.
Qed.

Lemma demo_segment_active : active_space demo_segment_system {[0x2000; 0x3000; 0x4000]} {[7; 6]} 0x2000 demo_root2 {[ [] := demo_root2 ]}.
Proof.
  split; [reflexivity|reflexivity|set_solver| |by left].
  apply (tables_kept demo_tables demo_pt_mem _ {[7; 6]}); [apply demo_roots|done|].
  intros q t a [_ <-]%lookup_singleton_Some Ha. unfold demo_root2 in Ha.
  change (demo_segment_ram !! a = demo_pt_mem !! a). rewrite demo_segment_other by lia. apply demo_space_other. lia.
Qed.

Lemma demo_segment_kalloc : match kalloc sizeof_paging_manager (kern (sys demo_segment)) with Ok p _ => p = 0x5000 | _ => False end.
Proof. vm_compute. reflexivity. Qed.

Lemma program_in_its_space_witness :
  ∃ root s' pa, job_load_program 0x6800 0x6000 demo_segment = Ok (0x5000, 4096 * pages_of (Z.of_nat (length [1; 2; 3]))) (set_sys s' demo_segment) ∧
    translate (kram (kern s')) root 0x80000002 = Some (pa, true, false) ∧ kram (kern s') !! pa = Some (Some 3).
Proof.
  destruct (program_in_its_space demo_segment {[0x2000; 0x3000; 0x4000]} {[7; 6]} ∅ 0x6800 0x6000 0x7000 16 [1; 2; 3] 0x2000 demo_root2
    {[ [] := demo_root2 ]} demo_segment_ready demo_segment_pages demo_segment_source demo_segment_active)
    as (p & k1 & Hk & Hcase); [cbn; unfold INT_MAX; lia|by apply (bool_decide_unpack _)|by apply (bool_decide_unpack _)|].
  pose proof demo_segment_kalloc as Hp. rewrite Hk in Hp. subst p. rewrite decide_False in Hcase by lia.
  destruct Hcase as (root & slots & s' & Hrun & _ & _ & _ & _ & Hbytes & _).
  destruct (Hbytes 2%nat 3 eq_refl) as (pa & Ht & Hb). exists root, s', pa.
  split; [exact Hrun|]. split; [exact Ht|exact Hb].
Defined.
