(* ===== verification/NewJob.v ===== *)
(** * A job from a program file in memory (job_create_from_file of kernel/mp/job.c)

    [job_create_from_image] is [job_create_from_file] from the filled buffer on: the file is
    parsed, its program loaded into a new address space, the tables freed, the job created. *)
From stdpp Require Import base list gmap.
From Stdlib Require Import ZArith Lia.
From S2P Require Import Prelude Memory CString Heap Slab Machine Log Gic Kernel HeapRegions Paging Job AddressSpace Sched Elf ElfLoad.
From S2P Require Import Virtio Fat FatPart Disk Fs RamFs FatFs Exceptions LoadProgram.

(** * Lemmas *)

(** The invariant of the jobs after a step that is none of theirs. *)
Lemma job_inv_kept (live : kernel → gset Z → Prop) s s' l used L L' : job_inv live s l used L → live (kern s') L' → L ⊆ L' →
  jobs s' = jobs s → current_job s' = current_job s → job_slab s' = job_slab s →
  (∀ a, slab_header (job_slab s) a → kram (kern s') !! a = kram (kern s) !! a) →
  heap_tbl (main_heap (kern s')) = heap_tbl (main_heap (kern s)) → blocks (main_heap (kern s')) = blocks (main_heap (kern s)) →
  job_inv live s' l used L'.
Proof.
  intros [Hring _ Hpg Hown Hok Hrep Hslots Hap] Hl Hsub Ej Ec Es Hag Et Eb. split; rewrite ?Ej, ?Es, ?Et, ?Eb; try done.
  - unfold ring in *. rewrite Ej, Ec. exact Hring.
  - intros p j Hp. by eapply Hsub, Hpg.
  - by eapply slab_rep_agree.
Qed.

(** [elf_free] releases the three tables. *)
Lemma elf_free_spec {live} `{HeapService live} k L elf f p1 p2 p3 : live k L → elf_struct (kram k) elf f →
  p1 = f_sections f → p2 = f_programs f → p3 = f_strings f →
  p1 ∈ L → p2 ∈ L → p3 ∈ L → p1 ≠ p2 → p1 ≠ p3 → p2 ≠ p3 → 0 ≤ p1 < 2 ^ 64 → 0 ≤ p2 < 2 ^ 64 → 0 ≤ p3 < 2 ^ 64 →
  (∀ a, elf ≤ a < elf + sizeof_ELF → ¬ heap_table_area k a) →
  ∃ k', elf_free elf k = Ok tt k' ∧ live k' (L ∖ {[p1]} ∖ {[p2]} ∖ {[p3]}) ∧ heap_frame k k'.
Proof.
  intros Hl Hst E1 E2 E3 H1 H2 H3 N12 N13 N23 R1 R2 R3 Hap.
  assert (∀ j o n v, heap_frame k j → word_at n (kram k) (elf + o) v → 0 ≤ o → o + Z.of_nat n ≤ sizeof_ELF →
    0 ≤ v < 256 ^ Z.of_nat n → in_ram (load_le n (elf + o)) j = Ok v j) as Hread.
  { intros j o n v (Hout & _) Hw Ho Hn Hv. assert (load_le n (elf + o) (kram j) = Ok v (kram j)) as Hl'.
    { apply load_word_ok; [|done]. eapply bytes_at_agree; [exact Hw|]. intros a Ha. rewrite length_le_bytes in Ha. apply Hout.
      intros Hx. apply (Hap a); [lia|]. unfold heap_table_area. lia. }
    by rewrite (in_ram_ok _ _ _ _ Hl'), set_kram_id. }
  destruct (service_free k L p1 Hl H1) as (k1 & Hf1 & Hl1 & Hfr1).
  destruct (service_free k1 _ p2 Hl1) as (k2 & Hf2 & Hl2 & Hfr2); [set_solver|].
  destruct (service_free k2 _ p3 Hl2) as (k3 & Hf3 & Hl3 & Hfr3); [set_solver|].
  pose proof (heap_frame_trans _ _ _ Hfr1 Hfr2) as Hfr12.
  exists k3. split; [|split; [exact Hl3|by eapply heap_frame_trans]]. unfold elf_free.
  rewrite (bind_ok _ _ _ _ _ (Hread k ELF_section_headers 8%nat p1 (heap_frame_refl k) ltac:(rewrite E1; apply Hst) ltac:(elf_offsets; lia) ltac:(elf_offsets; lia) R1)).
  rewrite (bind_ok _ _ _ _ _ Hf1).
  rewrite (bind_ok _ _ _ _ _ (Hread k1 ELF_program_headers 8%nat p2 Hfr1 ltac:(rewrite E2; apply Hst) ltac:(elf_offsets; lia) ltac:(elf_offsets; lia) R2)).
  rewrite (bind_ok _ _ _ _ _ Hf2).
  rewrite (bind_ok _ _ _ _ _ (Hread k2 ELF_strings_section 8%nat p3 Hfr12 ltac:(rewrite E3; apply Hst) ltac:(elf_offsets; lia) ltac:(elf_offsets; lia) R3)).
  exact Hf3.
Qed.

Lemma free_three (x y z pm : Z) (D : gset Z) (E := {[z]} ∪ ({[y]} ∪ ({[x]} ∪ D))) :
  (x ∉ D) → (y ∉ D) → (z ∉ D) → (pm ∉ E) → (pm ∉ D) ∧ x ∈ {[pm]} ∪ E ∧ y ∈ {[pm]} ∪ E ∧ z ∈ {[pm]} ∪ E ∧
  ({[pm]} ∪ E) ∖ {[x]} ∖ {[y]} ∖ {[z]} = {[pm]} ∪ D.
Proof. set_solver. Qed.

Lemma slab_area_mapped s m a : (∀ a, slab_header s a → is_Some (m !! a)) → mapped m (slot_address s 0) (object_size s * max_store s) →
  slab_area s a → is_Some (m !! a).
Proof.
  intros Hh Hm Ha. destruct (decide (slab_header s a)) as [Hx|Hx]; [by apply Hh|].
  apply Hm. unfold slot_address, slab_area, slab_header in *. lia.
Qed.

Section create.
Context {service : kernel → gset Z → Prop} {live : kernel → gmap Z Z → Prop} `{HeapRegions service live}.

(** The system with a program file in a block of the heap; [bs] is the first segment of the file. *)
Record create_ready (o : os) (R : gmap Z Z) (used busy jused : gset Z) (l : list Z) (old root0 : Z) (T0 : gmap (list Z) Z)
    (file n : Z) (img : list Z) (h : elf_header) (offset : Z) (bs : list Z) (nm : Z) (str : list Z) : Prop := {
  cr_live : live (kern (sys o)) R;
  cr_file : R !! file = Some n ∧ Z.of_nat (length img) ≤ n ∧ 0 ≤ file;
  cr_bytes : bytes_at (kram (kern (sys o))) file img;
  cr_image : elf_image img h;
  cr_offset : field img (Z.to_nat (h_phoff h + 8)) 8 offset;
  cr_memsz : field img (Z.to_nat (h_phoff h + 40)) 8 (Z.of_nat (length bs));
  cr_segment : bs = slice img offset (Z.of_nat (length bs)) ∧ 0 ≤ offset ∧ offset + Z.of_nat (length bs) ≤ Z.of_nat (length img);
  cr_space : space_ready service (sys o) (dom R) used busy;
  cr_pages : user_pages (sys o);
  cr_active : active_space (sys o) (dom R) used old root0 T0;
  cr_jobs : job_inv service (sys o) l jused (dom R);
  cr_name : cstr (kram (kern (sys o))) nm str;
  cr_low : below (2 ^ 62) (kram (kern (sys o)));
  cr_headers a : slab_header (table_slab (sys o)) a ∨ slab_header (user_space (sys o)) a ∨ slab_header (job_slab (sys o)) a →
    is_Some (kram (kern (sys o)) !! a);
  (* the heap, the name and the jobs are apart from the slabs of pages *)
  cr_heap a : heap_area (kern (sys o)) a → ¬ slab_area (table_slab (sys o)) a ∧ ¬ slab_area (user_space (sys o)) a ∧
    ¬ slab_header (job_slab (sys o)) a;
  cr_name_apart a : nm ≤ a < nm + Z.of_nat (length str) + 1 → elsewhere (sys o) a ∧ ¬ heap_area (kern (sys o)) a ∧
    ¬ heap_table_area (kern (sys o)) a ∧ ¬ slab_header (job_slab (sys o)) a;
  cr_job_apart a : slab_header (job_slab (sys o)) a → ¬ slab_area (table_slab (sys o)) a ∧ ¬ slab_area (user_space (sys o)) a;
}.

(** What is neither of the heap nor new. *)
Definition lasting (k : kernel) (a : Z) : Prop := is_Some (kram k !! a) ∧ ¬ heap_table_area k a ∧ ¬ heap_area k a.

Section steps.
Context (o : os) (R : gmap Z Z) (used busy jused : gset Z) (l : list Z) (old root0 : Z) (T0 : gmap (list Z) Z)
  (file n : Z) (img : list Z) (h : elf_header) (offset : Z) (bs : list Z) (nm : Z) (str : list Z)
  (Hcr : create_ready o R used busy jused l old root0 T0 file n img h offset bs nm str).
Let s := sys o.
Let k := kern s.
Let elf := fresh_address (kram k).
Let k0 := with_array sizeof_ELF k.

Lemma slabs_lasting a : slab_area (table_slab s) a ∨ slab_area (user_space s) a ∨ slab_header (job_slab s) a ∨
  nm ≤ a < nm + Z.of_nat (length str) + 1 → is_Some (kram k !! a) ∧ ¬ heap_area k a.
Proof.
  pose proof Hcr as [_ _ _ _ _ _ _ Hsp Hup _ _ Hnm _ Hhdr Hheap Hnmap _]. pose proof Hsp as [_ Hps Hus _ _ _ _ _].
  intros [Ha|[Ha|[Ha|Ha]]]; (split; [|try (intros Hx; by destruct (Hheap a Hx) as (? & ? & ?))]).
  - eapply slab_area_mapped; [| |exact Ha]; [intros; apply Hhdr; auto|]. rewrite (ps_obj _ _ _ Hps : object_size (table_slab s) = _). apply Hps.
  - eapply slab_area_mapped; [| |exact Ha]; [intros; apply Hhdr; auto|]. rewrite (us_obj _ _ _ Hus : object_size (user_space s) = _). apply Hup.
  - apply Hhdr. auto.
  - apply (bytes_at_mapped _ _ _ (proj1 Hnm)). rewrite length_app. cbn [length]. lia.
  - by apply Hnmap.
Qed.

Lemma tables_lasting a : slab_area (table_slab s) a → lasting k a.
Proof.
  intros Ha. destruct (slabs_lasting a (or_introl Ha)) as [Hs Hh]. split; [done|]. split; [|done].
  intros Hx. by destruct (sr_heap _ _ _ _ _ (cr_space _ _ _ _ _ _ _ _ _ _ _ _ _ _ _ _ _ Hcr) a Hx) as (_ & Hno & _).
Qed.

Lemma areas_mapped a : heap_area k a ∨ heap_table_area k a ∨ slab_area (table_slab s) a ∨ slab_area (user_space s) a ∨
  slab_header (job_slab s) a ∨ nm ≤ a < nm + Z.of_nat (length str) + 1 → is_Some (kram k !! a).
Proof.
  pose proof (cr_live _ _ _ _ _ _ _ _ _ _ _ _ _ _ _ _ _ Hcr) as Hlive.
  intros [Ha|[Ha|Ha]]; [by apply (regions_area k R)|by apply (regions_table k R)|by apply slabs_lasting].
Qed.

(** The local struct is apart from all of them. *)
Lemma elf_apart a : elf ≤ a < elf + sizeof_ELF → ¬ heap_area k a ∧ ¬ heap_table_area k a ∧ elsewhere s a ∧
  ¬ slab_header (job_slab s) a ∧ ¬ (nm ≤ a < nm + Z.of_nat (length str) + 1) ∧ kram k !! a = None.
Proof.
  intros Ha. assert (kram k !! a = None) as Hn by (apply fresh_address_spec; unfold elf, LOCAL_GAP in *; lia).
  assert (¬ is_Some (kram k !! a)) as Hno by (rewrite Hn; by intros [? ?]).
  assert (∀ P : Prop, (P → is_Some (kram k !! a)) → ¬ P) as Hap by auto.
  split; [|split; [|split; [|split; [|split; [|exact Hn]]]]]; try (apply Hap; intros; apply areas_mapped; tauto).
  split; [|split]; apply Hap; intros; apply areas_mapped; try tauto. right. left. unfold heap_table_area, k. lia.
Qed.

Lemma image_parsed : ∃ m0 k1 f R1 R2 R3, elf_fromfilebuffer elf file (kram k0) = Ok tt m0 ∧
  elf_alloc_and_parse elf (set_kram m0 k0) = Ok tt k1 ∧ parsed (live := live) k0 k1 R elf file img h f R1 R2 R3.
Proof.
  pose proof Hcr as [Hlive (HR & Hn & Hf0) Hb Himg _ _ _ Hsp _ _ _ _ Hlow _ _ _ _].
  assert (0 ≤ elf ≤ 2 ^ 62 + LOCAL_GAP) as Helf by (by apply fresh_address_bound).
  unfold LOCAL_GAP in Helf.
  apply (elf_parse_spec k0 R elf file img h n); try done.
  - eapply (regions_stable k); [exact Hlive|done|..].
    + intros a Ha. apply with_array_lookup. by apply (regions_table k R).
    + intros a Ha. unfold k0. by rewrite with_array_lookup.
  - eapply bytes_at_agree; [exact Hb|]. intros a Ha. apply with_array_lookup. eapply (regions_inside k R file n); [done|done|lia].
  - apply mapped_put_cells_self. rewrite length_replicate. unfold sizeof_ELF. lia.
  - intros a Ha. by destruct (elf_apart a Ha) as (H1 & H2 & _).
  - unfold k0, with_array. apply below_put_cells; [|lia|rewrite length_replicate; unfold sizeof_ELF; lia].
    intros a Ha. specialize (Hlow a Ha). lia.
  - intros a Ha. apply (sr_heap _ _ _ _ _ Hsp). unfold heap_table_area in Ha. change (main_heap (kern (sys o))) with (main_heap k0). lia.
Qed.

(** The state between two steps of the function. *)
Lemma step_ready k' L' : service k' L' → dom R ⊆ L' →
  (∀ a, lasting k a → kram k' !! a = kram k !! a) → (∀ a, is_Some (kram k !! a) → is_Some (kram k' !! a)) →
  below (2 ^ 63) (kram k') → sysregs (mach k') = sysregs (mach k) → trace (mach k') = trace (mach k) → env (mach k') = env (mach k) →
  heap_tbl (main_heap k') = heap_tbl (main_heap k) → blocks (main_heap k') = blocks (main_heap k) →
  space_ready service (set_kern k' s) L' used busy ∧ user_pages (set_kern k' s) ∧ active_space (set_kern k' s) L' used old root0 T0.
Proof.
  intros Hl Hsub Hag Hdom Hlow Er Etr Ee Et Eb.
  pose proof Hcr as [_ _ _ _ _ _ _ Hsp Hup Hact Hjobs _ _ _ Hheap _ _].
  pose proof Hsp as [_ Hps Hus _ Hfreq Hclock Hapart Hsr].
  assert (∀ a, slab_area (table_slab s) a → kram k' !! a = kram k !! a) as Htab.
  { intros a Ha. by apply Hag, tables_lasting. }
  assert (∀ a, slab_header (user_space s) a → kram k' !! a = kram k !! a) as Huser.
  { intros a Ha. assert (slab_area (user_space s) a) as Ha' by (by apply header_in_area; [apply Hus|]).
    destruct (slabs_lasting a (or_intror (or_introl Ha'))) as [Hs Hh]. apply Hag. split; [done|]. split; [|done].
    intros Hx. by destruct (Hsr a Hx) as (_ & _ & Hno). }
  split; [|split].
  - split; cbn [kern set_kern table_slab user_space]; rewrite ?Er, ?Et, ?Eb; try done.
    + eapply page_slab_agree; [exact Hps|]. intros a Ha. apply Htab. unfold slab_area. by rewrite (ps_obj _ _ _ Hps : object_size (table_slab s) = _).
    + by eapply user_slab_agree.
    + eapply clock_below_same; [exact Hclock|by rewrite Er|done..].
  - destruct Hup as [Hu1 Hu2]. split; cbn [kern set_kern table_slab user_space]; rewrite ?Et, ?Eb; [done|].
    intros a Ha. by apply Hdom, Hu2.
  - destruct Hact as [H1 H2 [H3 H3'] H4 H5]. split; cbn [kern set_kern table_slab managers current_paging_manager]; try done.
    + split; [by apply Hsub|done].
    + eapply tables_kept; [exact H4|done|]. intros q t a Hq Ha. apply Htab.
      destruct (tr_node _ _ _ _ _ H4 q t Hq) as (_ & j & Hj & ->). exact (proj1 (slot_in_area _ _ _ j _ Hps (ps_used _ _ _ Hps _ Hj) Ha)).
    + unfold tcr_ok. by rewrite Er.
Qed.

(** *** After the parser *)

Section parsed.
Context (k1 : kernel) (f : elf_fields) (R1 R2 R3 : gmap Z Z) (Hpd : parsed (live := live) k0 k1 R elf file img h f R1 R2 R3).

Lemma parsed_areas a : (heap_area k1 a ↔ heap_area k a) ∧ (heap_table_area k1 a ↔ heap_table_area k a).
Proof. exact (heap_step_areas _ _ _ _ a (pd_step _ _ _ _ _ _ _ _ _ _ _ Hpd)). Qed.

Lemma parsed_lasting a : lasting k a → kram k1 !! a = kram k !! a.
Proof.
  intros (Hs & Ht & Hh). rewrite (hs_out _ _ _ _ (pd_step _ _ _ _ _ _ _ _ _ _ _ Hpd) a); [by apply with_array_lookup|exact Ht| |].
  - by apply mapped_not_local.
  - intros Hx. by destruct (Hh Hx).
Qed.

Lemma parsed_mapped a : is_Some (kram k !! a) → is_Some (kram k1 !! a).
Proof.
  intros Hs. apply (hs_dom _ _ _ _ (pd_step _ _ _ _ _ _ _ _ _ _ _ Hpd)). unfold k0. by rewrite with_array_lookup.
Qed.

Lemma parsed_regions : R3 = with_region (f_strings f) (h_strsize h) (with_region (f_programs f) (sizeof_Phdr * h_phnum h)
  (with_region (f_sections f) (sizeof_Shdr * h_shnum h) R)).
Proof. destruct Hpd. congruence. Qed.

Lemma parsed_dom : dom R ⊆ dom R3.
Proof.
  rewrite parsed_regions. unfold with_region. repeat case_decide; rewrite ?dom_insert_L; set_solver.
Qed.

(** The step after the parser begins in such a state. *)
Lemma parsed_ready : space_ready service (set_kern k1 s) (dom R3) used busy ∧ user_pages (set_kern k1 s) ∧
  active_space (set_kern k1 s) (dom R3) used old root0 T0.
Proof.
  pose proof (pd_ready _ _ _ _ _ _ _ _ _ _ _ Hpd) as [_ Hlive _ _ Hlow _].
  pose proof (pd_step _ _ _ _ _ _ _ _ _ _ _ Hpd) as [_ _ _ (Er & Etr & Ee & _) (Et & Eb & _)].
  apply step_ready; try done.
  - by apply regions_service.
  - apply parsed_dom.
  - apply parsed_lasting.
  - apply parsed_mapped.
Qed.

Lemma heap_elsewhere a : heap_area k a → elsewhere (set_kern k1 s) a.
Proof.
  intros Ha. pose proof Hcr as [Hlive _ _ _ _ _ _ _ _ _ _ _ _ _ Hheap _ _]. destruct (Hheap a Ha) as (H1 & H2 & _).
  split; [exact H1|]. split; [exact H2|]. destruct (regions_area k R a Hlive Ha) as [_ Hno].
  intros Hx. apply Hno, parsed_areas. unfold heap_table_area. cbn [kern set_kern] in Hx. lia.
Qed.

Lemma region_elsewhere p m a : R3 !! p = Some m → p ≤ a < p + m → elsewhere (set_kern k1 s) a.
Proof.
  intros Hp Ha. pose proof (pd_ready _ _ _ _ _ _ _ _ _ _ _ Hpd) as [_ Hlive _ _ _ _].
  destruct (regions_inside k1 R3 p m a Hlive Hp Ha) as (Hh & _ & _). by apply heap_elsewhere, parsed_areas.
Qed.

Lemma elf_elsewhere a : elf ≤ a < elf + sizeof_ELF → elsewhere (set_kern k1 s) a.
Proof.
  intros Ha. destruct (elf_apart a Ha) as (_ & Hno & (Ht & Hu & _) & _). split; [exact Ht|]. split; [exact Hu|].
  intros Hx. apply Hno, parsed_areas. unfold heap_table_area. cbn [kern set_kern] in Hx. lia.
Qed.

Lemma region_range p m : R3 !! p = Some m → 0 < m → 0 ≤ p < 2 ^ 63.
Proof.
  intros Hp Hm. pose proof (pd_ready _ _ _ _ _ _ _ _ _ _ _ Hpd) as [_ Hlive _ _ Hlow _].
  destruct (regions_inside k1 R3 p m p Hlive Hp ltac:(lia)) as (_ & _ & Hs). by apply Hlow.
Qed.

Lemma programs_region : f_programs f ≠ 0 → R3 !! f_programs f = Some (sizeof_Phdr * h_phnum h).
Proof.
  intros Hne. destruct Hpd as [_ _ _ _ _ _ _ -> -> (_ & _ & Hfr)]. apply with_region_keeps; [exact Hfr|by apply with_region_new].
Qed.

(** The three tables are new and apart. *)
Lemma parsed_tables : f_sections f ≠ 0 → f_programs f ≠ 0 → f_strings f ≠ 0 →
  (f_sections f ≠ f_programs f ∧ f_sections f ≠ f_strings f ∧ f_programs f ≠ f_strings f) ∧
  (dom R3 = {[f_strings f]} ∪ ({[f_programs f]} ∪ ({[f_sections f]} ∪ dom R)) ∧ (f_sections f ∉ dom R) ∧
    (f_programs f ∉ dom R) ∧ f_strings f ∉ dom R) ∧
  0 ≤ f_sections f < 2 ^ 63 ∧ 0 ≤ f_programs f < 2 ^ 63 ∧ 0 ≤ f_strings f < 2 ^ 63.
Proof.
  intros N1 N2 N3. pose proof (pd_ready _ _ _ _ _ _ _ _ _ _ _ Hpd) as [[_ _ _ Himg _ _ _] _ _ _ _ _].
  pose proof (ei_counts _ _ Himg). pose proof (ei_strings _ _ Himg).
  pose proof (region_range (f_programs f) _ (programs_region N2) ltac:(unfold sizeof_Phdr; lia)) as Hr2.
  pose proof (region_range (f_sections f) (sizeof_Shdr * h_shnum h)) as Hr1. pose proof (region_range (f_strings f) (h_strsize h)) as Hr3.
  destruct Hpd as [_ _ _ _ _ _ -> -> -> (F1 & F2 & F3)]. unfold fresh_pointer in *.
  destruct F1 as [F1|]; [|done]. destruct F2 as [F2|]; [|done]. destruct F3 as [F3|]; [|done].
  unfold with_region in *. rewrite !decide_False in * by done.
  assert (f_sections f ≠ f_programs f) as N12 by (intros E; by rewrite E, lookup_insert_eq in F2).
  assert (f_programs f ≠ f_strings f) as N23 by (intros E; by rewrite E, lookup_insert_eq in F3).
  assert (f_sections f ≠ f_strings f) as N13.
  { intros E. rewrite E, lookup_insert_ne, lookup_insert_eq in F3; [done|]. by rewrite <-E. }
  rewrite lookup_insert_ne in F2 by done. rewrite !lookup_insert_ne in F3 by done.
  split; [done|]. split.
  - rewrite !dom_insert_L. split; [done|]. by rewrite !not_elem_of_dom.
  - split; [apply Hr1; [|unfold sizeof_Shdr; lia]|split; [exact Hr2|apply Hr3; [apply lookup_insert_eq|lia]]].
    by rewrite !lookup_insert_ne, lookup_insert_eq by done.
Qed.

(** The first segment of the file. *)
Lemma parsed_source : f_programs f ≠ 0 → program_source (set_kern k1 s) elf (f_programs f) file offset bs.
Proof.
  intros Hne. pose proof (pd_ready _ _ _ _ _ _ _ _ _ _ _ Hpd) as [[Hst _ Hb Himg Hr _ _] Hlive (nf & Hnf & Hlen) _ _ _].
  pose proof (pd_file _ _ _ _ _ _ _ _ _ _ _ Hpd) as Ef. rewrite Ef in *.
  pose proof (pd_programs _ _ _ _ _ _ _ _ _ _ _ Hpd) as Hpr. unfold table_read in Hpr. rewrite decide_False in Hpr by done.
  destruct Hpr as [_ Hpb]. pose proof (ei_counts _ _ Himg). pose proof (ei_tables _ _ Himg). pose proof (ei_size _ _ Himg).
  pose proof Hcr as [_ _ _ _ Hoff Hmem (Ebs & Ho & Hin) _ _ _ _ _ _ _ _ _ _].
  pose proof (st_file _ _ _ Hst) as Hfile. rewrite Ef in Hfile.
  assert (R3 !! f_programs f = Some (sizeof_Phdr * h_phnum h)) as HRp.
  { by apply programs_region. }
  assert (∀ o v, Z.of_nat o + 8 ≤ 56 → field img (Z.to_nat (h_phoff h + Z.of_nat o)) 8 v → word_at 8 (kram k1) (f_programs f + Z.of_nat o) v) as Hw.
  { intros ofs v Hofs Hf. eapply field_at; [exact Hpb|]. apply field_slice; [lia|unfold sizeof_Phdr; lia|exact Hf]. }
  split; cbn [kern set_kern].
  - exact (Hw 40%nat _ ltac:(lia) Hmem).
  - exact (Hw 8%nat _ ltac:(lia) Hoff).
  - exact Hfile.
  - lia.
  - rewrite Ebs. apply slice_at; [exact Hb|lia..].
  - rewrite Ebs. apply slice_range, Himg.
  - intros a [Ha|[Ha|Ha]].
    + eapply region_elsewhere; [exact HRp|unfold sizeof_Phdr; lia].
    + by apply elf_elsewhere.
    + eapply region_elsewhere; [exact Hnf|lia].
Qed.

(** The calls of the function in a row. *)
Lemma create_from_image_run m0 c ph pm alloc s2 k3 entry q s4 :
  elf_fromfilebuffer elf file (kram k0) = Ok tt m0 → elf_alloc_and_parse elf (set_kram m0 k0) = Ok tt k1 →
  elf_get_programheader_count elf (kram k1) = Ok c (kram k1) →
  elf_get_programheader_byid elf 0 (kram k1) = Ok ph (kram k1) →
  job_load_program elf ph (set_sys (set_kern k1 s) o) = Ok (pm, alloc) (set_sys s2 o) →
  elf_free elf (kern s2) = Ok tt k3 → elf_get_entrypoint elf (kram k3) = Ok entry (kram k3) →
  job_create entry (u64 (JOB_BASE_USER + alloc)) nm pm (set_kern k3 s2) = Ok q s4 →
  job_create_from_image file nm o = Ok q (drop_array elf sizeof_ELF (set_sys s4 o)).
Proof.
  intros H1 H2 H3 H4 H5 H6 H7 H8. apply os_array_ok. fold s k elf k0. set (o0 := set_sys (set_kern k0 s) o).
  rewrite (bind_ok _ _ _ _ _ (in_m_ok (elf_fromfilebuffer elf file) o0 tt m0 H1)).
  set (o1 := set_sys _ o0). rewrite (bind_ok _ _ _ _ _ (in_k_ok (elf_alloc_and_parse elf) o1 tt k1 H2)).
  set (o2 := set_sys _ o1).
  rewrite (bind_ok _ _ _ _ _ (in_m_read (elf_get_programheader_count elf) o2 c H3)).
  rewrite (bind_ok _ _ _ _ _ (in_m_read (elf_get_programheader_byid elf 0) o2 ph H4)).
  change o2 with (set_sys (set_kern k1 s) o). rewrite (bind_ok _ _ _ _ _ H5).
  rewrite (bind_ok _ _ _ _ _ (in_k_ok (elf_free elf) (set_sys s2 o) tt k3 H6)).
  set (o3 := set_sys _ (set_sys s2 o)). rewrite (bind_ok _ _ _ _ _ (in_m_read (elf_get_entrypoint elf) o3 entry H7)).
  exact (in_sys_ok (job_create entry (u64 (JOB_BASE_USER + alloc)) nm pm) o3 q s4 H8).
Qed.

(** The reads of the struct. *)
Lemma parsed_reads : f_programs f ≠ 0 →
  elf_get_programheader_count elf (kram k1) = Ok (h_phnum h) (kram k1) ∧
  elf_get_programheader_byid elf 0 (kram k1) = Ok (f_programs f) (kram k1).
Proof.
  intros Hne. pose proof (pd_ready _ _ _ _ _ _ _ _ _ _ _ Hpd) as [Hpg Hlive _ _ Hlow _].
  pose proof (pg_image _ _ _ _ _ Hpg) as Himg. pose proof (ei_counts _ _ Himg). pose proof (pg_struct _ _ _ _ _ Hpg) as Hst.
  pose proof (pd_programs _ _ _ _ _ _ _ _ _ _ _ Hpd) as Hpr. unfold table_read in Hpr. rewrite decide_False in Hpr by done.
  destruct Hpr as [Hflag _]. pose proof (region_range _ _ (programs_region Hne) ltac:(unfold sizeof_Phdr; lia)). split.
  - exact (header_word (kram k1) elf f img h 56 2 _ Hpg ltac:(lia) (ei_phnum _ _ Himg) ltac:(lia)).
  - unfold elf_get_programheader_byid. rewrite (bind_ok _ _ _ _ _ (load_word_ok 4 _ _ _ (st_programs_loaded _ _ _ Hst) ltac:(rewrite Hflag; lia))).
    rewrite Hflag. change (1 =? 0) with false. cbv iota.
    rewrite (bind_ok _ _ _ _ _ (load_word_ok 8 _ _ _ (st_programs _ _ _ Hst) ltac:(lia))).
    unfold ret. by rewrite Z.mul_0_r, Z.add_0_r.
Qed.

Lemma parsed_struct : elf_struct (kram k1) elf f.
Proof. apply (pd_ready _ _ _ _ _ _ _ _ _ _ _ Hpd). Qed.

(** The kernel stops where the program cannot be loaded. *)
Lemma create_from_image_fault m0 e : elf_fromfilebuffer elf file (kram k0) = Ok tt m0 → elf_alloc_and_parse elf (set_kram m0 k0) = Ok tt k1 →
  f_programs f ≠ 0 → job_load_program elf (f_programs f) (set_sys (set_kern k1 s) o) = Fault e → job_create_from_image file nm o = Fault e.
Proof.
  intros H1 H2 Hne H5. destruct (parsed_reads Hne) as [H3 H4]. apply os_array_fault. fold s k elf k0. set (o0 := set_sys (set_kern k0 s) o).
  rewrite (bind_ok _ _ _ _ _ (in_m_ok (elf_fromfilebuffer elf file) o0 tt m0 H1)).
  set (o1 := set_sys _ o0). rewrite (bind_ok _ _ _ _ _ (in_k_ok (elf_alloc_and_parse elf) o1 tt k1 H2)).
  set (o2 := set_sys _ o1).
  rewrite (bind_ok _ _ _ _ _ (in_m_read (elf_get_programheader_count elf) o2 (h_phnum h) H3)).
  rewrite (bind_ok _ _ _ _ _ (in_m_read (elf_get_programheader_byid elf 0) o2 (f_programs f) H4)).
  apply bind_fault. exact H5.
Qed.

(** *** After the program was loaded *)

Section loaded.
Context (pm root : Z) (slots : list Z) (s2 : system) (k3 : kernel).
Context (Hpl : program_loaded (live := service) (set_kern k1 s) (dom R3) used busy bs old root0 pm root slots s2).
Context (Hfr : heap_frame (kern s2) k3).

Lemma loaded_table a : heap_table_area (kern s2) a ↔ heap_table_area k a.
Proof.
  destruct (pl_heap _ _ _ _ _ _ _ _ _ _ _ Hpl) as [Et Eb]. rewrite <-(proj2 (parsed_areas a)).
  unfold heap_table_area. by rewrite Et, Eb.
Qed.

Lemma freed_frame a : ¬ heap_table_area k a → kram k3 !! a = kram (kern s2) !! a.
Proof. intros Ha. apply Hfr. intros Hx. apply Ha, loaded_table. unfold heap_table_area. lia. Qed.

(** What lasts: everything but the heap and the pages. *)
Lemma loaded_lasting a : lasting k a → ¬ slab_area (table_slab s) a → ¬ slab_area (user_space s) a → kram k3 !! a = kram k !! a.
Proof.
  intros Ha Ht Hu. pose proof Ha as (_ & Hno & _). rewrite freed_frame by done.
  rewrite <-(parsed_lasting a Ha). apply (pl_frame _ _ _ _ _ _ _ _ _ _ _ Hpl). split; [exact Ht|]. split; [exact Hu|].
  intros Hx. apply Hno, parsed_areas. unfold heap_table_area. cbn [kern set_kern] in Hx. lia.
Qed.

(** The struct and the file are as the parser left them. *)
Lemma loaded_parsing : parsing (kram (kern s2)) elf f img h ∧ parsing (kram k3) elf f img h.
Proof.
  pose proof (pd_ready _ _ _ _ _ _ _ _ _ _ _ Hpd) as [Hpg Hlive (nf & Hnf & Hlen) _ _ _].
  assert (∀ a, elf ≤ a < elf + sizeof_ELF ∨ f_file f ≤ a < f_file f + Z.of_nat (length img) →
    elsewhere (set_kern k1 s) a ∧ ¬ heap_table_area k a) as Ha.
  { intros a [Ha|Ha]; split.
    - by apply elf_elsewhere.
    - by apply elf_apart.
    - eapply region_elsewhere; [exact Hnf|lia].
    - rewrite <-(proj2 (parsed_areas a)). eapply (regions_inside k1 R3); [exact Hlive|exact Hnf|lia]. }
  assert (parsing (kram (kern s2)) elf f img h) as Hp2.
  { eapply parsing_outside; [exact Hpg|]. intros a Hx. by apply (pl_frame _ _ _ _ _ _ _ _ _ _ _ Hpl), Ha. }
  split; [exact Hp2|]. eapply parsing_outside; [exact Hp2|]. intros a Hx. by apply freed_frame, Ha.
Qed.

Lemma loaded_entry : elf_get_entrypoint elf (kram k3) = Ok (h_entry h) (kram k3).
Proof.
  destruct loaded_parsing as [_ Hp]. pose proof (pg_image _ _ _ _ _ Hp) as Himg.
  exact (header_word (kram k3) elf f img h 24 8 _ Hp ltac:(lia) (ei_entry _ _ Himg) (ei_entry_range _ _ Himg)).
Qed.

Lemma loaded_system : jobs s2 = jobs s ∧ current_job s2 = current_job s ∧ job_slab s2 = job_slab s.
Proof.
  destruct (pl_system _ _ _ _ _ _ _ _ _ _ _ Hpl) as (E & _).
  split; [exact (f_equal jobs E)|]. split; [exact (f_equal current_job E)|exact (f_equal job_slab E)].
Qed.

Lemma job_header_lasting a : slab_header (job_slab s) a → lasting k a ∧ ¬ slab_area (table_slab s) a ∧ ¬ slab_area (user_space s) a.
Proof.
  intros Ha. pose proof Hcr as [_ _ _ _ _ _ _ _ _ _ Hjobs _ _ _ _ _ Hjap]. split; [|by apply Hjap].
  destruct (slabs_lasting a) as [Hs Hh]; [tauto|]. split; [done|]. split; [|done].
  pose proof (inv_apart _ _ _ _ _ Hjobs) as Hap. unfold disjoint, heap_table_area, slab_header, k, s in *. lia.
Qed.

Lemma name_lasting a : nm ≤ a < nm + Z.of_nat (length str) + 1 → lasting k a ∧ ¬ slab_area (table_slab s) a ∧ ¬ slab_area (user_space s) a.
Proof.
  intros Ha. pose proof Hcr as [_ _ _ _ _ _ _ _ _ _ _ _ _ _ _ Hnmap _]. destruct (Hnmap a Ha) as ((Ht & Hu & _) & Hh & Hno & _).
  split; [|done]. split; [apply areas_mapped; tauto|done].
Qed.

Lemma loaded_jobs L' : service k3 L' → dom R ⊆ L' → job_inv service (set_kern k3 s2) l jused L'.
Proof.
  intros Hl Hsub. destruct loaded_system as (Ej & Ec & Es). destruct (pl_heap _ _ _ _ _ _ _ _ _ _ _ Hpl) as [Et Eb].
  destruct Hfr as (_ & _ & _ & _ & _ & _ & Et3 & Eb3).
  pose proof (proj2 (parsed_areas 0)) as _. pose proof (pd_step _ _ _ _ _ _ _ _ _ _ _ Hpd) as [_ _ _ _ (Et1 & Eb1 & _)].
  apply (job_inv_kept service s _ l jused (dom R)); try done.
  - by apply (cr_jobs _ _ _ _ _ _ _ _ _ _ _ _ _ _ _ _ _ Hcr).
  - intros a Ha. apply loaded_lasting; apply (job_header_lasting a Ha).
  - cbn [kern set_kern] in *. by rewrite Et3, Et, Et1.
  - cbn [kern set_kern] in *. by rewrite Eb3, Eb, Eb1.
Qed.

(** The slabs of pages at the end. *)
Lemma final_pages m' a : only_header (job_slab s) (kram k3) m' → slab_area (table_slab s) a ∨ slab_area (user_space s) a →
  drop_cells elf (Z.to_nat sizeof_ELF) m' !! a = kram (kern s2) !! a.
Proof.
  intros Hm Ha. destruct (slabs_lasting a) as [Hs Hh]; [tauto|]. pose proof Hcr as [_ _ _ _ _ _ _ Hsp Hup _ _ _ _ _ _ _ Hjap].
  rewrite drop_cells_lookup, decide_False by (by apply mapped_not_local). rewrite Hm.
  - apply freed_frame. destruct Ha as [Ha|Ha]; intros Hx.
    + by destruct (sr_heap _ _ _ _ _ Hsp a Hx) as (_ & Hno & _).
    + by destruct (up_apart _ Hup a Ha) as [_ Hno].
  - intros Hx. destruct (Hjap a Hx). tauto.
Qed.
End loaded.

(** The tables are freed: the new paging manager stays, and the buffer of the file with the rest. *)
Lemma tables_freed pm root slots s2 : program_loaded (live := service) (set_kern k1 s) (dom R3) used busy bs old root0 pm root slots s2 →
  f_sections f ≠ 0 → f_programs f ≠ 0 → f_strings f ≠ 0 →
  (pm ∉ dom R) ∧ ∃ k3, elf_free elf (kern s2) = Ok tt k3 ∧ service k3 ({[pm]} ∪ dom R) ∧ heap_frame (kern s2) k3.
Proof.
  intros Hpl N1 N2 N3. destruct (parsed_tables N1 N2 N3) as ((N12 & N13 & N23) & (Edom & D1 & D2 & D3) & Hr1 & Hr2 & Hr3).
  destruct (pl_live _ _ _ _ _ _ _ _ _ _ _ Hpl) as (_ & Hnew & Hl). rewrite Edom in Hnew, Hl.
  destruct (free_three _ _ _ pm _ D1 D2 D3 Hnew) as (Hpd' & I1 & I2 & I3 & Eset). split; [exact Hpd'|].
  destruct (loaded_parsing pm root slots s2 (kern s2) Hpl (heap_frame_refl _)) as [Hp _].
  destruct (elf_free_spec (kern s2) _ elf f (f_sections f) (f_programs f) (f_strings f) Hl (pg_struct _ _ _ _ _ Hp)
    eq_refl eq_refl eq_refl I1 I2 I3 N12 N13 N23 ltac:(lia) ltac:(lia) ltac:(lia)) as (k3 & Hrun & Hl3 & Hfr).
  - intros a Ha. rewrite (loaded_table pm root slots s2 Hpl). by apply elf_apart.
  - exists k3. split; [exact Hrun|]. split; [|exact Hfr]. by rewrite Eset in Hl3.
Qed.

(** The address spaces in the last state. *)
Lemma final_spaces pm root slots s2 k3 m' kf : program_loaded (live := service) (set_kern k1 s) (dom R3) used busy bs old root0 pm root slots s2 →
  heap_frame (kern s2) k3 → only_header (job_slab s) (kram k3) m' → kram kf = drop_cells elf (Z.to_nat sizeof_ELF) m' →
  sysregs (mach kf) = sysregs (mach k3) →
  (∀ i b, bs !! i = Some b → ∃ pa, translate (kram kf) root (JOB_BASE_USER + Z.of_nat i) = Some (pa, true, false) ∧
    kram kf !! pa = Some (Some b)) ∧
  ∀ va, mmu_translate (mach kf) va = translate (kram k) root0 va.
Proof.
  intros Hpl Hfr Hm Ekf Eregs. destruct parsed_ready as (Hsp1 & Hup1 & Hact1). destruct Hact1 as [_ _ _ Ht1 _].
  assert (∀ a, slab_area (table_slab s) a ∨ slab_area (user_space s) a → kram kf !! a = kram (kern s2) !! a) as Hag.
  { intros a Ha. rewrite Ekf. by apply (final_pages pm root slots s2 k3 Hpl Hfr). }
  assert (∀ now r T, page_slab (table_slab s) (kram (kern s2)) now → tree (table_slab s) (kram (kern s2)) now r T →
    ∀ va, translate (kram kf) r va = translate (kram (kern s2)) r va) as Hkeep.
  { intros now r T Hps Ht. eapply tables_kept; [exact Ht|done|]. intros q t a Hq Ha. apply Hag. left.
    destruct (tr_node _ _ _ _ _ Ht q t Hq) as (_ & j & Hj & ->). exact (proj1 (slot_in_area _ _ _ j _ Hps (ps_used _ _ _ Hps _ Hj) Ha)). }
  destruct (pl_manager _ _ _ _ _ _ _ _ _ _ _ Hpl) as (now & T & [Hps Ht] & Hsub).
  destruct (pl_slots _ _ _ _ _ _ _ _ _ _ _ Hpl) as [Hlen Hslots].
  destruct (pl_others _ _ _ _ _ _ _ _ _ _ _ Hpl root0 T0 Ht1) as [Ht2 E2]. split.
  - intros i b Hb. pose proof (lookup_lt_Some _ _ _ Hb) as Hi. pose proof (pages_fit bs i Hi) as Hfit. rewrite <-Hlen in Hfit.
    exists (page_address (user_space s) slots i). split.
    + rewrite (Hkeep now root T Hps Ht), (pl_space _ _ _ _ _ _ _ _ _ _ _ Hpl). by apply page_translates.
    + rewrite Hag; [by apply (pl_bytes _ _ _ _ _ _ _ _ _ _ _ Hpl)|]. right.
      pose proof (sr_pages _ _ _ _ _ Hsp1) as Hus. apply (slots_in_area (user_space s)); [apply Hus|apply Hus|].
      apply page_inside; [apply Hus|intros m Hx; by apply Hslots|exact Hfit].
  - intros va. assert (mmu_translate (mach kf) va = translate (kram kf) root0 va) as ->.
    { rewrite <-(pl_mmu _ _ _ _ _ _ _ _ _ _ _ Hpl). unfold mmu_translate.
      destruct Hfr as (_ & _ & Er & _). by rewrite Eregs, Er. }
    assert (tree (table_slab s) (kram (kern s2)) now root0 T0) as Htn by (eapply tree_frame; [exact Ht2|exact Hsub|done]).
    rewrite (Hkeep now root0 T0 Hps Htn), E2.
    pose proof (ac_tree _ _ _ _ _ _ (cr_active _ _ _ _ _ _ _ _ _ _ _ _ _ _ _ _ _ Hcr)) as Ht0.
    pose proof (sr_tables _ _ _ _ _ (cr_space _ _ _ _ _ _ _ _ _ _ _ _ _ _ _ _ _ Hcr)) as Hps0.
    eapply tables_kept; [exact Ht0|done|]. intros q t a Hq Ha. apply parsed_lasting, tables_lasting.
    destruct (tr_node _ _ _ _ _ Ht0 q t Hq) as (_ & j & Hj & ->). exact (proj1 (slot_in_area _ _ _ j _ Hps0 (ps_used _ _ _ Hps0 _ Hj) Ha)).
Qed.

(** The job is created, and the local struct goes. *)
Lemma job_created m0 pm root slots s2 k3 slot (alloc := 4096 * pages_of (Z.of_nat (length bs))) (q := slot_address (job_slab s) slot) :
  program_loaded (live := service) (set_kern k1 s) (dom R3) used busy bs old root0 pm root slots s2 →
  elf_fromfilebuffer elf file (kram k0) = Ok tt m0 → elf_alloc_and_parse elf (set_kram m0 k0) = Ok tt k1 → f_programs f ≠ 0 →
  job_load_program elf (f_programs f) (set_sys (set_kern k1 s) o) = Ok (pm, alloc) (set_sys s2 o) →
  Z.of_nat (length bs) + 8192 ≤ INT_MAX → (pm ∉ dom R) →
  elf_free elf (kern s2) = Ok tt k3 → service k3 ({[pm]} ∪ dom R) → heap_frame (kern s2) k3 → free_slot (job_slab s) jused = Some slot →
  ∃ nx o', job_create_from_image file nm o = Ok q o' ∧
    jobs (sys o') !! q = Some (mk_job (take 30 str) RUNNING (replicate 31 0) (h_entry h) (JOB_BASE_USER + alloc) pm (replicate 8 0) 0 nx) ∧
    same_jobs (jobs s) (delete q (jobs (sys o'))) ∧
    job_inv service (sys o') (insert_ring q l) ({[slot]} ∪ jused) ({[pm]} ∪ dom R) ∧
    managers (sys o') !! pm = Some (mk_paging_manager root (table_slab s)) ∧
    (∀ i b, bs !! i = Some b → ∃ pa, translate (kram (kern (sys o'))) root (JOB_BASE_USER + Z.of_nat i) = Some (pa, true, false) ∧
      kram (kern (sys o')) !! pa = Some (Some b)) ∧
    ∀ va, mmu_translate (mach (kern (sys o'))) va = translate (kram k) root0 va.
Proof.
  intros Hpl Hrun0 Hrun1 Hne Hrun2 Hmax Hpm Hrun3 Hl3 Hfr Hslot. destruct (parsed_reads Hne) as [Hcount Hby].
  pose proof (loaded_jobs pm root slots s2 k3 Hpl Hfr _ Hl3 ltac:(set_solver)) as Hinv.
  destruct (loaded_system pm root slots s2 Hpl) as (Ej & Ec & Es). pose proof Hcr as [_ _ _ _ _ _ _ _ _ _ Hjobs Hnm _ _ _ Hnmap _].
  assert (cstr (kram k3) nm str) as Hnm3.
  { eapply cstr_agree; [exact Hnm|]. intros a Ha. apply (loaded_lasting pm root slots s2 k3 Hpl Hfr); apply name_lasting; lia. }
  destruct (job_create_spec (set_kern k3 s2) l jused _ slot (h_entry h) (u64 (JOB_BASE_USER + alloc)) nm str pm Hinv)
    as (m' & js & c & nx & Hrun4 & Honly & Hinv4 & Hjob & Hsame); cbn [job_slab jobs kern set_kern] in *; rewrite ?Es, ?Ej in *; try done.
  { apply not_overlap; [lia|destruct (inv_ok _ _ _ _ _ Hjobs); unfold s; lia|]. intros a Ha. apply (Hnmap a). lia. }
  { set_solver. }
  { intros x j Hx E. apply Hpm. rewrite <-E. by eapply (inv_paging _ _ _ _ _ Hjobs). }
  set (s4 := set_jobs js (set_current c (set_kern (set_kram m' k3) (set_kern k3 s2)))) in *.
  set (kf := set_kram (drop_cells elf (Z.to_nat sizeof_ELF) m') k3). exists nx, (drop_array elf sizeof_ELF (set_sys s4 o)).
  split; [exact (create_from_image_run m0 _ _ pm alloc s2 k3 (h_entry h) q s4 Hrun0 Hrun1 Hcount Hby Hrun2 Hrun3
    (loaded_entry pm root slots s2 k3 Hpl Hfr) Hrun4)|].
  split; [|split; [exact Hsame|split; [|split; [|exact (final_spaces pm root slots s2 k3 m' kf Hpl Hfr Honly eq_refl eq_refl)]]]].
  - change (js !! q = Some (mk_job (take 30 str) RUNNING (replicate 31 0) (h_entry h) (JOB_BASE_USER + alloc) pm (replicate 8 0) 0 nx)).
    etransitivity; [exact Hjob|]. unfold alloc, JOB_BASE_USER. destruct (pages_of_quot (Z.of_nat (length bs)) ltac:(lia) Hmax) as (_ & Hp & _).
    rewrite u64_small; [done|unfold INT_MAX in *; lia].
  - assert (∀ a, heap_table_area k a ∨ slab_header (job_slab s) a → kram kf !! a = kram (kern s4) !! a) as Hag.
    { intros a Ha. change (drop_cells elf (Z.to_nat sizeof_ELF) m' !! a = m' !! a). rewrite drop_cells_lookup, decide_False; [done|].
      apply mapped_not_local, areas_mapped. tauto. }
    apply (job_inv_kept service s4 _ _ _ ({[pm]} ∪ dom R)); try done; change (kern (sys (drop_array elf sizeof_ELF (set_sys s4 o)))) with kf.
    + apply (service_stable (kern s4)); [apply Hinv4|done|]. intros a Ha. apply Hag. left. apply (loaded_table pm root slots s2 Hpl).
      destruct Hfr as (_ & _ & _ & _ & _ & _ & Et & Eb). unfold heap_table_area. by rewrite <-Et, <-Eb.
    + intros a Ha. apply Hag. right. change (job_slab s4) with (job_slab s2) in Ha. by rewrite Es in Ha.
  - change (managers s2 !! pm = Some (mk_paging_manager root (table_slab s))).
    destruct (pl_system _ _ _ _ _ _ _ _ _ _ _ Hpl) as (_ & -> & _). apply lookup_insert_eq.
Qed.
End parsed.
End steps.

(** * Properties *)


(** C28: A file that is no program: when the first byte of the file is not that of the magic number,
    nothing stops [job_create_from_file]: the kernel reads the size of the program through a NULL
    program header, at address 40. *)
Theorem not_a_program_faults o R file n img nm (k := kern (sys o)) : live k R → R !! file = Some n → 64 ≤ Z.of_nat (length img) ≤ n → 0 ≤ file →
  bytes_at (kram k) file img → Forall byte_range img → img !! 0%nat ≠ Some ELF_MAGIC_NUMBER → below (2 ^ 62) (kram k) →
  (∀ a, heap_table_area k a → 0 ≤ a < 2 ^ 63) → kram k !! 40 = None →
  job_create_from_image file nm o = Fault (BadAddress 40).
Proof.
  intros Hlive HR Hn Hf0 Hb Hrange Hmagic Hlow Htab Hnull. apply os_array_fault. fold k. set (elf := fresh_address (kram k)). set (k0 := with_array sizeof_ELF k).
  assert (0 ≤ elf ≤ 2 ^ 62 + LOCAL_GAP) as Helf by (by apply fresh_address_bound). unfold LOCAL_GAP in Helf.
  assert (40 < elf) as H40.
  { destruct (regions_inside k R file n (file + 63) Hlive HR ltac:(lia)) as (_ & _ & Hs).
    destruct (decide (elf ≤ 40)); [|lia]. destruct Hs as [c Hc]. rewrite fresh_address_spec in Hc; [done|]. fold elf. unfold LOCAL_GAP. lia. }
  destruct (reject_image k0 R elf file img n) as (m0 & k1 & Hrun0 & Hrun1 & Hun); try done.
  - eapply (regions_stable k); [exact Hlive|done|..].
    + intros a Ha. apply with_array_lookup. by apply (regions_table k R).
    + intros a Ha. unfold k0. by rewrite with_array_lookup.
  - eapply bytes_at_agree; [exact Hb|]. intros a Ha. apply with_array_lookup. eapply (regions_inside k R file n); [done|done|lia].
  - apply mapped_put_cells_self. rewrite length_replicate. unfold sizeof_ELF. lia.
  - intros a Ha. assert (kram k !! a = None) as Hno by (apply fresh_address_spec; fold elf; unfold LOCAL_GAP; lia).
    split; intros Hx; [destruct (regions_area k R a Hlive Hx) as [[c Hc] _]|destruct (regions_table k R a Hlive Hx) as [c Hc]]; congruence.
  - unfold k0, with_array. apply below_put_cells; [|lia|rewrite length_replicate; unfold sizeof_ELF; fold elf; lia].
    intros a Ha. specialize (Hlow a Ha). lia.
  - change (put_cells elf (replicate (Z.to_nat sizeof_ELF) None) (kram k) !! 40 = None). rewrite put_cells_lookup, decide_False; [done|lia].
  - set (o0 := set_sys (set_kern k0 (sys o)) o). rewrite (bind_ok _ _ _ _ _ (in_m_ok (elf_fromfilebuffer elf file) o0 tt m0 Hrun0)).
    set (o1 := set_sys _ o0). rewrite (bind_ok _ _ _ _ _ (in_k_ok (elf_alloc_and_parse elf) o1 tt k1 Hrun1)). set (o2 := set_sys _ o1).
    assert (length (slice img 0 64) = 64%nat) as Hlen by (pose proof (length_slice img 0 64); lia).
    destruct (unparsed_header _ _ _ _ 56 2 Hun Hlen) as [v Hv]; [lia|]. destruct (unparsed_flags _ _ _ _ Hun) as (_ & _ & F).
    rewrite (bind_ok _ _ _ _ _ (in_m_read (elf_get_programheader_count elf) o2 v Hv)).
    assert (elf_get_programheader_byid elf 0 (kram k1) = Ok 0 (kram k1)) as Hby by (unfold elf_get_programheader_byid; by rewrite (bind_ok _ _ _ _ _ F)).
    rewrite (bind_ok _ _ _ _ _ (in_m_read (elf_get_programheader_byid elf 0) o2 0 Hby)).
    apply bind_fault. unfold job_load_program. apply bind_fault, in_m_fault. change (kram (kern (sys o2))) with (kram k1).
    unfold p_memsz, load64. cbn [load_le]. apply bind_fault. unfold loadb. change (0 + 40) with 40. by rewrite (proj1 (un_null _ _ _ _ Hun)).
Qed.
End create.

(** * Witness: the file of ElfLoad.v becomes the first job. *)

Definition demo_init_ram : mem :=
  put_bytes 0x1000 [0xe0; 0xe0; 0; 0; 0; 0; 7] $ put_bytes 4352 (replicate 392 0) $ put_bytes 0x1800 (chars "init" ++ [0]) $
  put_bytes 0x2000 demo_image $ put_bytes 0x2000 (replicate (Z.to_nat 0x6000) 0) $
  put_bytes 0x7ffff000 (replicate (Z.to_nat 0x3000) 0) demo_pt_mem.
Definition demo_init_kernel : kernel :=
  mk_kernel (mk_machine demo_init_ram (set_reg CNTFRQ_EL0 62500000 (λ _, 0)) [] (mk_environment (λ _ _, 0) (λ _ _, 6250000)))
    (mk_heap 0x2000 0x1000 6 4) (mk_gic_table [] []).
Definition demo_init_system : system :=
  mk_system demo_init_kernel demo_tables 0x3000 {[0x3000 := mk_paging_manager demo_root2 demo_tables]} demo_job_slab demo_user_slab 0 ∅.
Definition demo_init : os := mk_os demo_init_system demo_job_slab 0 0.
Definition demo_init_regions : gmap Z Z := {[0x2000 := 4096; 0x3000 := 4096]}.

Ltac init_lengths := cbn [length]; rewrite ?length_replicate, ?length_app, ?length_le_bytes; cbn [length]; try change (length demo_image) with 188%nat;
  try change (length (chars "init")) with 4%nat; try lia.

Lemma demo_init_other a : 0x10000 ≤ a < 0x7ffff000 → demo_init_ram !! a = demo_pt_mem !! a.
Proof. intros Ha. unfold demo_init_ram. rewrite !put_bytes_outside; [done|..]; init_lengths. Qed.

Lemma demo_init_heap_mapped a : 0x2000 ≤ a < 0x8000 → is_Some (demo_init_ram !! a).
Proof.
  intros Ha. unfold demo_init_ram. do 4 apply put_bytes_dom.
  apply (mapped_put_bytes_self _ (replicate (Z.to_nat 0x6000) 0) _ 0x6000); [init_lengths|lia].
Qed.

Lemma demo_init_user_mapped a : 0x7ffff000 ≤ a < 0x80002000 → is_Some (demo_init_ram !! a).
Proof.
  intros Ha. unfold demo_init_ram. do 5 apply put_bytes_dom.
  apply (mapped_put_bytes_self _ (replicate (Z.to_nat 0x3000) 0) _ 0x3000); [init_lengths|lia].
Qed.

Lemma demo_init_areas a : (heap_area demo_init_kernel a ↔ 0x2000 ≤ a < 0x8000) ∧ (heap_table_area demo_init_kernel a ↔ 0x1000 ≤ a < 0x1007).
Proof.
  change ((0x2000 ≤ a < 0x2000 + 4096 * 6 ↔ 0x2000 ≤ a < 0x8000) ∧ (0x1000 ≤ a < 0x1000 + 6 + 1 ↔ 0x1000 ≤ a < 0x1007)). lia.
Qed.

Lemma demo_init_slabs a : (slab_area demo_tables a ↔ 0x10000 ≤ a < 0x19000) ∧ (slab_area demo_user_slab a ↔ 0x7ffff000 ≤ a < 0x80002000) ∧
  (slab_header demo_job_slab a ↔ 4352 ≤ a < 4744).
Proof.
  change ((0x10000 ≤ a < 0x10000 + 4096 + 4096 * 8 ↔ 0x10000 ≤ a < 0x19000) ∧
    (0x7ffff000 ≤ a < 0x7ffff000 + 4096 + 4096 * 2 ↔ 0x7ffff000 ≤ a < 0x80002000) ∧ (4352 ≤ a < 4352 + 392 ↔ 4352 ≤ a < 4744)). lia.
Qed.

Lemma demo_init_below : below (2 ^ 62) demo_init_ram.
Proof.
  unfold demo_init_ram. do 6 (apply below_put_bytes; [|lia|init_lengths]).
  apply below_put_bytes; [apply below_empty|lia|init_lengths].
Qed.

Lemma demo_init_live : heap_regions demo_init_kernel demo_init_regions.
Proof.
  split; [by change (0 < 0x2000)|]. split.
  - intros a Ha. destruct (demo_init_areas a) as [E1 E2]. apply (proj1 E1) in Ha.
    split; [by apply demo_init_heap_mapped|intros Ht; apply (proj1 E2) in Ht; lia].
  - exists [Used 1; Used 1; Free; Free; Free; Free]. split.
    + split; [|by repeat constructor|done|done|done]. exists 7. exact (bytes_at_put 0x1000 [0xe0; 0xe0; 0; 0; 0; 0; 7] _).
    + split; [|by intros i l [[= -> ->]|[[= -> ->]|H]%elem_of_cons]%elem_of_cons; [exists 4096|exists 4096|apply not_elem_of_nil in H]].
      intros p n. unfold demo_init_regions. intros [[<- <-]|[_ [<- <-]%lookup_singleton_Some]]%lookup_insert_Some.
      * exists 0%nat, 1%nat. split; [by left|]. change (0x2000 = 0x2000 + 4096 * 0 ∧ 4096 ≤ 4096 * 1). lia.
      * exists 1%nat, 1%nat. split; [by right; left|]. change (0x3000 = 0x2000 + 4096 * 1 ∧ 4096 ≤ 4096 * 1). lia.
Qed.

Lemma demo_init_ready : space_ready heap_live demo_init_system (dom demo_init_regions) {[7; 6]} ∅.
Proof.
  split; cbn [table_slab user_space kern demo_init_system].
  - apply (regions_service demo_init_kernel demo_init_regions demo_init_live).
  - change (kram demo_init_kernel) with demo_init_ram. eapply page_slab_agree; [exact demo_page_slab|].
    intros a Ha. apply demo_init_other. change (0x10000 ≤ a < 0x10000 + 4096 + 4096 * 8) in Ha. lia.
  - change (kram demo_init_kernel) with demo_init_ram.
    split; [split; simpl; unfold INT_MAX; lia| |done|done|simpl; lia]. exists [0]. split.
    + unfold demo_init_ram. cbn [starting_address demo_user_slab]. do 5 (apply bytes_at_put_ne; [|init_lengths]).
      change (Z.to_nat 0x3000) with (1 + Z.to_nat 0x2fff)%nat. rewrite replicate_add, put_bytes_app. apply bytes_at_put.
    + split; [by repeat constructor|]. split; [simpl; lia|]. split; [simpl; lia|].
      intros n Hn. simpl in Hn. assert (n = 0 ∨ n = 1) as [-> | ->] by lia; vm_compute; reflexivity.
  - change (below (2 ^ 63) demo_init_ram). intros a Ha. pose proof (demo_init_below a Ha). lia.
  - by apply (bool_decide_unpack _).
  - intros new _. change (u64 (6250000 * 1000000) / 62500000 < 10 ^ 11). vm_compute. reflexivity.
  - intros a Ha. destruct (demo_init_slabs a) as (E1 & _). apply (proj1 E1) in Ha. change (¬ (0x7ffff000 ≤ a < 0x7ffff000 + 4096)). lia.
  - intros a Ha. change (0x1000 ≤ a < 0x1000 + 6 + 1) in Ha. split; [lia|]. destruct (demo_init_slabs a) as (E1 & _).
    split; [intros Hx; apply (proj1 E1) in Hx; lia|]. change (¬ (0x7ffff000 ≤ a < 0x7ffff000 + 4096)). lia.
Qed.

Lemma demo_init_pages : user_pages demo_init_system.
Proof.
  split.
  - intros a Ha. destruct (demo_init_slabs a) as (E1 & E2 & _). apply (proj1 E2) in Ha.
    split; [intros Hx; apply (proj1 E1) in Hx; lia|]. change (¬ (0x1000 ≤ a < 0x1000 + 6 + 1)). lia.
  - intros a Ha. change (0x80000000 ≤ a < 0x80000000 + 4096 * 2) in Ha. apply demo_init_user_mapped. lia.
Qed.

Lemma demo_init_active : active_space demo_init_system (dom demo_init_regions) {[7; 6]} 0x3000 demo_root2 {[ [] := demo_root2 ]}.
Proof.
  split; [reflexivity|reflexivity|split; [set_solver|lia]| |by left].
  change (kram (kern demo_init_system)) with demo_init_ram.
  apply (tables_kept demo_tables demo_pt_mem demo_init_ram {[7; 6]}); [apply demo_roots|done|].
  intros q t a [_ <-]%lookup_singleton_Some Ha. apply demo_init_other. unfold demo_root2 in Ha. lia.
Qed.

Lemma demo_init_jobs : job_inv heap_live demo_init_system [] ∅ (dom demo_init_regions).
Proof.
  split; cbn [job_slab jobs kern demo_init_system].
  - done.
  - apply (regions_service demo_init_kernel demo_init_regions demo_init_live).
  - intros p j. by rewrite lookup_empty.
  - intros p q j k'. by rewrite lookup_empty.
  - split; simpl; unfold INT_MAX; lia.
  - exists (replicate 392 0). split.
    + change (bytes_at demo_init_ram 4352 (replicate 392 0)). unfold demo_init_ram. apply bytes_at_put_ne; [apply bytes_at_put|init_lengths].
    + split; [by apply Forall_replicate|]. split; [init_lengths; simpl; lia|]. split; [init_lengths; simpl; lia|].
      intros n Hn. simpl in Hn. assert (n = 0 ∨ n = 1 ∨ n = 2) as [-> | [-> | ->]] by lia; vm_compute; reflexivity.
  - by intros p ?%not_elem_of_nil.
  - change (disjoint 4352 392 0x1000 (6 + 1)). unfold disjoint. lia.
Qed.

Lemma demo_init_create : create_ready (service := heap_live) (live := heap_regions) demo_init demo_init_regions {[7; 6]} ∅ ∅ [] 0x3000 demo_root2
  {[ [] := demo_root2 ]} 0x2000 4096 demo_image demo_image_header 184 (chars "abc") 0x1800 (chars "init").
Proof.
  split; cbn [sys demo_init].
  - exact demo_init_live.
  - split; [apply lookup_insert_eq|]. change (length demo_image) with 188%nat. lia.
  - change (bytes_at demo_init_ram 0x2000 demo_image). unfold demo_init_ram.
    do 3 (apply bytes_at_put_ne; [|init_lengths]). apply bytes_at_put.
  - exact demo_image_ok.
  - reflexivity.
  - reflexivity.
  - split; [reflexivity|]. change (length demo_image) with 188%nat. change (length (chars "abc")) with 3%nat. lia.
  - exact demo_init_ready.
  - exact demo_init_pages.
  - exact demo_init_active.
  - exact demo_init_jobs.
  - split; [|by apply (bool_decide_unpack (Forall (λ c, 0 < c < 256) (chars "init")))].
    change (bytes_at demo_init_ram 0x1800 (chars "init" ++ [0])). unfold demo_init_ram. do 2 (apply bytes_at_put_ne; [|init_lengths]). apply bytes_at_put.
  - exact demo_init_below.
  - intros a. change (slab_header demo_tables a ∨ slab_header demo_user_slab a ∨ slab_header demo_job_slab a → is_Some (demo_init_ram !! a)).
    intros [Ha|[Ha|Ha]].
    + change (0x10000 ≤ a < 0x10000 + 4096) in Ha. rewrite demo_init_other by lia. unfold demo_pt_mem.
      refine (mapped_put_bytes_self _ _ _ 0x9000 _ a _); [cbn [length]; rewrite length_replicate|]; lia.
    + change (0x7ffff000 ≤ a < 0x7ffff000 + 4096) in Ha. apply demo_init_user_mapped. lia.
    + change (4352 ≤ a < 4352 + 392) in Ha. unfold demo_init_ram. apply put_bytes_dom.
      apply (mapped_put_bytes_self _ (replicate 392 0) _ 392); [init_lengths|lia].
  - intros a Ha. destruct (demo_init_areas a) as [E1 _]. apply (proj1 E1) in Ha. destruct (demo_init_slabs a) as (S1 & S2 & S3).
    split; [intros Hx; apply (proj1 S1) in Hx; lia|]. split; [intros Hx; apply (proj1 S2) in Hx; lia|intros Hx; apply (proj1 S3) in Hx; lia].
  - intros a Ha. change (length (chars "init")) with 4%nat in Ha. destruct (demo_init_areas a) as [E1 E2]. destruct (demo_init_slabs a) as (S1 & S2 & S3).
    split; [|split; [intros Hx; apply (proj1 E1) in Hx; lia|split; [intros Hx; apply (proj1 E2) in Hx; lia|intros Hx; apply (proj1 S3) in Hx; lia]]].
    split; [intros Hx; apply (proj1 S1) in Hx; lia|]. split; [intros Hx; apply (proj1 S2) in Hx; lia|].
    change (¬ (0x1000 ≤ a < 0x1000 + 6)). lia.
  - intros a Ha. destruct (demo_init_slabs a) as (S1 & S2 & S3). apply (proj1 S3) in Ha.
    split; [intros Hx; apply (proj1 S1) in Hx; lia|intros Hx; apply (proj1 S2) in Hx; lia].
Qed.

(** The answers of [kalloc]. *)
Definition image_answers (elf file : Z) (k0 : kernel) : option (Z * Z * Z * Z) :=
  match elf_fromfilebuffer elf file (kram k0) with
  | Ok _ m0 =>
      match elf_alloc_and_parse elf (set_kram m0 k0) with
      | Ok _ k1 =>
          match load64 (elf + ELF_section_headers) (kram k1), load64 (elf + ELF_program_headers) (kram k1),
            load64 (elf + ELF_strings_section) (kram k1), kalloc sizeof_paging_manager k1 with
          | Ok a _, Ok b _, Ok c _, Ok d _ => Some (a, b, c, d)
          | _, _, _, _ => None
          end
      | _ => None
      end
  | _ => None
  end.

Lemma demo_init_answers : image_answers (fresh_address (kram demo_init_kernel)) 0x2000 (with_array sizeof_ELF demo_init_kernel) =
  Some (0x4000, 0x5000, 0x6000, 0x7000).
Proof. vm_compute. reflexivity. Qed.

Lemma answers_not_null elf file k0 m0 k1 f a b c d : image_answers elf file k0 = Some (a, b, c, d) → a ≠ 0 → b ≠ 0 → c ≠ 0 →
  elf_fromfilebuffer elf file (kram k0) = Ok tt m0 → elf_alloc_and_parse elf (set_kram m0 k0) = Ok tt k1 → elf_struct (kram k1) elf f →
  f_sections f ≠ 0 ∧ f_programs f ≠ 0 ∧ f_strings f ≠ 0 ∧ ∃ k', kalloc sizeof_paging_manager k1 = Ok d k'.
Proof.
  unfold image_answers. intros Ha Na Nb Nc E0 E1 Hst. rewrite E0, E1 in Ha.
  assert (∀ o v, word_at 8 (kram k1) (elf + o) v → v = 0 → load64 (elf + o) (kram k1) = Ok 0 (kram k1)) as Hz.
  { intros o v Hw ->. by apply load_word_ok. }
  destruct (load64 (elf + ELF_section_headers) (kram k1)) eqn:L1; [|done..].
  destruct (load64 (elf + ELF_program_headers) (kram k1)) eqn:L2; [|done..].
  destruct (load64 (elf + ELF_strings_section) (kram k1)) eqn:L3; [|done..].
  destruct (kalloc sizeof_paging_manager k1) as [q k'| |] eqn:L4; [|done..]. injection Ha as <- <- <- <-.
  split; [|split; [|split; [|by exists k']]]; intros E.
  - pose proof (Hz _ _ (st_sections _ _ _ Hst) E). congruence.
  - pose proof (Hz _ _ (st_programs _ _ _ Hst) E). congruence.
  - pose proof (Hz _ _ (st_strings _ _ _ Hst) E). congruence.
Qed.


(** The zeros of the second block are no program. *)
Lemma not_a_program_faults_witness : job_create_from_image 0x3000 0x1800 demo_init = Fault (BadAddress 40).
Proof.
  apply (not_a_program_faults demo_init demo_init_regions 0x3000 4096 (replicate 64 0) 0x1800).
  - exact demo_init_live.
  - reflexivity.
  - rewrite length_replicate. lia.
  - lia.
  - change (bytes_at demo_init_ram 0x3000 (replicate 64 0)). unfold demo_init_ram. do 4 (apply bytes_at_put_ne; [|init_lengths]).
    change (Z.to_nat 0x6000) with (Z.to_nat 0x1000 + (64 + Z.to_nat 0x4fc0))%nat. rewrite !replicate_add, !put_bytes_app.
    apply bytes_at_put_ne; [apply bytes_at_put|init_lengths].
  - apply Forall_replicate. unfold byte_range. lia.
  - done.
  - exact demo_init_below.
  - intros a Ha. destruct (demo_init_areas a) as [_ E]. apply (proj1 E) in Ha. lia.
  - change (demo_init_ram !! 40 = None). unfold demo_init_ram. rewrite !put_bytes_outside by init_lengths.
    unfold demo_pt_mem. rewrite put_bytes_outside by (cbn [length]; init_lengths). apply lookup_empty.
Defined.
