(* ===== verification/ReadCall.v ===== *)
(** * The system call 21 (exceptions_internal_get of kernel/exceptions/exceptions.c)

    A program reads a character of an open file in memory: from the [svc] to the return, through
    the descriptor of its job, the table of the inode and kernel/fs/ram_fs.c. *)
From stdpp Require Import base list gmap.
From Stdlib Require Import ZArith Lia.
From S2P Require Import Prelude Memory CString Heap Slab Machine Log Gic Kernel Paging Job Sched Elf.
From S2P Require Import Virtio Fat FatPart Disk Fs RamFs FatFs Exceptions.

(** * Specification *)

(** The file of a descriptor of the job, or NULL. *)
Definition file_of (j : job) (fd : Z) : Z :=
  if (fd <? 0) || (open_files_count j <=? fd) then 0 else default 0 (open_files j !! Z.to_nat fd).

(** * Lemmas *)

Lemma job_get_file_spec s p j fd : jobs s !! p = Some j → length (open_files j) = 8%nat → open_files_count j ≤ 8 →
  job_get_file p fd s = Ok (file_of j fd) s.
Proof.
  intros Hj Hlen Hcnt. unfold job_get_file, file_of. rewrite (bind_ok _ _ _ _ _ (get_job_ok _ _ _ Hj)).
  destruct (Z.ltb_spec fd 0); [done|]. destruct (Z.leb_spec (open_files_count j) fd); [done|]. cbn [orb].
  destruct (lookup_lt_is_Some_2 (open_files j) (Z.to_nat fd)) as [f Hf]; [lia|]. by rewrite Hf.
Qed.

(** A word stored among words. *)
Lemma bytes_at_same m p bs : bytes_at m p bs → put_bytes p bs m = m.
Proof.
  intros Hb. apply map_eq. intros a. rewrite put_bytes_lookup. case_decide as Ha; [|done].
  destruct (lookup_lt_is_Some_2 bs (Z.to_nat (a - p))) as [c Hc]; [lia|]. rewrite Hc. symmetry.
  replace a with (p + Z.of_nat (Z.to_nat (a - p))) by lia. by apply Hb.
Qed.

Lemma put_word m p ws k w v : bytes_at m p (words ws) → ws !! k = Some w →
  bytes_at (put_bytes (p + 8 * Z.of_nat k) (le_bytes 8 v) m) p (words (<[k := v]> ws)).
Proof.
  intros Hb Hk. rewrite <-(bytes_at_same m p _ Hb), (put_word_in_words p ws k w v m Hk). apply bytes_at_put.
Qed.

Lemma frame_words_x0 g v : length g = 31%nat → <[30%nat := v]> (frame_words g) = frame_words (<[0%nat := v]> g).
Proof.
  intros Hg. unfold frame_words, gpr. rewrite list_lookup_insert_eq by lia. rewrite !list_lookup_insert_ne by done. reflexivity.
Qed.

Section call.
Variables (syms : symbols) (interrupt : M kernel unit) (polls : nat).

(** A call that returns with other registers. *)
Lemma svc_returns_with o imm g g' stack o2 r : length g = 31%nat → mapped (kram (kern (sys o))) (stack - 256) 256 →
  takes_svc o imm → r ≠ 0 → length g' = 31%nat → Forall is_u64 g' →
  exceptions_handle_syscall syms interrupt polls imm (stack - 256) (pushed g stack o) = Ok (Some r) o2 →
  bytes_at (kram (kern (sys o2))) (stack - 256) (words (frame_words g')) →
  loweraa64_svc syms interrupt polls g stack o = Ok g' (set_sys (set_kern (set_mach (emit_event Eret (mach (kern (sys o2)))) (kern (sys o2))) (sys o2)) o2).
Proof.
  intros Hg Hm Hsvc Hr Hg' Hu Hcall Hb. pose proof (distributor_svc syms interrupt polls (pushed g stack o) imm (stack - 256) Hsvc) as Hd.
  rewrite Hcall in Hd. unfold loweraa64_svc. eapply (entry_ok _ g stack o _ _ g' Hg Hm eq_refl (Hd Hr)). by apply pop_pushed.
Qed.

(** The call 21 restores what the handler has saved. *)
Lemma syscall_get_runs x30 o1 o2 : exceptions_internal_get syms interrupt polls x30 o1 = Ok tt o2 →
  exceptions_handle_syscall syms interrupt polls 21 x30 o1 = Ok (Some 1) (set_sys (restored o1 (sys o2)) o2).
Proof.
  intros H. unfold exceptions_handle_syscall.
  rewrite (bind_ok _ _ _ _ _ (in_dev_mrs o1 ELR_EL1 eq_refl)), (bind_ok _ _ _ _ _ (in_dev_mrs o1 SPSR_EL1 eq_refl)).
  change (21 =? 10) with false. change (21 =? 11) with false. change (21 =? 20) with false. change (21 =? 21) with true. cbv iota.
  rewrite bind_assoc, (bind_ok _ _ _ _ _ H). rewrite (bind_ok _ _ _ (Some 1) o2) by done. done.
Qed.

Lemma syscall_get_faults x30 o1 e : exceptions_internal_get syms interrupt polls x30 o1 = Fault e →
  exceptions_handle_syscall syms interrupt polls 21 x30 o1 = Fault e.
Proof.
  intros H. unfold exceptions_handle_syscall.
  rewrite (bind_ok _ _ _ _ _ (in_dev_mrs o1 ELR_EL1 eq_refl)), (bind_ok _ _ _ _ _ (in_dev_mrs o1 SPSR_EL1 eq_refl)).
  change (21 =? 10) with false. change (21 =? 11) with false. change (21 =? 20) with false. change (21 =? 21) with true. cbv iota.
  by rewrite bind_assoc, (bind_fault _ _ _ _ H).
Qed.

(** A call that faults. *)
Lemma distributor_faults o imm x30 e : takes_svc o imm → exceptions_handle_syscall syms interrupt polls imm x30 o = Fault e →
  exceptions_distributor syms interrupt polls x30 o = Fault e.
Proof.
  intros [Hec Himm] H. set (esr := sysregs (mach (kern (sys o))) ESR_EL1) in *.
  unfold exceptions_distributor. rewrite (bind_ok _ _ _ _ _ (in_dev_mrs o ELR_EL1 eq_refl)).
  rewrite (bind_ok _ _ _ _ _ (in_dev_mrs o ESR_EL1 eq_refl)). fold esr. cbv zeta. rewrite Hec, Himm.
  change (ESR_EC_SVC64 =? ESR_EC_DATABT_SAME) with false. change (ESR_EC_SVC64 =? ESR_EC_DATABT_LOWER) with false.
  change (ESR_EC_SVC64 =? ESR_EC_SVC64) with true. cbn [orb]. cbv iota.
  rewrite (bind_ok _ _ o tt o eq_refl), (bind_ok _ _ o tt o eq_refl). by apply bind_fault, bind_fault.
Qed.

(** *** The character *)

(** A file in memory that is open at [inode]; the place [x30] of the registers is apart from it. *)
Record ram_open (m : mem) (inode ri f content alloc pos fill : Z) (text : list Z) (x30 : Z) : Prop := {
  ro_separate : separate [(inode, 8); (ri, 12); (f + ram_file_content, 16); (content, alloc); (x30, 256); (inode + inode_get, 8)];
  ro_sizes : ram_sizes ri f content alloc;
  ro_inode : ram_inode_at m inode ri f pos;
  ro_file : ram_file_at m f content alloc fill;
  ro_get : word_at 8 m (inode + inode_get) (RAMFS_GET syms);
  ro_mapped : mapped m content alloc;
  ro_text : bytes_at m content text ∧ Forall byte_range text ∧ Z.of_nat (length text) = fill;
  ro_range : 0 ≤ pos ≤ INT_MAX ∧ 0 ≤ fill ≤ alloc;
}.

Hypothesis Hget : 0 ≤ RAMFS_GET syms < 2 ^ 64 ∧ RAMFS_GET syms ≠ FATFS_GET syms.

(** A store into none of its parts. *)
Lemma ram_open_agree m m' inode ri f content alloc pos fill text x30 : ram_open m inode ri f content alloc pos fill text x30 →
  (∀ a, ¬ (x30 ≤ a < x30 + 256) → is_Some (m !! a) → m' !! a = m !! a) → ram_open m' inode ri f content alloc pos fill text x30.
Proof.
  intros [Hsep Hsz [I1 I2 I3] [F1 F2 F3] Hg Hm (Ht & Hb & Hl) Hr] Hag.
  assert (∀ e r q bs, [(inode, 8); (ri, 12); (f + ram_file_content, 16); (content, alloc); (x30, 256); (inode + inode_get, 8)] !! e = Some r →
    e ≠ 4%nat → r.1 ≤ q → q + Z.of_nat (length bs) ≤ r.1 + r.2 → bytes_at m q bs → bytes_at m' q bs) as Hkeep.
  { intros e r q bs He Hne H1 H2 Hq. eapply bytes_at_agree; [exact Hq|]. intros a Ha. apply Hag.
    - apply (separate_apart _ e 4 r (x30, 256) a Hsep He eq_refl Hne). lia.
    - by apply (bytes_at_mapped _ _ _ Hq). }
  unfold word_at in *. split; try done.
  - split; [apply (Hkeep 0%nat _ _ _ eq_refl)|apply (Hkeep 1%nat _ _ _ eq_refl)..]; rewrite ?length_le_bytes; try done;
      unfold inode_impl_inode, ram_inode_ram_file, ram_inode_position; simpl; lia.
  - split; apply (Hkeep 2%nat _ _ _ eq_refl); rewrite ?length_le_bytes; try done;
      unfold ram_file_content, ram_file_content_alloc, ram_file_content_fill; simpl; lia.
  - apply (Hkeep 5%nat _ _ _ eq_refl); rewrite ?length_le_bytes; try done; simpl; lia.
  - intros a Ha. rewrite Hag; [by apply Hm| |by apply Hm].
    apply (separate_apart _ 3 4 (content, alloc) (x30, 256) a Hsep eq_refl eq_refl); [done|exact Ha].
  - split; [|done]. apply (Hkeep 3%nat _ _ _ eq_refl); [done|simpl; lia|simpl; lia|exact Ht].
Qed.

Section character.
Context (m : mem) (inode ri f content alloc pos fill : Z) (text : list Z) (x30 : Z).
Context (Hro : ram_open m inode ri f content alloc pos fill text x30).

Lemma parts_mapped e r a : [(inode, 8); (ri, 12); (f + ram_file_content, 16); (content, alloc)] !! e = Some r →
  r.1 ≤ a < r.1 + r.2 → is_Some (m !! a).
Proof.
  destruct Hro as [_ _ [I1 I2 I3] [F1 F2 F3] _ Hm _ _].
  assert (∀ n q v, word_at n m q v → q ≤ a < q + Z.of_nat n → is_Some (m !! a)) as Hw.
  { intros n q v Hw Ha. apply (bytes_at_mapped _ _ _ Hw). by rewrite length_le_bytes. }
  unfold inode_impl_inode, ram_inode_ram_file, ram_inode_position, ram_file_content, ram_file_content_alloc, ram_file_content_fill in *.
  destruct e as [|[|[|[|e]]]]; intros [= <-] Ha; cbn [fst snd] in Ha.
  - apply (Hw 8%nat _ _ I1). lia.
  - destruct (decide (a < ri + 8)); [apply (Hw 8%nat _ _ I2)|apply (Hw 4%nat _ _ I3)]; lia.
  - destruct (decide (a < f + 32 + 8)); [apply (Hw 8%nat _ _ F1)|destruct (decide (a < f + 32 + 12)); [apply (Hw 4%nat _ _ F2)|apply (Hw 4%nat _ _ F3)]]; lia.
  - by apply Hm.
Qed.

(** With the local variable the parts are still separate. *)
Lemma local_separate (c := fresh_address m) :
  separate [(inode, 8); (ri, 12); (f + ram_file_content, 16); (content, alloc); (c, 1)].
Proof.
  pose proof (ro_separate _ _ _ _ _ _ _ _ _ _ Hro) as Hsep.
  assert (∀ e r a, [(inode, 8); (ri, 12); (f + ram_file_content, 16); (content, alloc)] !! e = Some r →
    r.1 ≤ a < r.1 + r.2 → ¬ (c ≤ a < c + 1)) as Hc.
  { intros e r a He Ha. by eapply mapped_not_local, parts_mapped. }
  assert (∀ e r, [(inode, 8); (ri, 12); (f + ram_file_content, 16); (content, alloc); (c, 1)] !! e = Some r →
    (e = 4%nat ∧ r = (c, 1)) ∨ [(inode, 8); (ri, 12); (f + ram_file_content, 16); (content, alloc)] !! e = Some r) as Hcase.
  { intros [|[|[|[|[|e]]]]] r [= <-]; auto. }
  intros i j y z a Hi Hj Ha Hb. destruct (Hcase i y Hi) as [[-> ->]|Hi'], (Hcase j z Hj) as [[-> ->]|Hj']; [done| | |].
  - by destruct (Hc _ _ _ Hj' Hb).
  - by destruct (Hc _ _ _ Hi' Ha).
  - apply (Hsep i j y z a); [| |done|done]; change ([?a; ?b; ?c'; ?d; ?e; ?g]) with ([a; b; c'; d] ++ [e; g]); by apply lookup_app_l_Some.
Qed.
End character.

(** The call through the table of the inode, with the local variable at [c]. *)
Lemma get_char v inode ri f content alloc pos fill text x30 m1 (c := fresh_address m1) : ram_open m1 inode ri f content alloc pos fill text x30 →
  vram v = put_cells c [None] m1 →
  if decide (pos < fill)
  then ∃ ch, text !! Z.to_nat pos = Some ch ∧ fs_inode_get (kernel_files syms interrupt polls) inode c v =
    Ok 1 (set_vram (get_memory ri pos c ch (vram v)) v)
  else fs_inode_get (kernel_files syms interrupt polls) inode c v = Ok 0 v.
Proof.
  intros Hro Ev. pose proof (local_separate _ _ _ _ _ _ _ _ _ _ Hro) as Hsep.
  assert (ram_open (vram v) inode ri f content alloc pos fill text x30) as [_ Hsz Hi Hf Hg Hm (Ht & Hb & Hl) Hr].
  { apply (ram_open_agree m1); [done|]. intros a _ Ha. rewrite Ev, put_cells_lookup, decide_False; [done|]. by apply mapped_not_local. }
  assert (∀ r v', ramfs_get inode c v = Ok r v' → fs_inode_get (kernel_files syms interrupt polls) inode c v = Ok r v') as Hcall.
  { intros r v' Hrun. unfold fs_inode_get.
    rewrite (bind_ok _ _ _ _ _ (fs_m_read _ _ _ (load_word_ok 8 _ _ _ Hg ltac:(lia)))). cbn [kernel_files call_get].
    rewrite (proj2 (Z.eqb_neq (RAMFS_GET syms) (FATFS_GET syms))) by apply Hget. by rewrite Z.eqb_refl. }
  case_decide as Hp.
  - destruct (lookup_lt_is_Some_2 text (Z.to_nat pos)) as [ch Hch]; [lia|]. exists ch. split; [done|]. apply Hcall.
    apply (ramfs_get_ok inode ri f content alloc _ 0 1 Hsz Hsep eq_refl eq_refl v 4 c pos fill ch); try done; try lia.
    + rewrite Ev. apply (mapped_put_cells_self c [None] m1 1). simpl. lia.
    + rewrite <-(Z2Nat.id pos) by lia. by apply Ht.
    + by apply (Forall_lookup_1 _ _ _ _ Hb Hch).
    + pose proof (sz_alloc _ _ _ _ Hsz). lia.
  - apply Hcall. by apply (ramfs_get_end inode ri f content alloc Hsz v c pos fill); try lia.
Qed.

(** *** The handler *)

(** The state after a character was handed over. *)
Definition char_given (ri pos x30 ch : Z) (o1 : os) : os :=
  let c := fresh_address (kram (kern (sys o1))) in
  let m := put_bytes (reg_address x30 0) (le_bytes 8 ch) (get_memory ri pos c ch (kram (with_array 1 (kern (sys o1))))) in
  drop_array c 1 (set_sys (set_kern (set_kram m (kern (sys o1))) (sys o1)) o1).

Lemma internal_get_start o1 x30 r j : word_at 8 (kram (kern (sys o1))) (reg_address x30 0) r → 0 ≤ r < 2 ^ 64 →
  jobs (sys o1) !! current_job (sys o1) = Some j → length (open_files j) = 8%nat → open_files_count j ≤ 8 →
  exceptions_internal_get syms interrupt polls x30 o1 =
    if file_of j (i32 r) =? 0 then in_m (store64 (reg_address x30 0) (u64 (-1))) o1 else
    os_array 1 (λ c, in_fs (fs_inode_get (kernel_files syms interrupt polls) (file_of j (i32 r)) c) ;;
      let* v := in_m (loadb c) in in_m (store64 (reg_address x30 0) v)) o1.
Proof.
  intros Hr Hrange Hj Hlen Hcnt. unfold exceptions_internal_get.
  rewrite (bind_ok _ _ o1 (current_job (sys o1)) o1) by by destruct o1 as [[] ? ? ?].
  rewrite (bind_ok _ _ _ _ _ (in_m_read _ o1 _ (load_word_ok 8 _ _ _ Hr ltac:(lia)))). cbv zeta.
  pose proof (job_get_file_spec (sys o1) _ j (i32 r) Hj Hlen Hcnt) as Hf.
  rewrite (bind_ok _ _ o1 (file_of j (i32 r)) o1); [by destruct (file_of j (i32 r) =? 0)|].
  rewrite (in_sys_ok _ o1 _ _ Hf). by destruct o1 as [[] ? ? ?].
Qed.

Lemma internal_get_char o1 x30 r j inode ri f content alloc pos fill text (m1 := kram (kern (sys o1))) :
  word_at 8 m1 (reg_address x30 0) r → 0 ≤ r < 2 ^ 64 →
  jobs (sys o1) !! current_job (sys o1) = Some j → length (open_files j) = 8%nat → open_files_count j ≤ 8 →
  file_of j (i32 r) = inode → inode ≠ 0 → mapped m1 x30 256 → ram_open m1 inode ri f content alloc pos fill text x30 →
  if decide (pos < fill)
  then ∃ ch, text !! Z.to_nat pos = Some ch ∧ exceptions_internal_get syms interrupt polls x30 o1 = Ok tt (char_given ri pos x30 ch o1)
  else exceptions_internal_get syms interrupt polls x30 o1 = Fault (Uninitialised (fresh_address m1)).
Proof.
  intros Hr Hrange Hj Hlen Hcnt Hinode Hne Hmap Hro. rewrite (internal_get_start o1 x30 r j Hr Hrange Hj Hlen Hcnt), Hinode.
  rewrite (proj2 (Z.eqb_neq inode 0) Hne). set (c := fresh_address m1). set (o2 := set_sys (set_kern (with_array 1 (kern (sys o1))) (sys o1)) o1).
  pose proof (get_char (os_vfs o2) inode ri f content alloc pos fill text x30 m1 Hro eq_refl) as Hchar. fold c in Hchar.
  set (m2 := put_cells c [None] m1) in *. case_decide as Hp.
  - destruct Hchar as (ch & Hch & Hrun). exists ch. split; [done|]. apply os_array_ok. fold m1 c o2.
    rewrite (bind_ok _ _ _ _ _ (in_fs_ok _ o2 _ _ Hrun)). set (o3 := set_vfs _ o2).
    assert (kram (kern (sys o3)) = get_memory ri pos c ch m2) as E3 by done.
    assert (get_memory ri pos c ch m2 !! c = Some (Some ch)) as Hcc.
    { unfold get_memory. rewrite put_bytes_outside; [by rewrite put_bytes_lookup, decide_True, Z.sub_diag by (simpl; lia)|].
      pose proof (local_separate _ _ _ _ _ _ _ _ _ _ Hro) as Hsep. fold m1 c in Hsep. rewrite length_le_bytes. intros Ha.
      apply (separate_apart _ 4 1 (c, 1) (ri, 12) c Hsep eq_refl eq_refl); simpl; unfold ram_inode_position in *; lia. }
    rewrite (bind_ok _ _ _ _ _ (in_m_read _ o3 ch (loadb_ok _ _ _ Hcc))).
    refine (in_m_ok _ o3 tt _ (store_le_ok (kram (kern (sys o3))) 8 _ _ _)). rewrite E3. do 2 apply mapped_put_bytes.
    intros a Ha. unfold m2. rewrite put_cells_lookup. case_decide; [apply lookup_lt_is_Some; simpl in *; lia|]. apply Hmap. unfold reg_address in Ha. lia.
  - apply os_array_fault. fold m1 c o2. rewrite (bind_ok _ _ _ _ _ (in_fs_ok _ o2 _ _ Hchar)).
    apply bind_fault, in_m_fault. change (loadb c m2 = Fault (Uninitialised c)). unfold loadb, m2.
    rewrite put_cells_lookup, decide_True by (simpl; lia). by rewrite Z.sub_diag.
Qed.

(** *** The memory afterwards *)

Section memory.
Context (o : os) (g : list Z) (stack inode ri f content alloc pos fill : Z) (text : list Z) (ch : Z).
Let m := kram (kern (sys o)).
Let x30 := stack - 256.
Let o1 := pushed g stack o.
Let m1 := kram (kern (sys o1)).
Let c := fresh_address m1.
Let mf := kram (kern (sys (char_given ri pos x30 ch o1))).
Context (Hg : length g = 31%nat) (Hm : mapped m x30 256) (Hro : ram_open m inode ri f content alloc pos fill text x30).

Lemma pushed_lookup a : ¬ (x30 ≤ a < x30 + 256) → m1 !! a = m !! a.
Proof. intros Ha. apply put_bytes_outside. rewrite length_words. simpl. unfold x30 in Ha. lia. Qed.

Lemma pushed_open : ram_open m1 inode ri f content alloc pos fill text x30.
Proof. apply (ram_open_agree m); [done|]. intros a Ha _. by apply pushed_lookup. Qed.

Lemma pushed_mapped : mapped m1 x30 256.
Proof. apply mapped_put_bytes. exact Hm. Qed.

Lemma c_apart a : x30 ≤ a < x30 + 256 ∨ ri ≤ a < ri + 12 → a ≠ c.
Proof.
  intros Ha ->. apply (mapped_not_local m1 c 1); [|unfold c; lia]. destruct Ha as [Ha|Ha].
  - by apply pushed_mapped.
  - by apply (parts_mapped _ _ _ _ _ _ _ _ _ _ pushed_open 1 (ri, 12)).
Qed.

Lemma given_lookup a : mf !! a = if decide (a = c) then None else
  put_bytes (x30 + 240) (le_bytes 8 ch) (put_bytes (ri + ram_inode_position) (le_bytes 4 (pos + 1)) m1) !! a.
Proof.
  change mf with (drop_cells c (Z.to_nat 1) (put_bytes (x30 + 240) (le_bytes 8 ch) (get_memory ri pos c ch (put_cells c [None] m1)))).
  rewrite drop_cells_lookup. case_decide as Ha; case_decide as Ha'; try lia; [done|].
  unfold get_memory. rewrite !(put_bytes_lookup (x30 + 240)), !(put_bytes_lookup (ri + ram_inode_position)).
  case_decide; [done|]. case_decide; [done|]. rewrite put_bytes_outside by (simpl; lia). rewrite put_cells_lookup, decide_False; [done|simpl; lia].
Qed.

(** Outside the registers only the position moves. *)
Lemma given_memory a : ¬ (x30 ≤ a < x30 + 256) → mf !! a = put_bytes (ri + ram_inode_position) (le_bytes 4 (pos + 1)) m !! a.
Proof.
  intros Ha. rewrite given_lookup. case_decide as Hc.
  - subst a. rewrite put_bytes_outside.
    + rewrite <-pushed_lookup by done. symmetry. apply fresh_address_spec. unfold LOCAL_GAP. fold c. lia.
    + rewrite length_le_bytes. intros Hx. apply (c_apart c); [right; unfold ram_inode_position in Hx; lia|done].
  - rewrite put_bytes_outside by (rewrite length_le_bytes; lia). rewrite !put_bytes_lookup. case_decide; [done|by apply pushed_lookup].
Qed.

Lemma given_frame : bytes_at mf x30 (words (frame_words (<[0%nat := ch]> g))).
Proof.
  pose proof (ro_separate _ _ _ _ _ _ _ _ _ _ Hro) as Hsep. rewrite <-frame_words_x0 by done.
  set (m2 := put_bytes (ri + ram_inode_position) (le_bytes 4 (pos + 1)) m1).
  assert (bytes_at m2 x30 (words (frame_words g))) as H2.
  { apply (separate_keep _ 4 1 (x30, 256) (ri, 12) _ _ _ _ _ Hsep eq_refl eq_refl); rewrite ?length_words, ?length_le_bytes; try done;
      unfold ram_inode_position; simpl; try lia. apply bytes_at_put. }
  eapply bytes_at_agree; [exact (put_word m2 x30 _ 30 (gpr g 0) ch H2 eq_refl)|].
  intros a Ha. rewrite length_words, length_insert in Ha. simpl in Ha. rewrite given_lookup, decide_False; [done|]. apply c_apart. lia.
Qed.

Lemma given_open : pos < fill → ram_open mf inode ri f content alloc (pos + 1) fill text x30.
Proof.
  intros Hp. pose proof Hro as [Hsep Hsz Hi Hf Hget' Hmc (Ht & Hb & Hl) Hr]. pose proof (sz_alloc _ _ _ _ Hsz).
  apply (ram_open_agree (put_bytes (ri + ram_inode_position) (le_bytes 4 (pos + 1)) m)); [|intros a Ha _; by apply given_memory].
  assert (∀ e r q bs, [(inode, 8); (ri, 12); (f + ram_file_content, 16); (content, alloc); (x30, 256); (inode + inode_get, 8)] !! e = Some r →
    e ≠ 1%nat → r.1 ≤ q → q + Z.of_nat (length bs) ≤ r.1 + r.2 → bytes_at m q bs →
    bytes_at (put_bytes (ri + ram_inode_position) (le_bytes 4 (pos + 1)) m) q bs) as Hkeep.
  { intros e r q bs He Hne H1 H2 Hq. apply (separate_keep _ e 1 r (ri, 12) _ _ _ _ _ Hsep He eq_refl Hne H1 H2); [..|exact Hq];
      rewrite ?length_le_bytes; unfold ram_inode_position; simpl; lia. }
  split; try done.
  - apply (inode_moved inode ri f _ 0 1 2 3 Hsep eq_refl eq_refl ltac:(by apply (bool_decide_unpack _)) m pos); exact Hi.
  - destruct Hf as [F1 F2 F3]. split; apply (Hkeep 2%nat _ _ _ eq_refl); rewrite ?length_le_bytes; try done;
      unfold ram_file_content, ram_file_content_alloc, ram_file_content_fill; simpl; lia.
  - apply (Hkeep 5%nat _ _ _ eq_refl); rewrite ?length_le_bytes; try done; simpl; lia.
  - by apply mapped_put_bytes.
  - split; [|done]. apply (Hkeep 3%nat _ _ _ eq_refl); [done|simpl; lia|simpl; lia|exact Ht].
  - lia.
Qed.
End memory.

(** The return from the call with the state [o2] of the handler. *)
Definition call_return (o1 o2 : os) : os :=
  let o3 := set_sys (restored o1 (sys o2)) o2 in
  set_sys (set_kern (set_mach (emit_event Eret (mach (kern (sys o3)))) (kern (sys o3))) (sys o3)) o3.

Lemma call_return_inv {live} `{HeapService live} o l used L o1 m : job_inv live (sys o) l used L →
  (∀ a, in_tables (sys o) a → m !! a = kram (kern (sys o)) !! a) →
  job_inv live (sys (call_return o1 (set_sys (set_kern (set_kram m (kern (sys o))) (sys o)) o))) l used L.
Proof. intros Hinv Hag. by apply (inv_agree (sys o) l used L (mach (kern (sys (call_return o1 (set_sys (set_kern (set_kram m (kern (sys o))) (sys o)) o)))))). Qed.

(** [o] with other memory. *)
Definition with_memory (m : mem) (o : os) : os := set_sys (set_kern (set_kram m (kern (sys o))) (sys o)) o.

Lemma get_call_returns o g g' stack m : length g = 31%nat → mapped (kram (kern (sys o))) (stack - 256) 256 → takes_svc o 21 →
  length g' = 31%nat → Forall is_u64 g' →
  exceptions_internal_get syms interrupt polls (stack - 256) (pushed g stack o) = Ok tt (with_memory m o) →
  bytes_at m (stack - 256) (words (frame_words g')) →
  loweraa64_svc syms interrupt polls g stack o = Ok g' (call_return (pushed g stack o) (with_memory m o)).
Proof.
  intros Hg Hm Hsvc Hg' Hu Hrun Hb.
  apply (svc_returns_with o 21 g g' stack _ 1 Hg Hm Hsvc ltac:(done) Hg' Hu (syscall_get_runs _ _ _ Hrun)). exact Hb.
Qed.

(** * Properties *)

(** C20: The system call 21 reads a character of a file in memory for a program: with a descriptor
    of no open file [x0] is -1 and nothing else changes; otherwise [x0] is the character at the
    position of the inode, which moves on by one, and every other register, the jobs and all other
    memory are as before; at the end of the file the behaviour is undefined, because the local
    variable that goes into [x0] was never written. *)
Theorem syscall_get {live} `{HeapService live} o j l used L stack g inode ri f content alloc pos fill text
    (m := kram (kern (sys o))) (x30 := stack - 256) (call := loweraa64_svc syms interrupt polls g stack o) :
  job_inv live (sys o) l used L → jobs (sys o) !! current_job (sys o) = Some j → length (open_files j) = 8%nat → open_files_count j ≤ 8 →
  length g = 31%nat → Forall is_u64 g → mapped m x30 256 → outside (sys o) x30 256 → outside (sys o) ri 12 → takes_svc o 21 →
  file_of j (i32 (gpr g 0)) = inode → (inode ≠ 0 → ram_open m inode ri f content alloc pos fill text x30) →
  if decide (inode = 0) then
    ∃ o', call = Ok (<[0%nat := u64 (-1)]> g) o' ∧ job_inv live (sys o') l used L ∧ jobs (sys o') = jobs (sys o) ∧
      ∀ a, ¬ (x30 ≤ a < x30 + 256) → kram (kern (sys o')) !! a = m !! a
  else if decide (pos < fill) then
    ∃ ch o', text !! Z.to_nat pos = Some ch ∧ call = Ok (<[0%nat := ch]> g) o' ∧ job_inv live (sys o') l used L ∧
      jobs (sys o') = jobs (sys o) ∧ ram_open (kram (kern (sys o'))) inode ri f content alloc (pos + 1) fill text x30 ∧
      ∀ a, ¬ (x30 ≤ a < x30 + 256) → ¬ (ri + ram_inode_position ≤ a < ri + ram_inode_position + 4) → kram (kern (sys o')) !! a = m !! a
  else call = Fault (Uninitialised (fresh_address (kram (kern (sys (pushed g stack o)))))).
Proof.
  intros Hinv Hj Hlen Hcnt Hg Hu Hm Hout Houtri Hsvc Hinode Hopen. set (o1 := pushed g stack o). set (m1 := kram (kern (sys o1))).
  assert (is_u64 (gpr g 0)) as Hr by (apply gpr_u64; done).
  assert (word_at 8 m1 (reg_address x30 0) (gpr g 0)) as Hw.
  { apply (word_in_words m1 x30 (frame_words g) 30); [apply bytes_at_put|reflexivity]. }
  assert (∀ M, (∀ a, ¬ (x30 ≤ a < x30 + 256) → ¬ (ri + ram_inode_position ≤ a < ri + ram_inode_position + 4) → M !! a = m !! a) →
    job_inv live (sys (call_return o1 (with_memory M o))) l used L) as Hkeep.
  { intros M HM. apply call_return_inv; [exact Hinv|]. intros a Ha. destruct Hout as [Ht1 Ht2], Houtri as [Hr1 Hr2].
    unfold disjoint, in_tables, ram_inode_position in *. apply HM; destruct Ha; lia. }
  assert (∀ v, is_u64 v → length (<[0%nat := v]> g) = 31%nat ∧ Forall is_u64 (<[0%nat := v]> g)) as Hins.
  { intros v Hv. split; [by rewrite length_insert|by apply Forall_insert]. }
  case_decide as H0.
  - set (M := put_bytes (reg_address x30 0) (le_bytes 8 (u64 (-1))) m1). destruct (Hins (u64 (-1)) ltac:(by apply (bool_decide_unpack _))) as [Hl' Hu'].
    exists (call_return o1 (with_memory M o)). split; [|split; [|split; [done|]]].
    + apply get_call_returns; try done.
      * pose proof (internal_get_start o1 x30 (gpr g 0) j Hw Hr Hj Hlen Hcnt) as Hst. rewrite Hinode, H0 in Hst. etransitivity; [exact Hst|].
        refine (in_m_ok _ o1 tt _ (store_le_ok m1 8 _ _ _)). intros a Ha. apply mapped_put_bytes with (n := 256) (p := x30); [exact Hm|]. unfold reg_address in Ha. lia.
      * rewrite <-frame_words_x0 by done. apply (put_word m1 x30 _ 30 (gpr g 0)); [apply bytes_at_put|reflexivity].
    + apply Hkeep. intros a Ha _. unfold M. rewrite put_bytes_outside; [by apply pushed_lookup|]. rewrite length_le_bytes. unfold reg_address. lia.
    + intros a Ha. change (M !! a = m !! a). unfold M. rewrite put_bytes_outside; [by apply pushed_lookup|]. rewrite length_le_bytes. unfold reg_address. lia.
  - pose proof (Hopen H0) as Hro.
    pose proof (internal_get_char o1 x30 (gpr g 0) j inode ri f content alloc pos fill text Hw Hr Hj Hlen Hcnt Hinode H0
      (pushed_mapped o g stack Hm) (pushed_open o g stack inode ri f content alloc pos fill text Hg Hro)) as Hrun.
    case_decide as Hp.
    + destruct Hrun as (ch & Hch & Hrun). destruct (ro_text _ _ _ _ _ _ _ _ _ _ Hro) as (_ & Hb & _).
      pose proof (Forall_lookup_1 _ _ _ _ Hb Hch) as Hbyte. destruct (Hins ch ltac:(unfold is_u64, byte_range in *; lia)) as [Hl' Hu'].
      set (M := kram (kern (sys (char_given ri pos x30 ch o1)))).
      exists ch, (call_return o1 (with_memory M o)). split; [done|]. split; [|split; [|split; [done|split]]].
      * apply get_call_returns; try done. by apply given_frame with (inode := inode) (f := f) (content := content) (alloc := alloc) (fill := fill) (text := text).
      * apply Hkeep. intros a Ha Ha'. etransitivity; [exact (given_memory o g stack inode ri f content alloc pos fill text ch Hg Hm Hro a Ha)|].
        apply put_bytes_outside. by rewrite length_le_bytes.
      * by apply (given_open o g stack inode ri f content alloc pos fill text ch Hg Hm Hro).
      * intros a Ha Ha'. change (M !! a = m !! a). etransitivity; [exact (given_memory o g stack inode ri f content alloc pos fill text ch Hg Hm Hro a Ha)|].
        apply put_bytes_outside. by rewrite length_le_bytes.
    + unfold call, loweraa64_svc, exception_entry. rewrite (bind_ok _ _ _ _ _ (in_m_ok _ _ _ _ (push_frame_spec g stack _ Hg Hm))).
      apply bind_fault. exact (distributor_faults o1 21 x30 _ Hsvc (syscall_get_faults _ _ _ Hrun)).
Qed.
End call.

(** * Witness: the current job has a file of three characters open and reads the second one. *)

Definition demo_read_symbols : symbols := mk_symbols 0x1000 0 0 0 1 0 0 0 66 0 0 0 0.
Definition demo_read_regs : list Z := <[0%nat := 0]> demo_regs.
Definition demo_read_ram : mem :=
  put_bytes 20000 (le_bytes 8 21000) $ put_bytes 20008 (le_bytes 8 66) $ put_bytes 21000 (le_bytes 8 22000) $
  put_bytes 21008 (le_bytes 4 1) $ put_bytes 22032 (le_bytes 8 23000) $ put_bytes 22040 (le_bytes 4 4) $
  put_bytes 22044 (le_bytes 4 3) $ put_bytes 23000 (chars "abc" ++ [0]) (kram (kern (sys (demo_svc 21)))).
Definition demo_reader : job := set_files (20000 :: replicate 7 0) 1 (demo_job SLEEPING 0x2000 5136).
Definition demo_read : os :=
  let s := set_jobs (<[4744 := demo_reader]> (jobs (sys (demo_svc 21)))) (sys (demo_svc 21)) in
  set_sys (set_kern (set_mach (set_ram demo_read_ram (mach (kern s))) (kern s)) s) (demo_svc 21).

Lemma demo_read_inv : job_inv heap_live (sys demo_read) [4744; 5136] {[0; 1]} {[0x2000; 0x3000; 0x4000]}.
Proof.
  pose proof (inv_update heap_live _ _ _ _ 4744 (demo_job SLEEPING 0x2000 5136) demo_reader (demo_svc_inv 21) eq_refl eq_refl eq_refl) as H1.
  apply (inv_agree _ _ _ _ (set_ram demo_read_ram (mach (kern (sys (demo_svc 21))))) H1).
  intros a Ha. change (demo_read_ram !! a = kram (kern (sys (demo_svc 21))) !! a).
  assert (a < 20000) as Hlow by (destruct Ha as [Ha|Ha]; cbn in Ha; lia).
  unfold demo_read_ram. rewrite !put_bytes_outside; [done|..]; rewrite ?length_le_bytes; simpl; lia.
Qed.

Lemma syscall_get_witness :
  ∃ o', loweraa64_svc demo_read_symbols (ret tt) 0 demo_read_regs 0x8100 demo_read = Ok (<[0%nat := 98]> demo_read_regs) o' ∧
    jobs (sys o') = jobs (sys demo_read) ∧ load32 21008 (kram (kern (sys o'))) = Ok 2 (kram (kern (sys o'))).
Proof.
  destruct (syscall_get demo_read_symbols (ret tt) 0 ltac:(cbn; lia) demo_read demo_reader [4744; 5136] {[0; 1]} {[0x2000; 0x3000; 0x4000]}
    0x8100 demo_read_regs 20000 21000 22000 23000 4 1 3 (chars "abc") demo_read_inv) as (ch & o' & Hch & Hrun & _ & Hjobs & Hro & _).
  - reflexivity.
  - reflexivity.
  - done.
  - reflexivity.
  - apply (bool_decide_unpack _). vm_compute. exact I.
  - change (mapped demo_read_ram 0x8000 256). unfold demo_read_ram. do 8 apply mapped_put_bytes. by apply mapped_put_self.
  - split; right; simpl; lia.
  - split; right; simpl; lia.
  - split; reflexivity.
  - reflexivity.
  - intros _. split.
    + apply separate_check. reflexivity.
    + split; unfold INT_MAX; lia.
    + split; apply bytes_at_check; vm_compute; reflexivity.
    + split; apply bytes_at_check; vm_compute; reflexivity.
    + apply bytes_at_check; vm_compute; reflexivity.
    + apply mapped_check. vm_compute. reflexivity.
    + split; [apply bytes_at_check; vm_compute; reflexivity|]. split; [|done]. by apply (bool_decide_unpack (Forall (λ b, 0 ≤ b < 256) (chars "abc"))).
    + unfold INT_MAX. lia.
  - exists o'. injection Hch as <-. split; [exact Hrun|]. split; [exact Hjobs|].
    destruct Hro as [_ _ [_ _ Hpos] _ _ _ _ _]. change (word_at 4 (kram (kern (sys o'))) 21008 2) in Hpos.
    exact (load_word_ok 4 _ 21008 2 Hpos ltac:(lia)).
Defined.
