(* ===== verification/Start.v ===== *)
(** * Start of the kernel (kernel/start.c) *)
From stdpp Require Import base list gmap.
From Stdlib Require Import ZArith Lia.
From S2P Require Import Prelude Memory CString Heap Slab Machine Log Gic Kernel Paging Job Sched Elf.
From S2P Require Import Virtio Fat Fs RamFs FatFs Exceptions.

(** The symbols of the linker script, the addresses of the statics [disk_block] and
    [paging_kernel], and the place of [disk], the local of [usermode] that lives on because the
    function never returns. *)
Record image : Type := mk_image {
  EXCEPTION_TABLE : Z; HEAP_START : Z;
  DISK_BLOCK : Z; PAGING_KERNEL : Z; DISK : Z;
}.

Definition enable_gic (polls : nat) : M machine unit :=
  gic_distributor_enable ;;
  gic_redistributor_wake polls ;;
  gic_interface_init ;;
  gic_interface_enablegroups ;;
  gic_interface_setprioritymask 0xff ;;
  gic_redistributor_enable_id 30 ;;
  gic_distributor_set_priority 79 0 ;;
  gic_distributor_set_target 79 1 ;;
  gic_distributor_enable_id 79 ;;
  gic_distributor_set_group 79 0.

Section start.
Variables (syms : symbols) (img : image) (interrupt : M kernel unit) (polls : nat).

Definition sysutils_get_paging_kernel : Z := PAGING_KERNEL img.

Definition enable_paging_test : M system unit :=
  let* manager := init_manager sysutils_get_paging_kernel in
  in_memory (paging_manager_map_kernel manager) ;;
  paging_manager_apply sysutils_get_paging_kernel ;;
  in_machine (klog_lit (chars "Paging enabled")).

Definition usermode : M os unit :=
  let* ok := in_k (disk_init (DISK img) 31) in
  (if ok =? 0 then in_dev (klog_lit (chars "Disk init is successful"))
   else in_dev (klog_lit (chars "Disk init error!"))) ;;
  in_m (disk_register_block_device (DISK_BLOCK_READ syms) (DISK_BLOCK_WRITE syms) (DISK_BLOCK img) (DISK img)) ;;
  let* fs := in_fs (fatfs_createfs (kernel_block_read syms interrupt polls) (FATFS_OPEN syms) (DISK_BLOCK img)) in
  in_fs (fs_filesystem_setmain fs) ;;
  let* inode := os_literal (chars "init.elf") (λ name,
    in_fs (fs_open (kernel_files syms interrupt polls) fs name)) in
  os_literal (chars "init") (λ name, job_create_from_file syms interrupt polls inode name) ;;
  in_sys (scheduling_register_routine (INTERNAL_HANDLER syms)) ;;
  in_k sysutils_log_free_heap ;;
  let* current := in_sys job_get_current in
  in_sys (sysutils_jump_eret_usermode current).

Definition start : M os unit :=
  in_dev (klog_lit (chars "Kernel started")) ;;
  in_dev (sysutils_set_vbar (EXCEPTION_TABLE img)) ;;
  in_k (setup_heap (HEAP_START img)) ;;
  in_fs fs_init_slab ;;
  in_sys paging_init_slab ;;
  in_sys (job_init_slab 128) ;;
  in_sys (job_init_user_space 0x1000) ;;
  in_dev (sysutils_mask_fiq false) ;;
  in_dev (sysutils_mask_irq false) ;;
  in_dev (enable_gic polls) ;;
  in_dev (klog_lit (chars "GIC enabled")) ;;
  in_dev (let* frequency := timer_getfrequency in timer_write_tval frequency) ;;
  in_dev timer_enable ;;
  in_sys enable_paging_test ;;
  usermode.
End start.
