(* ===== verification/System.v ===== *)
(** * The running system (kernel/mp/sched.c, kernel/mp/job.c, kernel/exceptions)

    The kernel behind its entries, as a transition system: programs run, the timer interrupts them,
    and they call the kernel to print a line and to end.  What this is for a program is the abstract scheduler of this
    file, a list of tasks with their contexts; the kernel refines it, and what holds of its runs -
    every task that can run gets its turn, a task goes on where it was interrupted, a task that has
    ended is removed - holds of the runs of the kernel. *)
From stdpp Require Import base list gmap.
From Stdlib Require Import ZArith Lia.
From S2P Require Import Prelude Memory CString Heap Slab Machine Log Gic Kernel Paging Job Sched Elf.
From S2P Require Import Virtio Fat FatPart Disk Fs RamFs FatFs Exceptions.

(** ** The abstract scheduler *)

(** A job as its program sees it: the context it goes on with and the tables of its address space. *)
Record task : Type := mk_task {
  task_id : Z;
  task_status : job_status;
  task_regs : list Z;
  task_pc : Z;
  task_sp : Z;
  task_space : Z;
}.

Record processor : Type := mk_processor {
  cpu_regs : list Z;
  cpu_pc : Z;
  cpu_sp : Z;
  cpu_space : Z;
}.

(** The tasks in the order of their turns, the current one first. *)
Record schedule : Type := mk_schedule {
  tasks : list task;
  cpu : processor;
}.

Definition save (c : processor) (t : task) : task :=
  mk_task (task_id t) (task_status t) (cpu_regs c) (cpu_pc c) (cpu_sp c) (task_space t).

(** x1 is not restored: the task finds the value that the interrupted one had. *)
Definition resume (c : processor) (t : task) : processor :=
  mk_processor (<[1%nat := gpr (cpu_regs c) 1]> (task_regs t)) (task_pc t) (task_sp t) (task_space t).

Definition terminate (t : task) : task :=
  mk_task (task_id t) TERMINATED (task_regs t) (task_pc t) (task_sp t) (task_space t).

(** The first task that can run; those passed over wait for the next round or, when they have
    ended, are gone. *)
Fixpoint pick (waiting l : list task) : option (task * list task) :=
  match l with
  | [] => None
  | t :: l' =>
      match task_status t with
      | RUNNING => Some (t, l' ++ waiting)
      | SLEEPING => pick (waiting ++ [t]) l'
      | TERMINATED => pick waiting l'
      end
  end.

Definition switch (a : schedule) : option schedule :=
  match tasks a with
  | [] => None
  | c :: r =>
      match pick [] (r ++ [save (cpu a) c]) with
      | Some (q, rest) => Some (mk_schedule (q :: rest) (resume (cpu a) q))
      | None => None
      end
  end.

Definition exit_current (a : schedule) : schedule :=
  match tasks a with
  | [] => a
  | c :: r => mk_schedule (terminate c :: r) (cpu a)
  end.

Inductive action : Type := User | Timer | Exit | Log.

(** A program changes its registers as it likes. *)
Definition context_ok (c : processor) : Prop :=
  length (cpu_regs c) = 31%nat ∧ Forall is_u64 (cpu_regs c) ∧ is_u64 (cpu_pc c) ∧ is_u64 (cpu_sp c).

Inductive sched_step : schedule → action → schedule → Prop :=
| sched_user a c : context_ok c → cpu_space c = cpu_space (cpu a) →
    sched_step a User (mk_schedule (tasks a) c)
| sched_timer a a' : switch a = Some a' → sched_step a Timer a'
| sched_exit a : sched_step a Exit (exit_current a)
| sched_log a : sched_step a Log a.

(** ** The kernel *)

(** What a program at EL0 can change, with the devices behind it: its registers, those that an
    exception sets, and all memory but the tables of the allocators and the stack of the kernel. *)
Definition user_machine (s : system) (stack : Z) (mc : machine) : Prop :=
  (∀ a, in_tables s a ∨ stack - 256 ≤ a < stack → ram mc !! a = kram (kern s) !! a) ∧
  (∀ r, r ∉ [ELR_EL1; SPSR_EL1; ESR_EL1; SP_EL0] → sysregs mc r = sysregs (mach (kern s)) r) ∧
  is_u64 (sysregs mc ELR_EL1) ∧ is_u64 (sysregs mc SP_EL0).

Definition with_machine (mc : machine) (o : os) : os := set_sys (set_kern (set_mach mc (kern (sys o))) (sys o)) o.

Section steps.
Variables (syms : symbols) (interrupt : M kernel unit) (polls : nat) (stack : Z).

(** The registers of the program that runs, and everything else. *)
#[local] Abbreviation state := (list Z * os)%type.

Definition running_job (st : state) : Z := current_job (sys st.2).

Inductive step : state → action → state → Prop :=
| step_user g o g' mc : length g' = 31%nat → Forall is_u64 g' → user_machine (sys o) stack mc →
    step (g, o) User (g', with_machine mc o)
| step_timer g o g' o' : pending_interrupt o = 30 → loweraa64_fiq syms g stack o = Ok g' o' →
    step (g, o) Timer (g', o')
| step_exit g o g' o' : takes_svc o 10 → loweraa64_svc syms interrupt polls g stack o = Ok g' o' →
    step (g, o) Exit (g', o')
| step_log g o j text g' o' : log_call g stack o j text → loweraa64_svc syms interrupt polls g stack o = Ok g' o' →
    step (g, o) Log (g', o').

(** A run, with its actions and the states it goes through behind the first. *)
Inductive run {S} (next : S → action → S → Prop) : S → list (action * S) → Prop :=
| run_nil s : run next s []
| run_cons s e s' tr : next s e s' → run next s' tr → run next s ((e, s') :: tr).
End steps.
Arguments run {S} next s tr.

#[global] Instance action_eq_dec : EqDecision action.
Proof. solve_decision. Defined.

(** The number of timer interrupts of a run. *)
Definition timers {S} (tr : list (action * S)) : nat := length (filter (λ e, e.1 = Timer) tr).

(** ** What the kernel has of the abstract scheduler *)

Definition task_context (t : task) : processor := mk_processor (task_regs t) (task_pc t) (task_sp t) (task_space t).

Definition represents (s : system) (t : task) : Prop := ∃ j pm,
  jobs s !! task_id t = Some j ∧ managers s !! paging j = Some pm ∧ status j = task_status t ∧
  x j = saved_words (frame_words (task_regs t)) ∧ pc j = task_pc t ∧ sp j = task_sp t ∧ l1 pm = task_space t ∧
  context_ok (task_context t).

Record models (syms : symbols) (stack : Z) (live : kernel → gset Z → Prop) (st : list Z * os) (a : schedule) : Prop := {
  md_inv : ∃ used L, job_inv live (sys st.2) (task_id <$> tasks a) used L;
  md_some : tasks a ≠ [];
  md_tasks : Forall (represents (sys st.2)) (tasks a);
  md_cpu : let r := sysregs (mach (kern (sys st.2))) in cpu a = mk_processor st.1 (r ELR_EL1) (r SP_EL0) (r TTBR0_EL1);
  md_context : context_ok (cpu a);
  md_stack : mapped (kram (kern (sys st.2))) (stack - 256) 256;
  md_outside : outside (sys st.2) (stack - 256) 256;
  md_handler : ∃ param, handler_of st.2 30 = Some (INTERNAL_HANDLER syms, param);
}.

(** * The abstract scheduler *)

Lemma pick_spec w l : match pick w l with
  | Some (q, rest) => ∃ pre post, l = pre ++ q :: post ∧ Forall (λ t, task_status t ≠ RUNNING) pre ∧
      task_status q = RUNNING ∧ rest = post ++ w ++ filter (λ t, task_status t = SLEEPING) pre
  | None => Forall (λ t, task_status t ≠ RUNNING) l
  end.
Proof.
  revert w. induction l as [|t l IH]; intros w; [constructor|]. cbn [pick].
  destruct (task_status t) eqn:Et.
  - exists [], l. by rewrite filter_nil, app_nil_r.
  - specialize (IH (w ++ [t])). destruct (pick (w ++ [t]) l) as [[q rest]|]; [|constructor; [by rewrite Et|done]].
    destruct IH as (pre & post & -> & Hpre & Hq & ->). exists (t :: pre), post.
    rewrite filter_cons_True, <-app_assoc by done. split_and!; [done| |done|done]. constructor; [by rewrite Et|done].
  - specialize (IH w). destruct (pick w l) as [[q rest]|]; [|constructor; [by rewrite Et|done]].
    destruct IH as (pre & post & -> & Hpre & Hq & ->). exists (t :: pre), post.
    rewrite filter_cons_False by by rewrite Et. split_and!; [done| |done|done]. constructor; [by rewrite Et|done].
Qed.

(** A task of the list that can run is found, or stays behind fewer others. *)
Lemma pick_ahead l1 t l2 : task_status t = RUNNING →
  ∃ q rest, pick [] (l1 ++ t :: l2) = Some (q, rest) ∧
    (q = t ∨ ∃ l1' l2', rest = l1' ++ t :: l2' ∧ (length l1' < length l1)%nat).
Proof.
  intros Ht. pose proof (pick_spec [] (l1 ++ t :: l2)) as H. destruct (pick _ _) as [[q rest]|].
  - destruct H as (pre & post & E & Hpre & _ & ->). exists q, (post ++ [] ++ filter (λ t, task_status t = SLEEPING) pre).
    split; [done|]. apply app_eq_inv in E as [(k & -> & E)|(k & -> & E)].
    + destruct k as [|k0 k]; simpl in E; injection E as -> ->; [by left|]. right.
      exists k, (l2 ++ filter (λ t, task_status t = SLEEPING) pre). rewrite <-app_assoc. split; [done|].
      rewrite length_app. simpl. lia.
    + destruct k as [|k0 k]; simpl in E; injection E as -> ->; [by left|]. exfalso.
      apply Forall_app in Hpre as [_ [Hk _]%Forall_cons]. done.
  - apply Forall_app in H as [_ [H _]%Forall_cons]. done.
Qed.

(** Nothing is duplicated. *)
Lemma pick_sublist l q rest : pick [] l = Some (q, rest) → ∃ l', q :: rest ≡ₚ l' ∧ l' `sublist_of` l.
Proof.
  intros E. pose proof (pick_spec [] l) as H. rewrite E in H. destruct H as (pre & post & -> & _ & _ & ->).
  exists (filter (λ t, task_status t = SLEEPING) pre ++ q :: post). split.
  - by rewrite (Permutation_app_comm (filter _ _)), app_nil_l.
  - apply sublist_app; [apply sublist_filter|done].
Qed.

Lemma pick_nodup l q rest : pick [] l = Some (q, rest) → NoDup (task_id <$> l) → NoDup (task_id <$> q :: rest).
Proof.
  intros (l' & -> & Hl)%pick_sublist Hnd. eapply sublist_NoDup; [exact Hnd|]. by apply fmap_sublist.
Qed.

(** A task of the list that has ended is dropped, or stays behind fewer others. *)
Lemma pick_drops l1 t l2 q rest : task_status t = TERMINATED → NoDup (task_id <$> l1 ++ t :: l2) →
  pick [] (l1 ++ t :: l2) = Some (q, rest) →
  task_id t ∉ task_id <$> q :: rest ∨ ∃ l1' l2', rest = l1' ++ t :: l2' ∧ (length l1' < length l1)%nat.
Proof.
  intros Ht Hnd E. pose proof (pick_spec [] (l1 ++ t :: l2)) as H. rewrite E in H.
  destruct H as (pre & post & E' & Hpre & Hq & ->).
  apply app_eq_inv in E' as [(k & -> & E')|(k & -> & E')]; destruct k as [|k0 k]; simpl in E'; injection E' as -> ->;
    [congruence| |congruence|].
  - right. exists k, (l2 ++ filter (λ t, task_status t = SLEEPING) pre). rewrite <-app_assoc. split; [done|].
    rewrite length_app. simpl. lia.
  - left. rewrite app_nil_l, filter_app, filter_cons_False by (rewrite Ht; done).
    rewrite (Permutation_app_comm post), (Permutation_middle _ _ q). intros Hin.
    rewrite <-Permutation_middle, fmap_cons, NoDup_cons in Hnd. destruct Hnd as [Hnd _]. apply Hnd.
    eapply elem_of_sublist; [exact Hin|]. apply fmap_sublist. rewrite app_assoc.
    repeat apply sublist_app; by try apply sublist_filter.
Qed.

(** ** Turns *)

(** The position of a task that waits decreases with every timer interrupt: the argument behind
    both that a task gets its turn and that one that has ended disappears. *)
Section turns.
Variable good : schedule → Prop.
Variable waits : task → Prop.
Hypothesis Hstep : ∀ a a' c pre t post, tasks a = c :: pre ++ t :: post → waits t → good a → switch a = Some a' →
  good a' → ∃ c' pre' post', tasks a' = c' :: pre' ++ t :: post' ∧ (length pre' < length pre)%nat.

Lemma turns a tr c pre t post : run sched_step a tr → tasks a = c :: pre ++ t :: post → waits t → good a →
  Forall (λ e, good e.2) tr → (timers tr ≤ length pre)%nat.
Proof.
  intros Hrun. revert c pre post. induction Hrun as [a|a e a' tr Hs Hrun IH]; intros c pre post Ha Ht Hg Hall.
  { unfold timers. rewrite filter_nil. simpl. lia. }
  apply Forall_cons in Hall as [Hg' Hall]. simpl in Hg'. unfold timers in *. destruct Hs as [a c' _ _|a a' Hsw|a|a].
  - rewrite filter_cons_False by done. by apply (IH c pre post).
  - rewrite filter_cons_True by done. simpl.
    destruct (Hstep a a' c pre t post Ha Ht Hg Hsw Hg') as (c' & pre' & post' & Ha' & Hlt).
    specialize (IH c' pre' post' Ha' Ht Hg' Hall). lia.
  - rewrite filter_cons_False by done. unfold exit_current in *. rewrite Ha in *. by apply (IH (terminate c) pre post).
  - rewrite filter_cons_False by done. by apply (IH c pre post).
Qed.
End turns.

Definition current_task (a : schedule) : option Z := task_id <$> head (tasks a).

Lemma sched_fair a tr c pre t post : run sched_step a tr → tasks a = c :: pre ++ t :: post → task_status t = RUNNING →
  current_task a ≠ Some (task_id t) → Forall (λ e, current_task e.2 ≠ Some (task_id t)) tr → (timers tr ≤ length pre)%nat.
Proof.
  intros Hrun Ha Ht Hc Hall.
  apply (turns (λ b, current_task b ≠ Some (task_id t)) (λ u, u = t)) with (a := a) (c := c) (t := t) (post := post); try done.
  clear - Ht. intros a a' c pre t' post Ha -> _ Hsw Hne. unfold switch in Hsw. rewrite Ha, <-app_assoc in Hsw. simpl in Hsw.
  destruct (pick_ahead pre t (post ++ [save (cpu a) c]) Ht) as (q & rest & E & Hq). rewrite E in Hsw. injection Hsw as <-.
  destruct Hq as [->|(pre' & post' & -> & Hlt)]; [done|]. by exists q, pre', post'.
Qed.

Lemma sched_reap a tr c pre t post : run sched_step a tr → tasks a = c :: pre ++ t :: post → task_status t = TERMINATED →
  NoDup (task_id <$> tasks a) → task_id t ∈ task_id <$> tasks a →
  Forall (λ e, NoDup (task_id <$> tasks e.2) ∧ task_id t ∈ task_id <$> tasks e.2) tr → (timers tr ≤ length pre)%nat.
Proof.
  intros Hrun Ha Ht Hnd Hin Hall.
  apply (turns (λ b, NoDup (task_id <$> tasks b) ∧ task_id t ∈ task_id <$> tasks b) (λ u, u = t))
    with (a := a) (c := c) (t := t) (post := post); try done.
  clear - Ht. intros a a' c pre t' post Ha -> [Hnd _] Hsw [_ Hin]. unfold switch in Hsw. rewrite Ha, <-app_assoc in Hsw.
  simpl in Hsw. destruct (pick [] _) as [[q rest]|] eqn:E; [|done]. injection Hsw as <-.
  apply pick_drops in E as [Hgone|(pre' & post' & -> & Hlt)]; [done|by exists q, pre', post'|done|].
  assert (task_id <$> pre ++ t :: post ++ [save (cpu a) c] = (task_id <$> pre ++ t :: post) ++ [task_id c]) as ->.
  { by rewrite app_comm_cons, app_assoc, fmap_app. }
  rewrite Ha, fmap_cons in Hnd. by rewrite (Permutation_app_comm _ [_]).
Qed.

Lemma sched_step_nodup a e a' : sched_step a e a' → NoDup (task_id <$> tasks a) → NoDup (task_id <$> tasks a').
Proof.
  intros [? ? _ _|? ? Hsw|?|?] Hnd; [done| | |done].
  - unfold switch in Hsw. destruct (tasks a0) as [|c r] eqn:Ha; [done|].
    destruct (pick [] _) as [[q rest]|] eqn:E; [|done]. injection Hsw as <-.
    apply (pick_nodup _ _ _ E). rewrite fmap_app, (Permutation_app_comm _ (_ <$> [_])). exact Hnd.
  - unfold exit_current. destruct (tasks a0) as [|c r] eqn:Ha; [by rewrite Ha|exact Hnd].
Qed.

Lemma waits_not_current a c pre t post : tasks a = c :: pre ++ t :: post → NoDup (task_id <$> tasks a) →
  current_task a ≠ Some (task_id t).
Proof.
  intros Ha Hnd Hcur. unfold current_task in Hcur. rewrite Ha in Hcur. injection Hcur as Hcur. rewrite Ha, fmap_cons in Hnd.
  apply NoDup_cons in Hnd as [Hc _]. apply Hc. rewrite Hcur, fmap_app, fmap_cons. set_solver.
Qed.

(** What a switch does with a task that can run: it is resumed, or goes on waiting. *)
Lemma switch_cases a a' c r l1 t l2 : tasks a = c :: r → r ++ [save (cpu a) c] = l1 ++ t :: l2 → task_status t = RUNNING →
  NoDup (task_id <$> tasks a) → switch a = Some a' →
  current_task a' = Some (task_id t) ∧ cpu a' = resume (cpu a) t ∨
  current_task a' ≠ Some (task_id t) ∧ ∃ c' l1' l2', tasks a' = c' :: l1' ++ t :: l2'.
Proof.
  intros Ha El Ht Hnd Hsw. pose proof (sched_step_nodup a Timer a' (sched_timer _ _ Hsw) Hnd) as Hnd'.
  unfold switch in Hsw. rewrite Ha, El in Hsw.
  destruct (pick_ahead l1 t l2 Ht) as (q & rest & E & Hq). rewrite E in Hsw. injection Hsw as <-.
  destruct Hq as [->|(l1' & l2' & -> & _)]; [by left|]. right. split; [|by exists q, l1', l2'].
  by apply (waits_not_current _ q l1' t l2').
Qed.

Lemma sched_resumes a tr e a' c pre t post : run sched_step a (tr ++ [(e, a')]) →
  tasks a = c :: pre ++ t :: post → task_status t = RUNNING → NoDup (task_id <$> tasks a) →
  Forall (λ e, current_task e.2 ≠ Some (task_id t)) tr → current_task a' = Some (task_id t) →
  e = Timer ∧ ∃ c0, cpu a' = resume c0 t.
Proof.
  intros Hrun Ha Ht. revert a c pre post Ha Hrun.
  induction tr as [|[e1 a1] tr IH]; intros a c pre post Ha Hrun Hnd Hall Hcur; inversion Hrun as [|? ? ? ? Hs Hrest]; subst.
  - destruct Hs as [a c' _ _|a a' Hsw|a|a].
    + by destruct (waits_not_current a c pre t post Ha Hnd).
    + split; [done|]. destruct (switch_cases a a' c (pre ++ t :: post) pre t (post ++ [save (cpu a) c])) as [[_ E]|[Hne _]];
        [done|by rewrite <-app_assoc|done|done|done|by exists (cpu a)|done].
    + pose proof (sched_step_nodup _ _ _ (sched_exit a) Hnd) as Hnd'.
      destruct (waits_not_current (exit_current a) (terminate c) pre t post); [|done|done].
      unfold exit_current. by rewrite Ha.
    + by destruct (waits_not_current a c pre t post Ha Hnd).
  - apply Forall_cons in Hall as [Hne Hall]. pose proof (sched_step_nodup _ _ _ Hs Hnd) as Hnd1.
    destruct Hs as [a c' _ _|a a1 Hsw|a|a].
    + by apply (IH (mk_schedule (tasks a) c') c pre post).
    + destruct (switch_cases a a1 c (pre ++ t :: post) pre t (post ++ [save (cpu a) c])) as [[E _]|[_ (c' & pre' & post' & Ha1)]];
        [done|by rewrite <-app_assoc|done|done|done|done|]. by apply (IH a1 c' pre' post').
    + apply (IH (exit_current a) (terminate c) pre post); try done. unfold exit_current. by rewrite Ha.
    + by apply (IH a c pre post).
Qed.

(** From the interrupt of a task to its next turn. *)
Lemma sched_round_trip a tr e a' c r : run sched_step a (tr ++ [(e, a')]) → tasks a = c :: r →
  task_status c = RUNNING → NoDup (task_id <$> tasks a) → fst <$> head (tr ++ [(e, a')]) = Some Timer →
  Forall (λ e, current_task e.2 ≠ Some (task_id c)) tr → current_task a' = Some (task_id c) →
  e = Timer ∧ ∃ c0, cpu a' = resume c0 (save (cpu a) c).
Proof.
  intros Hrun Ha Hc Hnd Hhead Hall Hcur. destruct tr as [|[e1 a1] tr]; simpl in Hhead; injection Hhead as ->;
    inversion Hrun as [|? ? ? ? Hs Hrest]; subst; inversion Hs as [|? ? Hsw| |]; subst.
  - split; [done|]. destruct (switch_cases a a' c r r (save (cpu a) c) []) as [[_ E]|[Hne _]]; try done. by exists (cpu a).
  - apply Forall_cons in Hall as [Hne Hall].
    destruct (switch_cases a a1 c r r (save (cpu a) c) []) as [[E _]|[_ (c' & pre' & post' & Ha1)]]; try done.
    apply (sched_resumes a1 tr e a' c' pre' (save (cpu a) c) post'); try done. by eapply sched_step_nodup.
Qed.

(** A task that has ended is gone after at most as many interrupts as there are tasks behind the
    current one, which may be the task itself. *)
Lemma sched_reap_current a tr c r : run sched_step a tr → tasks a = c :: r → task_status c = TERMINATED →
  NoDup (task_id <$> tasks a) → Forall (λ e, task_id c ∈ task_id <$> tasks e.2) tr → (timers tr ≤ length r)%nat.
Proof.
  intros Hrun. revert c r. induction Hrun as [a|a e a' tr Hs Hrun IH]; intros c r Ha Hc Hnd Hall.
  { unfold timers. rewrite filter_nil. simpl. lia. }
  apply Forall_cons in Hall as [Hin Hall]. simpl in Hin. pose proof (sched_step_nodup _ _ _ Hs Hnd) as Hnd'. unfold timers in *.
  destruct Hs as [a c' _ _|a a' Hsw|a|a].
  - rewrite filter_cons_False by done. by apply (IH c r).
  - rewrite filter_cons_True by done. simpl. unfold switch in Hsw. rewrite Ha in Hsw.
    destruct (pick [] _) as [[q rest]|] eqn:E; [|done]. injection Hsw as <-.
    apply pick_drops in E as [Hgone|(l1 & l2 & -> & Hlt)]; [done| |done|].
    + apply le_n_S in Hlt as Hle. apply (Nat.le_trans _ (S (length l1))); [|done]. apply le_n_S.
      apply (sched_reap _ tr q l1 (save (cpu a) c) l2 Hrun); try done.
      assert (∀ b tr, run sched_step b tr → NoDup (task_id <$> tasks b) → Forall (λ e, NoDup (task_id <$> tasks e.2)) tr) as Hall'.
      { clear. induction 1 as [|b e b' tr Hs Hr IH]; intros Hnd; constructor; [by eapply sched_step_nodup|].
        apply IH. by eapply sched_step_nodup. }
      apply Forall_and. split; [by eapply Hall'|done].
    + rewrite fmap_app, (Permutation_app_comm _ (_ <$> [_])). by rewrite Ha in Hnd.
  - rewrite filter_cons_False by done. unfold exit_current in *. rewrite Ha in *. by apply (IH (terminate c) r).
  - rewrite filter_cons_False by done. by apply (IH c r).
Qed.

(** * The kernel refines the scheduler *)

(** A job is represented as long as only links change. *)
Lemma represents_same s s' t : same_jobs (jobs s) (jobs s') → is_Some (jobs s' !! task_id t) →
  (∀ j, jobs s' !! task_id t = Some j → managers s' !! paging j = managers s !! paging j) →
  represents s t → represents s' t.
Proof.
  intros Hs [j' Hj'] Hm (j & pm & Hj & Hrest). destruct (Hs _ _ Hj') as (j0 & Hj0 & E).
  rewrite Hj in Hj0. injection Hj0 as <-. exists j', pm. split; [done|]. rewrite (Hm j' Hj'), E. exact Hrest.
Qed.

Lemma represents_status s t : represents s t → status_of s (task_id t) = Some (task_status t).
Proof. intros (j & pm & Hj & _ & H & _). unfold status_of. by rewrite Hj, <-H. Qed.

Lemma sleeping_tasks s l : Forall (represents s) l →
  task_id <$> filter (λ t, task_status t = SLEEPING) l = sleeping s (task_id <$> l).
Proof.
  induction 1 as [|t l Ht Hl IH]; [done|]. apply represents_status in Ht. unfold sleeping in *.
  rewrite fmap_cons, !filter_cons, Ht, <-IH. case_decide; case_decide; [done|congruence|congruence|done].
Qed.

Lemma not_running_tasks s l : Forall (represents s) l → Forall (λ t, task_status t ≠ RUNNING) l →
  Forall (λ p, status_of s p ≠ Some RUNNING) (task_id <$> l).
Proof.
  intros Hl Hr. apply Forall_fmap, Forall_forall. intros t Ht. simpl.
  rewrite (represents_status s t) by by apply (proj1 (Forall_forall _ _) Hl). intros [= E].
  by apply (proj1 (Forall_forall _ _) Hr t Ht).
Qed.

Section refinement.
Context {live : kernel → gset Z → Prop} `{HeapService live}.
Variables (syms : symbols) (interrupt : M kernel unit) (polls : nat) (stack : Z).
Hypothesis Hsyms : INTERNAL_HANDLER syms ≠ 0.

#[local] Abbreviation models := (models syms stack live).

Lemma models_nodup st a : models st a → NoDup (task_id <$> tasks a).
Proof.
  intros []. destruct md_inv0 as (used & L & Hinv). pose proof (inv_ring _ _ _ _ _ Hinv) as Hring.
  destruct (tasks a) as [|c r]; [constructor|]. by apply Hring.
Qed.

Lemma models_current st a : models st a → current_task a = Some (running_job st).
Proof.
  intros []. destruct md_inv0 as (used & L & Hinv). pose proof (inv_ring _ _ _ _ _ Hinv) as Hring.
  unfold current_task. destruct (tasks a) as [|c r]; [done|]. destruct Hring as [E _]. simpl. by rewrite <-E.
Qed.

Lemma models_current' st a c r : models st a → tasks a = c :: r → running_job st = task_id c.
Proof. intros Hmd Ha. pose proof (models_current st a Hmd) as E. unfold current_task in E. rewrite Ha in E. by injection E. Qed.

Lemma models_member st a p : models st a → is_Some (jobs (sys st.2) !! p) → p ∈ task_id <$> tasks a.
Proof.
  intros [(used & L & Hinv) Hne _ _ _ _ _ _] [j Hj]. pose proof (inv_ring _ _ _ _ _ Hinv) as Hring.
  destruct (tasks a) as [|c r]; [done|]. by apply (ring_mem _ _ _ p j Hring).
Qed.

(** Where a job is in the list of tasks: the current one, or behind it. *)
Lemma models_position st a p : models st a → is_Some (status_of (sys st.2) p) → ∃ c r, tasks a = c :: r ∧
  size (jobs (sys st.2)) = S (length r) ∧
  (p = task_id c ∧ status_of (sys st.2) p = Some (task_status c) ∨
   ∃ pre t post, r = pre ++ t :: post ∧ task_id t = p ∧ status_of (sys st.2) p = Some (task_status t)).
Proof.
  intros Hmd Hp. assert (p ∈ task_id <$> tasks a) as Hin.
  { apply (models_member st); [done|]. destruct Hp as [? Hp]. unfold status_of in Hp.
    by destruct (jobs (sys st.2) !! p). }
  destruct Hmd as [(used & L & Hinv) Hne Ht _ _ _ _ _]. destruct (tasks a) as [|c r]; [done|]. exists c, r.
  apply Forall_cons in Ht as [Hc Hr]. split; [done|]. split.
  { rewrite (ring_size _ _ (inv_ring _ _ _ _ _ Hinv)), length_fmap. done. }
  rewrite fmap_cons in Hin. apply elem_of_cons in Hin as [->|Hin]; [left; split; [done|by apply represents_status]|]. right.
  apply list_elem_of_fmap in Hin as (t & -> & Ht). pose proof (proj1 (Forall_forall _ _) Hr t Ht) as Hrep.
  apply list_elem_of_split in Ht as (pre & post & ->). exists pre, t, post. split_and!; [done|done|by apply represents_status].
Qed.

(** The jobs once the context of the current one is saved. *)
Lemma represents_saved st a c r jc : models st a → tasks a = c :: r → jobs (sys st.2) !! task_id c = Some jc →
  Forall (represents (after_save (sys st.2) (task_id c) jc st.1)) (r ++ [save (cpu a) c]).
Proof.
  intros Hmd Ha Hjc. pose proof (models_nodup _ _ Hmd) as Hnd. destruct Hmd as [_ _ Ht Hcpu Hctx _ _ _].
  rewrite Ha in Ht, Hnd. apply Forall_cons in Ht as [Hc Hr]. rewrite fmap_cons in Hnd. apply NoDup_cons in Hnd as [Hnc _].
  apply Forall_app. split; [|apply Forall_singleton].
  - apply Forall_forall. intros t Htr. destruct (proj1 (Forall_forall _ _) Hr t Htr) as (j & pm & Hj & Hrest).
    exists j, pm. split; [|done]. cbn. rewrite lookup_insert_ne; [done|]. intros E. apply Hnc.
    apply list_elem_of_fmap. by exists t.
  - destruct Hc as (j & pm & Hj & Hpm & Hst & _ & _ & _ & Hl1 & _). rewrite Hjc in Hj. injection Hj as <-.
    eexists _, pm. split; [cbn; apply lookup_insert_eq|]. cbn in Hcpu. rewrite Hcpu in *. by split_and!.
Qed.

(** The tasks in the new ring. *)
Lemma represents_switched s1 s' l used L : Forall (represents s1) l → job_inv live s' (task_id <$> l) used L →
  same_jobs (jobs s1) (jobs s') →
  (∀ p j, jobs s' !! p = Some j → managers s' !! paging j = managers s1 !! paging j) → Forall (represents s') l.
Proof.
  intros Hl Hinv Hsame Hm. apply Forall_forall. intros t Ht. apply (represents_same s1); [done| |by apply Hm|].
  - apply (ring_lookup s' (task_id <$> l)); [apply Hinv|]. apply list_elem_of_fmap. by exists t.
  - by apply (proj1 (Forall_forall _ _) Hl).
Qed.

(** The slots in use and the allocations of a state that models [a]. *)
Definition tracked (used L : gset Z) (st : list Z * os) (a : schedule) : Prop :=
  models st a ∧ job_inv live (sys st.2) (task_id <$> tasks a) used L.

Lemma models_tracked st a : models st a → ∃ used L, tracked used L st a.
Proof. intros Hmd. destruct (md_inv _ _ _ _ _ Hmd) as (used & L & Hinv). by exists used, L. Qed.

(** The timer interrupt returns exactly when the scheduler can switch, to the state it switches to. *)
Lemma timer_tracked g o a used L : tracked used L (g, o) a → pending_interrupt o = 30 →
  match switch a with
  | Some a' => ∃ g' o' used' L', loweraa64_fiq syms g stack o = Ok g' o' ∧ tracked used' L' (g', o') a' ∧
      accounts (sys o) used L (sys o') used' L'
  | None => ∀ g' o', loweraa64_fiq syms g stack o ≠ Ok g' o'
  end.
Proof.
  intros [Hmd Hinv] Hpend. pose proof Hmd as [_ Hne Ht Hcpu Hctx Hm Hout [param Hh]]. simpl in *.
  unfold switch. destruct (tasks a) as [|c r] eqn:Ha; [done|].
  apply Forall_cons in Ht as [Hc Hr]. pose proof Hc as (jc & pmc & Hjc & _ & _ & Hxc & _ & _ & _ & Hcc & _).
  assert (length (x jc) = 31%nat) as Hx by (rewrite Hxc; by apply length_saved).
  destruct Hctx as (Hg & Hu & Hpc & Hsp). rewrite Hcpu in Hg, Hu, Hpc, Hsp. cbn in Hg, Hu, Hpc, Hsp.
  pose proof (represents_saved _ a c r jc Hmd Ha Hjc) as Hsaved. simpl in Hsaved.
  set (s1 := after_save (sys o) (task_id c) jc g) in *.
  assert (∀ p, status_of s1 p = status_of (sys o) p) as Hst by (intros p; by apply status_after_save).
  pose proof (pick_spec [] (r ++ [save (cpu a) c])) as Hpick. destruct (pick _ _) as [[q rest]|].
  - destruct Hpick as (pre & post & E & Hpre & Hq & ->). rewrite E in Hsaved.
    apply Forall_app in Hsaved as [Hspre [Hsq Hspost]%Forall_cons].
    assert ((task_id <$> r) ++ [task_id c] = (task_id <$> pre) ++ task_id q :: (task_id <$> post)) as Eids.
    { apply (f_equal (fmap task_id)) in E. rewrite !fmap_app in E. exact E. }
    pose proof Hsq as (jq & pmq & Hjq & Hpmq & _ & Hxq & Hpcq & Hspq & Hl1q & Hgq & Huq & Hok).
    pose proof (not_running_tasks s1 pre Hspre Hpre) as Hidle.
    destruct (timer_spec syms o (task_id c) (task_id <$> r) (task_id <$> pre) (task_id q) (task_id <$> post) used L stack
      g jc jq (task_regs q) pmq param) as (o' & used' & L' & Hrun & Hcur & Hinv' & Helr & Hsp0 & Httbr & Hsame & Hkept & Hm' & Hacc);
      try done.
    { apply (Forall_impl _ _ _ Hidle). intros p Hp E'. apply Hp. rewrite Hst. exact E'. }
    { by rewrite <-Hst, (represents_status s1 q Hsq), Hq. }
    exists (<[1%nat := gpr g 1]> (task_regs q)), o', used', L'. split; [exact Hrun|]. split; [|exact Hacc].
    assert (sleeping (sys o) (task_id <$> pre) = task_id <$> filter (λ t, task_status t = SLEEPING) pre) as Esl.
    { rewrite (sleeping_tasks s1 pre Hspre). symmetry. apply sleeping_same, Forall_forall. intros p _. apply Hst. }
    rewrite Esl, <-fmap_app in Hinv'. destruct Hkept as [K1 K2 K3 K4 K5]. split; [|exact Hinv']. split; simpl.
    + by exists used', L'.
    + done.
    + apply (represents_switched s1 _ (q :: post ++ filter (λ t, task_status t = SLEEPING) pre) used' L');
        [|exact Hinv'|exact Hsame|exact K5].
      constructor; [exact Hsq|]. apply Forall_app. split; [exact Hspost|].
      apply Forall_forall. intros t [_ Ht]%list_elem_of_filter. by apply (proj1 (Forall_forall _ _) Hspre).
    + unfold resume. rewrite Hcpu, Helr, Hsp0, Httbr, Hpcq, Hspq, Hl1q. done.
    + rewrite Hcpu. split; cbn; [by rewrite length_insert|]. split; [|exact Hok].
      apply Forall_insert; [exact Huq|by apply gpr_u64].
    + exact Hm'.
    + apply (outside_kept (sys o)); [by split|exact Hout].
    + exists param. unfold handler_of. rewrite K2. exact Hh.
  - apply Forall_app in Hpick as [Hnr [Hnc _]%Forall_cons]. intros g' o'.
    apply (timer_stuck syms o (task_id c) (task_id <$> r) used L stack g jc param g' o'); try done.
    apply (not_running_tasks (sys o) (c :: r)); by constructor.
Qed.

Lemma timer_refines g o a : models (g, o) a → pending_interrupt o = 30 →
  match switch a with
  | Some a' => ∃ g' o', loweraa64_fiq syms g stack o = Ok g' o' ∧ models (g', o') a'
  | None => ∀ g' o', loweraa64_fiq syms g stack o ≠ Ok g' o'
  end.
Proof.
  intros (used & L & Htr)%models_tracked Hpend. pose proof (timer_tracked g o a used L Htr Hpend) as Hstep.
  destruct (switch a) as [a'|]; [|exact Hstep]. destruct Hstep as (g' & o' & used' & L' & Hrun & [Hmd _] & _). by exists g', o'.
Qed.

Lemma user_refines g o g' mc a used L : tracked used L (g, o) a → length g' = 31%nat → Forall is_u64 g' →
  user_machine (sys o) stack mc →
  ∃ c, context_ok c ∧ cpu_space c = cpu_space (cpu a) ∧ tracked used L (g', with_machine mc o) (mk_schedule (tasks a) c).
Proof.
  intros [[_ Hne Ht Hcpu Hctx Hm Hout Hh] Hinv] Hg Hu (Hram & Hregs & Hpc & Hsp). simpl in *.
  assert (sysregs mc TTBR0_EL1 = sysregs (mach (kern (sys o))) TTBR0_EL1) as Httbr by (apply Hregs; set_solver).
  exists (mk_processor g' (sysregs mc ELR_EL1) (sysregs mc SP_EL0) (sysregs mc TTBR0_EL1)).
  split; [done|]. split; [by rewrite Hcpu|].
  assert (job_inv live (sys (with_machine mc o)) (task_id <$> tasks a) used L) as Hinv'.
  { apply inv_agree; [exact Hinv|]. intros x Hx. apply Hram. by left. }
  split; [|exact Hinv']. split; try done.
  - by exists used, L.
  - intros x Hx. unfold kram. cbn. rewrite Hram by (right; lia). by apply Hm.
Qed.

Lemma exit_refines g o a used L : tracked used L (g, o) a → takes_svc o 10 →
  ∃ o', loweraa64_svc syms interrupt polls g stack o = Ok g o' ∧ tracked used L (g, o') (exit_current a) ∧
    accounts (sys o) used L (sys o') used L.
Proof.
  intros [Hmd Hinv] Hsvc. pose proof (models_nodup _ _ Hmd) as Hnd.
  destruct Hmd as [_ Hne Ht Hcpu Hctx Hm Hout Hh]. simpl in *.
  unfold exit_current. destruct (tasks a) as [|c r] eqn:Ha; [done|]. pose proof Hctx as (Hg & Hu & _). rewrite Hcpu in Hg, Hu.
  apply Forall_cons in Ht as [Hc Hr]. pose proof Hc as (j & pm & Hj & Hpm & _ & Hrest).
  destruct (syscall_exit_run syms interrupt polls o (task_id c) (task_id <$> r) used L stack g j) as [Hrun Hinv']; try done.
  exists (exited g stack o (task_id c) j). split; [exact Hrun|]. split.
  2: { intros rest. apply owned_same; [done|]. intros p. cbn. destruct (decide (p = task_id c)) as [->|Hp].
    - by rewrite lookup_insert_eq, Hj.
    - by rewrite lookup_insert_ne. }
  split; [|exact Hinv']. split; cbn [fst snd tasks cpu].
  - by exists used, L.
  - done.
  - constructor.
    + exists (set_status TERMINATED j), pm. split; [apply lookup_insert_eq|]. by split.
    + apply Forall_forall. intros t Htr. destruct (proj1 (Forall_forall _ _) Hr t Htr) as (j' & pm' & Hj' & Hrest').
      exists j', pm'. split; [|exact Hrest']. cbn. rewrite lookup_insert_ne; [exact Hj'|]. intros E.
      rewrite fmap_cons in Hnd. apply NoDup_cons in Hnd as [Hnc _]. apply Hnc. apply list_elem_of_fmap. by exists t.
  - rewrite Hcpu. f_equal; symmetry; apply (exited_reg g stack o (task_id c) j).
  - exact Hctx.
  - change (mapped (put_bytes (stack - 256) (words (frame_words g)) (kram (kern (sys o)))) (stack - 256) 256).
    by apply mapped_put_bytes.
  - exact Hout.
  - exact Hh.
Qed.

Lemma log_refines g o a j text used L : tracked used L (g, o) a → log_call g stack o j text →
  ∃ o', loweraa64_svc syms interrupt polls g stack o = Ok g o' ∧ tracked used L (g, o') a ∧
    accounts (sys o) used L (sys o') used L.
Proof.
  intros [[_ Hne Ht Hcpu Hctx Hm Hout Hh] Hinv] Hcall. simpl in *. pose proof Hctx as (Hg & Hu & _). rewrite Hcpu in Hg, Hu.
  exists (logged g stack o j text). split; [by apply syscall_log_run|]. split; [|by intros rest].
  assert (job_inv live (sys (logged g stack o j text)) (task_id <$> tasks a) used L) as Hinv' by by apply inv_logged.
  split; [|exact Hinv']. split; cbn [fst snd].
  - by exists used, L.
  - done.
  - exact Ht.
  - rewrite Hcpu. f_equal; symmetry;
      exact (returned_reg (pushed g stack o) (log_printed _ (sys (pushed g stack o))) _ eq_refl).
  - exact Hctx.
  - change (mapped (put_bytes (stack - 256) (words (frame_words g)) (kram (kern (sys o)))) (stack - 256) 256).
    by apply mapped_put_bytes.
  - exact Hout.
  - exact Hh.
Qed.

(** Every step of the kernel is a step of the scheduler. *)
Lemma step_tracked st e st' a used L : tracked used L st a → step syms interrupt polls stack st e st' →
  ∃ a' used' L', sched_step a e a' ∧ tracked used' L' st' a' ∧ accounts (sys st.2) used L (sys st'.2) used' L'.
Proof.
  intros Htr Hs. revert Htr. destruct Hs as [g o g' mc Hg Hu Hmc|g o g' o' Hp Hrun|g o g' o' Hsvc Hrun|g o j text g' o' Hcall Hrun]; intros Htr.
  - destruct (user_refines g o g' mc a used L Htr Hg Hu Hmc) as (c & Hc & Hsp & Htr').
    eexists _, used, L. split; [by apply sched_user|]. split; [exact Htr'|]. by intros rest.
  - pose proof (timer_tracked g o a used L Htr Hp) as Href. destruct (switch a) as [a'|] eqn:Hsw; [|by apply Href in Hrun].
    destruct Href as (g1 & o1 & used' & L' & Hrun1 & Htr' & Hacc). rewrite Hrun in Hrun1. injection Hrun1 as <- <-.
    exists a', used', L'. split; [by apply sched_timer|done].
  - destruct (exit_refines g o a used L Htr Hsvc) as (o1 & Hrun1 & Htr'). rewrite Hrun in Hrun1. injection Hrun1 as -> ->.
    exists (exit_current a), used, L. split; [apply sched_exit|exact Htr'].
  - destruct (log_refines g o a j text used L Htr Hcall) as (o1 & Hrun1 & Htr'). rewrite Hrun in Hrun1. injection Hrun1 as -> ->.
    exists a, used, L. split; [apply sched_log|exact Htr'].
Qed.

Lemma step_refines st e st' a : models st a → step syms interrupt polls stack st e st' →
  ∃ a', sched_step a e a' ∧ models st' a'.
Proof.
  intros (used & L & Htr)%models_tracked Hs. destruct (step_tracked _ _ _ _ _ _ Htr Hs) as (a' & used' & L' & Hs' & [Hmd _] & _).
  by exists a'.
Qed.

Lemma run_refines st a tr : models st a → run (step syms interrupt polls stack) st tr →
  ∃ tr', run sched_step a tr' ∧ Forall2 (λ e e', e.1 = e'.1 ∧ models e.2 e'.2) tr tr'.
Proof.
  intros Hmd Hrun. revert a Hmd. induction Hrun as [st|st e st' tr Hs Hrun IH]; intros a Hmd.
  { exists []. split; constructor. }
  destruct (step_refines _ _ _ _ Hmd Hs) as (a' & Hs' & Hmd'). destruct (IH a' Hmd') as (tr' & Hrun' & Htr).
  exists ((e, a') :: tr'). split; [by apply run_cons|]. by constructor.
Qed.

(** ** Runs of the kernel *)

Lemma timers_same {S T} (P : S → T → Prop) (tr : list (action * S)) tr' :
  Forall2 (λ e e', e.1 = e'.1 ∧ P e.2 e'.2) tr tr' → timers tr = timers tr'.
Proof.
  unfold timers. induction 1 as [|[e s] [e' s'] tr tr' [E _] _ IH]; [done|]. simpl in E. subst.
  rewrite !filter_cons. simpl. case_decide; simpl; lia.
Qed.

Lemma run_property (P : list Z * os → Prop) (Q : schedule → Prop) (tr : list (action * (list Z * os)))
    (tr' : list (action * schedule)) : (∀ st a, models st a → P st → Q a) →
  Forall2 (λ e e', e.1 = e'.1 ∧ models e.2 e'.2) tr tr' → Forall (λ e, P e.2) tr → Forall (λ e, Q e.2) tr'.
Proof.
  intros HPQ. induction 1 as [|e e' tr tr' [_ Hmd] _ IH]; [constructor|]. intros [HP Hall]%Forall_cons.
  constructor; [by apply (HPQ e.2)|by apply IH].
Qed.

(** C1: The kernel refines the scheduler: a run of programs, timer interrupts, log and exit calls
    is a run of the list of tasks. *)
Theorem kernel_refines_scheduler st a tr : models st a → run (step syms interrupt polls stack) st tr →
  ∃ tr', run sched_step a tr' ∧ Forall2 (λ e e', e.1 = e'.1 ∧ models e.2 e'.2) tr tr'.
Proof. apply run_refines. Qed.

(** C2: The timer interrupt returns exactly when the scheduler has a task to switch to, and then to
    the state the scheduler switches to: the next running task has its registers (but x1), its
    program counter, its stack and its address space; sleeping tasks wait, ended ones are gone. *)
Theorem timer_implements_switch g o a : models (g, o) a → pending_interrupt o = 30 →
  match switch a with
  | Some a' => ∃ g' o', loweraa64_fiq syms g stack o = Ok g' o' ∧ models (g', o') a'
  | None => ∀ g' o', loweraa64_fiq syms g stack o ≠ Ok g' o'
  end.
Proof. apply timer_refines. Qed.

(** C3: Every running job gets its turn after fewer timer interrupts than there are jobs, whatever
    programs do in between: as long as it waits, there are fewer by two. *)
Theorem running_job_scheduled st a tr p : models st a → run (step syms interrupt polls stack) st tr →
  status_of (sys st.2) p = Some RUNNING → running_job st ≠ p → Forall (λ e, running_job e.2 ≠ p) tr →
  (S (timers tr) < size (jobs (sys st.2)))%nat.
Proof.
  intros Hmd Hrun Hp Hne Hall. destruct (run_refines st a tr Hmd Hrun) as (tr' & Hrun' & Htr).
  destruct (models_position st a p Hmd) as (c & r & Ha & Hsize & Hpos); [by rewrite Hp|].
  destruct Hpos as [[E _]|(pre & t & post & -> & <- & Hst)]; [by rewrite <-(models_current' st a c r Hmd Ha) in E|].
  rewrite Hp in Hst. injection Hst as Hst. rewrite (timers_same _ _ _ Htr), Hsize.
  assert (∀ st' b, models st' b → running_job st' ≠ task_id t → current_task b ≠ Some (task_id t)) as Hcur.
  { intros st' b Hb Hn. rewrite (models_current st' b Hb). congruence. }
  pose proof (sched_fair a tr' c pre t post Hrun' Ha (eq_sym Hst) (Hcur st a Hmd Hne)) as Hlen.
  specialize (Hlen (run_property _ _ _ _ Hcur Htr Hall)). rewrite length_app. simpl. lia.
Qed.

(** C5: A job that has ended is deleted, whatever programs do in between: of [n] jobs by the [n]-th
    timer interrupt when it is the current one, and by the one before when it is another.  (As long
    as it is there, fewer interrupts than that have come.) *)
Theorem ended_job_deleted st a tr p : models st a → run (step syms interrupt polls stack) st tr →
  status_of (sys st.2) p = Some TERMINATED → Forall (λ e, is_Some (jobs (sys e.2.2) !! p)) tr →
  (timers tr + (if decide (running_job st = p) then 0 else 1) < size (jobs (sys st.2)))%nat.
Proof.
  intros Hmd Hrun Hp Hall. destruct (run_refines st a tr Hmd Hrun) as (tr' & Hrun' & Htr).
  destruct (models_position st a p Hmd) as (c & r & Ha & Hsize & Hpos); [by rewrite Hp|].
  rewrite (timers_same _ _ _ Htr), Hsize. pose proof (models_nodup st a Hmd) as Hnd.
  assert (∀ st' b, models st' b → is_Some (jobs (sys st'.2) !! p) → NoDup (task_id <$> tasks b) ∧ p ∈ task_id <$> tasks b) as Hin.
  { intros st' b Hb Hs. split; [by apply (models_nodup st')|by apply (models_member st')]. }
  pose proof (run_property _ _ _ _ Hin Htr Hall) as Hall'.
  destruct Hpos as [[E Hst]|(pre & t & post & -> & <- & Hst)]; rewrite Hp in Hst; injection Hst as Hst.
  - subst p. rewrite decide_True by by apply (models_current' st a c r). cut (timers tr' ≤ length r)%nat; [lia|].
    apply (sched_reap_current a tr' c r Hrun' Ha (eq_sym Hst) Hnd). by apply Forall_and in Hall' as [_ ?].
  - cut (timers tr' ≤ length pre)%nat; [rewrite length_app; simpl; case_decide; lia|].
    apply (sched_reap a tr' c pre t post Hrun' Ha (eq_sym Hst) Hnd); [|exact Hall'].
    rewrite Ha, fmap_cons, fmap_app, fmap_cons. set_solver.
Qed.

(** C4: A job that is interrupted goes on where it was: whatever runs until its next turn, and however
    long that takes, it then has its registers (but x1), its program counter, its stack pointer
    and its address space. *)
Theorem interrupted_job_goes_on g o a tr e g' o' (p := current_job (sys o)) : models (g, o) a →
  run (step syms interrupt polls stack) (g, o) (tr ++ [(e, (g', o'))]) → status_of (sys o) p = Some RUNNING →
  fst <$> head (tr ++ [(e, (g', o'))]) = Some Timer → Forall (λ e, running_job e.2 ≠ p) tr → current_job (sys o') = p →
  e = Timer ∧ (∃ v, g' = <[1%nat := v]> g) ∧
    sysregs (mach (kern (sys o'))) ELR_EL1 = sysregs (mach (kern (sys o))) ELR_EL1 ∧
    sysregs (mach (kern (sys o'))) SP_EL0 = sysregs (mach (kern (sys o))) SP_EL0 ∧
    ∀ j pm, jobs (sys o) !! p = Some j → managers (sys o) !! paging j = Some pm →
      sysregs (mach (kern (sys o'))) TTBR0_EL1 = l1 pm.
Proof.
  intros Hmd Hrun Hp Hhead Hall Hcur. destruct (run_refines _ a _ Hmd Hrun) as (tr' & Hrun' & Htr).
  apply Forall2_app_inv_l in Htr as (tr1 & tr2 & Htr & Hlast & ->).
  apply Forall2_cons_inv_l in Hlast as ([e' a'] & tr3 & [He Hmd'] & Hnil & ->). apply Forall2_nil_inv_l in Hnil as ->.
  simpl in He, Hmd'. subst e'. destruct (tasks a) as [|c r] eqn:Ha; [by destruct (md_some _ _ _ _ _ Hmd)|].
  pose proof (models_current' _ a c r Hmd Ha) as Ec. change (running_job (g, o)) with p in Ec.
  pose proof (md_tasks _ _ _ _ _ Hmd) as Ht. rewrite Ha in Ht. apply Forall_cons in Ht as [Hc _].
  pose proof (represents_status _ _ Hc) as Hst. simpl in Hst. rewrite <-Ec, Hp in Hst. injection Hst as Hst.
  assert (∀ st b, models st b → running_job st ≠ p → current_task b ≠ Some (task_id c)) as Hne.
  { intros st b Hb Hn. rewrite (models_current st b Hb), <-Ec. congruence. }
  destruct (sched_round_trip a tr1 e a' c r Hrun' Ha (eq_sym Hst) (models_nodup _ _ Hmd)) as (-> & c0 & E).
  - destruct Htr as [|[e1 s1] [e1' s1'] ? ? [Ee _] _]; simpl in *; [exact Hhead|]. by rewrite <-Ee.
  - by apply (run_property _ _ _ _ Hne Htr Hall).
  - rewrite (models_current _ _ Hmd'), <-Ec. unfold running_job. simpl. by rewrite Hcur.
  - split; [done|]. pose proof (md_cpu _ _ _ _ _ Hmd') as E'. rewrite E in E'. unfold resume, save in E'. simpl in E'.
    rewrite (md_cpu _ _ _ _ _ Hmd) in E'. simpl in E'. injection E' as <- E2 E3 E4. split; [by eexists|].
    split; [done|]. split; [done|]. intros j pm Hj Hpm. rewrite <-E4.
    destruct Hc as (j' & pm' & Hj' & Hpm' & _ & _ & _ & _ & Hl1 & _). rewrite <-Ec in Hj'. simpl in *. congruence.
Qed.

End refinement.

(** * Witnesses *)

(** Two jobs with their address spaces; the timer interrupt is pending. *)
Definition demo_env : environment := mk_environment (λ _ _, 0) (λ _ _, 30).
Definition demo_two (st1 st2 : job_status) : os :=
  set_sys (set_managers {[0x2000 := mk_paging_manager 0x5000 demo_job_slab; 0x3000 := mk_paging_manager 0x6000 demo_job_slab]}
    (set_jobs (<[5136 := demo_job st2 0x3000 4744]> (<[4744 := demo_job st1 0x2000 5136]> (jobs (sys demo_os)))) (sys demo_os)))
    demo_os.
Definition demo_task (p l1 : Z) (st : job_status) : task := mk_task p st (replicate 31 0) 0x80000000 0x80002000 l1.
Definition demo_schedule (st1 st2 : job_status) : schedule :=
  mk_schedule [demo_task 4744 0x5000 st1; demo_task 5136 0x6000 st2] (mk_processor demo_regs 0 0 0).

Lemma zeros_u64 n : Forall is_u64 (replicate n 0).
Proof. apply Forall_replicate. unfold is_u64. lia. Qed.

Lemma demo_two_inv st1 st2 : job_inv heap_live (sys (demo_two st1 st2)) [4744; 5136] {[0; 1]} {[0x2000; 0x3000; 0x4000]}.
Proof.
  pose proof (inv_update heap_live _ _ _ _ 4744 _ (demo_job st1 0x2000 5136) demo_os_inv eq_refl eq_refl eq_refl) as Hinv.
  pose proof (inv_update heap_live _ _ _ _ 5136 (demo_job RUNNING 0x3000 4744) (demo_job st2 0x3000 4744) Hinv eq_refl eq_refl eq_refl) as [].
  by split.
Qed.

(** The block at 0x4000 is of someone else. *)
Lemma demo_two_owned st1 st2 : owned (sys (demo_two st1 st2)) {[0; 1]} {[0x2000; 0x3000; 0x4000]} {[0x4000]}.
Proof.
  assert (∀ q j, jobs (sys (demo_two st1 st2)) !! q = Some j → (q = 5136 ∧ paging j = 0x3000) ∨ (q = 4744 ∧ paging j = 0x2000)) as Hjobs.
  { intros q j. change (jobs (sys (demo_two st1 st2)) !! q) with (<[5136 := demo_job st2 0x3000 4744]> (<[4744 := demo_job st1 0x2000 5136]> (jobs (sys demo_os))) !! q).
    intros [[<- <-]|[Hq [[<- <-]|[Hq' Hj]]%lookup_insert_Some]]%lookup_insert_Some; [by left|by right|].
    revert Hj. change (jobs (sys demo_os)) with (<[4744 := demo_job SLEEPING 0x2000 5136]> ({[5136 := demo_job RUNNING 0x3000 4744]} : gmap Z job)).
    by rewrite lookup_insert_ne, lookup_singleton_ne by done. }
  split; [|split].
  - intros n [-> %elem_of_singleton| -> %elem_of_singleton]%elem_of_union; by eexists.
  - intros a. split.
    + intros Ha. assert (a = 0x2000 ∨ a = 0x3000 ∨ a = 0x4000) as [->|[->| ->]] by set_solver.
      * right. by exists 4744, (demo_job st1 0x2000 5136).
      * right. by exists 5136, (demo_job st2 0x3000 4744).
      * left. set_solver.
    + intros [Ha|(q & j & Hj & <-)]; [set_solver|]. destruct (Hjobs q j Hj) as [[_ ->]|[_ ->]]; set_solver.
  - intros q j Hj. destruct (Hjobs q j Hj) as [[_ ->]|[_ ->]]; set_solver.
Qed.

Lemma demo_models st1 st2 : models demo_symbols 0x8100 heap_live (demo_regs, demo_two st1 st2) (demo_schedule st1 st2).
Proof.
  split; cbn [fst snd].
  - exists {[0; 1]}, {[0x2000; 0x3000; 0x4000]}. apply demo_two_inv.
  - done.
  - assert (context_ok (mk_processor (replicate 31 0) 0x80000000 0x80002000 0)) as (H1 & H2 & H3).
    { split; [done|]. split; [apply zeros_u64|]. unfold is_u64. simpl. lia. }
    constructor; [|constructor; [|constructor]]; (eexists _, _; split; [reflexivity|]); by split_and!.
  - done.
  - split; [done|]. split; [exact demo_regs_u64|]. unfold is_u64. simpl. lia.
  - apply mapped_put_self. simpl. lia.
  - split; right; simpl; lia.
  - by exists 0.
Qed.

(** The runs of the witnesses. *)
#[local] Abbreviation demo_step := (step demo_symbols (ret tt) 0 0x8100).
#[local] Abbreviation demo_models_ := (models demo_symbols 0x8100 heap_live).

Definition demo_switched (st1 : job_status) : schedule :=
  mk_schedule [demo_task 5136 0x6000 RUNNING; save (mk_processor demo_regs 0 0 0) (demo_task 4744 0x5000 st1)]
    (resume (mk_processor demo_regs 0 0 0) (demo_task 5136 0x6000 RUNNING)).

Lemma demo_switches st1 : switch (demo_schedule st1 RUNNING) = Some (demo_switched st1).
Proof. unfold switch, demo_schedule. cbn [tasks app pick task_status demo_task]. done. Qed.

Lemma demo_timer st1 : ∃ st, run demo_step (demo_regs, demo_two st1 RUNNING) [(Timer, st)] ∧ demo_models_ st (demo_switched st1).
Proof.
  pose proof (timer_refines demo_symbols 0x8100 ltac:(done) _ _ _ (demo_models st1 RUNNING) eq_refl) as Href.
  rewrite demo_switches in Href. destruct Href as (g & o & Hrun & Hmd). exists (g, o). split; [|exact Hmd].
  apply run_cons; [by apply step_timer|apply run_nil].
Qed.

(** A program that does nothing, while the next interrupt comes up. *)
Definition idle_machine (o : os) : machine :=
  mk_machine (kram (kern (sys o))) (sysregs (mach (kern (sys o)))) (trace (mach (kern (sys o)))) demo_env.

Lemma demo_idle_step g o a : demo_models_ (g, o) a →
  demo_step (g, o) User (g, with_machine (idle_machine o) o) ∧
  demo_models_ (g, with_machine (idle_machine o) o) (mk_schedule (tasks a) (cpu a)).
Proof.
  intros Hmd. pose proof (md_context _ _ _ _ _ Hmd) as (Hg & Hu & Hpc & Hsp). rewrite (md_cpu _ _ _ _ _ Hmd) in Hg, Hu, Hpc, Hsp.
  assert (user_machine (sys o) 0x8100 (idle_machine o)) as Hmc by done. split; [by apply step_user|].
  destruct (models_tracked demo_symbols 0x8100 _ _ Hmd) as (used & L & Htr).
  destruct (user_refines demo_symbols 0x8100 ltac:(done) g o g _ a used L Htr Hg Hu Hmc) as (c & Hc & _ & [Hmd' _]).
  pose proof (md_cpu _ _ _ _ _ Hmd') as E. pose proof (md_cpu _ _ _ _ _ Hmd) as E'. cbn in E, E'. rewrite E', <-E. exact Hmd'.
Qed.

Lemma kernel_refines_scheduler_witness : ∃ st tr',
  run demo_step (demo_regs, demo_two SLEEPING RUNNING) [(Timer, st)] ∧
  run sched_step (demo_schedule SLEEPING RUNNING) tr' ∧ length tr' = 1%nat.
Proof.
  destruct (demo_timer SLEEPING) as (st & Hrun & _).
  destruct (kernel_refines_scheduler demo_symbols (ret tt) 0 0x8100 ltac:(done) _ _ _ (demo_models SLEEPING RUNNING) Hrun)
    as (tr' & Hrun' & Htr). exists st, tr'. split; [exact Hrun|]. split; [exact Hrun'|].
  by apply Forall2_length in Htr.
Defined.

Lemma timer_implements_switch_witness : ∃ g' o',
  loweraa64_fiq demo_symbols demo_regs 0x8100 (demo_two TERMINATED RUNNING) = Ok g' o' ∧ current_job (sys o') = 5136.
Proof.
  pose proof (timer_implements_switch demo_symbols 0x8100 ltac:(done) _ _ _ (demo_models TERMINATED RUNNING) eq_refl) as Href.
  rewrite demo_switches in Href. destruct Href as (g' & o' & Hrun & Hmd).
  exists g', o'. split; [exact Hrun|]. exact (models_current' demo_symbols 0x8100 _ _ _ _ Hmd eq_refl).
Defined.

Lemma running_job_scheduled_witness : ∃ st,
  run demo_step (demo_regs, demo_two SLEEPING RUNNING) [(User, st)] ∧ (S (timers [(User, st)]) < 2)%nat.
Proof.
  destruct (demo_idle_step _ _ _ (demo_models SLEEPING RUNNING)) as [Hs _]. eexists.
  assert (run demo_step (demo_regs, demo_two SLEEPING RUNNING) [(User, (demo_regs, with_machine (idle_machine (demo_two SLEEPING RUNNING)) (demo_two SLEEPING RUNNING)))]) as Hrun
    by (apply run_cons; [exact Hs|apply run_nil]).
  split; [exact Hrun|].
  apply (running_job_scheduled demo_symbols (ret tt) 0 0x8100 ltac:(done) _ _ _ 5136 (demo_models SLEEPING RUNNING) Hrun).
  - reflexivity.
  - done.
  - by apply Forall_singleton.
Defined.

Lemma ended_job_deleted_witness : ∃ st,
  run demo_step (demo_regs, demo_two TERMINATED RUNNING) [(Timer, st)] ∧ (timers [(Timer, st)] + 0 < 2)%nat.
Proof.
  destruct (demo_timer TERMINATED) as (st & Hrun & Hmd). exists st. split; [exact Hrun|].
  apply (ended_job_deleted demo_symbols (ret tt) 0 0x8100 ltac:(done) _ _ _ 4744 (demo_models TERMINATED RUNNING) Hrun).
  - reflexivity.
  - apply Forall_singleton. pose proof (md_tasks _ _ _ _ _ Hmd) as [_ [(j & pm & Hj & _) _]%Forall_cons]%Forall_cons.
    exists j. exact Hj.
Defined.

(** The first job is interrupted, the second one runs and is interrupted. *)
Lemma interrupted_job_goes_on_witness : ∃ o1 g2 o2 v,
  run demo_step (demo_regs, demo_two RUNNING RUNNING) ([(Timer, o1); (User, (o1.1, with_machine (idle_machine o1.2) o1.2))] ++ [(Timer, (g2, o2))]) ∧
  g2 = <[1%nat := v]> demo_regs.
Proof.
  destruct (demo_timer RUNNING) as ([g1 o1] & Hrun1 & Hmd1). destruct (demo_idle_step _ _ _ Hmd1) as [Hs2 Hmd2].
  pose proof (timer_refines demo_symbols 0x8100 ltac:(done) _ _ _ Hmd2 eq_refl) as Href. unfold switch in Href.
  cbn [tasks demo_switched app pick task_status save demo_task] in Href. destruct Href as (g2 & o2 & Hrun2 & Hmd3).
  assert (run demo_step (demo_regs, demo_two RUNNING RUNNING)
    ([(Timer, (g1, o1)); (User, (g1, with_machine (idle_machine o1) o1))] ++ [(Timer, (g2, o2))])) as Hrun.
  { inversion Hrun1; subst. apply run_cons; [done|]. apply run_cons; [done|]. apply run_cons; [|apply run_nil]. by apply step_timer. }
  destruct (interrupted_job_goes_on demo_symbols (ret tt) 0 0x8100 ltac:(done) _ _ _ _ _ _ _ (demo_models RUNNING RUNNING) Hrun)
    as (_ & [v Hv] & _).
  - reflexivity.
  - reflexivity.
  - pose proof (models_current' demo_symbols 0x8100 _ _ _ _ Hmd1 eq_refl) as Hc. change (current_job (sys o1) = 5136) in Hc.
    constructor; [|constructor; [|constructor]]; change (current_job (sys o1) ≠ 4744); by rewrite Hc.
  - exact (models_current' demo_symbols 0x8100 _ _ _ _ Hmd3 eq_refl).
  - exists (g1, o1), g2, o2, v. split; [exact Hrun|exact Hv].
Defined.

Lemma owned_one s used L r p j : owned s used L {[r]} → jobs s !! p = Some j → (∀ q, is_Some (jobs s !! q) → q = p) → L = {[paging j; r]}.
Proof.
  intros (_ & HL & _) Hj Hone. apply leibniz_equiv. intros a. rewrite HL, elem_of_union, !elem_of_singleton. split.
  - intros [Ha|(q & j' & Hq & <-)]; [by right|left]. rewrite (Hone q (ex_intro _ j' Hq)) in Hq. congruence.
  - intros [->|Ha]; [right; by exists p, j|by left].
Qed.

