(* ===== verification/User.v ===== *)
(** * User programs (userspace/runtime.c, sys.c, hello.c, init.c)

    The programs of userspace run at EL0: their state is the registers they see and the kernel
    behind the [svc] instruction.  The addresses of their string literals and of the instructions
    behind each [svc] are those the linker gives (linker.ld: from 0x80000000 on). *)
From stdpp Require Import base list gmap.
From Stdlib Require Import ZArith Lia.
From S2P Require Import Prelude Memory CString Heap Slab Machine Log LogOverflow Gic Kernel Paging Job Sched Elf.
From S2P Require Import Virtio Fat FatPart Disk Fs RamFs FatFs Exceptions System.

(** The instruction behind each [svc], and the literals of hello.c and init.c. *)
Record user_image : Type := mk_user_image {
  AFTER_OPEN : Z; AFTER_READ : Z; AFTER_LOG : Z; AFTER_SPAWN : Z; AFTER_EXIT : Z;
  HELLO_TEXT : Z; INIT_TEXT : Z; INIT_FILE : Z; INIT_HEY : Z;
}.

(** The exception syndrome of [svc imm]: the class, the bit for a 32-bit instruction, the number. *)
Definition svc_syndrome (imm : Z) : Z := Z.lor (Z.lor (Z.shiftl ESR_EC_SVC64 ESR_EC_OFFSET) (Z.shiftl 1 25)) imm.

Section user.
Variables (syms : symbols) (interrupt : M kernel unit) (polls : nat) (stack : Z) (img : user_image).
(** The saved program status of EL0 code. *)
Variable user_psr : Z.

#[local] Abbreviation prog := (M (list Z * os)).

Definition get_x (r : nat) : prog Z := λ st, Ok (gpr st.1 r) st.
Definition set_x (r : nat) (v : Z) : prog unit := λ st, Ok tt (<[r := v]> st.1, st.2).

(** The processor takes the exception, the kernel returns to [after]. *)
Definition svc_entered (imm after : Z) (o : os) : os :=
  let mc := mach (kern (sys o)) in
  with_machine (mk_machine (ram mc)
    (set_reg ESR_EL1 (svc_syndrome imm) (set_reg ELR_EL1 after (set_reg SPSR_EL1 user_psr (sysregs mc))))
    (trace mc) (env mc)) o.

Definition svc (imm after : Z) : prog unit := λ st,
  match loweraa64_svc syms interrupt polls st.1 stack (svc_entered imm after st.2) with
  | Ok g o => Ok tt (g, o)
  | Hang o => Hang (st.1, o)
  | Fault f => Fault f
  end.

(** ** sys.c *)

Definition sys_open (filename : Z) : prog Z :=
  set_x 0 filename ;;
  svc 20 (AFTER_OPEN img) ;;
  let* fd := get_x 0 in
  ret (i32 (u32 fd)).

Definition sys_read (fd : Z) : prog Z :=
  set_x 0 (u32 fd) ;;
  svc 21 (AFTER_READ img) ;;
  let* c := get_x 0 in
  ret (u8 (u32 c)).

Definition sys_log (message : Z) : prog unit :=
  set_x 0 message ;;
  svc 11 (AFTER_LOG img).

Definition sys_spawn (filename : Z) : prog unit :=
  set_x 0 filename ;;
  svc 22 (AFTER_SPAWN img).

(** ** runtime.c *)

Definition _start (main : prog Z) : prog unit :=
  let* exit_code := main in
  svc 10 (AFTER_EXIT img) ;;
  hang.

(** ** hello.c *)

Definition hello_main : prog Z :=
  sys_log (HELLO_TEXT img) ;;
  ret 0.

(** ** init.c *)

(** [for (int i = 0; i < 10e6; i++) { i++; i--; }] *)
Definition init_delay : prog unit := for_int 10000000 (λ i, let* i := int_of (i + 1) in int_of (i - 1) ;; ret tt).

Definition init_round : prog unit :=
  init_delay ;;
  sys_log (INIT_HEY img).

(** The first [rounds] of the endless loop. *)
Definition init_main (rounds : nat) : prog unit :=
  sys_log (INIT_TEXT img) ;;
  sys_spawn (INIT_FILE img) ;;
  for_up rounds 0 (λ _, init_round).

(** * Specification *)

(** A string of the program, whatever is on the stack of the kernel. *)
Definition user_text (mc : machine) (va : Z) (s : list Z) : Prop :=
  ∀ bs, length bs = 256%nat → user_cstr (set_ram (put_bytes (stack - 256) bs (ram mc)) mc) va s.

#[export] Instance log_fits_decision mc line : Decision (log_fits mc line).
Proof. unfold log_fits. apply _. Defined.

Context {live : kernel → gset Z → Prop} `{HeapService live}.

(** The program of the current job, of the ring [c :: r]. *)
Record program_of (st : list Z * os) (c : Z) (r : list Z) (used L : gset Z) (j : job) : Prop := {
  po_inv : job_inv live (sys st.2) (c :: r) used L;
  po_job : jobs (sys st.2) !! c = Some j;
  po_name : Forall char_ok (name j) ∧ (length (name j) ≤ 30)%nat;
  po_regs : length st.1 = 31%nat ∧ Forall is_u64 st.1;
  po_stack : mapped (kram (kern (sys st.2))) (stack - 256) 256;
  po_outside : outside (sys st.2) (stack - 256) 256;
  po_low : below (2 ^ 62) (kram (kern (sys st.2)));
}.

(** What a log call leaves as it is; it takes at most [n] events. *)
Record same_view (n : Z) (mc mc' : machine) : Prop := {
  sv_ram : ∃ bs, length bs = 256%nat ∧ ram mc' = put_bytes (stack - 256) bs (ram mc);
  sv_regs : ∀ r, r ∉ [ESR_EL1; ELR_EL1; SPSR_EL1] → sysregs mc' r = sysregs mc r;
  sv_env : env mc' = env mc;
  sv_trace : ∃ new, trace mc' = new ++ trace mc ∧ Z.of_nat (length new) ≤ n;
}.

(** * Lemmas *)

Lemma svc_syndrome_class imm : 0 ≤ imm < 2 ^ 16 →
  Z.land (Z.shiftr (svc_syndrome imm) ESR_EC_OFFSET) ESR_EC_MASK = ESR_EC_SVC64 ∧
  u16 (Z.land (svc_syndrome imm) ESR_ISS_SVC_IMM16) = imm.
Proof.
  intros Himm. unfold svc_syndrome. change (Z.lor (Z.shiftl ESR_EC_SVC64 ESR_EC_OFFSET) (Z.shiftl 1 25)) with 0x56000000.
  split.
  - change ESR_EC_OFFSET with 26. rewrite Z.shiftr_lor. rewrite (Z.shiftr_div_pow2 imm), (Z.div_small imm) by lia.
    reflexivity.
  - change ESR_ISS_SVC_IMM16 with (Z.ones 16). rewrite Z.land_lor_distr_l, (Z.land_ones imm), (Z.mod_small imm) by lia.
    rewrite u16_small; [done|]. exact Himm.
Qed.

Lemma takes_svc_entered imm after o : 0 ≤ imm < 2 ^ 16 → takes_svc (svc_entered imm after o) imm.
Proof.
  intros Himm. unfold takes_svc. cbn. rewrite set_reg_same. by apply svc_syndrome_class.
Qed.

(** ** Views *)

Definition mmu_regs (mc mc' : machine) : Prop :=
  sysregs mc' SCTLR_EL1 = sysregs mc SCTLR_EL1 ∧ sysregs mc' TCR_EL1 = sysregs mc TCR_EL1 ∧
  sysregs mc' TTBR0_EL1 = sysregs mc TTBR0_EL1.

Lemma user_cstr_same mc mc' va s : mmu_regs mc mc' → ram mc' = ram mc → user_cstr mc va s → user_cstr mc' va s.
Proof.
  intros (E1 & E2 & E3) Er [Hr Hok]. split; [|done]. intros i c Hi. destruct (Hr i c Hi) as (pa & el0 & ro & Ht & Hc).
  exists pa, el0, ro. unfold mmu_translate in *. by rewrite Er, E1, E2, E3.
Qed.

Lemma same_view_regs n mc mc' : same_view n mc mc' → mmu_regs mc mc' ∧ sysregs mc' CNTFRQ_EL0 = sysregs mc CNTFRQ_EL0.
Proof. intros [_ Hr _ _]. repeat split; apply Hr; set_solver. Qed.

Lemma user_text_view n mc mc' va s : same_view n mc mc' → user_text mc va s → user_text mc' va s.
Proof.
  intros Hv Ht bs Hbs. pose proof (same_view_regs _ _ _ Hv) as [Hregs _]. destruct Hv as [(bs' & Hbs' & Er) _ _ _].
  apply (user_cstr_same (set_ram (put_bytes (stack - 256) bs (ram mc)) mc)); [exact Hregs| |by apply Ht].
  cbn. rewrite Er. by rewrite put_bytes_put_bytes by congruence.
Qed.

(** The clock after the call. *)
Lemma clock_view us k n mc mc' : same_view n mc mc' → clock_below us (k + n) mc → clock_below us k mc'.
Proof.
  intros Hv Hc. pose proof (same_view_regs _ _ _ Hv) as [_ E]. destruct Hv as [_ _ Ee (new & Etr & Hn)].
  by apply (clock_below_later us k n mc mc' new).
Qed.

Lemma log_fits_same mc mc' line : sysregs mc' CNTFRQ_EL0 = sysregs mc CNTFRQ_EL0 → env mc' = env mc → trace mc' = trace mc →
  log_fits mc line ↔ log_fits mc' line.
Proof. intros E1 E2 E3. unfold log_fits, usec_now. by rewrite E1, E2, E3. Qed.

Lemma program_entered g o c r used L j imm after : program_of (g, o) c r used L j →
  program_of (g, svc_entered imm after o) c r used L j.
Proof. intros []. split; try done. by apply (inv_registers (sys o)). Qed.

Lemma program_reg g o c r used L j k v : program_of (g, o) c r used L j → is_u64 v → program_of (<[k := v]> g, o) c r used L j.
Proof.
  intros [] Hv. destruct po_regs0. split; try done. cbn [fst]. split; [by rewrite length_insert|by apply Forall_insert].
Qed.

Lemma program_current st c r used L j : program_of st c r used L j → current_job (sys st.2) = c.
Proof. intros []. by apply (inv_ring _ _ _ _ _ po_inv0). Qed.

Lemma uart_entered imm after o : trace (mach (kern (sys (svc_entered imm after o)))) = trace (mach (kern (sys o))).
Proof. done. Qed.

(** The state at the entry of a log call. *)
Section log.
Context (g : list Z) (o : os) (c : Z) (r : list Z) (used L : gset Z) (j : job) (va : Z) (text : list Z).
Hypothesis Hp : program_of (g, o) c r used L j.
Hypothesis Hva : is_u64 va.
Hypothesis Htext : user_text (mach (kern (sys o))) va text.
Let g' := <[0%nat := va]> g.
Let o1 := svc_entered 11 (AFTER_LOG img) o.

Lemma log_entered : program_of (g', o1) c r used L j ∧ takes_svc o1 11 ∧ jobs (sys o1) !! current_job (sys o1) = Some j ∧
  user_cstr (mach (kern (sys (pushed g' stack o1)))) (gpr g' 0) text.
Proof.
  assert (program_of (g', o1) c r used L j) as Hp1 by (apply program_entered; by apply program_reg).
  split; [exact Hp1|]. split; [apply takes_svc_entered; lia|]. split.
  - pose proof (program_current _ _ _ _ _ _ Hp1) as Ec. cbn [fst snd] in Ec. rewrite Ec. apply Hp1.
  - assert (gpr g' 0 = va) as ->.
    { unfold gpr, g'. rewrite list_lookup_insert_eq; [done|]. destruct (po_regs _ _ _ _ _ _ Hp). simpl in *. lia. }
    eapply (user_cstr_same (set_ram (put_bytes (stack - 256) (words (frame_words g')) (ram (mach (kern (sys o))))) (mach (kern (sys o)))));
      [done|done|]. apply Htext. by rewrite length_words.
Qed.

(** A log call of a program prints its line and leaves everything else. *)
Lemma sys_log_spec (mc := mach (kern (sys o))) (line := log_line (name j) text) : log_fits mc line →
  ∃ o', sys_log va (g, o) = Ok tt (g', o') ∧ program_of (g', o') c r used L j ∧
    jobs (sys o') = jobs (sys o) ∧ same_view (Z.of_nat (length line) + 19) mc (mach (kern (sys o'))) ∧
    uart_output (trace (mach (kern (sys o')))) = uart_output (trace mc) ++ klog_text (usec_now mc) line.
Proof.
  intros Hfits. destruct log_entered as (Hp1 & Hsvc & Hjob & Hcstr).
  assert (log_call g' stack o1 j text) as Hcall.
  { split; [exact Hsvc|exact Hjob|apply Hp1|exact Hcstr|by apply (log_fits_same mc)|apply Hp1]. }
  pose proof Hp1 as [Hinv Hj Hname [Hg Hu] Hm Hout Hlow]. cbn [fst snd] in *.
  exists (logged g' stack o1 j text). split; [|split; [|split; [|split]]].
  - unfold sys_log, set_x, bind, svc. cbn [fst snd]. fold g' o1.
    by rewrite (syscall_log_run syms interrupt polls g' stack o1 j text Hg Hu Hm Hcall).
  - split; cbn [fst snd]; try done.
    + by apply inv_logged.
    + by apply mapped_put_bytes.
    + by apply (below_pushed (2 ^ 62) g' stack o1).
  - done.
  - split.
    + exists (words (frame_words g')). by rewrite length_words.
    + intros reg Hreg. rewrite !not_elem_of_cons in Hreg. destruct Hreg as (H1 & H2 & H3 & _).
      transitivity (sysregs (mach (kern (sys o1))) reg).
      * exact (returned_reg (pushed g' stack o1) (log_printed _ (sys (pushed g' stack o1))) reg eq_refl).
      * cbn. by rewrite !set_reg_other.
    + done.
    + eexists (Eret :: Msr SPSR_EL1 _ :: Msr ELR_EL1 _ :: log_events mc line). split; [done|].
      cbn [length]. rewrite length_log_events. destruct Hfits as (_ & _ & Hl & _). lia.
  - exact (uart_logged g' stack o1 j text).
Qed.

(** A line that does not fit stops the kernel. *)
Lemma sys_log_stops (mc := mach (kern (sys o))) : (length text ≤ 256)%nat → 1000000 ≤ u32 (sysregs mc CNTFRQ_EL0) →
  ¬ log_fits mc (log_line (name j) text) → ∃ a, sys_log va (g, o) = Fault (BadAddress a).
Proof.
  intros Hlen Hf Hlong. destruct log_entered as (Hp1 & Hsvc & Hjob & Hcstr).
  pose proof Hp1 as [_ _ [Hname Hl] [Hg Hu] Hm _ Hlow]. cbn [fst snd] in *.
  destruct (syscall_log_stops syms interrupt polls g' stack o1 j text Hg Hu Hm Hsvc Hjob Hname ltac:(lia) Hcstr Hlen Hf) as [a Ha];
    [by rewrite <-(log_fits_same mc)|done|].
  exists a. unfold sys_log, set_x, bind, svc. cbn [fst snd]. fold g' o1. by rewrite Ha.
Qed.
End log.

Lemma svc_exit_spec g o c r used L j : program_of (g, o) c r used L j →
  ∃ o', svc 10 (AFTER_EXIT img) (g, o) = Ok tt (g, o') ∧ job_inv live (sys o') (c :: r) used L ∧
    jobs (sys o') = <[c := set_status TERMINATED j]> (jobs (sys o)) ∧
    uart_output (trace (mach (kern (sys o')))) = uart_output (trace (mach (kern (sys o)))).
Proof.
  intros Hp. set (o1 := svc_entered 10 (AFTER_EXIT img) o).
  pose proof (program_entered g o c r used L j 10 (AFTER_EXIT img) Hp) as [Hinv Hj _ [Hg Hu] Hm Hout _]. cbn [fst snd] in *.
  destruct (syscall_exit_run syms interrupt polls o1 c r used L stack g j Hinv Hg Hu Hm Hout) as [Hrun Hinv'];
    [apply takes_svc_entered; lia|exact Hj|].
  exists (exited g stack o1 c j). split; [|done]. unfold svc. cbn [fst snd]. fold o1. by rewrite Hrun.
Qed.

Lemma status_insert (s s' : system) c j q : jobs s' = <[c := j]> (jobs s) →
  status_of s' q = if decide (q = c) then Some (status j) else status_of s q.
Proof.
  intros E. unfold status_of. rewrite E. case_decide as Hq; [subst; by rewrite lookup_insert_eq|].
  by rewrite lookup_insert_ne.
Qed.

Lemma start_spec (main : M (list Z * os) Z) st code g o c r used L j : main st = Ok code (g, o) → program_of (g, o) c r used L j →
  ∃ o', _start main st = Hang (g, o') ∧ job_inv live (sys o') (c :: r) used L ∧
    (∀ q, status_of (sys o') q = if decide (q = c) then Some TERMINATED else status_of (sys o) q) ∧
    uart_output (trace (mach (kern (sys o')))) = uart_output (trace (mach (kern (sys o)))).
Proof.
  intros Hmain Hp. destruct (svc_exit_spec _ _ _ _ _ _ _ Hp) as (o' & Hrun & Hinv & Hjobs & Hout). exists o'.
  split; [|split; [done|split; [|done]]].
  - unfold _start. rewrite (bind_ok _ _ _ _ _ Hmain), (bind_ok _ _ _ _ _ Hrun). done.
  - intros q. exact (status_insert _ _ _ _ q Hjobs).
Qed.

Lemma init_delay_spec st : init_delay st = Ok tt st.
Proof.
  apply wp_eq. unfold init_delay. apply (wp_for_int (λ _ s, s = st)); [unfold INT_MAX; lia| |done|by intros s ->].
  intros i s Hi ->. unfold INT_MAX in *. apply wp_bind, wp_int_of; [unfold INT_MIN, INT_MAX; lia|].
  apply wp_bind, wp_int_of; [unfold INT_MIN, INT_MAX; lia|]. by apply wp_ret.
Qed.

(** A line of at most 34 characters fits as long as the clock shows less than 10^11. *)
Lemma short_fits mc line : 1000000 ≤ u32 (sysregs mc CNTFRQ_EL0) → (length line ≤ 34)%nat → usec_now mc < 10 ^ 11 → log_fits mc line.
Proof. intros Hf Hl Hc. pose proof (prefix_fits mc Hf Hc). unfold log_fits. lia. Qed.

Lemma late_stops mc line : 1000000 ≤ u32 (sysregs mc CNTFRQ_EL0) → 10 ^ 11 ≤ usec_now mc → ¬ log_fits mc line.
Proof.
  intros Hf Hc (_ & _ & Hl & _). pose proof (usec_now_range mc Hf). pose proof (prefix_long (usec_now mc)). lia.
Qed.

Lemma init_round_ok g o g' o' : sys_log (INIT_HEY img) (g, o) = Ok tt (g', o') → init_round (g, o) = Ok tt (g', o').
Proof. intros Hrun. unfold init_round. by rewrite (bind_ok _ _ _ _ _ (init_delay_spec _)). Qed.

Lemma init_rounds_spec n lo g o c r used L j text (line := log_line (name j) text) (events := Z.of_nat (length line) + 19) :
  program_of (g, o) c r used L j → is_u64 (INIT_HEY img) → user_text (mach (kern (sys o))) (INIT_HEY img) text →
  1000000 ≤ u32 (sysregs (mach (kern (sys o))) CNTFRQ_EL0) → (length line ≤ 34)%nat →
  clock_below (10 ^ 11) (Z.of_nat n * events) (mach (kern (sys o))) →
  ∃ g' o' times, for_up n lo (λ _, init_round) (g, o) = Ok tt (g', o') ∧ length times = n ∧
    program_of (g', o') c r used L j ∧ user_text (mach (kern (sys o'))) (INIT_HEY img) text ∧
    sysregs (mach (kern (sys o'))) CNTFRQ_EL0 = sysregs (mach (kern (sys o))) CNTFRQ_EL0 ∧
    uart_output (trace (mach (kern (sys o')))) =
      uart_output (trace (mach (kern (sys o)))) ++ (times ≫= λ t, klog_text t line).
Proof.
  intros Hp Hva. revert lo g o Hp. induction n as [|n IH]; intros lo g o Hp Htext Hf Hlen Hclock.
  { exists g, o, []. cbn. by rewrite app_nil_r. }
  assert (log_fits (mach (kern (sys o))) line) as Hfits.
  { apply short_fits; [done|done|]. apply (clock_below_now _ _ _ Hclock). unfold events. lia. }
  destruct (sys_log_spec g o c r used L j _ _ Hp Hva Htext Hfits) as (o1 & Hrun & Hp1 & _ & Hv & Hout1).
  pose proof (same_view_regs _ _ _ Hv) as [_ Ef].
  destruct (IH (lo + 1) _ o1 Hp1 (user_text_view _ _ _ _ _ Hv Htext)) as (g' & o' & times & Hrest & Hlen' & Hp' & Ht' & Ef' & Hout').
  { by rewrite Ef. }
  { done. }
  { apply (clock_view _ _ _ _ _ Hv). eapply clock_below_weaken; [exact Hclock|]. fold line events. lia. }
  exists g', o', (usec_now (mach (kern (sys o))) :: times). split; [|split; [simpl; lia|split; [done|split; [done|split; [congruence|]]]]].
  - cbn [for_up]. rewrite (bind_ok _ _ _ _ _ (init_round_ok _ _ _ _ Hrun)). exact Hrest.
  - rewrite Hout', Hout1, <-app_assoc. done.
Qed.

(** A program whose [main] returns ends its job: [_start] marks it and waits, forever as far as
    the program is concerned, for the interrupt that takes it off the processor. *)
Theorem start_ends_job (main : M (list Z * os) Z) st code g o c r used L j : main st = Ok code (g, o) →
  program_of (g, o) c r used L j →
  ∃ o', _start main st = Hang (g, o') ∧ job_inv live (sys o') (c :: r) used L ∧
    ∀ q, status_of (sys o') q = if decide (q = c) then Some TERMINATED else status_of (sys o) q.
Proof.
  intros Hmain Hp. destruct (start_spec main st code g o c r used L j Hmain Hp) as (o' & H1 & H2 & H3 & _). by exists o'.
Qed.

(** C34: hello.c, from its first instruction through the kernel to its end, under every name: if the line
    with the name of its job fits the arrays of the log, it is on the UART and the job is marked as
    ended; if not, the log call runs over the end of one of these arrays and the kernel stops.  The
    name that init.c gives the program, hello.elf, is too long by three characters. *)
Theorem hello_prints_or_stops g o c r used L j (mc := mach (kern (sys o))) (line := log_line (name j) (chars "Hello from spawned process!")) :
  program_of (g, o) c r used L j → is_u64 (HELLO_TEXT img) →
  user_text mc (HELLO_TEXT img) (chars "Hello from spawned process!") → 1000000 ≤ u32 (sysregs mc CNTFRQ_EL0) →
  (if decide (log_fits mc line) then
     ∃ g' o', _start hello_main (g, o) = Hang (g', o') ∧ job_inv live (sys o') (c :: r) used L ∧
       (∀ q, status_of (sys o') q = if decide (q = c) then Some TERMINATED else status_of (sys o) q) ∧
       uart_output (trace (mach (kern (sys o')))) = uart_output (trace mc) ++ klog_text (usec_now mc) line
   else ∃ a, _start hello_main (g, o) = Fault (BadAddress a)) ∧
  (name j = chars "hello.elf" → ¬ log_fits mc line).
Proof.
  intros Hp Hva Htext Hf. split.
  2: { intros En (_ & Hl & _). unfold line in Hl. rewrite En in Hl. by apply Nat.leb_le in Hl. }
  case_decide as Hfits.
  - destruct (sys_log_spec g o c r used L j _ _ Hp Hva Htext Hfits) as (o1 & Hrun & Hp1 & Hjobs & _ & Hout1).
    destruct (start_spec hello_main (g, o) 0 (<[0%nat := HELLO_TEXT img]> g) o1 c r used L j) as (o' & Hstart & Hinv & Hst & Hout); [|exact Hp1|].
    { unfold hello_main. by rewrite (bind_ok _ _ _ _ _ Hrun). }
    eexists _, o'. split; [exact Hstart|]. split; [exact Hinv|]. split; [|by rewrite Hout].
    intros q. rewrite Hst. unfold status_of. by rewrite Hjobs.
  - destruct (sys_log_stops g o c r used L j _ _ Hp Hva Htext) as [a Ha]; [by apply Nat.leb_le|exact Hf|exact Hfits|].
    exists a. unfold _start. apply bind_fault. unfold hello_main. by apply bind_fault.
Qed.

(** C35: init.c prints one line per round of its endless loop, for as many rounds as the microsecond
    counter stays below 10^11 (28 hours): a round takes one event of the UART for each character and
    a few more.  The program is then ready for the next round; if the counter has reached 10^11,
    that round stops the kernel, as the time does not fit the log any more.  (The name of its job has
    at most 25 characters.) *)
Theorem init_keeps_printing n g o c r used L j (line := log_line (name j) (chars "hey")) (events := Z.of_nat (length line) + 19) :
  program_of (g, o) c r used L j → is_u64 (INIT_HEY img) → user_text (mach (kern (sys o))) (INIT_HEY img) (chars "hey") →
  1000000 ≤ u32 (sysregs (mach (kern (sys o))) CNTFRQ_EL0) → (length (name j) ≤ 25)%nat →
  clock_below (10 ^ 11) (Z.of_nat n * events) (mach (kern (sys o))) →
  ∃ g' o' times, for_up n 0 (λ _, init_round) (g, o) = Ok tt (g', o') ∧ length times = n ∧ program_of (g', o') c r used L j ∧
    uart_output (trace (mach (kern (sys o')))) =
      uart_output (trace (mach (kern (sys o)))) ++ (times ≫= λ t, klog_text t line) ∧
    (10 ^ 11 ≤ usec_now (mach (kern (sys o'))) → ∃ a, init_round (g', o') = Fault (BadAddress a)).
Proof.
  intros Hp Hva Htext Hf Hlen Hclock.
  destruct (init_rounds_spec n 0 g o c r used L j (chars "hey") Hp Hva Htext Hf) as (g' & o' & times & Hrun & Hn & Hp' & Ht' & Ef & Hout);
    [unfold log_line; rewrite !length_app; simpl; lia|exact Hclock|].
  exists g', o', times. split; [exact Hrun|]. split; [exact Hn|]. split; [exact Hp'|]. split; [exact Hout|]. intros Hlate.
  destruct (sys_log_stops g' o' c r used L j _ _ Hp' Hva Ht') as [a Ha]; [simpl; lia|by rewrite Ef|apply late_stops; [by rewrite Ef|done]|].
  exists a. unfold init_round. by rewrite (bind_ok _ _ _ _ _ (init_delay_spec _)).
Qed.
End user.

(** * Witnesses *)

Definition demo_image : user_image := mk_user_image 0 0 0 0 0 0x9000 0 0 0x9100.
Definition demo_named (nm : list Z) : job := mk_job nm SLEEPING (replicate 31 0) 0x80000000 0x80002000 0x2000 (replicate 8 0) 0 5136.

(** The first job with another name; a second passes with each event. *)
Definition demo_user_os (nm : list Z) : os :=
  let k := kern demo_switch in
  mk_os (set_jobs (<[4744 := demo_named nm]> (jobs demo_switch)) (set_kern (set_mach (mk_machine
      (put_bytes 0x9000 (chars "Hello from spawned process!" ++ [0]) (put_bytes 0x9100 (chars "hey" ++ [0]) (ram (mach k))))
    (set_reg CNTFRQ_EL0 62500000 (λ _, 0)) [] (mk_environment (λ _ _, 0) (λ tr _, 6250000 + 62000000 * Z.of_nat (length tr)))) k) demo_switch))
    (mk_slab 0 0 0 0) 0 0.

Lemma demo_program nm : Forall char_ok nm → (length nm ≤ 30)%nat →
  program_of 0x8100 (live := heap_live) (demo_regs, demo_user_os nm) 4744 [5136] {[0; 1]} {[0x2000; 0x3000; 0x4000]} (demo_named nm).
Proof.
  intros Hnm Hlen. split; cbn [fst snd].
  - pose proof (inv_update heap_live demo_switch [4744; 5136] {[0; 1]} {[0x2000; 0x3000; 0x4000]} 4744 (demo_job SLEEPING 0x2000 5136)
      (demo_named nm) demo_switch_inv eq_refl eq_refl eq_refl) as Hinv. set (s := set_jobs _ demo_switch) in Hinv.
    apply (inv_machine (set_kern (set_mach (mk_machine (put_bytes 0x9100 (chars "hey" ++ [0]) (kram (kern s))) (λ _, 0) []
      (mk_environment (λ _ _, 0) (λ _ _, 0))) (kern s)) s) _ _ _ _ 0x9000 (chars "Hello from spawned process!" ++ [0]));
      [apply (inv_machine s _ _ _ _ 0x9100 (chars "hey" ++ [0]) Hinv); [|done]| |done];
      split; right; simpl; lia.
  - apply lookup_insert_eq.
  - done.
  - split; [reflexivity|exact demo_regs_u64].
  - apply mapped_put_bytes, mapped_put_bytes, mapped_put_self. simpl. lia.
  - split; right; simpl; lia.
  - change (below (2 ^ 62) (put_bytes 0x9000 (chars "Hello from spawned process!" ++ [0])
      (put_bytes 0x9100 (chars "hey" ++ [0]) (put_bytes 0x8000 demo_frame demo_ram)))).
    unfold demo_ram. peel_below.
Qed.

(** The MMU is off: addresses are those of the memory. *)
Lemma user_cstr_flat mc va s : sysregs mc SCTLR_EL1 = 0 → cstr (ram mc) va s → user_cstr mc va s.
Proof.
  intros E [Hb Hok]. split; [|done]. intros i c Hi. exists (va + Z.of_nat i), true, false. unfold mmu_translate. rewrite E.
  split; [done|]. by apply (bytes_at_lookup _ _ _ _ _ Hb).
Qed.

Lemma demo_text nm va s : cstr (ram (mach (kern (sys (demo_user_os nm))))) va s → 0x8100 ≤ va →
  user_text 0x8100 (mach (kern (sys (demo_user_os nm)))) va s.
Proof.
  intros Hc Hva bs Hbs. apply user_cstr_flat; [done|]. eapply cstr_agree; [exact Hc|]. intros a Ha.
  apply put_bytes_outside. rewrite Hbs. lia.
Qed.

Lemma demo_hello_text nm : cstr (ram (mach (kern (sys (demo_user_os nm))))) 0x9000 (chars "Hello from spawned process!").
Proof. by apply cstr_put; repeat constructor. Qed.

Lemma demo_hey_text nm : cstr (ram (mach (kern (sys (demo_user_os nm))))) 0x9100 (chars "hey").
Proof.
  split; [|by repeat constructor]. apply bytes_at_put_ne; [apply bytes_at_put|]. simpl. lia.
Qed.

(** Ninety-six events later, that many seconds have passed. *)
Lemma demo_clock nm : clock_below (10 ^ 11) (Z.of_nat 3 * 32) (mach (kern (sys (demo_user_os nm)))).
Proof.
  intros new Hn. unfold usec_now. cbn [env sysregs trace mach kern sys demo_user_os set_kern set_mach env_reg set_jobs]. rewrite app_nil_r.
  change (u32 (set_reg CNTFRQ_EL0 62500000 (λ _, 0) CNTFRQ_EL0) / 1000000) with 62. rewrite u64_small by lia.
  apply Z.div_lt_upper_bound; lia.
Qed.

#[local] Abbreviation demo_start := (_start demo_symbols (ret tt) 0 0x8100 demo_image 0).
#[local] Abbreviation demo_hello := (hello_main demo_symbols (ret tt) 0 0x8100 demo_image 0).

Lemma start_ends_job_witness : ∃ o', demo_start (ret 7) (demo_regs, demo_user_os (chars "demo")) = Hang (demo_regs, o') ∧
  status_of (sys o') 4744 = Some TERMINATED.
Proof.
  destruct (start_ends_job demo_symbols (ret tt) 0 0x8100 demo_image 0 (ret 7) _ 7 _ _ _ _ _ _ _ eq_refl
    (demo_program (chars "demo") ltac:(by repeat constructor) ltac:(simpl; lia))) as (o' & H & _ & Hst).
  exists o'. split; [exact H|]. exact (Hst 4744).
Defined.

(** Under a short name it prints, under its own it does not. *)
Lemma hello_prints_or_stops_witness :
  (∃ g' o', demo_start demo_hello (demo_regs, demo_user_os (chars "demo")) = Hang (g', o') ∧ status_of (sys o') 4744 = Some TERMINATED ∧
    uart_output (trace (mach (kern (sys o')))) = chars "[100806] 'demo': 'Hello from spawned process!'" ++ [10]) ∧
  ∃ a, demo_start demo_hello (demo_regs, demo_user_os (chars "hello.elf")) = Fault (BadAddress a).
Proof.
  split.
  - destruct (hello_prints_or_stops demo_symbols (ret tt) 0 0x8100 demo_image 0 _ _ _ _ _ _ _
      (demo_program (chars "demo") ltac:(by repeat constructor) ltac:(simpl; lia))) as [H _].
    + unfold is_u64. simpl. lia.
    + apply demo_text; [apply demo_hello_text|simpl; lia].
    + vm_compute. discriminate.
    + rewrite decide_True in H.
      2:{ split; [vm_compute; discriminate|]. split_and!; apply Nat.leb_le; vm_compute; reflexivity. }
      destruct H as (g' & o' & H & _ & Hst & Hout). exists g', o'. split; [exact H|]. split; [exact (Hst 4744)|].
      rewrite Hout. vm_compute. reflexivity.
  - destruct (hello_prints_or_stops demo_symbols (ret tt) 0 0x8100 demo_image 0 _ _ _ _ _ _ _
      (demo_program (chars "hello.elf") ltac:(by repeat constructor) ltac:(simpl; lia))) as [H Hlong].
    + unfold is_u64. simpl. lia.
    + apply demo_text; [apply demo_hello_text|simpl; lia].
    + vm_compute. discriminate.
    + rewrite decide_False in H by exact (Hlong eq_refl). exact H.
Defined.

Lemma init_keeps_printing_witness : ∃ g' o' times,
  for_up 3 0 (λ _, init_round demo_symbols (ret tt) 0 0x8100 demo_image 0) (demo_regs, demo_user_os (chars "demo")) = Ok tt (g', o') ∧
  length times = 3%nat ∧
  uart_output (trace (mach (kern (sys o')))) = (times ≫= λ t, klog_text t (chars "'demo': 'hey'")).
Proof.
  destruct (init_keeps_printing demo_symbols (ret tt) 0 0x8100 demo_image 0 3 _ _ _ _ _ _ _
    (demo_program (chars "demo") ltac:(by repeat constructor) ltac:(simpl; lia))) as (g' & o' & times & H & Hlen & _ & Hout & _).
  - unfold is_u64. simpl. lia.
  - apply demo_text; [apply demo_hey_text|simpl; lia].
  - vm_compute. discriminate.
  - simpl. lia.
  - apply demo_clock.
  - exists g', o', times. split; [exact H|]. split; [exact Hlen|exact Hout].
Defined.
